(* ===== verification/_CoqProject ===== *)
-Q . S2P
Prelude.v
Bits.v
CLib.v
Posix.v
Getopt.v
Crc.v
CrcTools.v
QueueData.v
QueueThreads.v
QueueLife.v
QueueDebug.v
TesterMult.v
TesterSolo.v
MemgrindConfig.v
Memgrind.v
MemgrindTests.v
Guess.v
GuessMain.v
Id.v
IdMemory.v
Siglogd.v
Ptgrep.v
Fifo.v
LinkedList.v
Primes.v
ThreadsArg.v
Power.v
Sqrt.v
DropPriv.v
Getent.v
Copy.v
Nftw.v
Tasks.v
Seq.v
Sigcalc.v
Signals.v
Alarm.v
Seccomp.v
Syscount.v
Eject.v
Flock.v
Filters.v
Wwc.v
Mmapfill.v
PipeRun.v
PipeCopy.v
Fork.v
Log.v
Env.v
Exercises.v
OptionDemo.v
Resolvip.v
Roftpd.v
NetTime.v
Werecat.v
Numbers.v
Dynlink.v
Digest.v
Pwnam.v
Condvar.v
Stopwatch.v
Tls.v
ThreadDemo.v
StopwatchTest.v
Shmcounter.v
Board.v
ShmBoard.v
Argv.v
