(* ===== verification/Prelude.v ===== *)
(** * POSIX_C: a verification library for the czFIRE/POSIX_C programs

    The repository holds the solutions of a course on POSIX programming in C: seven
    homework programs ([hw01] to [hw09]) and the exercises of the seminars ([ex01]
    to [ex13]). The programs do not call each other; inside a program a library
    (a checksum, a queue, a list, a profiler, game strategies) is used by a [main]
    or by threads. The development has one file per library or program, so that a
    definition stands beside the code it translates, and this file with what they
    share.

    ** Conventions

    A C function is a Rocq function of the same name. Machine integers are [Z] kept
    in range by [u32], [u64], [s32], [s64] and the operations in the scope [C]
    ([(x + y)%C] is the addition of [size_t]s); [int_ok] makes the overflow of a
    signed [int] visible. The result [None] is undefined behaviour (an access
    outside a block, a null pointer, a signed overflow), or fuel that has run out:
    the doc comment of a definition says which. What the system does is an argument:
    the results of the successive [read]s, [write]s, [realloc]s or [fork]s are lists
    ([Posix]), the allocator, the user database, [dlopen] and a digest are type
    classes or section variables with their documented behaviour as laws, and each
    theorem that uses such laws has a witness with a concrete instance. Programs
    with threads or signals are step functions on a state with the mutexes, the
    condition variables, the barrier or the pending signals in it, and theorems
    quantify over every sequence of steps. What a program prints is kept where the
    theorems speak of it, as values or as text.

    ** Shared files

    - [Prelude] (this file): machine integers, lists, options, tactics.
    - [Bits]: words by their bits, and the tactic [bits].
    - [CLib]: [strtol], [strtoull], [strtok], [getline], decimal and hexadecimal
      formatting, as functions on C strings.
    - [Posix]: the results of [read] and what they deliver.
    - [Getopt]: [getopt] and [getopt_long], with clusters of options, permutation and
      abbreviated names; it is the program text between a command line and the lists of
      options from which the other files start, and [Argv] composes it with them.

    ** Homework programs

    - [Crc] ([hw01/crc.c]): the three operations bit by bit; hashing in pieces is
      hashing at once, the checksum is that of the table-driven algorithm of other
      programs, and it detects every error burst of up to 32 bits.
    - [CrcTools] ([get_crc.c], [crc32sum.c], [crc32check.c]): the hash of what a
      descriptor delivers, the bundle that one program prints and the other
      verifies (round trip), the verdicts and the exit status.
    - [Guess], [GuessMain] ([hw02]): the strategies as instances of the class
      [strategy_impl], the game against that class (it returns within 100 rounds;
      the binary strategy wins), loading and releasing of the libraries with a
      ledger of what is held.
    - [MemgrindConfig], [Memgrind] ([hw03]): the configuration from the environment,
      and the four allocation functions over any allocator: the counters are those
      of the live blocks, each limit that is set is respected outside [calloc] (that on
      the memory as long as its sums stay below 2^64), headers survive.
      [MemgrindTests] runs the two test programs on them: what each call promises to
      a program that owns a block, and that the programs free what they take.
    - [Id], [IdMemory] ([hw05]): options, look-ups, printing and the exit of [id];
      the blocks it allocates, with every allocation that can fail: each is freed
      exactly once on every path.
    - [Siglogd] ([hw06]): signals and timer of the logger, its counts and their
      liveness.
    - [Ptgrep] ([hw08]): options, the matching of a line up to its first null byte with
      highlighting, threads and exit status.
    - [QueueData], [QueueThreads], [QueueLife] ([hw09/queue.c]): the ring buffer on
      bytes, the operations as steps of threads (mutual exclusion, refinement of an
      abstract bounded queue, no lost wake-up, abort), creation and destruction with
      every failure. [QueueDebug] has the size of its structure and the output for
      debugging. [TesterMult] and [TesterSolo] ([hw09/tester_*.c]) are the clients:
      their threads make calls that run as steps of the queue, with [main] that
      creates and joins them.

    ** Exercises

    - [Fifo], [LinkedList], [Primes] ([ex09/primes]): the interface of a shared
      queue, the list that implements it on a heap, and the producers, consumers
      and main thread proved against the interface.
    - [ThreadsArg], [Power], [Sqrt] ([ex09]): barrier and mutex, and read-write
      locks.
    - [Condvar], [Pwnam] ([ex09]): a condition variable with its lost wake-up, a shared
      static entry. [Stopwatch], [StopwatchTest] ([ex08/libstopwatch]): thread-specific
      data, and the program whose threads use it, whose lines and memory are right
      because the library's are.
    - [DropPriv] ([ex05/drop_priv]), [Tasks] ([ex05/tasks]): identities of a set-uid
      process; the growing array and the processes of a task runner.
    - [Copy] ([ex10/cat], [ex10/copy]), [PipeRun] ([ex10/pipe]), [Werecat]
      ([ex11/werecat]), [Digest] ([ex11/shattr]): copying loops over partial reads
      and writes; [Werecat] uses the write loop of [Copy].
    - [Seq], [Log] ([ex03]), [Sigcalc], [Syscount] ([ex06]), [Eject] ([ex11/eject]),
      [Roftpd] ([ex12/tcp_server]), [NetTime] ([ex12/nettime]), [Mmapfill] ([ex13/mmapfill]), [Filters]
      ([ex02/strings]), [Numbers] ([ex01], [ex02/dynamic+static], [ex03/perf]): one
      program each.
    - [OptionDemo] ([ex03/getopt]), [Argv]: whole programs from their command line to
      what they print; the command lines of [id], [seq], [log], [eject], [tasks],
      [drop], [siglogd] and [ptgrep], with the whole text of [seq], [log], [eject] and
      [drop].
    - [Flock] ([ex11/flock]): a program that locks a file and becomes another, on the
      record locks of the kernel: what its process holds then.
    - [Shmcounter], [Board], [ShmBoard] ([ex13/shmcounter], [ex13/mmap], [ex13/shm]):
      any number of processes on shared memory, one access at a time, with segments
      and files that live until the last user leaves; when they stop, and what they
      can read meanwhile. [Fork] ([ex13/mmap0], [ex05/vidlicky]): a parent and its
      child with the buffer of [stdout] that the child inherits.
    - [PipeCopy] ([ex10/pipes]): writer and reader on a bounded pipe with the ends
      each holds: every byte arrives if the programs could be started, and both end.
    - [Signals] ([ex06/signals]), [Alarm] ([ex06/alarm], [ex06/abort]): waiting for a
      signal with [pause], [sigsuspend] and [sigwaitinfo]; alarms. [Seccomp]
      ([ex06/seccomp], [ex10/fsfence]): the rules of a filter.
    - [Tls], [ThreadDemo] ([ex08]): the four kinds of variables of a thread; threads
      that print, joined or not, and values under a key.
    - [Nftw] ([ex10/size], [ex10/ftw]): callbacks over the visits of a tree, its total,
      and the directories at which the walk fails. [Getent] ([ex05/getent]), [Wwc] ([ex04/wwc]), [Resolvip]
      ([ex12/resolvip]): lists from a database, multibyte characters in files, the
      addresses of a host.
    - [Env] ([ex03/env], [ex03/printenv]): the environment as strings in memory, what
      [putenv] shares and [setenv] copies. [Dynlink] ([ex02/rtmath], [ex02/dynlink]): a
      function that is loaded or linked at run time. [Exercises]: small programs of
      [ex02], [ex03], [ex04] and [ex05].

    ** Fuel

    Recursion that the source bounds by data is structural or takes the bound from
    it: [fact], [fib] and the word loop of [Mmapfill] start with the number itself,
    a filter with the length of its string, [Ptgrep] with the length of the line,
    the game with its 100 rounds. Their theorems show that this is enough, because
    they state the result. Where a loop need not end, fuel is an argument and the
    theorems say what it must reach: [seq_loop] needs one unit per number printed
    and returns nothing for any fuel when the increment is 0; the matching loop of
    [Ptgrep] and the scan of [Roftpd] have runs that no fuel ends, which is a
    theorem; so has the echo loop of [Alarm]. Event loops ([Werecat], [Roftpd], [Siglogd],
    [Sigcalc], [Signals]) consume the list of events that the environment supplies, and
    where a theorem says that threads or processes end ([TesterMult], [PipeCopy], [Board],
    [ShmBoard]) it bounds their steps, or shows that a step is possible until the end,
    or both.

    ** Not modelled

    Every program of the repository has its model. [ex11/flock/flock.c] and
    [ex12/nettime/nettime.c] do not compile: an identifier in the one and an expression
    in the other do not parse. What these stand for is a parameter of their models, and
    the rest is as written. Within the modelled programs: the messages of [getopt], time
    stamps, help texts that no definition has, failures of the lock operations of a
    correctly initialised mutex or read-write lock, and what the comments of the files
    name. *)

From Stdlib Require Export ZArith Lia.
From stdpp Require Export base tactics numbers list option strings gmap.

#[export] Set Default Goal Selector "!".

Open Scope Z_scope.

(** Linear arithmetic with divisions. *)
Ltac dlia := Z.to_euclidean_division_equations; lia.

(** Resolve the tests of a [switch] on a known letter. *)
Ltac pick_option :=
  repeat (rewrite bool_decide_eq_false_2 by done); rewrite ?bool_decide_eq_true_2 by done.

(* ------------------------------------------------------------------ *)
(** ** Machine integers *)

(** Conversion to an unsigned type of [w] bits. *)
Definition wrap (w x : Z) : Z := x mod 2 ^ w.

(** Conversion to a two's complement signed type of [w] bits. *)
Definition swrap (w x : Z) : Z :=
  let y := wrap w x in if y <? 2 ^ (w - 1) then y else y - 2 ^ w.

Definition u32 (x : Z) : Z := wrap 32 x.
Definition u64 (x : Z) : Z := wrap 64 x.
Definition s32 (x : Z) : Z := swrap 32 x.
Definition s64 (x : Z) : Z := swrap 64 x.

Definition INT_MAX : Z := 2147483647.
Definition INT_MIN : Z := -2147483648.
Definition LONG_MAX : Z := 9223372036854775807.
Definition LONG_MIN : Z := -9223372036854775808.
Definition SIZE_MAX : Z := 18446744073709551615.

(** Signed [int] arithmetic is undefined outside the range: such a result is [None]. *)
Definition int_ok (x : Z) : option Z :=
  if (INT_MIN <=? x) && (x <=? INT_MAX) then Some x else None.

Definition EXIT_SUCCESS : Z := 0.
Definition EXIT_FAILURE : Z := 1.

Declare Scope c_scope.
Delimit Scope c_scope with C.
(** [size_t] arithmetic, reduced modulo 2^64. *)
Notation "x + y" := (u64 (x + y)) : c_scope.
Notation "x - y" := (u64 (x - y)) : c_scope.
Notation "x * y" := (u64 (x * y)) : c_scope.

Lemma int_ok_small x : INT_MIN <= x <= INT_MAX -> int_ok x = Some x.
Proof.
  intros Hx. unfold int_ok. by rewrite (proj2 (Z.leb_le _ x)), (proj2 (Z.leb_le x _)) by lia.
Qed.

Lemma int_ok_above x : INT_MAX < x -> int_ok x = None.
Proof. intros Hx. unfold int_ok. by rewrite (proj2 (Z.leb_gt x _)), andb_false_r by lia. Qed.

Lemma int_ok_below x : x < INT_MIN -> int_ok x = None.
Proof. intros Hx. unfold int_ok. by rewrite (proj2 (Z.leb_gt _ x)) by lia. Qed.

Lemma int_ok_nonneg x : 0 <= x <= INT_MAX -> int_ok x = Some x.
Proof. intros Hx. apply int_ok_small. unfold INT_MIN. lia. Qed.

Lemma wrap_small w x : 0 <= x < 2 ^ w -> wrap w x = x.
Proof. apply Z.mod_small. Qed.

Lemma wrap_range w x : 0 <= w -> 0 <= wrap w x < 2 ^ w.
Proof. intros ?. apply Z.mod_pos_bound, Z.pow_pos_nonneg; lia. Qed.

Lemma u64_small x : 0 <= x < 2 ^ 64 -> u64 x = x.
Proof. apply wrap_small. Qed.

Lemma u32_small x : 0 <= x < 2 ^ 32 -> u32 x = x.
Proof. apply wrap_small. Qed.

Lemma u32_range x : 0 <= u32 x < 2 ^ 32.
Proof. apply wrap_range. lia. Qed.

Lemma u64_range x : 0 <= u64 x < 2 ^ 64.
Proof. apply wrap_range. lia. Qed.

Lemma wrap_wrap w x : wrap w (wrap w x) = wrap w x.
Proof. apply Zmod_mod. Qed.

Lemma wrap_add_l w x y : wrap w (wrap w x + y) = wrap w (x + y).
Proof. apply Zplus_mod_idemp_l. Qed.

Lemma swrap_wrap w x : swrap w (wrap w x) = swrap w x.
Proof. unfold swrap. by rewrite wrap_wrap. Qed.

Lemma swrap_small w x : 0 < w -> - 2 ^ (w - 1) <= x < 2 ^ (w - 1) -> swrap w x = x.
Proof.
  intros Hw Hx. unfold swrap, wrap.
  assert (2 ^ w = 2 * 2 ^ (w - 1)) as E by (rewrite <- Z.pow_succ_r by lia; f_equal; lia).
  destruct (decide (0 <= x)).
  - rewrite Z.mod_small by lia. destruct (Z.ltb_spec x (2 ^ (w - 1))); lia.
  - replace (x mod 2 ^ w) with (x + 2 ^ w).
    + destruct (Z.ltb_spec (x + 2 ^ w) (2 ^ (w - 1))); lia.
    + rewrite <- (Z.mod_small (x + 2 ^ w) (2 ^ w)) by lia.
      rewrite <- (Z.mul_1_l (2 ^ w)) at 1. now rewrite Z.mod_add by lia.
Qed.

Lemma s32_range x : INT_MIN <= s32 x <= INT_MAX.
Proof.
  unfold s32, swrap, wrap, INT_MIN, INT_MAX. pose proof (Z.mod_pos_bound x (2 ^ 32) ltac:(lia)).
  cbn zeta. change (2 ^ (32 - 1)) with 2147483648. change (2 ^ 32) with 4294967296 in *.
  destruct (Z.ltb_spec (x mod 4294967296) 2147483648); lia.
Qed.

Lemma s32_small x : INT_MIN <= x <= INT_MAX -> s32 x = x.
Proof. unfold INT_MIN, INT_MAX. intros. apply swrap_small; lia. Qed.

(** The sign of a [w]-bit pattern read as a signed integer is its top bit. *)
Lemma swrap_sign w x :
  0 < w -> 0 <= x < 2 ^ w -> (swrap w x <? 0) = Z.testbit x (w - 1).
Proof.
  intros Hw Hx. unfold swrap. rewrite wrap_small by lia.
  assert (2 ^ w = 2 * 2 ^ (w - 1)) as E by (rewrite <- Z.pow_succ_r by lia; f_equal; lia).
  rewrite Z.testbit_eqb by lia.
  destruct (Z.ltb_spec x (2 ^ (w - 1))).
  - rewrite Z.div_small by lia. destruct (Z.ltb_spec x 0); [lia|]. reflexivity.
  - replace (x / 2 ^ (w - 1)) with 1.
    + destruct (Z.ltb_spec (x - 2 ^ w) 0); [reflexivity | lia].
    + apply (Z.div_unique_pos _ _ _ (x - 2 ^ (w - 1))); lia.
Qed.

(** Equality of [size_t] computations: congruence modulo 2^64. *)
Definition eq64 (x y : Z) : Prop := u64 x = u64 y.

#[export] Instance eq64_equiv : Equivalence eq64.
Proof. unfold eq64. split; congruence. Qed.

#[export] Instance eq64_add : Proper (eq64 ==> eq64 ==> eq64) Z.add.
Proof.
  unfold eq64, u64, wrap. intros x x' Hx y y' Hy. by rewrite Zplus_mod, Hx, Hy, <- Zplus_mod.
Qed.

#[export] Instance eq64_sub : Proper (eq64 ==> eq64 ==> eq64) Z.sub.
Proof.
  unfold eq64, u64, wrap. intros x x' Hx y y' Hy. by rewrite Zminus_mod, Hx, Hy, <- Zminus_mod.
Qed.

Lemma eq64_u64 x : eq64 (u64 x) x.
Proof. unfold eq64, u64. apply wrap_wrap. Qed.

Lemma eq64_refl x y : x = y -> eq64 x y.
Proof. by intros ->. Qed.

(* ------------------------------------------------------------------ *)
(** ** Loops over a list *)

(** An invariant of the accumulator of a left fold. *)
Lemma fold_left_inv {A B} (P : A -> Prop) (f : A -> B -> A) (l : list B) :
  (forall a b, P a -> P (f a b)) -> forall a, P a -> P (fold_left f l a).
Proof. intros H. induction l; simpl; auto. Qed.

(** Two folds related by a function on their accumulators. *)
Lemma fold_left_sim {A B C} (P : A -> Prop) (f : A -> B -> A) (g : C -> B -> C) (h : A -> C)
    (l : list B) :
  (forall a b, P a -> P (f a b)) ->
  (forall a b, P a -> h (f a b) = g (h a) b) ->
  forall a, P a -> h (fold_left f l a) = fold_left g l (h a).
Proof.
  intros Hp Hh. induction l as [|b l IH]; intros a Ha; simpl; [reflexivity|].
  rewrite <- Hh by assumption. auto.
Qed.

(* ------------------------------------------------------------------ *)
(** ** Counting the elements of a list *)

Definition b2n (b : bool) : nat := if b then 1%nat else 0%nat.

Fixpoint count_if {A} (P : A -> bool) (l : list A) : nat :=
  match l with
  | [] => 0
  | x :: l => b2n (P x) + count_if P l
  end.

Lemma count_if_insert {A} (P : A -> bool) (l : list A) i x y :
  l !! i = Some x ->
  (count_if P (<[i:=y]> l) + b2n (P x) = count_if P l + b2n (P y))%nat.
Proof.
  revert i. induction l as [|z l IH]; intros [|i] H; try done; simplify_list_eq.
  - lia.
  - specialize (IH _ H). lia.
Qed.

Lemma count_if_lookup {A} (P : A -> bool) (l : list A) i x :
  l !! i = Some x -> P x = true -> (0 < count_if P l)%nat.
Proof.
  revert i. induction l as [|z l IH]; intros [|i] H HP; try done; simplify_list_eq.
  - rewrite HP. simpl. lia.
  - specialize (IH _ H HP). lia.
Qed.

Lemma count_if_pos {A} (P : A -> bool) (l : list A) :
  (0 < count_if P l)%nat -> exists i x, l !! i = Some x /\ P x = true.
Proof.
  induction l as [|z l IH]; simpl; [lia|]. destruct (P z) eqn:E.
  - intros _. by exists 0%nat, z.
  - intros H. destruct (IH H) as (i & x & ? & ?). by exists (S i), x.
Qed.

Lemma count_if_app {A} (P : A -> bool) (l k : list A) :
  count_if P (l ++ k) = (count_if P l + count_if P k)%nat.
Proof. induction l as [|z l IH]; simpl; [done|]. rewrite IH. lia. Qed.

Lemma count_if_length {A} (P : A -> bool) (l : list A) : (count_if P l <= length l)%nat.
Proof. induction l as [|z l IH]; simpl; [lia|]. destruct (P z); simpl; lia. Qed.

Lemma count_if_map {A B} (P : B -> bool) (f : A -> B) (l : list A) :
  count_if P (f <$> l) = count_if (fun x => P (f x)) l.
Proof. induction l as [|z l IH]; [done|]. rewrite fmap_cons. cbn [count_if]. by rewrite IH. Qed.

Lemma count_if_ext {A} (P Q : A -> bool) (l : list A) :
  (forall x, x ∈ l -> P x = Q x) -> count_if P l = count_if Q l.
Proof.
  induction l as [|z l IH]; intros H; simpl; [done|].
  rewrite (H z), IH; [done|set_solver..].
Qed.

Lemma count_if_none {A} (P : A -> bool) (l : list A) :
  (forall x, x ∈ l -> P x = false) -> count_if P l = 0%nat.
Proof.
  induction l as [|z l IH]; intros H; simpl; [done|]. rewrite (H z), IH; [done|set_solver..].
Qed.

Lemma count_if_disjoint {A} (P Q : A -> bool) (l : list A) :
  (forall x, P x && Q x = false) -> (count_if P l + count_if Q l <= length l)%nat.
Proof.
  intros H. induction l as [|z l IH]; simpl; [lia|]. specialize (H z).
  destruct (P z), (Q z); simpl in *; try done; lia.
Qed.

(* ------------------------------------------------------------------ *)
(** ** Sums over a list *)

Definition zsum {A} (f : A -> Z) (l : list A) : Z := foldr (fun x s => f x + s) 0 l.

Lemma zsum_insert {A} (f : A -> Z) (l : list A) i x y :
  l !! i = Some x -> zsum f (<[i:=y]> l) = zsum f l - f x + f y.
Proof.
  revert i. induction l as [|z l IH]; intros [|i] Hl; try done; simplify_list_eq; simpl; [lia|].
  rewrite (IH _ Hl). lia.
Qed.

Lemma zsum_app {A} (f : A -> Z) (l k : list A) : zsum f (l ++ k) = zsum f l + zsum f k.
Proof. induction l as [|z l IH]; simpl; [done|]. rewrite IH. lia. Qed.

Lemma zsum_snoc {A} (f : A -> Z) (l : list A) x : zsum f (l ++ [x]) = zsum f l + f x.
Proof. rewrite zsum_app. simpl. lia. Qed.

Lemma zsum_take_S {A} (f : A -> Z) (l : list A) i x :
  l !! i = Some x -> zsum f (take (S i) l) = zsum f (take i l) + f x.
Proof. intros Hl. by rewrite (take_S_r _ _ _ Hl), zsum_snoc. Qed.

Lemma zsum_map {A B} (f : B -> Z) (g : A -> B) (l : list A) :
  zsum f (g <$> l) = zsum (fun x => f (g x)) l.
Proof. induction l as [|z l IH]; [done|]. rewrite fmap_cons. simpl. by rewrite IH. Qed.

Lemma zsum_ext {A} (f g : A -> Z) (l : list A) :
  (forall i x, l !! i = Some x -> f x = g x) -> zsum f l = zsum g l.
Proof.
  induction l as [|z l IH]; intros He; simpl; [done|].
  rewrite (He 0%nat z eq_refl), IH; [done|]. intros i x Hx. by apply (He (S i)).
Qed.

Lemma zsum_le {A} (f g : A -> Z) (l : list A) :
  (forall i x, l !! i = Some x -> f x <= g x) -> zsum f l <= zsum g l.
Proof.
  induction l as [|z l IH]; intros He; simpl; [done|].
  pose proof (He 0%nat z eq_refl). enough (zsum f l <= zsum g l) by lia.
  apply IH. intros i x Hx. by apply (He (S i)).
Qed.

Lemma zsum_const {A} (c : Z) (l : list A) : zsum (fun _ => c) l = c * Z.of_nat (length l).
Proof. induction l as [|z l IH]; simpl; [lia|]. rewrite IH. lia. Qed.
