(* ===== verification/Bits.v ===== *)
(** Bit-level reasoning shared by the components: [Z.testbit] of the C
    operators on 32-bit words, extensionality of words by their bits, and the
    tactic [bits] that evaluates a bit of an expression at a constant index. *)

From S2P Require Import Prelude.

Create Rewrite HintDb cbits.

Lemma testbit_wrap w x i :
  0 <= w -> 0 <= i -> Z.testbit (wrap w x) i = (i <? w) && Z.testbit x i.
Proof.
  intros Hw Hi. unfold wrap. destruct (Z.ltb_spec i w).
  - now rewrite Z.mod_pow2_bits_low.
  - now rewrite Z.mod_pow2_bits_high by lia.
Qed.

Lemma testbit_u32 x i : 0 <= i -> Z.testbit (u32 x) i = (i <? 32) && Z.testbit x i.
Proof. intros. now apply testbit_wrap. Qed.

Lemma word_high_bits w x i : 0 <= x < 2 ^ w -> 0 <= w <= i -> Z.testbit x i = false.
Proof.
  intros Hx Hi. rewrite <- (wrap_small w x Hx), testbit_wrap by lia.
  destruct (Z.ltb_spec i w); [lia | reflexivity].
Qed.

Lemma word_ext w x y :
  0 <= w -> 0 <= x < 2 ^ w -> 0 <= y < 2 ^ w ->
  (forall i, 0 <= i < w -> Z.testbit x i = Z.testbit y i) -> x = y.
Proof.
  intros Hw Hx Hy H. apply Z.bits_inj'. intros i Hi.
  destruct (decide (i < w)); [apply H; lia|].
  now rewrite !(word_high_bits w) by lia.
Qed.

(** A non-negative number whose bits from [w] on are zero is a [w]-bit word. *)
Lemma word_bound w x :
  0 <= w -> 0 <= x -> (forall i, w <= i -> Z.testbit x i = false) -> 0 <= x < 2 ^ w.
Proof.
  intros Hw Hx H. split; [lia|].
  replace x with (wrap w x); [apply wrap_range; lia|].
  apply Z.bits_inj'. intros i Hi. rewrite testbit_wrap by lia.
  destruct (Z.ltb_spec i w); [reflexivity|]. now rewrite H by lia.
Qed.

Lemma lxor_word w x y : 0 <= w -> 0 <= x < 2 ^ w -> 0 <= y < 2 ^ w -> 0 <= Z.lxor x y < 2 ^ w.
Proof.
  intros Hw Hx Hy. apply word_bound; [lia| |].
  - apply Z.lxor_nonneg. lia.
  - intros i Hi. rewrite Z.lxor_spec, !(word_high_bits w) by lia. reflexivity.
Qed.

Lemma lor_word w x y : 0 <= w -> 0 <= x < 2 ^ w -> 0 <= y < 2 ^ w -> 0 <= Z.lor x y < 2 ^ w.
Proof.
  intros Hw Hx Hy. apply word_bound; [lia| |].
  - apply Z.lor_nonneg. lia.
  - intros i Hi. rewrite Z.lor_spec, !(word_high_bits w) by lia. reflexivity.
Qed.

Lemma land_word w x m : 0 <= w -> 0 <= x -> 0 <= m < 2 ^ w -> 0 <= Z.land x m < 2 ^ w.
Proof.
  intros Hw Hx Hm. apply word_bound; [lia| |].
  - apply Z.land_nonneg. lia.
  - intros i Hi. rewrite Z.land_spec, (word_high_bits w m) by lia. apply andb_false_r.
Qed.

Lemma shiftr_word w x k : 0 <= w -> 0 <= k -> 0 <= x < 2 ^ w -> 0 <= Z.shiftr x k < 2 ^ w.
Proof.
  intros Hw Hk Hx. apply word_bound; [lia| |].
  - apply Z.shiftr_nonneg. lia.
  - intros i Hi. rewrite Z.shiftr_spec by lia. apply (word_high_bits w); lia.
Qed.

#[export] Hint Rewrite Z.lor_spec Z.land_spec Z.lxor_spec : cbits.
#[export] Hint Rewrite testbit_u32 Z.shiftl_spec Z.shiftr_spec using lia : cbits.

Create HintDb words.
#[export] Hint Resolve u32_range : words.

(** Components extend this tactic with the ranges of their own functions. *)
Ltac word_lemma := fail.

(** Prove that an expression built from words by the C operators is a word. *)
Ltac word_range :=
  repeat first
    [ assumption | lia | solve [auto with words] | word_lemma
    | apply lxor_word | apply lor_word | apply land_word | apply shiftr_word
    | apply Z.shiftr_nonneg ].

(** [below n i] splits a goal about [0 <= i < n] into its [n] instances. *)
Ltac below n i :=
  match n with
  | 0 => lia
  | _ => let m := eval cbv in (n - 1) in
         destruct (decide (i = m)) as [->|]; [| below m i]
  end.

(** Normalise the constant indices of [Z.testbit] and the bits of constants. *)
Ltac norm_bits :=
  repeat match goal with
  | |- context [Z.testbit ?x ?i] =>
      let j := eval cbv in i in
      progress change (Z.testbit x i) with (Z.testbit x j)
  | |- context [Z.testbit (Zpos ?p) ?i] =>
      let v := eval cbv in (Z.testbit (Zpos p) i) in
      change (Z.testbit (Zpos p) i) with v
  | |- context [?i <? ?j] =>
      let v := eval cbv in (i <? j) in
      match v with true => idtac | false => idtac end; change (i <? j) with v
  end.

(** Evaluate the bits of an expression at a constant index. *)
Ltac bits :=
  autorewrite with cbits; norm_bits;
  rewrite ?andb_true_r, ?andb_false_r, ?orb_false_r, ?orb_false_l, ?andb_true_l, ?andb_false_l;
  try reflexivity.

(** The bits of [x : 0 <= x < 2 ^ w] outside the word. *)
Ltac out_bits w x :=
  repeat match goal with
  | |- context [Z.testbit x ?j] =>
      first [ rewrite (Z.testbit_neg_r x j) by lia | rewrite (word_high_bits w x j) by lia ]
  end.

(** Equality of two words by their bits at an arbitrary index. *)
Ltac word_eq w i :=
  apply (word_ext w); [lia | word_range | word_range | intros i ?].

Lemma lxor_cancel_r x y : Z.lxor (Z.lxor x y) y = x.
Proof. now rewrite Z.lxor_assoc, Z.lxor_nilpotent, Z.lxor_0_r. Qed.

Lemma lxor_inj_l x y z : Z.lxor x z = Z.lxor y z -> x = y.
Proof. intros H. now rewrite <- (lxor_cancel_r x z), H, lxor_cancel_r. Qed.
