(* ===== verification/CLib.v ===== *)
(** The parts of the C library the programs rely on, as executable functions:
    number parsing ([strtol], [strtoull]), tokenising ([strtok]), line input
    ([getline]) and number formatting.  Strings are C strings: the [string] is
    what precedes the terminating null byte. *)

From S2P Require Import Prelude.
From Stdlib Require Import Ascii String.
From stdpp Require Import pretty.

Open Scope string_scope.
Open Scope Z_scope.

#[global] Arguments String.append : simpl nomatch.

(** What a program writes, in order. *)
Inductive output := Stdout (s : string) | Stderr (s : string).

Definition newline : ascii := "010"%char.
Definition nl : string := String newline "".
Definition tab : string := String "009"%char "".
Definition space : ascii := " "%char.

(** [isspace] of the C locale: space, and the codes 9 to 13. *)
Definition isspace (c : ascii) : bool :=
  let n := nat_of_ascii c in
  (n =? 32)%nat || ((9 <=? n)%nat && (n <=? 13)%nat).

(** The value of a character as a digit of some base. *)
Definition digit_val (c : ascii) : option Z :=
  let n := Z.of_nat (nat_of_ascii c) in
  if (48 <=? n) && (n <=? 57) then Some (n - 48)
  else if (97 <=? n) && (n <=? 122) then Some (n - 87)
  else if (65 <=? n) && (n <=? 90) then Some (n - 55)
  else None.

Definition digit_in (base : Z) (c : ascii) : option Z :=
  match digit_val c with
  | Some d => if d <? base then Some d else None
  | None => None
  end.

Fixpoint skip_spaces (s : string) : string :=
  match s with
  | String c s' => if isspace c then skip_spaces s' else s
  | EmptyString => s
  end.

(** Digits of [base] in front of [s]: their value, the rest, and whether there
    was a digit. *)
Fixpoint scan_digits (base : Z) (s : string) (acc : Z) (seen : bool) : Z * string * bool :=
  match s with
  | String c s' =>
      match digit_in base c with
      | Some d => scan_digits base s' (acc * base + d) true
      | None => (acc, s, seen)
      end
  | EmptyString => (acc, s, seen)
  end.

Definition scan_sign (s : string) : bool * string :=
  match s with
  | String "-" s' => (true, s')
  | String "+" s' => (false, s')
  | _ => (false, s)
  end.

(** The optional [0x] of base 16; it counts only in front of a digit. *)
Definition scan_prefix (base : Z) (s : string) : string :=
  match s with
  | String "0" (String x (String d s')) =>
      if (base =? 16) && (bool_decide (x = "x"%char) || bool_decide (x = "X"%char))
         && bool_decide (is_Some (digit_in 16 d))
      then String d s' else s
  | _ => s
  end.

(** Result of a [strto*] call: the value, what [endp] points to, whether
    [endp] moved from the start, and whether [errno] became [ERANGE]. *)
Record strto := Strto { st_value : Z; st_rest : string; st_conv : bool; st_range : bool }.

Definition scan_number (base : Z) (s : string) : bool * Z * string * bool :=
  let '(neg, t) := scan_sign (skip_spaces s) in
  let '(v, r, seen) := scan_digits base (scan_prefix base t) 0 false in
  (neg, v, r, seen).

(** [strtol(s, &endp, base)], and [strtoll], on a 64-bit [long]. *)
Definition strtol (s : string) (base : Z) : strto :=
  let '(neg, v, r, seen) := scan_number base s in
  let w := if neg then - v else v in
  if seen then
    Strto (Z.max LONG_MIN (Z.min LONG_MAX w)) r true
          (negb ((LONG_MIN <=? w) && (w <=? LONG_MAX)))
  else Strto 0 s false false.

(** [strtoull(s, &endp, base)]: a minus sign negates modulo 2^64. *)
Definition strtoull (s : string) (base : Z) : strto :=
  let '(neg, v, r, seen) := scan_number base s in
  if seen then
    if SIZE_MAX <? v then Strto SIZE_MAX r true true
    else Strto (u64 (if neg then - v else v)) r true false
  else Strto 0 s false false.

(** The common check [endp == s || *endp != '\0'] accepts exactly these. *)
Definition full_number (p : strto) : bool := st_conv p && bool_decide (st_rest p = "").

Definition mem_char (c : ascii) (delim : string) : bool :=
  bool_decide (c ∈ list_ascii_of_string delim).

(** [strspn] / [strcspn] as the pieces they delimit. *)
Fixpoint drop_delims (delim s : string) : string :=
  match s with
  | String c s' => if mem_char c delim then drop_delims delim s' else s
  | EmptyString => ""
  end.

Fixpoint until_delim (delim s : string) : string * string :=
  match s with
  | String c s' =>
      if mem_char c delim then ("", s')
      else let '(t, r) := until_delim delim s' in (String c t, r)
  | EmptyString => ("", "")
  end.

(** [strtok]: the next token and the saved position, or [NULL]. *)
Definition strtok (s delim : string) : option string * string :=
  match drop_delims delim s with
  | "" => (None, "")
  | t => let '(tok, r) := until_delim delim t in (Some tok, r)
  end.

(** [getline]: the line with its newline, and the rest of the stream. *)
Fixpoint getline (s : string) : string * string :=
  match s with
  | EmptyString => ("", "")
  | String c s' =>
      if bool_decide (c = newline) then (nl, s')
      else let '(l, r) := getline s' in (String c l, r)
  end.

(** The successive results of [getline] until it reports the end. *)
Fixpoint lines_fuel (n : nat) (s : string) : list string :=
  match n, s with
  | S n, String _ _ => let '(l, r) := getline s in l :: lines_fuel n r
  | _, _ => []
  end.

Definition getlines (s : string) : list string := lines_fuel (String.length s) s.

(** [%d], [%ld], [%lu]: decimal notation of an integer. *)
Definition dec (x : Z) : string := pretty x.

(** A field of [n] characters, filled with spaces on the left. *)
Fixpoint pad (n : nat) (s : string) : string :=
  match n with
  | O => s
  | S n => if (String.length s <=? n)%nat then String space (pad n s) else s
  end.

(** [basename] of [string.h]: what is behind the last slash. *)
Fixpoint basename_from (s last : string) : string :=
  match s with
  | EmptyString => last
  | String c s' => basename_from s' (if bool_decide (c = "/"%char) then s' else last)
  end.
Definition basename (s : string) : string := basename_from s s.

(** [basename] of [libgen.h]: slashes at the end are left out first. *)
Fixpoint strip_slashes (s : string) : string :=
  match s with
  | EmptyString => EmptyString
  | String c s' =>
      let t := strip_slashes s' in
      if bool_decide (c = "/"%char) && bool_decide (t = EmptyString) then EmptyString else String c t
  end.
Definition libgen_basename (s : string) : string :=
  if bool_decide (s = EmptyString) then "."
  else let t := strip_slashes s in if bool_decide (t = EmptyString) then "/" else basename t.

(** What [error] prints: the name of the program, the message, and the text of an error
    number that is not 0. *)
Definition error_line (argv0 msg : string) (errno : option string) : string :=
  argv0 +:+ ": " +:+ msg +:+ match errno with Some e => ": " +:+ e | None => "" end +:+ nl.

(** An escape sequence for a colour. *)
Definition sgr (code : Z) : string := String "027"%char ("[" +:+ dec code +:+ "m").

Definition hex_digit (d : Z) : ascii :=
  ascii_of_nat (Z.to_nat (if d <? 10 then 48 + d else 87 + d)).

(** [n] hexadecimal digits of [x], most significant first: [%08x] of a
    [uint32_t] when [n = 8]. *)
Fixpoint hex (n : nat) (x : Z) : string :=
  match n with
  | O => ""
  | S n => String (hex_digit (x / 16 ^ Z.of_nat n mod 16)) (hex n x)
  end.

(* ------------------------------------------------------------------ *)
(** ** Lemmas *)

(** [%x] of a number of at most [n + 1] digits. *)
Fixpoint hex_length (n : nat) (x : Z) : nat :=
  match n with O => 1 | S n => if x <? 16 then 1 else S (hex_length n (x / 16)) end.
Definition hex_short (n : nat) (x : Z) : string := hex (hex_length n x) x.

Lemma digit_in_hex_digit d : 0 <= d < 16 -> digit_in 16 (hex_digit d) = Some d.
Proof.
  intros. assert (exists n, d = Z.of_nat n /\ (n < 16)%nat) as (n & -> & Hn)
    by (exists (Z.to_nat d); lia).
  do 16 (destruct n as [|n]; [reflexivity|]). lia.
Qed.

Lemma scan_digits_hex n : forall x r acc seen,
  0 <= x ->
  scan_digits 16 (hex n x ++ r) acc seen =
  scan_digits 16 r (acc * 16 ^ Z.of_nat n + x mod 16 ^ Z.of_nat n) (seen || (0 <? n)%nat).
Proof.
  induction n as [|n IH]; intros x r acc seen Hx.
  - simpl. rewrite Z.mod_1_r, orb_false_r. f_equal. lia.
  - cbn [hex append scan_digits].
    rewrite digit_in_hex_digit by (apply Z.mod_pos_bound; lia).
    rewrite IH by lia. rewrite orb_true_r. cbn [orb Nat.ltb].
    f_equal. rewrite Nat2Z.inj_succ, Z.pow_succ_r by lia.
    rewrite (Z.mul_comm 16 (16 ^ _)), Z.rem_mul_r by lia. lia.
Qed.

Lemma hex_digit_cases d (P : ascii -> Prop) :
  0 <= d < 16 ->
  Forall P (list_ascii_of_string "0123456789abcdef") -> P (hex_digit d).
Proof.
  intros Hd HP. rewrite Forall_forall in HP. apply HP.
  assert (exists n, d = Z.of_nat n /\ (n < 16)%nat) as (n & -> & Hn)
    by (exists (Z.to_nat d); lia).
  apply list_elem_of_lookup. exists n.
  do 16 (destruct n as [|n]; [reflexivity|]). lia.
Qed.

Lemma length_hex n x : String.length (hex n x) = n.
Proof. induction n; simpl; congruence. Qed.

Lemma append_assoc_s (a b c : string) : (a ++ b) ++ c = a ++ (b ++ c).
Proof. induction a as [|x a IH]; simpl; [reflexivity|]. now rewrite IH. Qed.

Lemma append_nil_r (a : string) : a ++ "" = a.
Proof. induction a as [|x a IH]; simpl; [reflexivity|]. now rewrite IH. Qed.

(** No character of [s] is in [delim]. *)
Definition no_delim (delim s : string) : Prop :=
  Forall (fun c => mem_char c delim = false) (list_ascii_of_string s).

Lemma no_delim_hex delim n x :
  0 <= x ->
  Forall (fun c => mem_char c delim = false) (list_ascii_of_string "0123456789abcdef") ->
  no_delim delim (hex n x).
Proof.
  intros Hx HP. unfold no_delim. induction n as [|n IH]; simpl; constructor; [|exact IH].
  apply (hex_digit_cases _ (fun c => mem_char c delim = false)); [|exact HP].
  apply Z.mod_pos_bound. lia.
Qed.

Lemma until_delim_app delim s c r :
  no_delim delim s -> mem_char c delim = true ->
  until_delim delim (s ++ String c r) = (s, r).
Proof.
  intros Hs Hc. induction s as [|a s IH]; simpl; [now rewrite Hc|].
  apply Forall_cons in Hs as [Ha Hs]. now rewrite Ha, IH.
Qed.

Lemma strtok_token delim a s c r :
  no_delim delim (String a s) -> mem_char c delim = true ->
  strtok (String a s ++ String c r) delim = (Some (String a s), r).
Proof.
  intros Hs Hc. pose proof Hs as Hs'. apply Forall_cons in Hs' as [Ha _].
  unfold strtok. pose proof (until_delim_app delim (String a s) c r Hs Hc) as Hu.
  assert (drop_delims delim (String a s ++ String c r) = String a s ++ String c r) as ->
    by (simpl; now rewrite Ha).
  simpl in *. now rewrite Hu.
Qed.

(** A text is read back line by line when no line contains a newline. *)
Definition no_newline (s : string) : Prop := Forall (.≠ newline) (list_ascii_of_string s).

Lemma getline_app s r : no_newline s -> getline (s ++ nl ++ r) = (s ++ nl, r).
Proof.
  intros Hs. induction s as [|a s IH]; simpl; [reflexivity|].
  apply Forall_cons in Hs as [Ha Hs]. rewrite bool_decide_eq_false_2 by exact Ha.
  unfold nl in IH. simpl in IH. now rewrite IH.
Qed.

Lemma length_append (a b : string) : String.length (a ++ b) = (String.length a + String.length b)%nat.
Proof. induction a; simpl; congruence. Qed.

Lemma lines_fuel_app n s r :
  no_newline s -> (String.length (s ++ nl ++ r) <= n)%nat ->
  lines_fuel n (s ++ nl ++ r) = (s ++ nl) :: lines_fuel (n - 1) r.
Proof.
  intros Hs Hn. destruct n as [|n].
  { rewrite !length_append in Hn. simpl in Hn. lia. }
  rewrite Nat.sub_succ, Nat.sub_0_r. cbn [lines_fuel].
  rewrite getline_app by exact Hs. now destruct s.
Qed.

Lemma lines_fuel_enough n : forall m s,
  (String.length s <= n)%nat -> (n <= m)%nat -> lines_fuel m s = lines_fuel n s.
Proof.
  induction n as [|n IH]; intros m s Hn Hm.
  { destruct s; simpl in *; [now destruct m | lia]. }
  destruct m as [|m]; [lia|]. destruct s as [|c s]; [reflexivity|].
  cbn [lines_fuel]. destruct (getline (String c s)) as [l r] eqn:E.
  f_equal. apply IH; [|lia].
  assert (forall s l r, getline s = (l, r) -> (String.length r <= String.length s)%nat) as Hg.
  { clear. induction s as [|c s IH]; simpl; intros l r E; [now simplify_eq|].
    case_bool_decide; [simplify_eq; lia|].
    destruct (getline s) as [l' r'] eqn:E'. simplify_eq. specialize (IH _ _ eq_refl). lia. }
  simpl in E, Hn. case_bool_decide; [simplify_eq; lia|].
  destruct (getline s) as [l' r'] eqn:E'. simplify_eq. apply Hg in E'. lia.
Qed.

(** A text made of complete lines. *)
Definition unlines (ls : list string) : string :=
  String.concat "" (map (fun s => s ++ nl) ls).

Lemma unlines_cons s ls : unlines (s :: ls) = s ++ nl ++ unlines ls.
Proof.
  destruct ls; unfold unlines; simpl; [reflexivity | apply append_assoc_s].
Qed.

(** [getline] splits a text made of lines exactly at its newlines. *)
Lemma getlines_unlines (ls : list string) :
  Forall no_newline ls -> getlines (unlines ls) = map (fun s => s ++ nl) ls.
Proof.
  unfold getlines. intros Hls. induction Hls as [|s ls Hs Hls IH]; [reflexivity|].
  rewrite unlines_cons, lines_fuel_app by auto. simpl. f_equal. rewrite <- IH.
  apply lines_fuel_enough; [lia|]. rewrite !length_append. simpl. lia.
Qed.

(* ------------------------------------------------------------------ *)
(** ** Decimal notation is read back *)

Lemma digit_in_pretty d : (d < 10)%N -> digit_in 10 (pretty_N_char d) = Some (Z.of_N d).
Proof.
  intros H. assert (d = 0 \/ d = 1 \/ d = 2 \/ d = 3 \/ d = 4 \/ d = 5 \/ d = 6 \/ d = 7 \/ d = 8 \/ d = 9)%N
    as Hd by lia.
  by repeat destruct Hd as [-> | Hd]; subst.
Qed.

Lemma scan_digits_pretty x s b :
  (0 < x)%N -> scan_digits 10 (pretty_N_go x s) 0 b = scan_digits 10 s (Z.of_N x) true.
Proof.
  revert s b. induction (N.lt_wf_0 x) as [x _ IH]; intros s b Hx.
  rewrite pretty_N_go_step by done.
  assert (x mod 10 < 10)%N as Hm by (by apply N.mod_lt).
  assert (Z.of_N x = Z.of_N (x / 10) * 10 + Z.of_N (x mod 10)) as E
    by (pose proof (N.div_mod x 10 ltac:(done)); lia).
  destruct (decide (x / 10 = 0)%N) as [E0 | E0].
  - rewrite E0, pretty_N_go_0. simpl. rewrite digit_in_pretty by done. f_equal. lia.
  - rewrite IH by (try apply N.div_lt; lia). simpl. rewrite digit_in_pretty by done. f_equal. lia.
Qed.

(** The decimal notation of a positive number starts with a digit. *)
Lemma pretty_first x s :
  (0 < x)%N -> exists d s', pretty_N_go x s = String (pretty_N_char d) s' /\ (d < 10)%N.
Proof.
  revert s. induction (N.lt_wf_0 x) as [x _ IH]; intros s Hx.
  rewrite pretty_N_go_step by done.
  assert (x mod 10 < 10)%N as Hm by (by apply N.mod_lt).
  destruct (decide (x / 10 = 0)%N) as [E0 | E0].
  - rewrite E0, pretty_N_go_0. eauto.
  - apply IH; [by apply N.div_lt | by apply N.neq_0_lt_0].
Qed.

Lemma scan_prefix_10 s : scan_prefix 10 s = s.
Proof. unfold scan_prefix. by repeat case_match. Qed.

Lemma scan_number_digit d s :
  (d < 10)%N ->
  scan_number 10 (String (pretty_N_char d) s) =
  (let '(v, r, seen) := scan_digits 10 (String (pretty_N_char d) s) 0 false in (false, v, r, seen)).
Proof.
  intros H. assert (d = 0 \/ d = 1 \/ d = 2 \/ d = 3 \/ d = 4 \/ d = 5 \/ d = 6 \/ d = 7 \/ d = 8 \/ d = 9)%N
    as Hd by lia.
  unfold scan_number.
  assert (scan_sign (skip_spaces (String (pretty_N_char d) s)) = (false, String (pretty_N_char d) s)) as ->
    by (by repeat destruct Hd as [-> | Hd]; subst).
  by rewrite scan_prefix_10.
Qed.

Lemma scan_number_pos p :
  scan_number 10 (pretty (Npos p)) = (false, Zpos p, "", true).
Proof.
  unfold pretty, pretty_N. destruct (decide _); [done|].
  destruct (pretty_first (Npos p) "") as (d & s & E & Hd); [done|]. rewrite E.
  rewrite scan_number_digit, <- E, scan_digits_pretty by done. done.
Qed.

Lemma dec_pos p : dec (Zpos p) = pretty (Npos p).
Proof. done. Qed.

Lemma scan_number_dec z : scan_number 10 (dec z) = (z <? 0, Z.abs z, "", true).
Proof.
  destruct z as [|p|p]; [done|apply scan_number_pos|].
  pose proof (scan_number_pos p) as H. unfold scan_number in *.
  change (dec (Zneg p)) with (String "-" (pretty (Npos p))). simpl.
  revert H. unfold pretty, pretty_N. destruct (decide _); [done|].
  destruct (pretty_first (Npos p) "") as (d & s & E & Hd); [done|]. rewrite E.
  rewrite !scan_prefix_10, <- E, scan_digits_pretty by done. done.
Qed.

Lemma strtol_dec z : LONG_MIN <= z <= LONG_MAX -> strtol (dec z) 10 = Strto z "" true false.
Proof.
  intros Hz. unfold strtol. rewrite scan_number_dec.
  assert ((if z <? 0 then - Z.abs z else Z.abs z) = z) as ->
    by (destruct (Z.ltb_spec z 0); lia).
  unfold LONG_MIN, LONG_MAX in *. f_equal; [lia|].
  rewrite (proj2 (Z.leb_le _ z)), (proj2 (Z.leb_le z _)) by lia. done.
Qed.

(** A number that is not negative does not start with a minus sign. *)
Lemma dec_no_dash z s : 0 <= z -> dec z <> String "-" s.
Proof.
  intros Hz. destruct z as [|p|p]; [done| |lia]. rewrite dec_pos.
  unfold pretty, pretty_N. destruct (decide _); [done|]. by apply (pretty_N_go_ne_dash _ "" s).
Qed.

Lemma digit_no_newline d : (d < 10)%N -> pretty_N_char d <> newline.
Proof.
  intros H. assert (d = 0 \/ d = 1 \/ d = 2 \/ d = 3 \/ d = 4 \/ d = 5 \/ d = 6 \/ d = 7 \/ d = 8 \/ d = 9)%N
    as Hd by lia.
  by repeat destruct Hd as [-> | Hd]; subst.
Qed.

Lemma pretty_no_newline x : forall s, (0 < x)%N -> no_newline s -> no_newline (pretty_N_go x s).
Proof.
  induction (N.lt_wf_0 x) as [x _ IH]; intros s Hx Hs. rewrite pretty_N_go_step by done.
  assert (no_newline (String (pretty_N_char (x mod 10)) s)) as Hn.
  { constructor; [|exact Hs]. apply digit_no_newline. by apply N.mod_lt. }
  destruct (decide (x / 10 = 0)%N) as [E0 | E0]; [by rewrite E0, pretty_N_go_0|].
  apply IH; [by apply N.div_lt|by apply N.neq_0_lt_0|done].
Qed.

Lemma no_newline_dec z : no_newline (dec z).
Proof.
  assert (forall p, no_newline (pretty (Npos p))) as Hp.
  { intros p. apply pretty_no_newline; [done|constructor]. }
  destruct z as [|p|p]; [by repeat constructor|by rewrite dec_pos|].
  unfold dec, pretty, pretty_Z. constructor; [done|apply Hp].
Qed.
