(* ===== verification/Posix.v ===== *)
(** Descriptors as the programs see them: the results of the successive
    system calls on a descriptor are a list, and the model consumes it. *)

From S2P Require Import Prelude.
From Stdlib Require Import Strings.Byte.

(** The result of one [read(2)]: bytes ([[]] is end of file) or [-1]. *)
Inductive read_result := Data (bytes : list byte) | ReadError (errno : Z).

(** The results of the successive [read] calls on a descriptor; when the list
    is exhausted every further call reports end of file. *)
Abbreviation reads := (list read_result).

(** What a descriptor delivers before end of file or an error. *)
Fixpoint delivered (rs : reads) : list byte :=
  match rs with
  | Data (b :: bs) :: rest => (b :: bs) ++ delivered rest
  | _ => []
  end.

(** Whether the sequence of reads ends in an error rather than end of file. *)
Fixpoint read_fails (rs : reads) : bool :=
  match rs with
  | Data (_ :: _) :: rest => read_fails rest
  | ReadError _ :: _ => true
  | _ => false
  end.


Lemma delivered_chunks (cs : list (list byte)) :
  Forall (.≠ []) cs -> delivered (map Data cs) = concat cs.
Proof.
  induction 1 as [|c cs Hc _ IH]; [reflexivity|].
  destruct c as [|b c]; [done|]. simpl. now rewrite IH.
Qed.

Lemma read_fails_chunks (cs : list (list byte)) :
  Forall (.≠ []) cs -> read_fails (map Data cs) = false.
Proof.
  induction 1 as [|c cs Hc _ IH]; [reflexivity|].
  destruct c as [|b c]; [done|]. exact IH.
Qed.
