(* ===== verification/Getopt.v ===== *)
(** [getopt] and [getopt_long] of the GNU C library, as the programs use them: the
    options that the successive calls return, and the operands that are left behind
    [optind] once the arguments have been permuted. [POSIXLY_CORRECT] is not set,
    and the option strings of the programs do not begin with a colon. *)

From S2P Require Import Prelude.
From S2P Require Import CLib.
From Stdlib Require Import Ascii.

Open Scope string_scope.
Open Scope list_scope.
Open Scope Z_scope.

(** An entry of [longopts] with a null [flag]: [has_arg] is [no_argument] or
    [required_argument]. *)
Record long_option := LongOption { lo_name : string; lo_val : ascii; lo_arg : bool }.

(** What a call returns: the character, with [optarg] for an option that takes an
    argument; ['?'] for an argument that is not understood. *)
Abbreviation opt := (ascii * option string)%type.

Definition bad : opt := ("?"%char, None).

Section getopt.
(** [optstring], and [longopts] when the program calls [getopt_long]. *)
Context (optstring : string) (longopts : option (list long_option)).

(** How [optstring] lists a character: not at all, or with or without a colon
    behind it. *)
Fixpoint short_arg (s : string) (c : ascii) : option bool :=
  match s with
  | "" => None
  | String d s' =>
      if bool_decide (d = c) && negb (bool_decide (c = ":"%char)) then
        Some (match s' with String e _ => bool_decide (e = ":"%char) | "" => false end)
      else short_arg s' c
  end.

(** The characters of an argument [-abc]: the options, and the one that takes its
    argument from the next word, if the last one does. *)
Fixpoint cluster (cs : string) : list opt * option ascii :=
  match cs with
  | "" => ([], None)
  | String c cs =>
      match short_arg optstring c with
      | Some true => match cs with "" => ([], Some c) | _ => ([(c, Some cs)], None) end
      | Some false => let '(os, p) := cluster cs in ((c, None) :: os, p)
      | None => let '(os, p) := cluster cs in (bad :: os, p)
      end
  end.

(** A long option is given up to the first ["="]. *)
Fixpoint split_equals (s : string) : string * option string :=
  match s with
  | "" => ("", None)
  | String c s =>
      if bool_decide (c = "="%char) then ("", Some s)
      else let '(n, v) := split_equals s in (String c n, v)
  end.

(** The entry a name stands for: the one of that name, or the one it abbreviates. A
    prefix of several entries is ambiguous unless they mean the same. *)
Definition find_long (longs : list long_option) (name : string) : option long_option :=
  match filter (fun l => lo_name l = name) longs with
  | l :: _ => Some l
  | [] =>
      match filter (fun l => String.prefix name (lo_name l) = true) longs with
      | [] => None
      | l :: ls =>
          if forallb (fun m => bool_decide (lo_val m = lo_val l) && Bool.eqb (lo_arg m) (lo_arg l)) ls
          then Some l else None
      end
  end.

(** An argument [--name] or [--name=value]. *)
Definition long (longs : list long_option) (s : string) : list opt * option ascii :=
  let '(name, value) := split_equals s in
  match find_long longs name with
  | None => ([bad], None)
  | Some l =>
      match lo_arg l, value with
      | false, None => ([(lo_val l, None)], None)
      | false, Some _ => ([bad], None)
      | true, Some v => ([(lo_val l, Some v)], None)
      | true, None => ([], Some (lo_val l))
      end
  end.

(** One argument: [None] is an operand. *)
Definition word (a : string) : option (list opt * option ascii) :=
  match a with
  | String "-" (String "-" s) =>
      match longopts with Some longs => Some (long longs s) | None => Some (cluster (String "-" s)) end
  | String "-" (String c s) => Some (cluster (String c s))
  | _ => None
  end.

(** The arguments behind [argv[0]]: what the calls return until [-1], and the
    operands; [pending] is an option whose argument is the next word. *)
Fixpoint getopt (pending : option ascii) (args : list string) : list opt * list string :=
  match args with
  | [] => (match pending with Some _ => [bad] | None => [] end, [])
  | a :: args =>
      match pending with
      | Some c => let '(os, rest) := getopt None args in ((c, Some a) :: os, rest)
      | None =>
          if bool_decide (a = "--") then ([], args)
          else
            match word a with
            | None => let '(os, rest) := getopt None args in (os, a :: rest)
            | Some (os1, p) => let '(os, rest) := getopt p args in (os1 ++ os, rest)
            end
      end
  end.

(* ------------------------------------------------------------------ *)
(** ** Command lines *)

(** The ways to write options and operands. *)
Inductive item :=
| Flags (cs : list ascii)                   (* [-abc] *)
| Separate (c : ascii) (v : string)         (* [-c v] *)
| Attached (c : ascii) (v : string)         (* [-cv] *)
| Long (n : string)                         (* [--name] *)
| LongSeparate (n v : string)               (* [--name v] *)
| LongEquals (n v : string)                 (* [--name=v] *)
| Operand (a : string).

Fixpoint of_chars (cs : list ascii) : string :=
  match cs with [] => "" | c :: cs => String c (of_chars cs) end.

Definition render_item (i : item) : list string :=
  match i with
  | Flags cs => [String "-" (of_chars cs)]
  | Separate c v => [String "-" (String c ""); v]
  | Attached c v => [String "-" (String c v)]
  | Long n => [String "-" (String "-" n)]
  | LongSeparate n v => [String "-" (String "-" n); v]
  | LongEquals n v => [String "-" (String "-" (n +:+ String "=" v))]
  | Operand a => [a]
  end.

Definition render (items : list item) : list string := concat (map render_item items).

(** What an item means. *)
Definition entry (n : string) : option long_option := longs ← longopts; find_long longs n.

Definition opts_of (i : item) : list opt :=
  match i with
  | Flags cs => map (fun c => (c, None)) cs
  | Separate c v | Attached c v => [(c, Some v)]
  | Long n => match entry n with Some l => [(lo_val l, None)] | None => [] end
  | LongSeparate n v | LongEquals n v =>
      match entry n with Some l => [(lo_val l, Some v)] | None => [] end
  | Operand _ => []
  end.

Definition operands_of (i : item) : list string := match i with Operand a => [a] | _ => [] end.

Fixpoint no_equals (s : string) : bool :=
  match s with "" => true | String c s => negb (bool_decide (c = "="%char)) && no_equals s end.

(** Which items the tables of the program allow. *)
Definition allowed (i : item) : Prop :=
  match i with
  | Flags cs => cs <> [] /\ Forall (fun c => short_arg optstring c = Some false /\ c <> "-"%char) cs
  | Separate c v => short_arg optstring c = Some true /\ c <> "-"%char
  | Attached c v => short_arg optstring c = Some true /\ v <> "" /\ c <> "-"%char
  | Long n => n <> "" /\ no_equals n = true /\ exists l, entry n = Some l /\ lo_arg l = false
  | LongSeparate n v => n <> "" /\ no_equals n = true /\ exists l, entry n = Some l /\ lo_arg l = true
  | LongEquals n v => n <> "" /\ no_equals n = true /\ exists l, entry n = Some l /\ lo_arg l = true
  | Operand a => match a with String "-" (String _ _) => False | _ => True end
  end.

(* ------------------------------------------------------------------ *)
(** ** Properties *)

Lemma cluster_flags cs :
  Forall (fun c => short_arg optstring c = Some false /\ c <> "-"%char) cs ->
  cluster (of_chars cs) = (map (fun c => (c, None)) cs, None).
Proof. induction 1 as [|c cs [Hc _] _ IH]; [done|]. cbn [of_chars cluster map]. by rewrite Hc, IH. Qed.

Lemma split_no_equals n : no_equals n = true -> split_equals n = (n, None).
Proof.
  induction n as [|c n IH]; [done|]. cbn [no_equals split_equals]. intros [Hc Hn]%andb_prop.
  destruct (bool_decide (c = "="%char)); [done|]. by rewrite IH.
Qed.

Lemma split_with_equals n v : no_equals n = true -> split_equals (n +:+ String "=" v) = (n, Some v).
Proof.
  induction n as [|c n IH]; [done|]. cbn [no_equals String.append split_equals]. intros [Hc Hn]%andb_prop.
  destruct (bool_decide (c = "="%char)); [done|]. by rewrite IH.
Qed.

(** An argument that begins with one hyphen is a cluster. *)
Lemma word_cluster c s : c <> "-"%char -> word (String "-" (String c s)) = Some (cluster (String c s)).
Proof. intros Hc. destruct c as [[] [] [] [] [] [] [] []]; (done || by destruct Hc). Qed.

Lemma word_long longs s : longopts = Some longs -> word (String "-" (String "-" s)) = Some (long longs s).
Proof. intros Hl. unfold word. by rewrite Hl. Qed.

Lemma word_operand a : allowed (Operand a) -> word a = None.
Proof.
  destruct a as [|c [|d s]]; [done|by destruct c as [[] [] [] [] [] [] [] []]|]. simpl.
  by destruct c as [[] [] [] [] [] [] [] []].
Qed.

Lemma entry_longs n l : entry n = Some l -> exists longs, longopts = Some longs /\ find_long longs n = Some l.
Proof. unfold entry. destruct longopts as [longs|]; [|done]. by exists longs. Qed.

Lemma getopt_word a os p args :
  a <> "--" -> word a = Some (os, p) ->
  getopt None (a :: args) = (os ++ (getopt p args).1, (getopt p args).2).
Proof.
  intros Ha Hw. cbn [getopt]. rewrite bool_decide_eq_false_2, Hw by done. by destruct (getopt p args).
Qed.

Lemma getopt_item i args :
  allowed i ->
  getopt None (render_item i ++ args) =
  (opts_of i ++ (getopt None args).1, operands_of i ++ (getopt None args).2).
Proof.
  intros Hi. destruct i as [cs|c v|c v|n|n v|n v|a]; cbn [render_item app operands_of opts_of].
  - destruct Hi as [Hne Hcs]. destruct cs as [|c cs]; [done|]. cbn [of_chars].
    apply Forall_cons in Hcs as Hc. destruct Hc as [[_ Hc] _].
    apply getopt_word; [congruence|]. rewrite word_cluster by done.
    f_equal. exact (cluster_flags (c :: cs) Hcs).
  - destruct Hi as [Hc Hd].
    rewrite (getopt_word _ [] (Some c)); [|congruence|].
    + cbn [getopt]. by destruct (getopt None args).
    + rewrite word_cluster by done. cbn [cluster]. by rewrite Hc.
  - destruct Hi as (Hc & Hv & Hd).
    rewrite (getopt_word _ [(c, Some v)] None); [done|congruence|].
    rewrite word_cluster by done. cbn [cluster]. rewrite Hc. by destruct v.
  - destruct Hi as (Hne & Heq & l & Hl & Ha). rewrite Hl. apply entry_longs in Hl as (longs & Hls & Hl).
    rewrite (getopt_word _ [(lo_val l, None)] None); [done|congruence|].
    rewrite (word_long longs) by done. unfold long. by rewrite split_no_equals, Hl, Ha.
  - destruct Hi as (Hne & Heq & l & Hl & Ha). rewrite Hl. apply entry_longs in Hl as (longs & Hls & Hl).
    rewrite (getopt_word _ [] (Some (lo_val l))); [|congruence|].
    + cbn [getopt]. by destruct (getopt None args).
    + rewrite (word_long longs) by done. unfold long. by rewrite split_no_equals, Hl, Ha.
  - destruct Hi as (Hne & Heq & l & Hl & Ha). rewrite Hl. apply entry_longs in Hl as (longs & Hls & Hl).
    rewrite (getopt_word _ [(lo_val l, Some v)] None); [done|by destruct n|].
    rewrite (word_long longs) by done. unfold long. by rewrite split_with_equals, Hl, Ha.
  - pose proof (word_operand a Hi) as Hw. cbn [getopt]. rewrite bool_decide_eq_false_2 by (by intros ->).
    rewrite Hw. by destruct (getopt None args).
Qed.

(** [getopt] reads back every command line written with the tables of the
    program: flags in clusters, arguments attached or separate, long options by
    their names or abbreviations, in any order and mixed with operands, yield their
    options in order, with their arguments, and the operands in order; whatever
    follows ["--"] is an operand. *)
Theorem getopt_render (items : list item) (more : list string) (Hi : Forall allowed items) :
  getopt None (render items) = (concat (map opts_of items), concat (map operands_of items)) /\
  getopt None (render items ++ "--" :: more) =
    (concat (map opts_of items), concat (map operands_of items) ++ more).
Proof.
  unfold render. induction Hi as [|i items Hi _ IH]; [done|]. cbn [map concat].
  rewrite <- app_assoc, !getopt_item by done. destruct IH as [-> ->]. cbn [fst snd].
  by rewrite <- app_assoc.
Qed.
End getopt.

(** The options with [optarg] as a string, for loops that read it only where there is
    one. *)
Definition with_arg (o : opt) : ascii * string := (o.1, default "" o.2).

(** Whether option [c] is given, and its last argument. *)
Definition given (c : ascii) (os : list opt) : bool := existsb (fun o => bool_decide (o.1 = c)) os.
Definition last_value (c : ascii) (os : list opt) : option string :=
  fold_left (fun v o => if bool_decide (o.1 = c) then o.2 else v) os None.

Definition demo_longs : list long_option :=
  [LongOption "version" "v" false; LongOption "verbose" "w" false; LongOption "level" "l" true].

Definition demo_items : list item :=
  [Flags ["h"; "v"]%char; Operand "file"; Attached "l" "3"; LongEquals "lev" "4"; Operand "-"; LongSeparate "level" "5"].

Lemma getopt_render_witness :
  getopt "hvl:" (Some demo_longs) None
    ["-hv"; "file"; "-l3"; "--lev=4"; "-"; "--level"; "5"; "--"; "-x"] =
  ([("h"%char, None); ("v"%char, None); ("l"%char, Some "3"); ("l"%char, Some "4"); ("l"%char, Some "5")],
   ["file"; "-"; "-x"]).
Proof.
  exact (proj2 (getopt_render "hvl:" (Some demo_longs) demo_items ["-x"] ltac:(
    repeat (constructor; [try (split; [done|]; repeat constructor; done);
      try (split; [done|]; split; [done|]; by eexists); done|]); constructor))).
Defined.

(** An abbreviation of two names is refused, and so is an option that lacks its
    argument. *)
Example ambiguous : getopt "" (Some demo_longs) None ["--ver"] = ([bad], []).
Proof. reflexivity. Qed.
Example no_argument : getopt "l:" None None ["x"; "-l"] = ([bad], ["x"]).
Proof. reflexivity. Qed.
