(* ===== verification/Crc.v ===== *)
(** [hw01/crc.c]: the CRC32 context and its three operations, bit by bit as
    the source computes them, related to the reflected algorithm that other
    implementations use. *)

From S2P Require Import Prelude Bits.
From Stdlib Require Import Strings.Byte.

(** One byte of a buffer as the [uint8_t] the loop reads. *)
Definition byte_val (b : byte) : Z := Z.of_N (Byte.to_N b).

Lemma byte_val_range b : 0 <= byte_val b < 2 ^ 8.
Proof. destruct b; vm_compute; split; congruence. Qed.

(** [uint32_t crc32_reverse(uint32_t x)] *)
Definition crc32_reverse (x : Z) : Z :=
  let x := Z.lor (u32 (Z.shiftl (Z.land x 0x55555555) 1)) (Z.land (Z.shiftr x 1) 0x55555555) in
  let x := Z.lor (u32 (Z.shiftl (Z.land x 0x33333333) 2)) (Z.land (Z.shiftr x 2) 0x33333333) in
  let x := Z.lor (u32 (Z.shiftl (Z.land x 0x0F0F0F0F) 4)) (Z.land (Z.shiftr x 4) 0x0F0F0F0F) in
  Z.lor (Z.lor (Z.lor (u32 (Z.shiftl x 24)) (u32 (Z.shiftl (Z.land x 0xFF00) 8)))
               (Z.land (Z.shiftr x 8) 0xFF00))
        (Z.shiftr x 24).

(** [typedef struct { uint32_t hash; } crc32] *)
Record crc32 := Crc32 { hash : Z }.

(** [void crc32_init(crc32 *context)] *)
Definition crc32_init (context : crc32) : crc32 := Crc32 0xffffffff.

(** The body of the loop over [j]: one bit of [byte] goes into [crc]. *)
Definition crc32_bit (st : Z * Z) : Z * Z :=
  let '(crc, byte) := st in
  ((if s32 (Z.lxor crc byte) <? 0
    then Z.lxor (u32 (Z.shiftl crc 1)) 0x4c11db7
    else u32 (Z.shiftl crc 1)),
   u32 (Z.shiftl byte 1)).

(** [for (int j = 0; j <= 7; ++j)], counted down. *)
Fixpoint crc32_bits (n : nat) (st : Z * Z) : Z * Z :=
  match n with
  | O => st
  | S n => crc32_bits n (crc32_bit st)
  end.

(** The body of the loop over the buffer. *)
Definition crc32_byte (crc : Z) (b : byte) : Z :=
  fst (crc32_bits 8 (crc, crc32_reverse (byte_val b))).

(** [void crc32_update(crc32 *context, size_t size, const void *buffer)]:
    the loop reads [buffer[0 .. size - 1]]. *)
Definition crc32_update (context : crc32) (size : nat) (buffer : list byte) : crc32 :=
  Crc32 (fold_left crc32_byte (take size buffer) (hash context)).

(** [void crc32_finalize(crc32 *context)] *)
Definition crc32_finalize (context : crc32) : crc32 :=
  Crc32 (crc32_reverse (u32 (Z.lnot (hash context)))).

(* ------------------------------------------------------------------ *)
(** ** Bit reversal *)

(** The three swaps of neighbouring groups and the final swap of bytes. *)
Definition swap_stage (k m x : Z) : Z :=
  Z.lor (u32 (Z.shiftl (Z.land x m) k)) (Z.land (Z.shiftr x k) m).

Definition swap_bytes (x : Z) : Z :=
  Z.lor (Z.lor (Z.lor (u32 (Z.shiftl x 24)) (u32 (Z.shiftl (Z.land x 0xFF00) 8)))
               (Z.land (Z.shiftr x 8) 0xFF00))
        (Z.shiftr x 24).

Lemma crc32_reverse_stages x :
  crc32_reverse x =
  swap_bytes (swap_stage 4 0x0F0F0F0F (swap_stage 2 0x33333333 (swap_stage 1 0x55555555 x))).
Proof. reflexivity. Qed.

Lemma swap_stage_1 x i : 0 <= i < 32 ->
  Z.testbit (swap_stage 1 0x55555555 x) i = Z.testbit x (Z.lxor i 1).
Proof. intros. unfold swap_stage. below 32 i; bits. Qed.

Lemma swap_stage_2 x i : 0 <= i < 32 ->
  Z.testbit (swap_stage 2 0x33333333 x) i = Z.testbit x (Z.lxor i 2).
Proof. intros. unfold swap_stage. below 32 i; bits. Qed.

Lemma swap_stage_4 x i : 0 <= i < 32 ->
  Z.testbit (swap_stage 4 0x0F0F0F0F x) i = Z.testbit x (Z.lxor i 4).
Proof. intros. unfold swap_stage. below 32 i; bits. Qed.

Lemma swap_bytes_bit x i : 0 <= x < 2 ^ 32 -> 0 <= i < 32 ->
  Z.testbit (swap_bytes x) i = Z.testbit x (Z.lxor i 24).
Proof. intros Hx Hi. unfold swap_bytes. below 32 i; bits; out_bits 32 x; bits. Qed.

Lemma swap_stage_word k m x :
  0 <= k -> 0 <= x < 2 ^ 32 -> 0 <= m < 2 ^ 32 -> 0 <= swap_stage k m x < 2 ^ 32.
Proof. intros. unfold swap_stage. word_range. Qed.

Lemma crc32_reverse_word x : 0 <= x < 2 ^ 32 -> 0 <= crc32_reverse x < 2 ^ 32.
Proof.
  intros Hx. rewrite crc32_reverse_stages. unfold swap_bytes.
  pose proof (swap_stage_word 1 0x55555555 x ltac:(lia) Hx ltac:(lia)) as H1.
  pose proof (swap_stage_word 2 0x33333333 _ ltac:(lia) H1 ltac:(lia)) as H2.
  pose proof (swap_stage_word 4 0x0F0F0F0F _ ltac:(lia) H2 ltac:(lia)) as H4.
  word_range.
Qed.
Ltac word_lemma ::= apply crc32_reverse_word.
#[local] Opaque crc32_reverse.

Lemma mirror_index i : 0 <= i < 32 -> Z.lxor (Z.lxor (Z.lxor (Z.lxor i 24) 4) 2) 1 = 31 - i.
Proof. intros. below 32 i; reflexivity. Qed.

Lemma lxor_index i k : 0 <= i < 32 -> 0 <= k < 32 -> 0 <= Z.lxor i k < 32.
Proof. intros. apply (lxor_word 5); lia. Qed.

Lemma crc32_reverse_bit x i :
  0 <= x < 2 ^ 32 -> 0 <= i < 32 ->
  Z.testbit (crc32_reverse x) i = Z.testbit x (31 - i).
Proof.
  intros Hx Hi. rewrite <- (mirror_index i Hi), crc32_reverse_stages.
  rewrite swap_bytes_bit by (repeat apply swap_stage_word; lia).
  now rewrite swap_stage_4, swap_stage_2, swap_stage_1 by (repeat apply lxor_index; lia).
Qed.

Lemma crc32_reverse_lxor x y :
  0 <= x < 2 ^ 32 -> 0 <= y < 2 ^ 32 ->
  crc32_reverse (Z.lxor x y) = Z.lxor (crc32_reverse x) (crc32_reverse y).
Proof.
  intros. word_eq 32 i.
  rewrite Z.lxor_spec, !crc32_reverse_bit, Z.lxor_spec by word_range. reflexivity.
Qed.

Lemma crc32_reverse_involutive_word x :
  0 <= x < 2 ^ 32 -> crc32_reverse (crc32_reverse x) = x.
Proof.
  intros. word_eq 32 i. rewrite !crc32_reverse_bit by word_range.
  f_equal. lia.
Qed.

(* ------------------------------------------------------------------ *)
(** ** The reflected algorithm *)

(** The textbook table-free form: the register is kept reflected and shifted
    to the right, the byte is added before the eight steps. *)
Definition reflected_bit (r : Z) : Z :=
  if Z.testbit r 0 then Z.lxor (Z.shiftr r 1) 0xEDB88320 else Z.shiftr r 1.

Definition reflected_byte (r : Z) (b : byte) : Z :=
  Nat.iter 8 reflected_bit (Z.lxor r (byte_val b)).

Definition reflected_crc32 (data : list byte) : Z :=
  Z.lxor (fold_left reflected_byte data 0xffffffff) 0xffffffff.

(** The eight steps of the source when the byte is added to the register first. *)
Definition forward_bit (y : Z) : Z :=
  if Z.testbit y 31 then Z.lxor (u32 (Z.shiftl y 1)) 0x4c11db7 else u32 (Z.shiftl y 1).

Lemma forward_bit_word y : 0 <= forward_bit y < 2 ^ 32.
Proof. unfold forward_bit. destruct (Z.testbit y 31); word_range. Qed.
#[export] Hint Resolve forward_bit_word : words.

Lemma shiftr_1_reverse y :
  0 <= y < 2 ^ 32 -> crc32_reverse (u32 (Z.shiftl y 1)) = Z.shiftr (crc32_reverse y) 1.
Proof.
  intros. word_eq 32 i. rewrite Z.shiftr_spec, crc32_reverse_bit by word_range.
  autorewrite with cbits. destruct (Z.ltb_spec (31 - i) 32); [simpl | lia].
  destruct (decide (i = 31)) as [->|].
  - rewrite (Z.testbit_neg_r y) by lia. symmetry. apply (word_high_bits 32); word_range.
  - rewrite crc32_reverse_bit by lia. f_equal. lia.
Qed.

Lemma forward_reflected y :
  0 <= y < 2 ^ 32 -> crc32_reverse (forward_bit y) = reflected_bit (crc32_reverse y).
Proof.
  intros Hy. unfold forward_bit, reflected_bit.
  rewrite crc32_reverse_bit by lia. change (31 - 0) with 31.
  destruct (Z.testbit y 31); rewrite ?crc32_reverse_lxor, shiftr_1_reverse by word_range;
    reflexivity.
Qed.

Lemma crc32_bit_sum c y :
  0 <= c < 2 ^ 32 -> 0 <= y < 2 ^ 32 ->
  Z.lxor (fst (crc32_bit (c, y))) (snd (crc32_bit (c, y))) = forward_bit (Z.lxor c y).
Proof.
  intros Hc Hy. cbn [crc32_bit fst snd]. unfold forward_bit, s32.
  rewrite swrap_sign by word_range. change (32 - 1) with 31.
  assert (u32 (Z.shiftl (Z.lxor c y) 1) = Z.lxor (u32 (Z.shiftl c 1)) (u32 (Z.shiftl y 1))) as ->.
  { word_eq 32 i. autorewrite with cbits. now destruct (i <? 32). }
  destruct (Z.testbit (Z.lxor c y) 31); [|reflexivity].
  now rewrite !Z.lxor_assoc, (Z.lxor_comm 0x4c11db7).
Qed.

Lemma crc32_bit_words c y :
  let '(c', y') := crc32_bit (c, y) in 0 <= c' < 2 ^ 32 /\ 0 <= y' < 2 ^ 32.
Proof. cbn. split; [destruct (_ <? 0)|]; word_range. Qed.

Lemma crc32_bits_sum n : forall c y,
  0 <= c < 2 ^ 32 -> 0 <= y < 2 ^ 32 ->
  Z.lxor (fst (crc32_bits n (c, y))) (snd (crc32_bits n (c, y))) =
  Nat.iter n forward_bit (Z.lxor c y).
Proof.
  induction n as [|n IH]; intros c y Hc Hy; [reflexivity|].
  rewrite Nat.iter_succ_r, <- crc32_bit_sum by lia. cbn [crc32_bits].
  pose proof (crc32_bit_words c y) as Hw.
  destruct (crc32_bit (c, y)) as [c' y']. destruct Hw. now apply IH.
Qed.

(** A reversed byte occupies the top eight bits, so the loop shifts it out. *)
Lemma crc32_bits_snd n : forall c y,
  snd (crc32_bits n (c, y)) = Nat.iter n (fun y => u32 (Z.shiftl y 1)) y.
Proof.
  induction n as [|n IH]; intros c y; [reflexivity|].
  rewrite Nat.iter_succ_r. cbn [crc32_bits crc32_bit]. apply IH.
Qed.

Lemma reversed_byte_shifted_out b :
  Nat.iter 8 (fun y => u32 (Z.shiftl y 1)) (crc32_reverse (byte_val b)) = 0.
Proof. now destruct b; vm_compute. Qed.

Lemma byte_val_word b : 0 <= byte_val b < 2 ^ 32.
Proof. pose proof (byte_val_range b). lia. Qed.
#[export] Hint Resolve byte_val_word : words.

Lemma crc32_byte_forward crc b :
  0 <= crc < 2 ^ 32 ->
  crc32_byte crc b = Nat.iter 8 forward_bit (Z.lxor crc (crc32_reverse (byte_val b))).
Proof.
  intros Hc. rewrite <- crc32_bits_sum by word_range. unfold crc32_byte.
  now rewrite crc32_bits_snd, reversed_byte_shifted_out, Z.lxor_0_r.
Qed.

Lemma iter_forward_word n y : 0 <= y < 2 ^ 32 -> 0 <= Nat.iter n forward_bit y < 2 ^ 32.
Proof. intros. destruct n; [assumption|]. apply forward_bit_word. Qed.

Lemma crc32_byte_word crc b : 0 <= crc < 2 ^ 32 -> 0 <= crc32_byte crc b < 2 ^ 32.
Proof. intros. rewrite crc32_byte_forward by lia. apply iter_forward_word. word_range. Qed.

Lemma iter_forward_reflected n y :
  0 <= y < 2 ^ 32 ->
  crc32_reverse (Nat.iter n forward_bit y) = Nat.iter n reflected_bit (crc32_reverse y).
Proof.
  intros. induction n as [|n IH]; [reflexivity|].
  rewrite !Nat.iter_succ, forward_reflected, IH by now apply iter_forward_word. reflexivity.
Qed.

Lemma crc32_byte_reflected crc b :
  0 <= crc < 2 ^ 32 ->
  crc32_reverse (crc32_byte crc b) = reflected_byte (crc32_reverse crc) b.
Proof.
  intros. rewrite crc32_byte_forward, iter_forward_reflected, crc32_reverse_lxor by word_range.
  unfold reflected_byte. now rewrite crc32_reverse_involutive_word by word_range.
Qed.

Lemma crc32_fold_word data crc :
  0 <= crc < 2 ^ 32 -> 0 <= fold_left crc32_byte data crc < 2 ^ 32.
Proof. apply (fold_left_inv (fun c => 0 <= c < 2 ^ 32)), crc32_byte_word. Qed.

Lemma crc32_fold_reflected data crc :
  0 <= crc < 2 ^ 32 ->
  crc32_reverse (fold_left crc32_byte data crc) =
  fold_left reflected_byte data (crc32_reverse crc).
Proof.
  apply (fold_left_sim (fun c => 0 <= c < 2 ^ 32) _ _ _ _ crc32_byte_word crc32_byte_reflected).
Qed.

Lemma lnot_word x : 0 <= x < 2 ^ 32 -> u32 (Z.lnot x) = Z.lxor x 0xffffffff.
Proof.
  intros. word_eq 32 i. autorewrite with cbits. rewrite Z.lnot_spec by lia.
  destruct (Z.ltb_spec i 32); [|lia]. below 32 i; norm_bits; now destruct (Z.testbit x _).
Qed.

(** Finalising the register that a whole buffer leaves behind gives the
    reflected algorithm. *)
Lemma crc32_finalize_fold data :
  crc32_finalize (Crc32 (fold_left crc32_byte data 0xffffffff)) = Crc32 (reflected_crc32 data).
Proof.
  unfold crc32_finalize. cbn [hash]. f_equal.
  pose proof (crc32_fold_word data 0xffffffff ltac:(lia)).
  rewrite lnot_word, crc32_reverse_lxor, crc32_fold_reflected by word_range. reflexivity.
Qed.

(* ------------------------------------------------------------------ *)
(** ** Error detection *)

(** The bytes of a buffer as one little-endian number. *)
Fixpoint le_number (data : list byte) : Z :=
  match data with
  | [] => 0
  | b :: data => Z.lxor (byte_val b) (Z.shiftl (le_number data) 8)
  end.

Lemma reflected_bit_shift x y :
  reflected_bit (Z.lxor x (Z.shiftl y 1)) = Z.lxor (reflected_bit x) y.
Proof.
  unfold reflected_bit.
  rewrite Z.lxor_spec, Z.shiftl_spec, (Z.testbit_neg_r y), xorb_false_r by lia.
  rewrite Z.shiftr_lxor, (Z.shiftr_shiftl_l y 1 1) by lia.
  change (1 - 1) with 0. rewrite Z.shiftl_0_r.
  destruct (Z.testbit x 0); [|reflexivity].
  now rewrite !Z.lxor_assoc, (Z.lxor_comm y).
Qed.

Lemma iter_reflected_shift n : forall x y,
  Nat.iter n reflected_bit (Z.lxor x (Z.shiftl y (Z.of_nat n))) =
  Z.lxor (Nat.iter n reflected_bit x) y.
Proof.
  induction n as [|n IH]; intros x y.
  - simpl. now rewrite Z.shiftl_0_r.
  - rewrite Nat2Z.inj_succ, <- Z.add_1_l, <- Z.shiftl_shiftl by lia.
    rewrite !Nat.iter_succ, IH. apply reflected_bit_shift.
Qed.

(** The register after a buffer: all its bits are added first, then shifted out. *)
Lemma reflected_fold_number data : forall r,
  fold_left reflected_byte data r =
  Nat.iter (8 * length data) reflected_bit (Z.lxor r (le_number data)).
Proof.
  induction data as [|b data IH]; intros r; [now rewrite Z.lxor_0_r|].
  cbn [fold_left le_number length]. rewrite IH.
  rewrite Nat.mul_succ_r, Nat.iter_add, <- Z.lxor_assoc.
  now rewrite (iter_reflected_shift 8).
Qed.

Lemma reflected_bit_word r : 0 <= r < 2 ^ 32 -> 0 <= reflected_bit r < 2 ^ 32.
Proof. intros. unfold reflected_bit. destruct (Z.testbit r 0); word_range. Qed.

(** Bit 31 of the result tells which branch was taken, so the step is injective. *)
Lemma reflected_bit_inj x y :
  0 <= x < 2 ^ 32 -> 0 <= y < 2 ^ 32 -> reflected_bit x = reflected_bit y -> x = y.
Proof.
  intros Hx Hy E.
  assert (forall r, 0 <= r < 2 ^ 32 -> Z.testbit (reflected_bit r) 31 = Z.testbit r 0) as Htop.
  { intros r Hr. unfold reflected_bit. destruct (Z.testbit r 0); bits; out_bits 32 r; reflexivity. }
  assert (Z.testbit x 0 = Z.testbit y 0) as E0 by (rewrite <- !Htop, E by lia; reflexivity).
  assert (Z.shiftr x 1 = Z.shiftr y 1) as Es.
  { unfold reflected_bit in E. rewrite <- E0 in E.
    destruct (Z.testbit x 0); [|exact E]. exact (lxor_inj_l _ _ _ E). }
  apply (word_ext 32); [lia..|]. intros i Hi.
  destruct (decide (i = 0)) as [->|]; [exact E0|].
  replace i with (i - 1 + 1) by lia. now rewrite <- !Z.shiftr_spec, Es by lia.
Qed.

Lemma iter_reflected_word n r : 0 <= r < 2 ^ 32 -> 0 <= Nat.iter n reflected_bit r < 2 ^ 32.
Proof.
  intros. apply (Nat.iter_ind (fun r => 0 <= r < 2 ^ 32)); auto using reflected_bit_word.
Qed.

Lemma iter_reflected_inj n x y :
  0 <= x < 2 ^ 32 -> 0 <= y < 2 ^ 32 ->
  Nat.iter n reflected_bit x = Nat.iter n reflected_bit y -> x = y.
Proof.
  intros Hx Hy. induction n as [|n IH]; [done|]. rewrite !Nat.iter_succ. intros E.
  apply IH, reflected_bit_inj; auto using iter_reflected_word.
Qed.

Lemma reflected_byte_word r b : 0 <= r < 2 ^ 32 -> 0 <= reflected_byte r b < 2 ^ 32.
Proof.
  intros. unfold reflected_byte. apply iter_reflected_word. word_range.
Qed.

Lemma reflected_fold_word data r :
  0 <= r < 2 ^ 32 -> 0 <= fold_left reflected_byte data r < 2 ^ 32.
Proof. apply (fold_left_inv (fun c => 0 <= c < 2 ^ 32)), reflected_byte_word. Qed.

Lemma reflected_byte_inj x y b :
  0 <= x < 2 ^ 32 -> 0 <= y < 2 ^ 32 -> reflected_byte x b = reflected_byte y b -> x = y.
Proof.
  intros Hx Hy E. apply (lxor_inj_l x y (byte_val b)).
  apply (iter_reflected_inj 8); [word_range..|exact E].
Qed.

Lemma reflected_fold_inj data : forall x y,
  0 <= x < 2 ^ 32 -> 0 <= y < 2 ^ 32 ->
  fold_left reflected_byte data x = fold_left reflected_byte data y -> x = y.
Proof.
  induction data as [|b data IH]; intros x y Hx Hy E; [exact E|].
  apply (reflected_byte_inj _ _ b); [done..|].
  cbn [fold_left] in E. apply IH in E; auto using reflected_byte_word.
Qed.

Lemma byte_val_inj a b : byte_val a = byte_val b -> a = b.
Proof.
  unfold byte_val. intros E. apply N2Z.inj in E.
  pose proof (Byte.of_to_N a) as Ha. rewrite E, Byte.of_to_N in Ha. congruence.
Qed.

Lemma le_number_word data : 0 <= le_number data < 2 ^ (8 * Z.of_nat (length data)).
Proof.
  induction data as [|b data IH]; cbn [le_number length]; [simpl; lia|].
  pose proof (byte_val_range b) as Hb.
  replace (8 * Z.of_nat (S (length data))) with (8 * Z.of_nat (length data) + 8) by lia.
  assert (2 ^ (8 * Z.of_nat (length data) + 8) = 2 ^ (8 * Z.of_nat (length data)) * 2 ^ 8) as E
    by (apply Z.pow_add_r; lia).
  assert (2 ^ 8 <= 2 ^ (8 * Z.of_nat (length data) + 8)) by (apply Z.pow_le_mono_r; lia).
  apply lxor_word; [lia..|]. rewrite Z.shiftl_mul_pow2 by lia. rewrite E. nia.
Qed.

Lemma le_number_bytes b data :
  wrap 8 (le_number (b :: data)) = byte_val b /\
  Z.shiftr (le_number (b :: data)) 8 = le_number data.
Proof.
  pose proof (byte_val_range b) as Hb. cbn [le_number]. split.
  - apply (word_ext 8); [lia | apply wrap_range; lia | lia |]. intros i Hi.
    rewrite testbit_wrap, Z.lxor_spec, Z.shiftl_spec, (Z.testbit_neg_r (le_number data)),
      xorb_false_r by lia.
    destruct (Z.ltb_spec i 8); [reflexivity | lia].
  - rewrite Z.shiftr_lxor, Z.shiftr_shiftl_l by lia.
    rewrite Z.shiftl_0_r, (Z.shiftr_div_pow2 (byte_val b)), Z.div_small by lia.
    apply Z.lxor_0_l.
Qed.

Lemma le_number_inj v : forall w, length v = length w -> le_number v = le_number w -> v = w.
Proof.
  induction v as [|b v IH]; intros [|c w] Hl E; try discriminate; [reflexivity|].
  destruct (le_number_bytes b v) as [Hb Hv], (le_number_bytes c w) as [Hc Hw].
  rewrite E in Hb, Hv. injection Hl as Hl.
  f_equal; [apply byte_val_inj; congruence | apply IH; congruence].
Qed.

(** The register after two different windows of at most 32 bits differs. *)
Lemma reflected_fold_window v w r :
  length v = length w -> (length v <= 4)%nat -> v <> w -> 0 <= r < 2 ^ 32 ->
  fold_left reflected_byte v r <> fold_left reflected_byte w r.
Proof.
  intros Hl Hn Hvw Hr E. apply Hvw, (le_number_inj v w Hl).
  assert (forall u, (length u <= 4)%nat -> 0 <= le_number u < 2 ^ 32) as Hu.
  { intros u Hu. pose proof (le_number_word u).
    assert (2 ^ (8 * Z.of_nat (length u)) <= 2 ^ 32) by (apply Z.pow_le_mono_r; lia). lia. }
  rewrite !reflected_fold_number, <- Hl in E.
  pose proof (Hu v Hn). pose proof (Hu w ltac:(lia)).
  apply iter_reflected_inj in E; [|word_range..].
  rewrite !(Z.lxor_comm r) in E. exact (lxor_inj_l _ _ _ E).
Qed.

Lemma reflected_crc32_window p v w s :
  length v = length w -> (length v <= 4)%nat -> v <> w ->
  reflected_crc32 (p ++ v ++ s) <> reflected_crc32 (p ++ w ++ s).
Proof.
  intros Hl Hn Hvw E. apply lxor_inj_l in E. rewrite !fold_left_app in E.
  pose proof (reflected_fold_word p 0xffffffff ltac:(lia)) as Hp.
  apply reflected_fold_inj in E; [|now apply reflected_fold_word..].
  revert E. now apply reflected_fold_window.
Qed.

Lemma reflected_crc32_word data : 0 <= reflected_crc32 data < 2 ^ 32.
Proof.
  pose proof (reflected_fold_word data 0xffffffff ltac:(lia)). unfold reflected_crc32. word_range.
Qed.

(** The hash of a buffer handed over in one piece. *)
Definition crc32_of (data : list byte) : Z :=
  hash (crc32_finalize (crc32_update (crc32_init (Crc32 0)) (length data) data)).

Lemma crc32_of_reflected data : crc32_of data = reflected_crc32 data.
Proof.
  unfold crc32_of, crc32_update. rewrite firstn_all. unfold crc32_init. cbn [hash].
  now rewrite crc32_finalize_fold.
Qed.

(* ------------------------------------------------------------------ *)
(** ** Properties *)

(** C1: the context operations compute the standard (reflected, polynomial
    0xEDB88320) CRC32 of everything handed to [crc32_update], however the data
    is cut into pieces, and whatever the context held before [crc32_init]. *)
Theorem crc32_streaming (context : crc32) (pieces : list (list byte)) :
  crc32_finalize
    (fold_left (fun c p => crc32_update c (length p) p) pieces (crc32_init context)) =
  Crc32 (reflected_crc32 (concat pieces)).
Proof.
  assert (forall c, fold_left (fun c p => crc32_update c (length p) p) pieces c =
                    Crc32 (fold_left crc32_byte (concat pieces) (hash c))) as ->.
  { induction pieces as [|p ps IH]; intros [h]; [reflexivity|]. cbn [fold_left].
    rewrite IH. unfold crc32_update. cbn [hash concat]. now rewrite firstn_all, fold_left_app. }
  apply crc32_finalize_fold.
Qed.

Definition check_string : list byte := ["1"; "2"; "3"; "4"; "5"; "6"; "7"; "8"; "9"]%byte.

(** The check value every CRC-32 implementation is tested against. *)
Example crc32_check_value : crc32_of check_string = 0xcbf43926.
Proof. vm_compute. reflexivity. Qed.

(** C4: a corruption confined to four consecutive bytes always changes the
    hash: two buffers of the same length that differ only inside such a window
    have different hashes. *)
Theorem crc32_detects_bursts (before v w after : list byte) :
  length v = length w -> (length v <= 4)%nat -> v <> w ->
  crc32_of (before ++ v ++ after) <> crc32_of (before ++ w ++ after).
Proof. intros. rewrite !crc32_of_reflected. now apply reflected_crc32_window. Qed.

Lemma crc32_detects_bursts_witness :
  crc32_of (["a"] ++ ["b"; "c"; "d"; "e"] ++ ["f"])%byte <>
  crc32_of (["a"] ++ ["b"; "x"; "d"; "y"] ++ ["f"])%byte.
Proof.
  apply (crc32_detects_bursts ["a"]%byte ["b"; "c"; "d"; "e"]%byte ["b"; "x"; "d"; "y"]%byte
           ["f"]%byte); [reflexivity | vm_compute; lia | discriminate].
Defined.
