(* ===== verification/CrcTools.v ===== *)
(** [hw01]: hashing a descriptor ([get_crc.c]), printing hashes
    ([crc32sum.c]) and verifying a bundle ([crc32check.c]). *)

From S2P Require Import Prelude CLib Posix Bits Crc.
From Stdlib Require Import Strings.Byte.

Open Scope string_scope.
Open Scope Z_scope.

(* ------------------------------------------------------------------ *)
(** ** get_crc.c *)

(** [while ((size = read(fd, buffer, BUFFER_SIZE)) > 0)]: the last value of
    [size] ([0] or [-1]) and the context. *)
Fixpoint get_crc32_loop (rs : reads) (context : crc32) : Z * crc32 :=
  match rs with
  | Data (b :: bs) :: rest =>
      get_crc32_loop rest (crc32_update context (length (b :: bs)) (b :: bs))
  | ReadError _ :: _ => (-1, context)
  | _ => (0, context)
  end.

(** [bool get_crc32(int fd, crc32 *context)]; [rs] is what [read] returns on [fd]. *)
Definition get_crc32 (fd : Z) (rs : reads) (context : crc32) : bool * crc32 :=
  if fd =? -1 then (false, context)
  else
    let '(size, context) := get_crc32_loop rs (crc32_init context) in
    if size <? 0 then (false, context)
    else (size =? 0, crc32_finalize context).

Lemma get_crc32_loop_fold rs : forall context,
  get_crc32_loop rs context =
  ((if read_fails rs then -1 else 0),
   Crc32 (fold_left crc32_byte (delivered rs) (hash context))).
Proof.
  induction rs as [|[[|b bs]|e] rs IH]; intros [h]; try reflexivity.
  cbn [get_crc32_loop delivered read_fails]. rewrite IH. unfold crc32_update.
  cbn [hash]. now rewrite firstn_all, fold_left_app.
Qed.

(** The result of [get_crc32] on an open descriptor, whatever the sizes in
    which [read] delivers the data. *)
Lemma get_crc32_spec fd rs context :
  fd <> -1 ->
  get_crc32 fd rs context =
  if read_fails rs
  then (false, Crc32 (fold_left crc32_byte (delivered rs) 0xffffffff))
  else (true, Crc32 (reflected_crc32 (delivered rs))).
Proof.
  intros Hfd. unfold get_crc32. rewrite (proj2 (Z.eqb_neq fd (-1)) Hfd).
  rewrite get_crc32_loop_fold.
  destruct (read_fails rs) eqn:E; [reflexivity|]. cbn [crc32_init hash Z.ltb Z.eqb Z.compare].
  f_equal. apply crc32_finalize_fold.
Qed.

(* ------------------------------------------------------------------ *)
(** ** The environment of the two programs *)

(** An opened file: its descriptor, what [read] returns on it and whether
    [close] succeeds. *)
Record file := File { f_fd : nat; f_reads : reads; f_close : bool }.

Definition fd_of (f : file) : Z := Z.of_nat (f_fd f).

(** [open(name, O_RDONLY)]: [None] when it returns [-1]. *)
Abbreviation fs := (string -> option file).

(** The message of [get_crc32] itself when [read] fails. *)
Definition read_message (f : file) : list output :=
  if read_fails (f_reads f) then [Stderr "read"] else [].

Definition stdout_text (out : list output) : string :=
  String.concat "" (map (fun o => match o with Stdout s => s | Stderr _ => "" end) out).

(* ------------------------------------------------------------------ *)
(** ** crc32sum.c *)

(** [ss_stdin] is [None] once descriptor 0 has been closed. *)
Record sum_state := SumState { ss_stdin : option file; ss_errors : Z; ss_out : list output }.

Definition sum_emit (st : sum_state) (os : list output) : sum_state :=
  SumState (ss_stdin st) (ss_errors st) (ss_out st ++ os).

Definition sum_error (st : sum_state) (msg : string) : sum_state :=
  SumState (ss_stdin st) (ss_errors st + 1) (ss_out st ++ [Stderr msg]).

(** From "compute CRC32 hash" to the end of the loop body. *)
Definition crc32sum_process (st : sum_state) (fn : string) (f : file) : sum_state :=
  let st := sum_emit st (read_message f) in
  let st :=
    match get_crc32 (fd_of f) (f_reads f) (Crc32 0) with
    | (true, context) => sum_emit st [Stdout (hex 8 (hash context) ++ " " ++ fn ++ nl)]
    | (false, _) => sum_error st ("get_crc32(" ++ fn ++ ")")
    end in
  if f_close f then st else sum_error st ("fclose(" ++ fn ++ ")").

(** A closed descriptor: [read] and [close] fail. *)
Definition bad_fd : file := File 0 [ReadError 9] false.

(** The loop body: the name ["-"] stands for standard input. *)
Definition crc32sum_file (open : fs) (st : sum_state) (fn : string) : sum_state :=
  if bool_decide (fn = "-") then
    let st := crc32sum_process st fn (default bad_fd (ss_stdin st)) in
    SumState None (ss_errors st) (ss_out st)
  else
    match open fn with
    | None => sum_emit st [Stderr fn]
    | Some f => crc32sum_process st fn f
    end.

Definition crc32sum_main (open : fs) (stdin : file) (argv : list string) : Z * sum_state :=
  let args := match argv with [] => ["-"] | _ => argv end in
  (EXIT_SUCCESS, fold_left (crc32sum_file open) args (SumState (Some stdin) 0 [])).

(* ------------------------------------------------------------------ *)
(** ** crc32check.c *)

(** Verification of one opened file: the counted error and the messages. *)
Definition verify_file (crc : Z) (name : string) (f : file) : Z * list output :=
  let '(errors, out) :=
    match get_crc32 (fd_of f) (f_reads f) (Crc32 0) with
    | (false, _) => (1, [Stderr name])
    | (true, context) =>
        if crc =? hash context then (0, [Stdout (name ++ ": OK" ++ nl)])
        else (1, [Stdout (name ++ ": FAILED" ++ nl)])
    end in
  (errors, (read_message f ++ out ++ (if f_close f then [] else [Stderr name]))%list).

(** The [while] loop of [process_bundle]: the number of errors and the output. *)
Fixpoint process_lines (open : fs) (fn : string) (lineno : Z) (lines : list string)
    : Z * list output :=
  match lines with
  | [] => (0, [])
  | line :: lines =>
      let lineno := lineno + 1 in
      let where_ := fn ++ ":" ++ dec lineno in
      let '(crcstr, saved) := strtok line (String space nl) in
      let '(name, _) := strtok saved nl in
      match crcstr, name with
      | Some crcstr, Some name =>
          let p := strtoull crcstr 16 in
          let crc := u32 (st_value p) in
          if bool_decide (st_rest p = "") then
            let '(e, out) :=
              match open name with
              | None => (1, [Stderr name])
              | Some f => verify_file crc name f
              end in
            let '(es, outs) := process_lines open fn lineno lines in
            (e + es, (out ++ outs)%list)
          else (1, [Stderr (where_ ++ ": invalid hash '" ++ crcstr ++ "'")])
      | _, _ => (1, [Stderr (where_ ++ ": invalid format")])
      end
  end.

(** [int process_bundle(int fd, char *fn)]; [text] is [None] when [fdopen] fails. *)
Definition process_bundle (open : fs) (text : option string) (fn : string) : Z * list output :=
  match text with
  | None => (0, [])
  | Some text =>
      let '(errors, out) := process_lines open fn 0 (getlines text) in
      (errors,
       (out ++ if errors =? 0 then []
               else [Stdout ("WARNING: there were " ++ dec errors ++ " errors" ++ nl)%string])%list)
  end.

(** A bundle that was opened: its text and whether closing it succeeds. *)
Record bundle := Bundle { b_text : option string; b_close : bool }.

Definition crc32check_main (open : fs) (open_bundle : string -> option bundle)
    (stdin : option string) (argv0 : string) (argv : list string) : Z * list output :=
  match argv with
  | [] =>
      let '(errors, out) := process_bundle open stdin "stdin" in
      ((if errors =? 0 then EXIT_SUCCESS else EXIT_FAILURE), out)
  | [fn] =>
      match open_bundle fn with
      | None => (EXIT_FAILURE, [Stderr fn])
      | Some b =>
          let '(errors, out) := process_bundle open (b_text b) fn in
          if b_close b
          then ((if errors =? 0 then EXIT_SUCCESS else EXIT_FAILURE), out)
          else (EXIT_FAILURE, (out ++ [Stderr fn])%list)
      end
  | _ => (EXIT_FAILURE, [Stderr ("usage: " ++ argv0 ++ " [BUNDLE]" ++ nl)])
  end.

(* ------------------------------------------------------------------ *)
(** ** A line written by [crc32sum] is read back by [crc32check] *)

(** The line written for a file, without its newline. *)
Definition sum_line (h : Z) (fn : string) : string := hex 8 h ++ " " ++ fn.

(** A name that names a file of its own in a bundle. *)
Definition good_name (fn : string) : Prop := fn <> "" /\ fn <> "-" /\ no_newline fn.

Lemma no_delim_nl s : no_newline s -> no_delim nl s.
Proof.
  intros Hs. eapply Forall_impl; [exact Hs|]. intros c Hc. unfold mem_char. apply bool_decide_eq_false_2.
  simpl. now rewrite list_elem_of_singleton.
Qed.

Lemma no_newline_app a b : no_newline a -> no_newline b -> no_newline (a ++ b).
Proof.
  intros Ha Hb. induction a as [|c a IH]; [exact Hb|].
  apply Forall_cons in Ha as [Hc Ha]. constructor; [exact Hc|]. now apply IH.
Qed.

Lemma no_newline_hex n x : 0 <= x -> no_newline (hex n x).
Proof.
  intros Hx. unfold no_newline. induction n as [|n IH]; simpl; constructor; [|exact IH].
  apply (hex_digit_cases _ (.≠ newline)); [apply Z.mod_pos_bound; lia|].
  repeat constructor; discriminate.
Qed.

Lemma no_newline_sum_line h fn : 0 <= h -> no_newline fn -> no_newline (sum_line h fn).
Proof.
  intros Hh Hfn. apply no_newline_app; [now apply no_newline_hex|].
  apply no_newline_app; [|exact Hfn]. repeat constructor. discriminate.
Qed.

Lemma strtok_sum_line h fn :
  0 <= h -> strtok (sum_line h fn ++ nl) (String space nl) = (Some (hex 8 h), fn ++ nl).
Proof.
  intros Hh. unfold sum_line. rewrite append_assoc_s.
  apply (strtok_token (String space nl)); [|reflexivity].
  apply (no_delim_hex _ 8 h Hh). repeat constructor.
Qed.

Lemma strtok_name fn : good_name fn -> strtok (fn ++ nl) nl = (Some fn, "").
Proof.
  intros (Hne & _ & Hnl). destruct fn as [|a s]; [done|].
  apply (strtok_token nl a s newline ""); [now apply no_delim_nl | reflexivity].
Qed.

Lemma strtoull_hex h : 0 <= h < 2 ^ 32 -> strtoull (hex 8 h) 16 = Strto h "" true false.
Proof.
  intros Hh. unfold strtoull, scan_number.
  assert (skip_spaces (hex 8 h) = hex 8 h) as ->.
  { simpl. rewrite (hex_digit_cases _ (fun c => isspace c = false)); [reflexivity | |].
    - apply Z.mod_pos_bound. lia.
    - repeat constructor. }
  assert (scan_sign (hex 8 h) = (false, hex 8 h)) as ->.
  { simpl. apply (hex_digit_cases _ (fun c => scan_sign (String c _) = (false, String c _)));
      [apply Z.mod_pos_bound; lia | repeat constructor]. }
  assert (scan_prefix 16 (hex 8 h) = hex 8 h) as ->.
  { cbn [hex]. apply (hex_digit_cases (_ / 16 ^ Z.of_nat 6 mod 16)
      (fun c => scan_prefix 16 (String _ (String c _)) = String _ (String c _)));
      [apply Z.mod_pos_bound; lia|].
    apply (hex_digit_cases (_ / 16 ^ Z.of_nat 7 mod 16)
      (fun d => Forall (fun c => scan_prefix 16 (String d (String c _)) = String d (String c _)) _));
      [apply Z.mod_pos_bound; lia | repeat constructor]. }
  rewrite <- (append_nil_r (hex 8 h)), scan_digits_hex by lia.
  cbn [scan_digits orb Nat.ltb Nat.leb]. change (0 * 16 ^ Z.of_nat 8) with 0.
  change (16 ^ Z.of_nat 8) with (2 ^ 32). rewrite Z.mod_small, Z.add_0_l by lia.
  destruct (Z.ltb_spec SIZE_MAX h) as [|_]; [unfold SIZE_MAX in *; lia|].
  now rewrite u64_small by lia.
Qed.

(** A file whose content can be read and that can be closed. *)
Definition readable (f : file) : Prop := read_fails (f_reads f) = false /\ f_close f = true.

Definition file_hash (f : file) : Z := reflected_crc32 (delivered (f_reads f)).

Lemma get_crc32_readable f c :
  readable f -> get_crc32 (fd_of f) (f_reads f) c = (true, Crc32 (file_hash f)).
Proof.
  intros [Hr _]. rewrite get_crc32_spec by (unfold fd_of; lia). now rewrite Hr.
Qed.

Lemma verify_file_readable crc name f :
  readable f ->
  verify_file crc name f =
  if crc =? file_hash f then (0, [Stdout (name ++ ": OK" ++ nl)])
  else (1, [Stdout (name ++ ": FAILED" ++ nl)]).
Proof.
  intros Hf. unfold verify_file, read_message.
  rewrite get_crc32_readable by exact Hf. destruct Hf as [-> ->]. cbn [hash].
  now destruct (crc =? file_hash f).
Qed.

(** One line of a bundle in the format of [crc32sum]: the verdict is the
    comparison of the recorded hash with the hash of the file. *)
Lemma process_sum_line open fn lineno h name f lines :
  0 <= h < 2 ^ 32 -> good_name name -> open name = Some f -> readable f ->
  process_lines open fn lineno ((sum_line h name ++ nl) :: lines) =
  let '(e, out) := if h =? file_hash f then (0, [Stdout (name ++ ": OK" ++ nl)])
                   else (1, [Stdout (name ++ ": FAILED" ++ nl)]) in
  let '(es, outs) := process_lines open fn (lineno + 1) lines in
  (e + es, (out ++ outs)%list).
Proof.
  intros Hh Hn Ho Hf. cbn [process_lines].
  rewrite strtok_sum_line, strtok_name, strtoull_hex by (lia || done).
  cbn [st_value st_rest]. rewrite bool_decide_eq_true_2 by reflexivity.
  rewrite Ho, verify_file_readable, u32_small by done. reflexivity.
Qed.

Lemma crc32sum_file_readable open st name f :
  good_name name -> open name = Some f -> readable f ->
  crc32sum_file open st name = sum_emit st [Stdout (sum_line (file_hash f) name ++ nl)].
Proof.
  intros (_ & Hd & _) Ho Hf. unfold crc32sum_file.
  rewrite bool_decide_eq_false_2, Ho by exact Hd. unfold crc32sum_process, read_message.
  rewrite get_crc32_readable by exact Hf. destruct Hf as [-> ->].
  unfold sum_emit, sum_line. cbn [hash ss_stdin ss_errors ss_out].
  now rewrite app_nil_r, !append_assoc_s.
Qed.

(** The files named on the command line, in order, all readable. *)
Definition files_of (open : fs) (names : list string) (files : list file) : Prop :=
  Forall2 (fun n f => good_name n /\ open n = Some f /\ readable f) names files.

Lemma crc32sum_fold open names files st :
  files_of open names files ->
  fold_left (crc32sum_file open) names st =
  sum_emit st (zip_with (fun n f => Stdout (sum_line (file_hash f) n ++ nl)) names files).
Proof.
  intros H. revert st. induction H as [|n f names files (Hn & Ho & Hf) _ IH]; intros st.
  - destruct st. unfold sum_emit. simpl. now rewrite app_nil_r.
  - cbn [fold_left zip_with]. rewrite IH, (crc32sum_file_readable _ _ _ f) by done.
    unfold sum_emit. cbn [ss_stdin ss_errors ss_out]. now rewrite <- app_assoc.
Qed.

Lemma stdout_text_lines {A B} (g : A -> B -> string) (xs : list A) (ys : list B) :
  stdout_text (zip_with (fun x y => Stdout (g x y ++ nl)) xs ys) = unlines (zip_with g xs ys).
Proof.
  unfold stdout_text, unlines. f_equal. revert ys.
  induction xs as [|x xs IH]; intros [|y ys]; simpl; [done..|]. now rewrite IH.
Qed.

(** A bundle with arbitrary recorded hashes for readable files. *)
Abbreviation entry := (Z * string * file)%type.

Definition entry_line (e : entry) : string := let '(h, n, _) := e in sum_line h n.

Definition entry_match (e : entry) : bool := let '(h, _, f) := e in h =? file_hash f.

Definition entry_verdict (e : entry) : output :=
  let '(_, n, _) := e in
  Stdout (n ++ (if entry_match e then ": OK" else ": FAILED") ++ nl).

Definition entry_good (open : fs) (e : entry) : Prop :=
  let '(h, n, f) := e in
  0 <= h < 2 ^ 32 /\ good_name n /\ open n = Some f /\ readable f.

(** The number of recorded hashes that do not match. *)
Fixpoint mismatches (es : list entry) : Z :=
  match es with
  | [] => 0
  | e :: es => (if entry_match e then 0 else 1) + mismatches es
  end.

Lemma process_entries open fn es lineno :
  Forall (entry_good open) es ->
  process_lines open fn lineno (map (fun s => s ++ nl) (map entry_line es)) =
  (mismatches es, map entry_verdict es).
Proof.
  intros H. revert lineno.
  induction H as [|[[h n] f] es (Hh & Hn & Ho & Hf) _ IH]; intros lineno; [reflexivity|].
  cbn [map entry_line]. rewrite (process_sum_line _ _ _ _ _ f) by done.
  cbn [mismatches entry_match entry_verdict]. rewrite IH.
  now destruct (h =? file_hash f).
Qed.

Lemma entry_lines_no_newline open es :
  Forall (entry_good open) es -> Forall no_newline (map entry_line es).
Proof.
  induction 1 as [|[[h n] f] es (Hh & (_ & _ & Hn) & _) _ IH]; constructor; [|exact IH].
  now apply no_newline_sum_line.
Qed.

(** The entries that [crc32sum] writes. *)
Definition own_entries (names : list string) (files : list file) : list entry :=
  zip_with (fun n f => (file_hash f, n, f)) names files.

Lemma own_entries_good open names files :
  files_of open names files ->
  Forall (entry_good open) (own_entries names files) /\
  mismatches (own_entries names files) = 0 /\
  map entry_verdict (own_entries names files) = map (fun n => Stdout (n ++ ": OK" ++ nl)) names /\
  map entry_line (own_entries names files) =
  zip_with (fun n f => sum_line (file_hash f) n) names files.
Proof.
  induction 1 as [|n f names files (Hn & Ho & Hf) _ (IH1 & IH2 & IH3 & IH4)]; [done|].
  unfold own_entries in *. cbn [zip_with map mismatches entry_match entry_verdict entry_line].
  rewrite Z.eqb_refl, IH2, IH3, IH4. split_and!; [|done..].
  constructor; [|exact IH1]. split_and!; try done; apply reflected_crc32_word.
Qed.

(** [crc32check] on a bundle that can be opened, read and closed. *)
Lemma crc32check_entries open open_bundle stdin argv0 fn es :
  Forall (entry_good open) es ->
  open_bundle fn = Some (Bundle (Some (unlines (map entry_line es))) true) ->
  crc32check_main open open_bundle stdin argv0 [fn] =
  ((if mismatches es =? 0 then EXIT_SUCCESS else EXIT_FAILURE),
   (map entry_verdict es ++
    if mismatches es =? 0 then []
    else [Stdout ("WARNING: there were " ++ dec (mismatches es) ++ " errors" ++ nl)%string])%list).
Proof.
  intros Hes Hb. unfold crc32check_main, process_bundle. rewrite Hb. cbn [b_text b_close].
  rewrite getlines_unlines by now apply (entry_lines_no_newline open).
  now rewrite process_entries by exact Hes.
Qed.

(* ------------------------------------------------------------------ *)
(** ** Properties *)

(** On every open descriptor [get_crc32] either reports the failure of
    [read], or succeeds with the standard CRC32 of exactly the bytes delivered
    before end of file, whatever the sizes of the reads. *)
Theorem get_crc32_result (f : file) (context : crc32) :
  get_crc32 (fd_of f) (f_reads f) context =
  if read_fails (f_reads f)
  then (false, Crc32 (fold_left crc32_byte (delivered (f_reads f)) 0xffffffff))
  else (true, Crc32 (reflected_crc32 (delivered (f_reads f)))).
Proof. apply get_crc32_spec. unfold fd_of. lia. Qed.

(** C16: the bundle that [crc32sum] prints for a list of readable files whose names
    are not empty, not ["-"], which is standard input, and without a newline, which
    ends a line of the bundle, is accepted by [crc32check]: every file is reported
    [OK], no error is counted and the exit status is [EXIT_SUCCESS]. *)
Theorem crc32sum_crc32check (open : fs) (open_bundle : string -> option bundle)
    (stdin : file) (stdin2 : option string) (names : list string) (files : list file)
    (argv0 fn : string) :
  names <> [] -> files_of open names files ->
  open_bundle fn =
    Some (Bundle (Some (stdout_text (ss_out (snd (crc32sum_main open stdin names))))) true) ->
  crc32check_main open open_bundle stdin2 argv0 [fn] =
  (EXIT_SUCCESS, map (fun n => Stdout (n ++ ": OK" ++ nl)) names).
Proof.
  intros Hne Hfiles Hb.
  destruct (own_entries_good open names files Hfiles) as (Hgood & Hm & Hv & Hl).
  assert (stdout_text (ss_out (snd (crc32sum_main open stdin names))) =
          unlines (map entry_line (own_entries names files))) as Hs.
  { rewrite Hl. unfold crc32sum_main. destruct names as [|n names]; [done|].
    cbn [snd]. rewrite (crc32sum_fold _ _ files) by exact Hfiles. apply stdout_text_lines. }
  rewrite (crc32check_entries open _ _ _ _ (own_entries names files)) by (done || congruence).
  rewrite Hm, Hv. cbn [Z.eqb]. now rewrite app_nil_r.
Qed.

(** A small file system for the witnesses. *)
Definition demo_file (s : list byte) : file := File 3 [Data s] true.

Definition demo_fs (name : string) : option file :=
  if bool_decide (name = "a.txt") then Some (demo_file check_string)
  else if bool_decide (name = "b c") then Some (File 4 [Data ["x"%byte]; Data ["y"%byte]] true)
  else None.

Definition demo_bundle : string :=
  "cbf43926 a.txt" ++ nl ++ "8fe62899 b c" ++ nl.

Lemma crc32sum_crc32check_witness :
  crc32check_main demo_fs (fun _ => Some (Bundle (Some demo_bundle) true)) None "crc32check"
    ["bundle.crc32"] =
  (EXIT_SUCCESS, [Stdout ("a.txt: OK" ++ nl); Stdout ("b c: OK" ++ nl)]).
Proof.
  apply (crc32sum_crc32check demo_fs (fun _ => Some (Bundle (Some demo_bundle) true))
           bad_fd None ["a.txt"; "b c"]
           [demo_file check_string; File 4 [Data ["x"%byte]; Data ["y"%byte]] true]).
  - discriminate.
  - repeat constructor; (discriminate || reflexivity).
  - vm_compute. reflexivity.
Defined.

(** A newline in a name cuts its line: the bundle of a readable file is refused. *)
Definition newline_fs (name : string) : option file :=
  if bool_decide (name = "a" ++ nl ++ "b") then Some (demo_file check_string) else None.

Example newline_in_name :
  fst (crc32check_main newline_fs
    (fun _ => Some (Bundle (Some (stdout_text (ss_out (snd
       (crc32sum_main newline_fs bad_fd ["a" ++ nl ++ "b"]))))) true)) None "crc32check" ["bundle.crc32"])
  = EXIT_FAILURE.
Proof. vm_compute. reflexivity. Qed.

(** A bundle in the format of [crc32sum] with arbitrary recorded hashes:
    each file is reported [OK] exactly when its recorded hash is the hash of its
    content, the mismatches are counted, and they decide the exit status. *)
Theorem crc32check_verdicts (open : fs) (open_bundle : string -> option bundle)
    (stdin : option string) (argv0 fn : string) (es : list entry) :
  Forall (entry_good open) es ->
  open_bundle fn = Some (Bundle (Some (unlines (map entry_line es))) true) ->
  exists out,
    crc32check_main open open_bundle stdin argv0 [fn] =
    ((if mismatches es =? 0 then EXIT_SUCCESS else EXIT_FAILURE), (map entry_verdict es ++ out)%list)
    /\ (mismatches es = 0 -> out = []).
Proof.
  intros Hes Hb. rewrite (crc32check_entries open _ _ _ _ es) by done.
  eexists. split; [reflexivity|]. now intros ->.
Qed.

(** The second hash of this bundle is off by one. *)
Definition demo_entries : list entry :=
  [(0xcbf43926, "a.txt", demo_file check_string);
   (0x8fe62898, "b c", File 4 [Data ["x"%byte]; Data ["y"%byte]] true)].

Lemma crc32check_verdicts_witness :
  mismatches demo_entries = 1 /\
  exists out,
    crc32check_main demo_fs
      (fun _ => Some (Bundle (Some (unlines (map entry_line demo_entries))) true))
      None "crc32check" ["bundle.crc32"] =
    ((if mismatches demo_entries =? 0 then EXIT_SUCCESS else EXIT_FAILURE),
     (map entry_verdict demo_entries ++ out)%list)
    /\ (mismatches demo_entries = 0 -> out = []).
Proof.
  split; [vm_compute; reflexivity|].
  apply crc32check_verdicts; [|reflexivity].
  repeat constructor; (discriminate || reflexivity).
Defined.
