(* ===== verification/QueueData.v ===== *)
(** [hw09/queue.c], the sequential part: the fields of [struct queue], the
    queries, and the updates that [queue_push] and [queue_pop] make inside their
    critical section.  The buffer is modelled byte by byte, with the offsets the
    source computes. *)

From S2P Require Import Prelude.
From Stdlib Require Import Strings.Byte.
Import Init.Byte.

(** [enum queue_error_codes] *)
Definition QUEUE_SUCCESS : Z := 0.
Definition ALLOC_FAILURE : Z := 1.
Definition WRONG_QUEUE_ARG : Z := 2.
Definition MUTEX_INIT_FAIL : Z := 3.
Definition COND_INIT_FAIL : Z := 4.
Definition MUTEX_DESTROY_FAIL : Z := 5.
Definition COND_DESTROY_FAIL : Z := 6.
Definition CANT_LOCK : Z := 7.
Definition QUEUE_FULL : Z := 8.
Definition QUEUE_EMPTY : Z := 9.
Definition QUEUE_ABORT : Z := 10.
Definition KEY_ERROR : Z := 11.

(** [struct queue_memory] *)
Record queue_memory := QueueMemory {
  memory : list byte;
  stored : Z;             (* queue_size *)
  read_pointer : Z;
  write_pointer : Z;
}.

(** [struct queue_synchronization], less the pthread objects, which are part of
    the state of the threads. *)
Record queue_synchronization := QueueSync {
  aborted : bool;
  waiting_for_pop : Z;
  waiting_for_push : Z;
}.

(** [struct queue]; the thread-specific key is part of the state of the threads. *)
Record queue := Queue {
  capacity : Z;           (* queue_capacity *)
  elem_size : Z;
  buffer : queue_memory;
  sync : queue_synchronization;
}.

Definition set_buffer (q : queue) (b : queue_memory) : queue :=
  Queue (capacity q) (elem_size q) b (sync q).

Definition set_sync (q : queue) (s : queue_synchronization) : queue :=
  Queue (capacity q) (elem_size q) (buffer q) s.

(* ------------------------------------------------------------------ *)
(** ** Queries *)

Definition queue_capacity (q : queue) : Z := capacity q.
Definition queue_element (q : queue) : Z := elem_size q.
Definition queue_size (q : queue) : Z := stored (buffer q).
Definition queue_is_empty (q : queue) : bool := stored (buffer q) =? 0.
Definition queue_is_full (q : queue) : bool := stored (buffer q) =? capacity q.

(** [size_t] arithmetic converted to [ssize_t]. *)
Definition queue_forecast (q : queue) : Z :=
  s64 ((stored (buffer q) - waiting_for_pop (sync q)) + waiting_for_push (sync q))%C.

(* ------------------------------------------------------------------ *)
(** ** The updates of the critical sections *)

(** [memcpy(memory + off, src, n)] and [memcpy(dst, memory + off, n)]; a copy
    outside the allocated block is undefined. *)
Definition copy_in (mem : list byte) (off n : Z) (src : list byte) : option (list byte) :=
  if (off + n <=? Z.of_nat (length mem)) && (n <=? Z.of_nat (length src)) then
    Some (take (Z.to_nat off) mem ++ take (Z.to_nat n) src ++ drop (Z.to_nat (off + n)) mem)
  else None.

Definition copy_out (mem : list byte) (off n : Z) : option (list byte) :=
  if off + n <=? Z.of_nat (length mem)
  then Some (take (Z.to_nat n) (drop (Z.to_nat off) mem)) else None.

(** [(p + 1) % queue_capacity]; undefined for capacity zero. *)
Definition advance (q : queue) (p : Z) : option Z :=
  if capacity q =? 0 then None else Some ((p + 1)%C mod capacity q).

(** [queue_push], from the [memcpy] to [queue_size += 1]. *)
Definition push_update (q : queue) (elem : list byte) : option queue :=
  let b := buffer q in
  mem ← copy_in (memory b) (write_pointer b * elem_size q)%C (elem_size q) elem;
  wp ← advance q (write_pointer b);
  Some (set_buffer q (QueueMemory mem (stored b + 1)%C (read_pointer b) wp)).

(** [queue_pop], from the [memcpy] (only when [elem] is not [NULL]) to
    [queue_size -= 1]: the new queue and the bytes copied to [*elem]. *)
Definition pop_update (q : queue) (want : bool) : option (queue * option (list byte)) :=
  let b := buffer q in
  out ← (if want
         then Some <$> copy_out (memory b) (write_pointer b * elem_size q)%C (elem_size q)
         else Some None);
  rp ← advance q (read_pointer b);
  Some (set_buffer q (QueueMemory (memory b) (stored b - 1)%C rp (write_pointer b)), out).

(** The queue that a successful [queue_create] leaves: [calloc] zeroes both
    the structure and the buffer. *)
Definition queue_init (elem_size capacity : Z) : queue :=
  Queue capacity elem_size
    (QueueMemory (replicate (Z.to_nat (capacity * elem_size)) x00) 0 0 0)
    (QueueSync false 0 0).

(* ------------------------------------------------------------------ *)
(** ** Abstraction: the ring of slots and the stored elements *)

Definition slot (q : queue) (i : Z) : list byte :=
  take (Z.to_nat (elem_size q)) (drop (Z.to_nat (i * elem_size q)) (memory (buffer q))).

(** All slots, starting at the write pointer. *)
Definition ring (q : queue) : list (list byte) :=
  (fun k => slot q ((write_pointer (buffer q) + Z.of_nat k) mod capacity q)) <$>
  seq 0 (Z.to_nat (capacity q)).

(** The stored elements, oldest first: the last [queue_size] slots of the ring. *)
Definition contents (q : queue) : list (list byte) :=
  drop (Z.to_nat (capacity q - stored (buffer q))) (ring q).

(** What the operations maintain. *)
Record queue_wf (q : queue) : Prop := {
  wf_cap : 0 <= capacity q;
  wf_elem : 0 <= elem_size q;
  wf_bytes : capacity q * elem_size q < 2 ^ 64;
  wf_slots : capacity q < 2 ^ 64;
  wf_memory : Z.of_nat (length (memory (buffer q))) = capacity q * elem_size q;
  wf_stored : 0 <= stored (buffer q) <= capacity q;
  wf_read : 0 < capacity q -> 0 <= read_pointer (buffer q) < capacity q;
  wf_write : 0 < capacity q ->
    write_pointer (buffer q) = (read_pointer (buffer q) + stored (buffer q)) mod capacity q;
}.

(* ------------------------------------------------------------------ *)
(** ** Lemmas on the buffer *)

(** A window of a list after replacing another stretch of it. *)
Lemma window_same {A} (mem e : list A) (a : nat) :
  (a + length e <= length mem)%nat ->
  take (length e) (drop a (take a mem ++ e ++ drop (a + length e) mem)) = e.
Proof.
  intros H. rewrite drop_app_length' by (rewrite length_take; lia).
  apply take_app_length.
Qed.

Lemma window_other {A} (mem e : list A) (a b n : nat) :
  (b + length e <= length mem)%nat -> (a + n <= b \/ b + length e <= a)%nat ->
  take n (drop a (take b mem ++ e ++ drop (b + length e) mem)) = take n (drop a mem).
Proof.
  intros Hb Hab. apply list_eq. intros i. rewrite !lookup_take. case_decide; [|done].
  rewrite !lookup_drop. destruct Hab.
  - rewrite lookup_app_l by (rewrite length_take; lia). now rewrite lookup_take_lt by lia.
  - rewrite lookup_app_r by (rewrite length_take; lia).
    rewrite lookup_app_r by (rewrite length_take; lia). rewrite lookup_drop.
    f_equal. rewrite length_take. lia.
Qed.

Lemma slot_range i j n cap : 0 <= n -> 0 <= i < cap -> 0 <= j < cap -> i <> j ->
  i * n + n <= j * n \/ j * n + n <= i * n.
Proof. intros. destruct (decide (i < j)); [left | right]; nia. Qed.

Lemma slot_in_range i n cap : 0 <= n -> 0 <= i < cap -> 0 <= i * n /\ i * n + n <= cap * n.
Proof. intros. split; nia. Qed.

Lemma mod_succ_ne w k cap : 0 <= w < cap -> 0 < k < cap -> (w + k) mod cap <> w.
Proof.
  intros Hw Hk E. pose proof (Z.div_mod (w + k) cap ltac:(lia)).
  assert ((w + k) / cap = 0 \/ (w + k) / cap = 1) as [E'|E'].
  { assert ((w + k) / cap < 2) by (apply Z.div_lt_upper_bound; lia).
    pose proof (Z.div_pos (w + k) cap ltac:(lia) ltac:(lia)). lia. }
  - rewrite E' in *. lia.
  - rewrite E' in *. lia.
Qed.

Section Updates.
Context (q : queue) (Hwf : queue_wf q).

Lemma wp_range : 0 < capacity q -> 0 <= write_pointer (buffer q) < capacity q.
Proof. intros. rewrite (wf_write _ Hwf) by lia. now apply Z.mod_pos_bound. Qed.

Lemma advance_spec p :
  0 < capacity q -> 0 <= p < capacity q -> advance q p = Some ((p + 1) mod capacity q).
Proof.
  intros Hc Hp. pose proof (wf_slots _ Hwf). unfold advance.
  destruct (Z.eqb_spec (capacity q) 0); [lia|]. now rewrite u64_small by lia.
Qed.

Lemma slot_offset i :
  0 <= i < capacity q -> (i * elem_size q)%C = i * elem_size q.
Proof.
  intros Hi. pose proof (slot_in_range i _ _ (wf_elem _ Hwf) Hi).
  pose proof (wf_bytes _ Hwf). pose proof (wf_elem _ Hwf). apply u64_small. lia.
Qed.

(** The [memcpy] of [queue_push] overwrites exactly the slot at the write pointer. *)
Lemma copy_in_slot elem :
  0 < capacity q -> Z.of_nat (length elem) = elem_size q ->
  exists mem,
    copy_in (memory (buffer q)) (write_pointer (buffer q) * elem_size q)%C (elem_size q) elem
      = Some mem /\
    length mem = length (memory (buffer q)) /\
    (forall b i, memory b = mem -> 0 <= i < capacity q ->
      slot (set_buffer q b) i =
      if decide (i = write_pointer (buffer q)) then elem else slot q i).
Proof.
  intros Hc He. pose proof (wp_range Hc) as Hw. set (w := write_pointer (buffer q)) in *.
  pose proof (wf_elem _ Hwf) as Hn. pose proof (wf_memory _ Hwf) as Hm.
  destruct (slot_in_range w _ _ Hn Hw) as [H0 H1].
  rewrite slot_offset by exact Hw. unfold copy_in.
  rewrite (proj2 (Z.leb_le _ _)), (proj2 (Z.leb_le _ _)) by lia. cbn [andb].
  rewrite (take_ge elem) by lia.
  replace (Z.to_nat (w * elem_size q + elem_size q))
    with (Z.to_nat (w * elem_size q) + length elem)%nat by lia.
  eexists. split_and!; [reflexivity| |].
  - rewrite !length_app, length_take, length_drop. lia.
  - intros b i Hb Hi. unfold slot. cbn [set_buffer elem_size buffer]. rewrite Hb.
    destruct (slot_in_range i _ _ Hn Hi) as [H2 H3].
    replace (Z.to_nat (elem_size q)) with (length elem) by lia.
    destruct (decide (i = w)) as [->|Hne].
    + apply window_same. lia.
    + apply window_other; [lia|].
      destruct (slot_range i w _ _ Hn Hi Hw Hne); lia.
Qed.

Lemma ring_lookup k :
  (k < Z.to_nat (capacity q))%nat ->
  ring q !! k = Some (slot q ((write_pointer (buffer q) + Z.of_nat k) mod capacity q)).
Proof. intros. unfold ring. now rewrite list_lookup_fmap, lookup_seq_lt. Qed.

Lemma length_ring : length (ring q) = Z.to_nat (capacity q).
Proof. unfold ring. now rewrite length_fmap, length_seq. Qed.
End Updates.

(** The effect of [queue_push] on the ring: the oldest slot is overwritten. *)
Lemma push_update_spec q elem :
  queue_wf q -> queue_is_full q = false -> Z.of_nat (length elem) = elem_size q ->
  exists q',
    push_update q elem = Some q' /\ queue_wf q' /\
    ring q' = drop 1 (ring q) ++ [elem] /\
    capacity q' = capacity q /\ elem_size q' = elem_size q /\ sync q' = sync q /\
    stored (buffer q') = stored (buffer q) + 1.
Proof.
  intros Hwf Hfull He. pose proof (wf_stored _ Hwf) as Hs. pose proof (wf_slots _ Hwf) as Hslots.
  unfold queue_is_full in Hfull. apply Z.eqb_neq in Hfull.
  assert (0 < capacity q) as Hc by lia. pose proof (wp_range q Hwf Hc) as Hw.
  destruct (copy_in_slot q Hwf elem Hc He) as (mem & Hcopy & Hlen & Hslot).
  unfold push_update. rewrite Hcopy. cbn [mbind option_bind]. rewrite advance_spec by done.
  rewrite u64_small by lia. cbn [mbind option_bind]. eexists. split; [reflexivity|].
  split.
  { destruct Hwf. constructor; cbn [set_buffer capacity elem_size buffer memory stored
      read_pointer write_pointer]; try done; [lia..|].
    intros _. rewrite wf_write0 by lia. rewrite Zplus_mod_idemp_l. f_equal. lia. }
  split; [|done]. set (q' := set_buffer q _).
  apply list_eq. intros k. destruct (decide (k < Z.to_nat (capacity q))%nat) as [Hk|Hk].
  - rewrite (ring_lookup q') by exact Hk. unfold q' at 1.
    rewrite Hslot; [|done|apply Z.mod_pos_bound; lia].
    cbn [set_buffer buffer write_pointer capacity q'].
    rewrite Zplus_mod_idemp_l. rewrite lookup_app.
    rewrite lookup_drop. destruct (decide (k = Z.to_nat (capacity q) - 1)%nat) as [->|Hne].
    + rewrite (proj2 (lookup_ge_None (ring q) _)) by (rewrite length_ring; lia).
      rewrite length_drop, length_ring. replace (_ - 1 - _)%nat with 0%nat by lia.
      rewrite decide_True; [reflexivity|].
      replace (write_pointer (buffer q) + 1 + Z.of_nat (Z.to_nat (capacity q) - 1))
        with (write_pointer (buffer q) + 1 * capacity q) by lia.
      rewrite Z.mod_add, Z.mod_small by lia. reflexivity.
    + rewrite ring_lookup by lia. rewrite decide_False.
      * do 3 f_equal. lia.
      * replace (_ + 1 + Z.of_nat k) with (write_pointer (buffer q) + (1 + Z.of_nat k)) by lia.
        apply mod_succ_ne; lia.
  - rewrite !(proj2 (lookup_ge_None _ _)); [done| |].
    + rewrite length_app, length_drop, length_ring. simpl. lia.
    + rewrite length_ring. exact (proj1 (Nat.nlt_ge _ _) Hk).
Qed.

(** The effect of [queue_pop]: the ring is unchanged, and what is copied out is
    its first slot, the one the next push overwrites. *)
Lemma pop_update_spec q want :
  queue_wf q -> queue_is_empty q = false ->
  exists q',
    pop_update q want = Some (q', if want then ring q !! 0%nat else None) /\ queue_wf q' /\
    ring q' = ring q /\
    capacity q' = capacity q /\ elem_size q' = elem_size q /\ sync q' = sync q /\
    stored (buffer q') = stored (buffer q) - 1.
Proof.
  intros Hwf Hempty. pose proof (wf_stored _ Hwf) as Hs. pose proof (wf_slots _ Hwf) as Hslots.
  unfold queue_is_empty in Hempty. apply Z.eqb_neq in Hempty.
  assert (0 < capacity q) as Hc by lia. pose proof (wp_range q Hwf Hc) as Hw.
  pose proof (wf_read _ Hwf Hc) as Hr.
  assert ((if want then Some <$> copy_out (memory (buffer q))
             (write_pointer (buffer q) * elem_size q)%C (elem_size q) else Some None) =
          Some (if want then ring q !! 0%nat else None)) as Hout.
  { destruct want; [|reflexivity]. rewrite slot_offset by done. unfold copy_out.
    destruct (slot_in_range _ _ _ (wf_elem _ Hwf) Hw). pose proof (wf_memory _ Hwf).
    rewrite (proj2 (Z.leb_le _ _)) by lia. simpl. rewrite ring_lookup by lia.
    rewrite Z.add_0_r, Z.mod_small by lia. reflexivity. }
  unfold pop_update. rewrite Hout. cbn [mbind option_bind]. rewrite advance_spec by done.
  cbn [mbind option_bind]. rewrite u64_small by lia. eexists. split; [reflexivity|].
  split; [|done].
  destruct Hwf. constructor; cbn [set_buffer capacity elem_size buffer memory stored
    read_pointer write_pointer]; try done; [lia| |].
  - intros _. apply Z.mod_pos_bound. lia.
  - intros _. rewrite wf_write0, Zplus_mod_idemp_l by lia. f_equal. lia.
Qed.

Lemma length_contents q : queue_wf q -> Z.of_nat (length (contents q)) = queue_size q.
Proof.
  intros Hwf. pose proof (wf_stored _ Hwf). unfold contents.
  rewrite length_drop, length_ring. unfold queue_size. lia.
Qed.

Lemma contents_push q q' elem :
  queue_wf q -> queue_is_full q = false ->
  ring q' = drop 1 (ring q) ++ [elem] -> capacity q' = capacity q ->
  stored (buffer q') = stored (buffer q) + 1 ->
  contents q' = contents q ++ [elem].
Proof.
  intros Hwf Hfull Hr Hc Hs. pose proof (wf_stored _ Hwf).
  unfold queue_is_full in Hfull. apply Z.eqb_neq in Hfull.
  unfold contents. rewrite Hr, Hc, Hs.
  rewrite drop_app_le by (rewrite length_drop, length_ring; lia).
  rewrite drop_drop. do 2 f_equal. lia.
Qed.

Lemma contents_pop q q' :
  queue_wf q -> ring q' = ring q -> capacity q' = capacity q ->
  stored (buffer q') = stored (buffer q) - 1 ->
  contents q' = drop 1 (contents q).
Proof.
  intros Hwf Hr Hc Hs. pose proof (wf_stored _ Hwf).
  unfold contents. rewrite Hr, Hc, Hs, drop_drop. f_equal. lia.
Qed.

Lemma contents_empty q : queue_wf q -> queue_is_empty q = bool_decide (contents q = []).
Proof.
  intros Hwf. pose proof (length_contents q Hwf) as Hl. unfold queue_is_empty, queue_size in *.
  case_bool_decide as E; [apply Z.eqb_eq | apply Z.eqb_neq].
  - rewrite E in Hl. simpl in Hl. lia.
  - destruct (contents q); [done|]. simpl in Hl. lia.
Qed.

Lemma queue_init_wf es cap :
  0 <= es -> 0 <= cap < 2 ^ 64 -> cap * es < 2 ^ 64 -> queue_wf (queue_init es cap).
Proof.
  intros. constructor; cbn; try lia; rewrite ?length_replicate, ?Z2Nat.id by nia; done.
Qed.

Lemma contents_init es cap : 0 <= cap -> contents (queue_init es cap) = [].
Proof.
  intros. unfold contents. rewrite drop_ge; [done|]. rewrite length_ring. cbn. lia.
Qed.

Lemma ring_init es cap :
  0 <= es -> 0 <= cap ->
  ring (queue_init es cap) = replicate (Z.to_nat cap) (replicate (Z.to_nat es) x00).
Proof.
  intros Hes Hcap. apply list_eq. intros k.
  destruct (decide (k < Z.to_nat cap)%nat) as [Hk|Hk].
  - rewrite ring_lookup, lookup_replicate_2 by done. f_equal.
    cbn [queue_init buffer write_pointer capacity]. rewrite Z.add_0_l, Z.mod_small by lia.
    unfold slot. cbn [queue_init buffer memory elem_size].
    rewrite drop_replicate, take_replicate. f_equal. nia.
  - rewrite !(proj2 (lookup_ge_None _ _)); [done| |].
    + rewrite length_replicate. lia.
    + rewrite length_ring. cbn. lia.
Qed.
