(* ===== verification/QueueThreads.v ===== *)
(** [hw09/queue.c] as threads run it: each call is a sequence of steps around
    [pthread_mutex_lock], [pthread_cond_wait], [pthread_cond_signal] and
    [pthread_mutex_unlock]; the code between two of these calls, which only the
    owner of the mutex executes, is one step. *)

From S2P Require Import Prelude QueueData.
From Stdlib Require Import Strings.Byte.
Import Init.Byte.

(* ------------------------------------------------------------------ *)
(** ** The state *)

(** The calls a thread makes; [elem] is [None] for [NULL], and [want] says
    whether the destination of a pop is not [NULL]. *)
Inductive call :=
  | CPush (elem : option (list byte))
  | CPop (want : bool)
  | CTryPush (elem : option (list byte))
  | CTryPop (want : bool)
  | CAbort.

(** Where a thread is. *)
Inductive pc :=
  | Idle (ret : option (Z * option (list byte)))   (* between calls: the last result *)
  | Enter (c : call)                               (* before (try)locking the mutex *)
  | Locked (c : call)                              (* owner, at the test of the queue *)
  | Blocked (c : call)                             (* in pthread_cond_wait *)
  | Woken (c : call)                               (* waiting for the mutex again *)
  | Leaving (ret : Z) (out : option (list byte)).  (* owner, before the unlock *)

(** Successful operations, in the order of their critical sections. *)
Inductive event := EPush (elem : list byte) | EPop (out : option (list byte)).

Record qsys := QSys {
  sq : queue;
  owner : option nat;          (* queue_mutex *)
  threads : list pc;
  errnos : list Z;             (* the thread-specific value of lib_errno *)
  history : list event;        (* ghost state *)
}.

Definition set_pc (t : nat) (p : pc) (s : qsys) : qsys :=
  QSys (sq s) (owner s) (<[t:=p]> (threads s)) (errnos s) (history s).

(** [return_error_state(error_state, key)], and the return from the call. *)
Definition return_error_state (t : nat) (error_state : Z) (s : qsys) : qsys :=
  QSys (sq s) (owner s) (<[t:=Idle (Some (error_state, None))]> (threads s))
       (<[t:=error_state]> (errnos s)) (history s).

(** [queue_errno] in thread [t]. *)
Definition queue_errno (t : nat) (s : qsys) : Z := default 0 (errnos s !! t).

Definition acquire (t : nat) (c : call) (s : qsys) : qsys :=
  QSys (sq s) (Some t) (<[t:=Locked c]> (threads s)) (errnos s) (history s).

Definition release (s : qsys) : qsys :=
  QSys (sq s) None (threads s) (errnos s) (history s).

(* ------------------------------------------------------------------ *)
(** ** Condition variables *)

Definition blocked_pop (p : pc) : bool := match p with Blocked (CPop _) => true | _ => false end.
Definition blocked_push (p : pc) : bool := match p with Blocked (CPush _) => true | _ => false end.

(** [pthread_cond_signal]: one waiting thread, chosen by [pick], is woken; none
    only when none is waiting. *)
Definition cond_signal (waits : pc -> bool) (pick : option nat) (ths : list pc) : option (list pc) :=
  match pick with
  | None => if (count_if waits ths =? 0)%nat then Some ths else None
  | Some w =>
      match ths !! w with
      | Some (Blocked c) => if waits (Blocked c) then Some (<[w:=Woken c]> ths) else None
      | _ => None
      end
  end.

Definition wake (p : pc) : pc := match p with Blocked c => Woken c | _ => p end.

(** [pthread_cond_wait(&cond_push, ...)] / [(&cond_pop, ...)] with the counter
    incremented before it. *)
Definition wait_push (t : nat) (c : call) (s : qsys) : qsys :=
  let sy := sync (sq s) in
  QSys (set_sync (sq s) (QueueSync (aborted sy) (waiting_for_pop sy) (waiting_for_push sy + 1)%C))
       None (<[t:=Blocked c]> (threads s)) (errnos s) (history s).

Definition wait_pop (t : nat) (c : call) (s : qsys) : qsys :=
  let sy := sync (sq s) in
  QSys (set_sync (sq s) (QueueSync (aborted sy) (waiting_for_pop sy + 1)%C (waiting_for_push sy)))
       None (<[t:=Blocked c]> (threads s)) (errnos s) (history s).

(** The return from [pthread_cond_wait], with the counter decremented after it. *)
Definition resume (t : nat) (c : call) (s : qsys) : option qsys :=
  let sy := sync (sq s) in
  match c with
  | CPush _ => Some (acquire t c (QSys (set_sync (sq s)
      (QueueSync (aborted sy) (waiting_for_pop sy) (waiting_for_push sy - 1)%C))
      (owner s) (threads s) (errnos s) (history s)))
  | CPop _ => Some (acquire t c (QSys (set_sync (sq s)
      (QueueSync (aborted sy) (waiting_for_pop sy - 1)%C (waiting_for_push sy)))
      (owner s) (threads s) (errnos s) (history s)))
  | _ => None
  end.

(* ------------------------------------------------------------------ *)
(** ** The operations *)

(** The common end of [queue_push] and [queue_try_push]: copy, advance, signal. *)
Definition do_push (t : nat) (pick : option nat) (elem : list byte) (s : qsys) : option qsys :=
  q ← push_update (sq s) elem;
  ths ← cond_signal blocked_pop pick (threads s);
  Some (QSys q (owner s) (<[t:=Leaving QUEUE_SUCCESS None]> ths) (errnos s)
             (history s ++ [EPush elem])).

(** The common end of [queue_pop] and [queue_try_pop]. *)
Definition do_pop (t : nat) (pick : option nat) (want : bool) (s : qsys) : option qsys :=
  '(q, out) ← pop_update (sq s) want;
  ths ← cond_signal blocked_push pick (threads s);
  Some (QSys q (owner s) (<[t:=Leaving QUEUE_SUCCESS out]> ths) (errnos s)
             (history s ++ [EPop out])).

(** From the entry of the call to the acquisition of the mutex. *)
Definition enter (t : nat) (c : call) (s : qsys) : option qsys :=
  match c with
  | CPush None | CTryPush None => Some (return_error_state t WRONG_QUEUE_ARG s)
  | CTryPush (Some _) | CTryPop _ =>
      match owner s with
      | None => Some (acquire t c s)
      | Some _ => Some (return_error_state t CANT_LOCK s)
      end
  | CPush (Some _) | CPop _ | CAbort =>
      match owner s with
      | None => Some (acquire t c s)
      | Some _ => None
      end
  end.

(** [queue_push] with the mutex locked: one evaluation of the [while] condition
    and what follows it. *)
Definition queue_push (t : nat) (pick : option nat) (elem : list byte) (s : qsys) : option qsys :=
  if queue_is_full (sq s) then
    if aborted (sync (sq s)) then Some (release (return_error_state t QUEUE_ABORT s))
    else Some (wait_push t (CPush (Some elem)) s)
  else do_push t pick elem s.

Definition queue_pop (t : nat) (pick : option nat) (want : bool) (s : qsys) : option qsys :=
  if queue_is_empty (sq s) then
    if aborted (sync (sq s)) then Some (release (return_error_state t QUEUE_ABORT s))
    else Some (wait_pop t (CPop want) s)
  else do_pop t pick want s.

Definition queue_try_push (t : nat) (pick : option nat) (elem : list byte) (s : qsys) : option qsys :=
  if queue_is_full (sq s) then Some (release (return_error_state t QUEUE_FULL s))
  else do_push t pick elem s.

Definition queue_try_pop (t : nat) (pick : option nat) (want : bool) (s : qsys) : option qsys :=
  if queue_is_empty (sq s) then Some (release (return_error_state t QUEUE_EMPTY s))
  else do_pop t pick want s.

(** [queue_abort] with the mutex locked: both broadcasts wake every waiter. *)
Definition queue_abort (t : nat) (s : qsys) : qsys :=
  let sy := sync (sq s) in
  QSys (set_sync (sq s) (QueueSync true (waiting_for_pop sy) (waiting_for_push sy)))
       (owner s) (<[t:=Leaving QUEUE_SUCCESS None]> (wake <$> threads s)) (errnos s) (history s).

(** One step of thread [t]; [None] when it cannot run (or would be undefined). *)
Definition exec (t : nat) (pick : option nat) (s : qsys) : option qsys :=
  match threads s !! t with
  | Some (Enter c) => enter t c s
  | Some (Locked (CPush (Some elem))) => queue_push t pick elem s
  | Some (Locked (CPop want)) => queue_pop t pick want s
  | Some (Locked (CTryPush (Some elem))) => queue_try_push t pick elem s
  | Some (Locked (CTryPop want)) => queue_try_pop t pick want s
  | Some (Locked CAbort) => Some (queue_abort t s)
  | Some (Woken c) => match owner s with None => resume t c s | Some _ => None end
  | Some (Leaving ret out) => Some (release (set_pc t (Idle (Some (ret, out))) s))
  | _ => None
  end.

(** The elements a caller passes are [elem_size] bytes long. *)
Definition call_ok (q : queue) (c : call) : Prop :=
  match c with
  | CPush (Some e) | CTryPush (Some e) => Z.of_nat (length e) = elem_size q
  | _ => True
  end.

(** The steps of the system: a thread starts a call, a thread runs, or a
    waiting thread wakes up spuriously. *)
Inductive qstep (s : qsys) : qsys -> Prop :=
  | step_call t r c :
      threads s !! t = Some (Idle r) -> call_ok (sq s) c -> qstep s (set_pc t (Enter c) s)
  | step_run t pick s' : exec t pick s = Some s' -> qstep s s'
  | step_spurious t c : threads s !! t = Some (Blocked c) -> qstep s (set_pc t (Woken c) s).

(** [n] threads and a freshly created queue. *)
Definition qsys_init (n : nat) (es cap : Z) : qsys :=
  QSys (queue_init es cap) None (replicate n (Idle None)) (replicate n 0) [].

Definition reachable (n : nat) (es cap : Z) (s : qsys) : Prop :=
  rtc qstep (qsys_init n es cap) s.

(* ------------------------------------------------------------------ *)
(** ** Control: ownership of the mutex *)

(** The thread owns the mutex. *)
Definition holding (p : pc) : bool :=
  match p with Locked _ | Leaving _ _ => true | _ => false end.

(** The shape of the calls at each place. *)
Definition pc_ok (q : queue) (p : pc) : Prop :=
  match p with
  | Idle _ | Leaving _ _ => True
  | Enter c => call_ok q c
  | Locked c => call_ok q c /\ c <> CPush None /\ c <> CTryPush None
  | Blocked c | Woken c =>
      call_ok q c /\ match c with CPush (Some _) | CPop _ => True | _ => False end
  end.

Record ctrl_inv (s : qsys) : Prop := {
  ctrl_owner t p : threads s !! t = Some p -> holding p = true <-> owner s = Some t;
  ctrl_range t : owner s = Some t -> is_Some (threads s !! t);
  ctrl_pc t p : threads s !! t = Some p -> pc_ok (sq s) p;
}.

Lemma cond_signal_inv waits pick ths ths' :
  cond_signal waits pick ths = Some ths' ->
  (count_if waits ths = 0%nat /\ ths' = ths) \/
  exists w c, ths !! w = Some (Blocked c) /\ waits (Blocked c) = true /\
              ths' = <[w:=Woken c]> ths.
Proof.
  unfold cond_signal. destruct pick as [w|].
  - destruct (ths !! w) as [[]|] eqn:E; try done.
    destruct (waits (Blocked c)) eqn:Ew; [|done]. intros [= <-]. right. eauto.
  - destruct (Nat.eqb_spec (count_if waits ths) 0); [|done]. intros [= <-]. by left.
Qed.

(** Whatever the scheduler picks, a signal can be delivered. *)
Lemma cond_signal_total waits ths :
  (forall p, waits p = true -> exists c, p = Blocked c) ->
  exists pick ths', cond_signal waits pick ths = Some ths'.
Proof.
  intros Hw. destruct (decide (count_if waits ths = 0)%nat) as [E|E].
  - exists None, ths. simpl. by rewrite E.
  - destruct (count_if_pos waits ths) as (w & p & Hp & HP); [lia|].
    destruct (Hw _ HP) as [c ->]. exists (Some w). simpl. rewrite Hp, HP. eauto.
Qed.

(** The successful steps of [exec], one case per way through the code. *)
Ltac exec_cases H :=
  unfold exec, enter, queue_push, queue_pop, queue_try_push, queue_try_pop, do_push, do_pop,
    resume in H;
  repeat (case_match; simplify_eq/=);
  repeat match type of H with
  | (_ ≫= _) = Some _ => apply bind_Some in H as (? & ? & H)
  | (let '(_, _) := ?x in _) = Some _ => destruct x as [? ?]
  end;
  simplify_eq/=.

(** Case analysis on a lookup in an updated list of threads. *)
Ltac thread_lookup :=
  repeat match goal with
  | H : <[?i:=?x]> ?l !! ?j = Some ?p |- _ =>
      apply list_lookup_insert_Some in H as [(? & ? & ?) | [? H]]; simplify_eq/=
  | H : (?f <$> ?l) !! ?j = Some ?p |- _ =>
      apply list_lookup_fmap_Some in H as (? & ? & H); simplify_eq/=
  end.

Lemma push_update_fields q e q' :
  push_update q e = Some q' ->
  capacity q' = capacity q /\ elem_size q' = elem_size q /\ sync q' = sync q.
Proof.
  unfold push_update. intros (mem & _ & H)%bind_Some.
  apply bind_Some in H as (wp & _ & [= <-]). done.
Qed.

Lemma pop_update_fields q want q' out :
  pop_update q want = Some (q', out) ->
  capacity q' = capacity q /\ elem_size q' = elem_size q /\ sync q' = sync q.
Proof.
  unfold pop_update. intros (o & _ & H)%bind_Some.
  apply bind_Some in H as (wp & _ & [= <- <-]). done.
Qed.

Lemma pc_ok_size q q' p : elem_size q' = elem_size q -> pc_ok q p -> pc_ok q' p.
Proof. intros E. unfold pc_ok, call_ok. by rewrite E. Qed.

(** Signals and broadcasts only move threads from [Blocked] to [Woken]. *)
Definition woken_from (r r' : pc) : Prop := r' = r \/ exists c, r = Blocked c /\ r' = Woken c.

Lemma woken_refl ths : Forall2 woken_from ths ths.
Proof. apply Forall2_same_length_lookup. split; [done|].
  intros i x y Hx Hy. simplify_eq. by left.
Qed.

Lemma woken_signal waits pick ths ths' :
  cond_signal waits pick ths = Some ths' -> Forall2 woken_from ths ths'.
Proof.
  intros [[_ ->] | (w & c & Hw & _ & ->)]%cond_signal_inv; [apply woken_refl|].
  apply Forall2_same_length_lookup. split; [by rewrite length_insert|].
  intros i x y Hx [(-> & <- & _) | [_ Hy]]%list_lookup_insert_Some; simplify_eq; unfold woken_from; eauto.
Qed.

Lemma woken_broadcast ths : Forall2 woken_from ths (wake <$> ths).
Proof.
  apply Forall2_fmap_r. apply Forall2_same_length_lookup. split; [done|]. intros i x y Hx Hy.
  simplify_eq. unfold woken_from. destruct x; simpl; eauto.
Qed.

(** The preservation of control when thread [t] moves from [p] to [p'] while
    other threads stay or wake up. *)
Lemma ctrl_move s s' ths t p p' :
  ctrl_inv s -> threads s !! t = Some p ->
  threads s' = <[t:=p']> ths -> Forall2 woken_from (threads s) ths ->
  elem_size (sq s') = elem_size (sq s) -> pc_ok (sq s) p' ->
  (if holding p' then owner s' = Some t /\ (owner s = None \/ owner s = Some t)
   else if holding p then owner s' = None else owner s' = owner s) ->
  ctrl_inv s'.
Proof.
  intros [Ho Hr Hp] Ht Hths Hw He Hp' Hown. pose proof (Forall2_length _ _ _ Hw) as Hl.
  pose proof (Ho t p Ht) as Hot. pose proof (lookup_lt_Some _ _ _ Ht) as Hlt.
  assert (forall u r', threads s' !! u = Some r' ->
    (u = t /\ r' = p') \/ (u <> t /\ exists r, threads s !! u = Some r /\ woken_from r r')) as Hinv.
  { intros u r'. rewrite Hths. intros [(-> & <- & _) | [Hne Hu]]%list_lookup_insert_Some; [by left|].
    right. split; [done|]. destruct (Forall2_lookup_r _ _ _ _ _ Hw Hu) as (r & ? & ?). eauto. }
  constructor.
  - intros u r' Hu. destruct (Hinv u r' Hu) as [[-> ->] | (Hne & r & Hur & Hrel)].
    + repeat case_match; destruct_and?; simplify_eq; try rewrite Hown in *; intuition congruence.
    + assert (holding r' = holding r) as -> by (destruct Hrel as [-> | (c & -> & ->)]; done).
      rewrite (Ho u r Hur). repeat case_match; destruct_and?; simplify_eq; try rewrite Hown in *; intuition congruence.
  - intros u Hu. apply lookup_lt_is_Some. rewrite Hths, length_insert, <- Hl.
    destruct (decide (u = t)) as [->|Hne]; [done|]. apply lookup_lt_is_Some, Hr.
    repeat case_match; destruct_and?; simplify_eq; try rewrite Hown in *; intuition congruence.
  - intros u r' Hu. apply (pc_ok_size (sq s)); [done|].
    destruct (Hinv u r' Hu) as [[-> ->] | (Hne & r & Hur & Hrel)]; [done|].
    specialize (Hp u r Hur). destruct Hrel as [-> | (c & -> & ->)]; done.
Qed.

Create HintDb queue discriminated.
#[export] Hint Resolve woken_refl woken_signal woken_broadcast : queue.

Lemma ctrl_exec t pick s s' : ctrl_inv s -> exec t pick s = Some s' -> ctrl_inv s'.
Proof.
  intros Hi H. destruct (threads s !! t) as [p|] eqn:Ht; [|by unfold exec in H; rewrite Ht in H].
  pose proof (ctrl_pc s Hi t p Ht) as Hpc. pose proof (ctrl_owner s Hi t p Ht) as Hown.
  exec_cases H.
  all: repeat case_match; simplify_eq.
  all: eapply (ctrl_move s _ _ t _ _ Hi); [eassumption|..]; simpl; eauto with queue.
  all: try match goal with
    | H : push_update _ _ = Some _ |- _ => apply push_update_fields in H as (_ & ? & _)
    | H : pop_update _ _ = Some _ |- _ => apply pop_update_fields in H as (_ & ? & _)
    end; clear Hi; simpl in *; naive_solver.
Qed.

Lemma ctrl_step s s' : ctrl_inv s -> qstep s s' -> ctrl_inv s'.
Proof.
  intros Hi [t r c Ht Hc | t pick s'' H | t c Ht].
  - eapply (ctrl_move s _ _ t _ _ Hi Ht); simpl; eauto with queue. done.
  - by eapply ctrl_exec.
  - pose proof (ctrl_pc s Hi t _ Ht) as Hpc. eapply (ctrl_move s _ _ t _ _ Hi Ht); simpl; eauto with queue.
  done.
Qed.

Lemma ctrl_init n es cap : ctrl_inv (qsys_init n es cap).
Proof. constructor; simpl; [|done|]; intros t p [-> _]%lookup_replicate; done. Qed.

(* ------------------------------------------------------------------ *)
(** ** Data: what the history says about the buffer *)

(** The elements pushed, and the number of elements popped. *)
Definition pushed (h : list event) : list (list byte) :=
  omap (fun e => match e with EPush x => Some x | EPop _ => None end) h.

Definition popped (h : list event) : nat :=
  count_if (fun e => match e with EPop _ => true | EPush _ => false end) h.

(** The slots of the ring over time: the zeroed buffer, then the pushed elements. *)
Definition slots (es cap : Z) (l : list (list byte)) : list (list byte) :=
  replicate (Z.to_nat cap) (replicate (Z.to_nat es) x00) ++ l.

(** What each pop of the history delivered, [done] being the elements pushed
    before it: the element [capacity] places before the next push. *)
Fixpoint outputs_ok (es cap : Z) (done : list (list byte)) (h : list event) : Prop :=
  match h with
  | [] => True
  | EPush x :: h => outputs_ok es cap (done ++ [x]) h
  | EPop None :: h => outputs_ok es cap done h
  | EPop (Some x) :: h =>
      slots es cap done !! length done = Some x /\ outputs_ok es cap done h
  end.

Lemma pushed_app h h' : pushed (h ++ h') = pushed h ++ pushed h'.
Proof. apply omap_app. Qed.

Lemma popped_app h h' : popped (h ++ h') = (popped h + popped h')%nat.
Proof. unfold popped. induction h as [|[] h IH]; simpl in *; lia. Qed.

Lemma popped_push h x : popped (h ++ [EPush x]) = popped h.
Proof. rewrite popped_app. unfold popped at 2. simpl. lia. Qed.

Lemma popped_pop h o : popped (h ++ [EPop o]) = S (popped h).
Proof. rewrite popped_app. unfold popped at 2. simpl. lia. Qed.

Lemma outputs_ok_app es cap h : forall done h',
  outputs_ok es cap done (h ++ h') <->
  outputs_ok es cap done h /\ outputs_ok es cap (done ++ pushed h) h'.
Proof.
  induction h as [|[x|[x|]] h IH]; intros done h'; simpl.
  - rewrite app_nil_r. tauto.
  - rewrite IH, <- app_assoc. done.
  - rewrite IH. tauto.
  - apply IH.
Qed.

Record data_inv (es cap : Z) (s : qsys) : Prop := {
  data_wf : queue_wf (sq s);
  data_cap : capacity (sq s) = cap;
  data_es : elem_size (sq s) = es;
  data_ring : ring (sq s) = drop (length (pushed (history s))) (slots es cap (pushed (history s)));
  data_contents : contents (sq s) = drop (popped (history s)) (pushed (history s));
  data_size : stored (buffer (sq s)) =
    Z.of_nat (length (pushed (history s))) - Z.of_nat (popped (history s));
  data_outputs : outputs_ok es cap [] (history s);
}.

(** A step that leaves the buffer alone. *)
Lemma data_same es cap s s' :
  data_inv es cap s -> capacity (sq s') = capacity (sq s) ->
  elem_size (sq s') = elem_size (sq s) -> buffer (sq s') = buffer (sq s) ->
  history s' = history s -> data_inv es cap s'.
Proof.
  destruct s as [[c e b sy] o th er h], s' as [[c' e' b' sy'] o' th' er' h']. simpl.
  intros [[] ? ? Hr Hc ? ?] -> -> -> ->. constructor; done.
Qed.

Lemma data_push es cap s s' elem :
  data_inv es cap s -> queue_is_full (sq s) = false -> Z.of_nat (length elem) = es ->
  push_update (sq s) elem = Some (sq s') -> history s' = history s ++ [EPush elem] ->
  data_inv es cap s'.
Proof.
  intros [Hwf Hcap Hes Hr Hc Hsz Ho] Hf He Hp Hh.
  destruct (push_update_spec (sq s) elem) as (q' & Hp' & Hwf' & Hr' & Hcap' & Hes' & _ & Hst);
    [done|done|lia|]. simplify_eq. pose proof (wf_stored _ Hwf) as Hs.
  assert (popped (history s) <= length (pushed (history s)))%nat as Hle by lia.
  constructor; rewrite ?Hh, ?pushed_app, ?popped_push; simpl; auto; try congruence.
  - rewrite Hr', Hr, drop_drop, length_app. unfold slots. simpl.
    rewrite app_assoc, (drop_app_le (_ ++ _)); [done|].
    rewrite length_app, length_replicate. pose proof (wf_cap _ Hwf).
    unfold queue_is_full in Hf. lia.
  - rewrite (contents_push _ _ _ Hwf Hf Hr' Hcap' Hst), Hc, drop_app_le by lia. done.
  - rewrite length_app. simpl. lia.
  - apply outputs_ok_app. split; done.
Qed.

Lemma data_pop es cap s s' want out :
  data_inv es cap s -> queue_is_empty (sq s) = false ->
  pop_update (sq s) want = Some (sq s', out) -> history s' = history s ++ [EPop out] ->
  data_inv es cap s'.
Proof.
  intros [Hwf Hcap Hes Hr Hc Hsz Ho] Hf Hp Hh.
  destruct (pop_update_spec (sq s) want) as (q' & Hp' & Hwf' & Hr' & Hcap' & Hes' & _ & Hst);
    [done|done|]. simplify_eq.
  constructor; rewrite ?Hh, ?pushed_app, ?popped_pop, ?app_nil_r; simpl; auto; try congruence.
  - rewrite (contents_pop _ _ Hwf Hr' Hcap' Hst), Hc, drop_drop. f_equal. lia.
  - lia.
  - apply outputs_ok_app. split; [done|]. simpl. destruct want; [|done].
    rewrite Hr, lookup_drop, Nat.add_0_r. case_match eqn:E; [done|].
    exfalso. apply lookup_ge_None in E. pose proof (wf_stored _ Hwf).
    unfold slots in E. rewrite length_app, length_replicate in E.
    unfold queue_is_empty in Hf. lia.
Qed.

(** The ways a step can change the buffer and the history. *)
Lemma exec_data t pick s s' :
  ctrl_inv s -> exec t pick s = Some s' ->
  (capacity (sq s') = capacity (sq s) /\ elem_size (sq s') = elem_size (sq s) /\
   buffer (sq s') = buffer (sq s) /\ history s' = history s) \/
  (exists elem, queue_is_full (sq s) = false /\ Z.of_nat (length elem) = elem_size (sq s) /\
     push_update (sq s) elem = Some (sq s') /\ history s' = history s ++ [EPush elem]) \/
  (exists want out, queue_is_empty (sq s) = false /\
     pop_update (sq s) want = Some (sq s', out) /\ history s' = history s ++ [EPop out]).
Proof.
  intros Hi H. destruct (threads s !! t) as [p|] eqn:Ht; [|by unfold exec in H; rewrite Ht in H].
  pose proof (ctrl_pc s Hi t p Ht) as Hpc. clear Hi. exec_cases H.
  all: first [by left | right; right; by do 2 eexists |
              right; left; eexists; split_and!; eauto; simpl in Hpc; tauto].
Qed.

Lemma data_step es cap s s' :
  ctrl_inv s -> data_inv es cap s -> qstep s s' -> data_inv es cap s'.
Proof.
  intros Hi Hd [t r c Ht Hc | t pick s'' H | t c Ht]; [by eapply data_same| |by eapply data_same].
  destruct (exec_data _ _ _ _ Hi H) as
    [(?&?&?&?) | [(e&?&He&?&?) | (w&o&?&?&?)]]; [by eapply data_same| |by eapply data_pop].
  eapply data_push; eauto. rewrite He. apply Hd.
Qed.

Lemma data_init n es cap :
  0 <= es -> 0 <= cap < 2 ^ 64 -> cap * es < 2 ^ 64 -> data_inv es cap (qsys_init n es cap).
Proof.
  intros. constructor; simpl; try done.
  - by apply queue_init_wf.
  - rewrite ring_init by lia. unfold slots. by rewrite app_nil_r.
  - apply contents_init. lia.
Qed.

(* ------------------------------------------------------------------ *)
(** ** Waiting: the counters, and no waiter is forgotten *)

Definition woken_pop (p : pc) : bool := match p with Woken (CPop _) => true | _ => false end.
Definition woken_push (p : pc) : bool := match p with Woken (CPush _) => true | _ => false end.

(** The thread is about to test the queue for a pop (a push). *)
Definition ready_pop (p : pc) : bool :=
  match p with Woken (CPop _) | Locked (CPop _) => true | _ => false end.
Definition ready_push (p : pc) : bool :=
  match p with Woken (CPush _) | Locked (CPush _) => true | _ => false end.

Record wait_inv (s : qsys) : Prop := {
  wait_threads : Z.of_nat (length (threads s)) < 2 ^ 64;
  wait_count_pop : waiting_for_pop (sync (sq s)) =
    Z.of_nat (count_if blocked_pop (threads s) + count_if woken_pop (threads s));
  wait_count_push : waiting_for_push (sync (sq s)) =
    Z.of_nat (count_if blocked_push (threads s) + count_if woken_push (threads s));
  wait_aborted : aborted (sync (sq s)) = true ->
    count_if blocked_pop (threads s) = 0%nat /\ count_if blocked_push (threads s) = 0%nat;
  wait_pop_served : (0 < count_if blocked_pop (threads s))%nat ->
    stored (buffer (sq s)) <= Z.of_nat (count_if ready_pop (threads s));
  wait_push_served : (0 < count_if blocked_push (threads s))%nat ->
    capacity (sq s) - stored (buffer (sq s)) <= Z.of_nat (count_if ready_push (threads s));
}.

(** The change of each count when one thread moves. *)
Ltac count_move p' :=
  match goal with
  | H : ?ths !! ?t = Some ?p |- context [<[?t:=p']> ?ths] =>
      let count P := (let N := fresh "HN" in pose proof (count_if_insert P ths t p p' H) as N) in
      count blocked_pop; count blocked_push; count woken_pop; count woken_push;
      count ready_pop; count ready_push
  end.

Lemma wait_bounds ths :
  (count_if blocked_pop ths + count_if woken_pop ths <= length ths)%nat /\
  (count_if blocked_push ths + count_if woken_push ths <= length ths)%nat.
Proof. split; apply count_if_disjoint; by intros [|[]|[]|[]|[]|]. Qed.

Lemma count_broadcast ths :
  count_if blocked_pop (wake <$> ths) = 0%nat /\ count_if blocked_push (wake <$> ths) = 0%nat /\
  count_if woken_pop (wake <$> ths) = (count_if blocked_pop ths + count_if woken_pop ths)%nat /\
  count_if woken_push (wake <$> ths) = (count_if blocked_push ths + count_if woken_push ths)%nat.
Proof.
  induction ths as [|p ths (IH1 & IH2 & IH3 & IH4)]; [done|].
  rewrite fmap_cons. cbn [count_if]. rewrite IH1, IH2, IH3, IH4.
  destruct p as [|[]|[]|[]|[]|]; simpl; lia.
Qed.

Lemma push_update_stored q elem q' :
  queue_wf q -> queue_is_full q = false -> Z.of_nat (length elem) = elem_size q ->
  push_update q elem = Some q' -> stored (buffer q') = stored (buffer q) + 1.
Proof.
  intros Hw Hf He H. destruct (push_update_spec q elem Hw Hf He) as (q2 & H2 & ? & ? & ? & ? & ? & ?).
  by simplify_eq.
Qed.

Lemma pop_update_stored q want q' out :
  queue_wf q -> queue_is_empty q = false -> pop_update q want = Some (q', out) ->
  stored (buffer q') = stored (buffer q) - 1.
Proof.
  intros Hw Hf H. destruct (pop_update_spec q want Hw Hf) as (q2 & H2 & ? & ? & ? & ? & ? & ?).
  by simplify_eq.
Qed.

(** A signal changes the counts of the signalled kind of waiter only. *)
Lemma count_signal_pop pick ths ths' :
  cond_signal blocked_pop pick ths = Some ths' ->
  count_if blocked_push ths' = count_if blocked_push ths /\
  count_if woken_push ths' = count_if woken_push ths /\
  count_if ready_push ths' = count_if ready_push ths /\
  ((count_if blocked_pop ths = 0 /\ count_if blocked_pop ths' = 0 /\
    count_if woken_pop ths' = count_if woken_pop ths /\
    count_if ready_pop ths' = count_if ready_pop ths) \/
   (count_if blocked_pop ths = S (count_if blocked_pop ths') /\
  count_if woken_pop ths' = S (count_if woken_pop ths) /\
  count_if ready_pop ths' = S (count_if ready_pop ths)))%nat.
Proof.
  intros [[H ->] | (w & c & Hw & Hc & ->)]%cond_signal_inv; [naive_solver|].
  destruct c; try done. count_move (Woken (CPop want)). simpl in *. lia.
Qed.

Lemma count_signal_push pick ths ths' :
  cond_signal blocked_push pick ths = Some ths' ->
  count_if blocked_pop ths' = count_if blocked_pop ths /\
  count_if woken_pop ths' = count_if woken_pop ths /\
  count_if ready_pop ths' = count_if ready_pop ths /\
  ((count_if blocked_push ths = 0 /\ count_if blocked_push ths' = 0 /\
    count_if woken_push ths' = count_if woken_push ths /\
    count_if ready_push ths' = count_if ready_push ths) \/
   (count_if blocked_push ths = S (count_if blocked_push ths') /\
  count_if woken_push ths' = S (count_if woken_push ths) /\
  count_if ready_push ths' = S (count_if ready_push ths)))%nat.
Proof.
  intros [[H ->] | (w & c & Hw & Hc & ->)]%cond_signal_inv; [naive_solver|].
  destruct c; try done. count_move (Woken (CPush elem)). simpl in *. lia.
Qed.

(** A signal leaves the running thread where it is. *)
Lemma signal_lookup waits pick ths ths' t p :
  cond_signal waits pick ths = Some ths' -> ths !! t = Some p ->
  (forall c, p <> Blocked c) -> ths' !! t = Some p.
Proof.
  intros [[_ ->] | (w & c & Hw & _ & ->)]%cond_signal_inv Ht Hp; [done|].
  rewrite list_lookup_insert_ne; [done|]. intros ->. simplify_eq. by eapply Hp.
Qed.

(** The facts about an update of the queue and about a signal. *)
Ltac update_facts Hpc :=
  let S := fresh "HS" in let F := fresh "HF" in let Y := fresh "HY" in let Z := fresh "HZ" in
  match goal with
  | H : push_update ?q ?e = Some _, Hf : queue_is_full _ = false, Hwf : queue_wf _ |- _ =>
      assert (Z.of_nat (length e) = elem_size q) as Z by (simpl in Hpc; tauto);
      pose proof (push_update_stored _ _ _ Hwf Hf Z H) as S;
      destruct (push_update_fields _ _ _ H) as (F & _ & Y)
  | H : pop_update _ _ = Some _, Hf : queue_is_empty _ = false, Hwf : queue_wf _ |- _ =>
      pose proof (pop_update_stored _ _ _ _ Hwf Hf H) as S;
      destruct (pop_update_fields _ _ _ _ H) as (F & _ & Y)
  end.

Ltac signal_facts :=
  let L := fresh "HT" in let C := fresh "HC" in let N := fresh "HL" in
  match goal with
  | H : cond_signal _ _ _ = Some _, Ht : threads _ !! _ = Some (Locked _) |- _ =>
      pose proof (signal_lookup _ _ _ _ _ _ H Ht ltac:(done)) as L;
      pose proof (Forall2_length _ _ _ (woken_signal _ _ _ _ H)) as N;
      first [pose proof (count_signal_pop _ _ _ H) as C | pose proof (count_signal_push _ _ _ H) as C]
  end.

Ltac move_facts :=
  match goal with
  | |- context [<[?t:=?p']> ?ths] =>
      let B := fresh "HB" in let B' := fresh "HB" in let L := fresh "HL" in
      count_move p'; destruct (wait_bounds (<[t:=p']> ths)) as [B B'];
      pose proof (length_insert ths t p') as L
  end.

(** The fields of [wait_inv] by arithmetic; [Ha] is what an aborted queue satisfies. *)
Ltac wait_close Ha :=
  constructor; simpl;
  try match goal with E : sync _ = _ |- _ => rewrite ?E end;
  rewrite ?u64_small by lia;
  try (let A := fresh "HA" in intros A; first [congruence | specialize (Ha A)]);
  lia.

(** Steps of [exec] keep the counters exact and serve every waiter. *)
Lemma wait_exec t pick s s' :
  ctrl_inv s -> queue_wf (sq s) -> wait_inv s -> exec t pick s = Some s' -> wait_inv s'.
Proof.
  intros Hi Hwf [Hn Hp Hq Ha Hsp Hsq] H.
  destruct (threads s !! t) as [p|] eqn:Ht; [|by unfold exec in H; rewrite Ht in H].
  pose proof (ctrl_pc s Hi t p Ht) as Hpc. clear Hi.
  exec_cases H.
  all: try update_facts Hpc; try signal_facts.
  all: unfold acquire, release, wait_pop, wait_push, return_error_state, set_pc; simpl.
  all: try move_facts; simpl in *.
  all: unfold queue_is_full, queue_is_empty in *; try solve [wait_close Ha].
  destruct (count_broadcast (threads s)) as (E1 & E2 & E3 & E4).
  assert ((wake <$> threads s) !! t = Some (Locked CAbort)) as Hw by (by rewrite list_lookup_fmap, H0).
  unfold queue_abort. move_facts. simpl in *. rewrite length_fmap in *. wait_close Ha.
Qed.

Lemma wait_step s s' :
  ctrl_inv s -> queue_wf (sq s) -> wait_inv s -> qstep s s' -> wait_inv s'.
Proof.
  intros Hi Hwf Hw [t r c Ht Hc | t pick s'' H | t c Ht]; [|by eapply wait_exec|].
  - destruct Hw as [Hn Hp Hq Ha Hsp Hsq]. unfold set_pc. move_facts. simpl in *. wait_close Ha.
  - pose proof (ctrl_pc s Hi t _ Ht) as [_ Hpc]. destruct Hw as [Hn Hp Hq Ha Hsp Hsq].
    unfold set_pc. move_facts. destruct c; try done; simpl in *; wait_close Ha.
Qed.

Lemma wait_init n es cap : Z.of_nat n < 2 ^ 64 -> wait_inv (qsys_init n es cap).
Proof.
  intros Hn.
  assert (forall P, P (Idle None) = false -> count_if P (replicate n (Idle None)) = 0%nat) as H0.
  { intros P HP. apply count_if_none. by intros p [-> _]%elem_of_replicate. }
  constructor; simpl; rewrite ?length_replicate, ?H0 by done; done || lia.
Qed.

(** The invariant of the system. *)
Lemma reachable_inv n es cap s :
  0 <= es -> 0 <= cap < 2 ^ 64 -> cap * es < 2 ^ 64 -> Z.of_nat n < 2 ^ 64 ->
  reachable n es cap s -> ctrl_inv s /\ data_inv es cap s /\ wait_inv s.
Proof.
  intros He Hc Hb Hn. unfold reachable. intros Hr.
  remember (qsys_init n es cap) as s0 eqn:E.
  assert (ctrl_inv s0 /\ data_inv es cap s0 /\ wait_inv s0) as Hi.
  { subst. split_and!; [apply ctrl_init | by apply data_init | by apply wait_init]. }
  clear E. induction Hr as [|s0 s1 s2 Hs Hr IH]; [done|].
  destruct Hi as (Hi & Hd & Hw). apply IH.
  split_and!; [by eapply ctrl_step | by eapply data_step | eapply wait_step; eauto; apply Hd].
Qed.

(** A thread that owns the mutex can always run: its accesses to the buffer are
    in bounds, and a waiter to signal is there when one is needed. *)
Lemma exec_owner es cap t p s :
  ctrl_inv s -> data_inv es cap s -> threads s !! t = Some p -> holding p = true ->
  exists pick s', exec t pick s = Some s'.
Proof.
  intros Hi Hd Ht Hh. pose proof (data_wf _ _ _ Hd) as Hwf.
  pose proof (ctrl_pc s Hi t p Ht) as Hpc. destruct p as [|c|c|c|c|ret out]; try done.
  - assert (forall waits, (forall p, waits p = true -> exists c, p = Blocked c) ->
      exists pick ths', cond_signal waits pick (threads s) = Some ths') as Hsig.
    { intros. by apply cond_signal_total. }
    destruct (Hsig blocked_pop) as (k1 & l1 & Hk1). { intros [| | |[]| |]; naive_solver. }
    destruct (Hsig blocked_push) as (k2 & l2 & Hk2). { intros [| | |[]| |]; naive_solver. }
    assert (forall e, queue_is_full (sq s) = false -> Z.of_nat (length e) = elem_size (sq s) ->
      exists s', do_push t k1 e s = Some s') as Hpush.
    { intros e Hf He. destruct (push_update_spec (sq s) e Hwf Hf He) as (q & Hq & _).
      unfold do_push. rewrite Hq. simpl. rewrite Hk1. simpl. eauto. }
    assert (forall w, queue_is_empty (sq s) = false -> exists s', do_pop t k2 w s = Some s') as Hpop.
    { intros w Hf. destruct (pop_update_spec (sq s) w Hwf Hf) as (q & Hq & _).
      unfold do_pop. rewrite Hq. simpl. rewrite Hk2. simpl. eauto. }
    unfold exec. rewrite Ht. simpl in Hpc. destruct Hpc as (He & Hn1 & Hn2).
    destruct c as [[e|]|w|[e|]|w|]; try congruence; simpl in He;
      unfold queue_push, queue_pop, queue_try_push, queue_try_pop;
      [exists k1|exists k2|exists k1|exists k2|exists None; eauto];
      repeat case_match; eauto.
  - exists None. unfold exec. rewrite Ht. eauto.
Qed.

(** When no thread can run, the mutex is free and every thread is between two calls
    or waits on a condition variable. *)
Lemma stuck_quiet es cap s :
  ctrl_inv s -> data_inv es cap s -> (forall t pick, exec t pick s = None) ->
  owner s = None /\
  forall t p, threads s !! t = Some p -> (exists r, p = Idle r) \/ (exists c, p = Blocked c).
Proof.
  intros Hi Hd Hstuck.
  assert (owner s = None) as Hown.
  { destruct (owner s) as [t|] eqn:E; [|done]. destruct (ctrl_range s Hi t E) as [p Hp].
    apply (ctrl_owner s Hi t p Hp) in E.
    destruct (exec_owner es cap t p s Hi Hd Hp E) as (k & s' & Hk). by rewrite Hstuck in Hk. }
  split; [done|]. intros t p Ht. specialize (Hstuck t None). unfold exec in Hstuck. rewrite Ht in Hstuck.
  pose proof (ctrl_pc s Hi t p Ht) as Hpc. pose proof (ctrl_owner s Hi t p Ht) as Ho.
  rewrite ?Hown in Ho, Hstuck. destruct p as [r|c|c|c|c|ret out]; eauto.
  - exfalso. unfold enter in Hstuck. rewrite Hown in Hstuck. repeat case_match; done.
  - exfalso. simpl in Ho. by specialize (proj1 Ho eq_refl).
  - exfalso. destruct Hpc as [_ Hpc]. destruct c; done.
  - exfalso. simpl in Ho. by specialize (proj1 Ho eq_refl).
Qed.

(** Nobody waits on a condition variable of an aborted queue. *)
Lemma aborted_no_waiter s u c :
  ctrl_inv s -> wait_inv s -> aborted (sync (sq s)) = true -> threads s !! u <> Some (Blocked c).
Proof.
  intros Hi Hw Ha Hu. destruct (wait_aborted s Hw Ha) as [A1 A2].
  destruct (ctrl_pc s Hi u _ Hu) as [_ Hpc]. destruct c as [[e|]|w| | |]; try done.
  - pose proof (count_if_lookup blocked_push _ _ _ Hu eq_refl). lia.
  - pose proof (count_if_lookup blocked_pop _ _ _ Hu eq_refl). lia.
Qed.

(** A step of thread [t] moves it, and other threads only from [Blocked] to [Woken];
    what is aborted stays so. *)
Lemma exec_moves t pick s s' :
  exec t pick s = Some s' ->
  exists p p' ths, threads s !! t = Some p /\ threads s' = <[t:=p']> ths /\
    Forall2 woken_from (threads s) ths /\ (forall r, p <> Idle r) /\ p' <> Idle None /\
    (aborted (sync (sq s)) = true -> aborted (sync (sq s')) = true) /\
    (p = Enter CAbort -> p' = Locked CAbort) /\
    (p = Locked CAbort -> aborted (sync (sq s')) = true).
Proof.
  intros H. destruct (threads s !! t) as [p|] eqn:Ht; [|by unfold exec in H; rewrite Ht in H].
  exec_cases H; simplify_eq.
  all: do 3 eexists; split; [done|]; split; [reflexivity|]; split; [eauto with queue|].
  all: split_and!; try done; simpl.
  all: try match goal with
    | H : push_update _ _ = Some _ |- _ => by apply push_update_fields in H as (_ & _ & ->)
    | H : pop_update _ _ = Some _ |- _ => by apply pop_update_fields in H as (_ & _ & ->)
    end.
Qed.

(** Threads are neither created nor destroyed. *)
Lemma qstep_lengths s s' :
  qstep s s' ->
  length (threads s') = length (threads s) /\ length (errnos s') = length (errnos s).
Proof.
  intros [t r c Ht Hc | t pick s'' H | t c Ht]; simpl; rewrite ?length_insert; [done| |done].
  exec_cases H; rewrite ?length_insert, ?length_fmap; try done.
  all: by match goal with
    H : cond_signal _ _ _ = Some _ |- _ => rewrite (Forall2_length _ _ _ (woken_signal _ _ _ _ H))
  end.
Qed.

Lemma reachable_lengths n es cap s :
  reachable n es cap s -> length (threads s) = n /\ length (errnos s) = n.
Proof.
  unfold reachable. intros Hr. remember (qsys_init n es cap) as s0 eqn:E.
  assert (length (threads s0) = n /\ length (errnos s0) = n) as H0
    by (subst; simpl; rewrite !length_replicate; done).
  clear E. induction Hr as [|s0 s1 s2 Hs _ IH]; [done|]. apply IH.
  destruct (qstep_lengths _ _ Hs). lia.
Qed.

(* ------------------------------------------------------------------ *)
(** ** Running a given schedule *)

Inductive sched := SCall (t : nat) (c : call) | SRun (t : nat) (pick : option nat) | SWake (t : nat).

Definition call_okb (q : queue) (c : call) : bool :=
  match c with
  | CPush (Some e) | CTryPush (Some e) => Z.of_nat (length e) =? elem_size q
  | _ => true
  end.

Definition sched_step (m : sched) (s : qsys) : option qsys :=
  match m with
  | SCall t c =>
      match threads s !! t with
      | Some (Idle _) => if call_okb (sq s) c then Some (set_pc t (Enter c) s) else None
      | _ => None
      end
  | SRun t pick => exec t pick s
  | SWake t =>
      match threads s !! t with Some (Blocked c) => Some (set_pc t (Woken c) s) | _ => None end
  end.

Fixpoint sched_run (ms : list sched) (s : qsys) : qsys :=
  match ms with
  | [] => s
  | m :: ms => match sched_step m s with Some s' => sched_run ms s' | None => s end
  end.

Lemma sched_step_sound m s s' : sched_step m s = Some s' -> qstep s s'.
Proof.
  destruct m as [t c|t pick|t]; simpl.
  - intros H. repeat case_match; simplify_eq. eapply step_call; [done|].
    destruct c as [[]| |[]| |]; simpl in *; try done; lia.
  - apply step_run.
  - intros H. repeat case_match; simplify_eq. by eapply step_spurious.
Qed.

Lemma sched_reachable n es cap ms : reachable n es cap (sched_run ms (qsys_init n es cap)).
Proof.
  unfold reachable. generalize (qsys_init n es cap). induction ms as [|m ms IH]; intros s; [done|].
  simpl. destruct (sched_step m s) eqn:E; [|done].
  eapply rtc_l; [by eapply sched_step_sound|]. apply IH.
Qed.

(** Two threads and a queue of two elements of one byte. *)
Definition demo (ms : list sched) : qsys := sched_run ms (qsys_init 2 1 2).

(** A whole call of thread [t], when nothing stops it. *)
Definition scall (t : nat) (c : call) : list sched :=
  [SCall t c; SRun t None; SRun t None; SRun t None].

(* ------------------------------------------------------------------ *)
(** ** Properties *)

(** A bounded first-in first-out queue. *)
Inductive fifo_step (cap : Z) : list (list byte) -> event -> list (list byte) -> Prop :=
  | fifo_push l x : Z.of_nat (length l) < cap -> fifo_step cap l (EPush x) (l ++ [x])
  | fifo_pop x l out : fifo_step cap (x :: l) (EPop out) l.

(** C6: the mutex protects the buffer: in every state that threads calling the
    functions of the queue in any order can reach, at most one thread is between
    the lock and the unlock, and that thread can always take its next step:
    [memcpy] stays inside the buffer and no modulus is zero. *)
Theorem queue_critical_sections n es cap s :
  0 <= es -> 0 <= cap < 2 ^ 64 -> cap * es < 2 ^ 64 -> Z.of_nat n < 2 ^ 64 ->
  reachable n es cap s ->
  (forall t t' p p', threads s !! t = Some p -> threads s !! t' = Some p' ->
     holding p = true -> holding p' = true -> t = t') /\
  (forall t p, threads s !! t = Some p -> holding p = true ->
     exists pick s', exec t pick s = Some s').
Proof.
  intros ? ? ? ? Hr. destruct (reachable_inv n es cap s) as (Hi & Hd & Hw); [done..|].
  split; [|by intros; eapply exec_owner].
  intros t t' p p' Ht Ht' Hp Hp'.
  apply (ctrl_owner s Hi t p Ht) in Hp. apply (ctrl_owner s Hi t' p' Ht') in Hp'. congruence.
Qed.

(** C2: the stored elements form a bounded first-in first-out queue: every step
    leaves them alone or is one push at the back of a queue that is not full or
    one pop from the front of a queue that is not empty, [queue_size] is their
    number, and they are the elements pushed less the popped ones. *)
Theorem queue_refines_fifo n es cap s s' :
  0 <= es -> 0 <= cap < 2 ^ 64 -> cap * es < 2 ^ 64 -> Z.of_nat n < 2 ^ 64 ->
  reachable n es cap s -> qstep s s' ->
  ((contents (sq s') = contents (sq s) /\ history s' = history s) \/
   exists e, history s' = history s ++ [e] /\ fifo_step cap (contents (sq s)) e (contents (sq s'))) /\
  queue_size (sq s) = Z.of_nat (length (contents (sq s))) /\
  contents (sq s) = drop (popped (history s)) (pushed (history s)).
Proof.
  intros ? ? ? ? Hr Hs. destruct (reachable_inv n es cap s) as (Hi & Hd & Hw); [done..|].
  pose proof (data_wf _ _ _ Hd) as Hwf.
  split_and!; [|by rewrite length_contents|apply Hd].
  destruct Hs as [t r c Ht Hc | t pick s'' H' | t c Ht]; [by left| |by left].
  pose proof (length_contents _ Hwf) as Hl. unfold queue_size in Hl. pose proof (data_cap _ _ _ Hd).
  destruct (exec_data _ _ _ _ Hi H') as
    [(E1&E2&E3&E4) | [(e&Hf&He&Hp&Hh) | (w&o&Hf&Hp&Hh)]].
  - left. split; [|done]. unfold contents, ring, slot. by rewrite E1, E2, E3.
  - right. exists (EPush e). split; [done|].
    destruct (push_update_spec _ _ Hwf Hf He) as (q & Hq & _ & Hring & Hcap & _ & _ & Hst).
    simplify_eq. rewrite (contents_push _ _ _ Hwf Hf Hring Hcap Hst). constructor.
    pose proof (wf_stored _ Hwf). unfold queue_is_full in Hf. lia.
  - right. exists (EPop o). split; [done|].
    destruct (pop_update_spec _ w Hwf Hf) as (q & Hq & _ & Hring & Hcap & _ & _ & Hst).
    simplify_eq. rewrite (contents_pop _ _ Hwf Hring Hcap Hst).
    destruct (contents (sq s)); [|constructor]. unfold queue_is_empty in Hf. simpl in Hl. lia.
Qed.

(** C9: what [queue_pop] and [queue_try_pop] copy to the caller: the slot that
    the next push will overwrite.  It is the oldest element when the queue is
    full; otherwise it is an element that was already popped, or, before the
    buffer has been filled once, a slot that was never written. *)
Theorem queue_pop_delivers n es cap s h h' out :
  0 <= es -> 0 <= cap < 2 ^ 64 -> cap * es < 2 ^ 64 -> Z.of_nat n < 2 ^ 64 ->
  reachable n es cap s -> history s = h ++ EPop (Some out) :: h' ->
  (replicate (Z.to_nat cap) (replicate (Z.to_nat es) x00) ++ pushed h) !! length (pushed h)
    = Some out /\
  (Z.of_nat (length (pushed h)) - Z.of_nat (popped h) = cap -> pushed h !! popped h = Some out).
Proof.
  intros ? Hc ? ? Hr Hh. destruct (reachable_inv n es cap s) as (_ & Hd & _); [done..|].
  pose proof (data_outputs _ _ _ Hd) as Ho. rewrite Hh, outputs_ok_app in Ho.
  destruct Ho as [_ [Ho _]]. simpl in Ho. unfold slots in Ho. split; [done|].
  intros Hfull. rewrite <- Ho, lookup_app_r; rewrite length_replicate; [|lia]. f_equal. lia.
Qed.

(** A thread that waits to pop and one that waits to push see the same queue. *)
Lemma waits_exclude cap s (Q : bool) :
  (forall t p, threads s !! t = Some p ->
    (exists r, p = Idle r) \/
    (exists w, p = Blocked (CPop w) /\ contents (sq s) = [] /\ Q = false) \/
    (exists e, p = Blocked (CPush (Some e)) /\ Z.of_nat (length (contents (sq s))) = cap /\ Q = false)) ->
  (forall t p, threads s !! t = Some p ->
    (exists r, p = Idle r) \/
    (exists w, p = Blocked (CPop w) /\ contents (sq s) = [] /\ Q = false) \/
    (exists e, p = Blocked (CPush (Some e)) /\ Z.of_nat (length (contents (sq s))) = cap /\ Q = false)) /\
  (0 < cap -> forall t u w e, threads s !! t = Some (Blocked (CPop w)) ->
     threads s !! u <> Some (Blocked (CPush e))).
Proof.
  intros H. split; [exact H|]. intros Hc t u w e Ht Hu.
  destruct (H t _ Ht) as [[? ?]|[(? & _ & He & _)|(? & ? & _)]]; [done| |done].
  destruct (H u _ Hu) as [[? ?]|[(? & ? & _)|(? & _ & Hl & _)]]; [done|done|].
  rewrite He in Hl. simpl in Hl. lia.
Qed.

(** C5: no wakeup is lost: when no thread can run, every thread is between two
    calls or waits on a condition variable, a thread waits to pop only if the
    queue is empty and not aborted, and to push only if it is full and not
    aborted; so, unless the capacity is zero, no thread waits to push while another
    one waits to pop. *)
Theorem queue_no_lost_wakeup n es cap s :
  0 <= es -> 0 <= cap < 2 ^ 64 -> cap * es < 2 ^ 64 -> Z.of_nat n < 2 ^ 64 ->
  reachable n es cap s -> (forall t pick, exec t pick s = None) ->
  owner s = None /\
  (forall t p, threads s !! t = Some p ->
    (exists r, p = Idle r) \/
    (exists w, p = Blocked (CPop w) /\ contents (sq s) = [] /\ aborted (sync (sq s)) = false) \/
    (exists e, p = Blocked (CPush (Some e)) /\ Z.of_nat (length (contents (sq s))) = cap /\
               aborted (sync (sq s)) = false)) /\
  (0 < cap -> forall t u w e, threads s !! t = Some (Blocked (CPop w)) ->
     threads s !! u <> Some (Blocked (CPush e))).
Proof.
  intros ? ? ? ? Hr Hstuck. destruct (reachable_inv n es cap s) as (Hi & Hd & Hw); [done..|].
  pose proof (data_wf _ _ _ Hd) as Hwf. pose proof (wf_stored _ Hwf).
  pose proof (length_contents _ Hwf) as Hl. unfold queue_size in Hl.
  pose proof (data_cap _ _ _ Hd).
  destruct (stuck_quiet es cap s Hi Hd Hstuck) as [Hown Hquiet]. split; [done|].
  apply waits_exclude.
  assert (forall P, (forall r, P (Idle r) = false) -> (forall c, P (Blocked c) = false) ->
    count_if P (threads s) = 0%nat) as Hzero.
  { intros P HP1 HP2. apply count_if_none. intros p [t Ht]%list_elem_of_lookup.
    destruct (Hquiet t p Ht) as [[? ->] | [? ->]]; auto. }
  intros t p Ht. destruct (Hquiet t p Ht) as [Hp | [c ->]]; [by left|]. right.
  pose proof (wait_aborted s Hw) as Hab.
  destruct (ctrl_pc s Hi t _ Ht) as [_ Hpc]. destruct c as [[e|]|w| | |]; try done.
  - right. exists e. pose proof (count_if_lookup blocked_push _ _ _ Ht eq_refl) as Hb.
    pose proof (wait_push_served s Hw Hb) as Hs. rewrite Hzero in Hs by done.
    split_and!; [done|lia|]. destruct (aborted _); [|done]. destruct Hab; [done|lia].
  - left. exists w. pose proof (count_if_lookup blocked_pop _ _ _ Ht eq_refl) as Hb.
    pose proof (wait_pop_served s Hw Hb) as Hs. rewrite Hzero in Hs by done.
    split_and!; [done|apply nil_length_inv; lia|].
    destruct (aborted _); [|done]. destruct Hab; [done|lia].
Qed.

(** The waiting counters are exact, so [queue_forecast] is the number of
    stored elements plus the threads inside a waiting push less the threads
    inside a waiting pop, negative when pops prevail. *)
Theorem queue_forecast_exact n es cap s :
  0 <= es -> 0 <= cap < 2 ^ 62 -> cap * es < 2 ^ 64 -> Z.of_nat n < 2 ^ 62 ->
  reachable n es cap s ->
  queue_forecast (sq s) =
  Z.of_nat (length (contents (sq s)))
  - Z.of_nat (count_if blocked_pop (threads s) + count_if woken_pop (threads s))
  + Z.of_nat (count_if blocked_push (threads s) + count_if woken_push (threads s)).
Proof.
  intros ? ? ? ? Hr. destruct (reachable_inv n es cap s) as (Hi & Hd & Hw); [lia..|done|].
  destruct (reachable_lengths _ _ _ _ Hr) as [Hlen _].
  destruct (wait_bounds (threads s)) as [B1 B2].
  pose proof (data_wf _ _ _ Hd) as Hwf. pose proof (length_contents _ Hwf) as Hl.
  pose proof (wf_stored _ Hwf). pose proof (data_cap _ _ _ Hd).
  unfold queue_forecast, queue_size in *.
  rewrite (wait_count_pop s Hw), (wait_count_push s Hw), Hl. unfold u64, s64.
  rewrite swrap_wrap. apply swrap_small; lia.
Qed.

(** C10: after [queue_abort] nobody waits: every reachable aborted state has no
    thread in [pthread_cond_wait], and a thread whose push finds the queue full, or
    whose pop finds it empty, leaves at its next step with [QUEUE_ABORT], which is
    what [queue_errno] then returns; the queue is as it was and the mutex free. *)
Theorem queue_abort_releases n es cap s :
  0 <= es -> 0 <= cap < 2 ^ 64 -> cap * es < 2 ^ 64 -> Z.of_nat n < 2 ^ 64 ->
  reachable n es cap s -> aborted (sync (sq s)) = true ->
  (forall u c, threads s !! u <> Some (Blocked c)) /\
  (forall t pick c, threads s !! t = Some (Locked c) ->
     match c with CPush (Some _) => queue_is_full (sq s) | CPop _ => queue_is_empty (sq s) | _ => false end
       = true ->
     exists s', exec t pick s = Some s' /\
       threads s' !! t = Some (Idle (Some (QUEUE_ABORT, None))) /\ queue_errno t s' = QUEUE_ABORT /\
       owner s' = None /\ sq s' = sq s).
Proof.
  intros ? ? ? ? Hr Ha. destruct (reachable_inv n es cap s) as (Hi & Hd & Hw); [done..|].
  split; [intros u c; by apply aborted_no_waiter|]. intros t pick c Ht Hc.
  pose proof (lookup_lt_Some _ _ _ Ht) as Hlt. destruct (reachable_lengths _ _ _ _ Hr) as [Hl1 Hl2].
  exists (release (return_error_state t QUEUE_ABORT s)). split.
  - unfold exec. rewrite Ht. destruct c as [[e|]|w| | |]; try done; unfold queue_push, queue_pop; by rewrite Hc, Ha.
  - unfold queue_errno. simpl. by rewrite !list_lookup_insert_eq by lia.
Qed.

(* ------------------------------------------------------------------ *)
(** ** The properties at concrete states *)

Definition demo_locked : qsys := demo [SCall 0 (CPush (Some [x01])); SRun 0 None].

Lemma queue_critical_sections_witness :
  threads demo_locked !! 0%nat = Some (Locked (CPush (Some [x01]))) /\
  exists pick s', exec 0 pick demo_locked = Some s'.
Proof.
  split; [reflexivity|].
  eapply (queue_critical_sections 2 1 2 demo_locked); [lia..|apply sched_reachable| |];
    reflexivity.
Defined.

Lemma queue_refines_fifo_witness :
  contents (sq demo_locked) = [] /\
  queue_size (sq demo_locked) = Z.of_nat (length (contents (sq demo_locked))).
Proof.
  split; [reflexivity|].
  refine (proj1 (proj2 (queue_refines_fifo 2 1 2 demo_locked
    (demo [SCall 0 (CPush (Some [x01])); SRun 0 None; SRun 0 None]) _ _ _ _ _ _))); try lia.
  - apply sched_reachable.
  - apply (step_run _ 0 None). reflexivity.
Defined.

(** One push and one pop: the popped element is not the pushed one. *)
Definition demo_pop : qsys := demo (scall 0 (CPush (Some [x01])) ++ scall 1 (CPop true)).

Example demo_pop_delivers_zero : threads demo_pop !! 1%nat = Some (Idle (Some (0, Some [x00]))).
Proof. reflexivity. Qed.

Lemma queue_pop_delivers_witness :
  ([[x00]; [x00]] ++ [[x01]]) !! 1%nat = Some [x00].
Proof.
  refine (proj1 (queue_pop_delivers 2 1 2 demo_pop [EPush [x01]] [] [x00] _ _ _ _ _ _));
    try lia; [apply sched_reachable | reflexivity].
Defined.

(** Thread 1 waits to pop from the empty queue. *)
Definition demo_wait : qsys := demo [SCall 1 (CPop true); SRun 1 None; SRun 1 None].

Lemma queue_no_lost_wakeup_witness :
  threads demo_wait !! 1%nat = Some (Blocked (CPop true)) /\ owner demo_wait = None /\
  forall e, threads demo_wait !! 0%nat <> Some (Blocked (CPush e)).
Proof.
  split; [reflexivity|].
  destruct (queue_no_lost_wakeup 2 1 2 demo_wait) as (Hown & _ & Hx); try lia.
  - apply sched_reachable.
  - intros [|[|t]] pick; reflexivity.
  - split; [exact Hown|]. intros e. apply (Hx ltac:(lia) 1%nat 0%nat true e). reflexivity.
Defined.

(** A queue without room is full and empty at once: a push and a pop wait for ever. *)
Example no_capacity :
  let s := sched_run [SCall 0 (CPush (Some [x01])); SRun 0 None; SRun 0 None;
                      SCall 1 (CPop true); SRun 1 None; SRun 1 None] (qsys_init 2 1 0) in
  threads s = [Blocked (CPush (Some [x01])); Blocked (CPop true)] /\ forall t pick, exec t pick s = None.
Proof. split; [reflexivity|]. by intros [|[|t]] pick. Qed.

Lemma queue_forecast_exact_witness : queue_forecast (sq demo_wait) = -1.
Proof. rewrite (queue_forecast_exact 2 1 2); [reflexivity|lia..|apply sched_reachable]. Defined.

(** Thread 0 aborts; thread 1 wakes up and takes the mutex. *)
Definition demo_abort : qsys :=
  demo ([SCall 1 (CPop true); SRun 1 None; SRun 1 None] ++ scall 0 CAbort ++ [SRun 1 None]).

Lemma queue_abort_releases_witness :
  (forall u c', threads demo_abort !! u <> Some (Blocked c')) /\
  exists s', exec 1 None demo_abort = Some s' /\
    threads s' !! 1%nat = Some (Idle (Some (QUEUE_ABORT, None))).
Proof.
  destruct (queue_abort_releases 2 1 2 demo_abort) as [H1 H2]; try lia; [apply sched_reachable|reflexivity|].
  split; [exact H1|].
  destruct (H2 1%nat None (CPop true) eq_refl eq_refl) as (s' & Hx & Ht & _). by exists s'.
Defined.
