(* ===== verification/QueueLife.v ===== *)
(** [hw09/queue.c], the life of a queue: [queue_create] with its [goto] ladder,
    [queue_destroy] with its early returns, and [queue_strerror].  What the
    library calls return is a parameter; what they acquired is a ledger. *)

From S2P Require Import Prelude QueueData.
From Stdlib Require Import Strings.Byte.
Import Init.Byte.

(** What a queue holds. *)
Inductive resource := RStruct | RBuffer | RKey | RMutex | RCondPop | RCondPush.

#[export] Instance resource_eq_dec : EqDecision resource.
Proof. solve_decision. Defined.

(** The resources held, and their release. *)
Definition ledger := list resource.
Definition give_back (r : resource) (l : ledger) : ledger := filter (fun x => x <> r) l.

(** Which of the library calls of [queue_create] succeed, in their order. *)
Record create_calls := CreateCalls {
  calloc_struct : bool;
  calloc_buffer : bool;
  key_create : bool;
  key_setspecific : bool;
  mutex_init : bool;
  cond_pop_init : bool;
  cond_push_init : bool;
}.

(** The labels of [queue_create], from the last to the first: each one falls
    through to the next. *)
Definition finish (retval : Z) (q : option queue) (l : ledger) : Z * option queue * ledger :=
  (retval, q, l).
Definition l_queue_alloc (retval : Z) (l : ledger) := finish retval None l.
Definition l_buffer_alloc (retval : Z) (l : ledger) := l_queue_alloc retval (give_back RStruct l).
Definition l_key_init (retval : Z) (l : ledger) := l_buffer_alloc retval (give_back RBuffer l).
Definition l_mutex_init (retval : Z) (l : ledger) := l_key_init retval (give_back RKey l).
Definition l_cond_init_pop (retval : Z) (l : ledger) := l_mutex_init retval (give_back RMutex l).
Definition l_cond_init_push (retval : Z) (l : ledger) :=
  l_cond_init_pop retval (give_back RCondPop l).

(** [queue_create(qptr, elem_size, queue_capacity)]: the result, the new [*qptr]
    and the resources held.  [calloc] fails when the product overflows. *)
Definition queue_create (k : create_calls) (qptr : bool) (es cap : Z) : Z * option queue * ledger :=
  if negb qptr then (WRONG_QUEUE_ARG, None, []) else
  if negb (calloc_struct k) then l_queue_alloc ALLOC_FAILURE [] else
  let l := [RStruct] in
  if negb (calloc_buffer k && (cap * es <? 2 ^ 64)) then l_buffer_alloc ALLOC_FAILURE l else
  let l := RBuffer :: l in
  if negb (key_create k) then l_key_init KEY_ERROR l else
  let l := RKey :: l in
  if negb (key_setspecific k) then l_key_init KEY_ERROR l else
  if negb (mutex_init k) then l_mutex_init MUTEX_INIT_FAIL l else
  let l := RMutex :: l in
  if negb (cond_pop_init k) then l_cond_init_pop COND_INIT_FAIL l else
  let l := RCondPop :: l in
  if negb (cond_push_init k) then l_cond_init_push COND_INIT_FAIL l else
  finish QUEUE_SUCCESS (Some (queue_init es cap)) (RCondPush :: l).

(** Which of the library calls of [queue_destroy] succeed. *)
Record destroy_calls := DestroyCalls {
  mutex_destroy : bool;
  cond_push_destroy : bool;
  cond_pop_destroy : bool;
  key_delete : bool;
}.

(** [queue_destroy], after [queue_abort]: the result and what is still held. *)
Definition queue_destroy (k : destroy_calls) (l : ledger) : Z * ledger :=
  if negb (mutex_destroy k) then (MUTEX_DESTROY_FAIL, l) else
  let l := give_back RMutex l in
  if negb (cond_push_destroy k) then (COND_DESTROY_FAIL, l) else
  let l := give_back RCondPush l in
  if negb (cond_pop_destroy k) then (COND_DESTROY_FAIL, l) else
  let l := give_back RCondPop l in
  if negb (key_delete k) then (KEY_ERROR, l) else
  let l := give_back RKey l in
  (QUEUE_SUCCESS, give_back RStruct (give_back RBuffer l)).

(** [queue_strerror]: the message, and [snprintf(buffer, maxlen, "%s", message)]
    as the number returned and the bytes written to [buffer]. *)
Definition strerror_message (error_code : Z) : string :=
  if error_code =? QUEUE_SUCCESS then "No error happened."
  else if error_code =? CANT_LOCK then "Can't aquire lock."
  else if error_code =? QUEUE_FULL then "Element can't be pushed to queue because queue is full."
  else "Error message not implemented yet, blame the lazy programmer!".

Definition snprintf_s (maxlen : Z) (s : string) : Z * list byte :=
  let bytes := String.list_byte_of_string s in
  (Z.of_nat (String.length s),
   if maxlen =? 0 then [] else take (Z.to_nat (maxlen - 1)) bytes ++ [x00]).

Definition queue_strerror (error_code maxlen : Z) : Z * list byte :=
  snprintf_s maxlen (strerror_message error_code).

(* ------------------------------------------------------------------ *)
(** ** Properties *)

(** All the library calls that matter succeed. *)
Definition create_ok (k : create_calls) (es cap : Z) : bool :=
  calloc_struct k && (calloc_buffer k && (cap * es <? 2 ^ 64)) && key_create k &&
  key_setspecific k && mutex_init k && cond_pop_init k && cond_push_init k.

(** C18: [queue_create] succeeds when every call it makes does, and then holds
    each resource once and gives an empty queue that satisfies the invariant of
    the buffer; on any failure it reports an error and sets [*qptr] to [NULL],
    and holds nothing, unless [pthread_setspecific] failed: then the key is
    never deleted. *)
Theorem queue_create_outcome k es cap :
  0 <= es -> 0 <= cap < 2 ^ 64 ->
  match queue_create k true es cap with
  | (ret, Some q, l) =>
      create_ok k es cap = true /\ ret = QUEUE_SUCCESS /\ queue_wf q /\ contents q = [] /\
      NoDup l /\ (forall r, r ∈ l)
  | (ret, None, l) =>
      create_ok k es cap = false /\ ret <> QUEUE_SUCCESS /\
      l = (if calloc_struct k && (calloc_buffer k && (cap * es <? 2 ^ 64)) && key_create k
              && negb (key_setspecific k)
           then [RKey] else [])
  end.
Proof.
  intros Hes Hcap. unfold queue_create, create_ok.
  destruct k as [[] [] [] [] [] [] []]; simpl; destruct (Z.ltb_spec (cap * es) (2 ^ 64)); simpl; try done.
  split_and!; try done.
  - by apply queue_init_wf.
  - apply contents_init. lia.
  - by apply (bool_decide_unpack _).
  - intros []; set_solver.
Qed.

(** [queue_destroy] gives everything back exactly when it returns success;
    a failing destructor leaves the buffer and the structure allocated. *)
Theorem queue_destroy_outcome c k es cap q l :
  queue_create c true es cap = (QUEUE_SUCCESS, Some q, l) ->
  (fst (queue_destroy k l) = QUEUE_SUCCESS <-> snd (queue_destroy k l) = []) /\
  (fst (queue_destroy k l) <> QUEUE_SUCCESS ->
   RStruct ∈ snd (queue_destroy k l) /\ RBuffer ∈ snd (queue_destroy k l)).
Proof.
  intros Hc.
  assert (l = [RCondPush; RCondPop; RMutex; RKey; RBuffer; RStruct]) as ->.
  { revert Hc. unfold queue_create.
    destruct c as [[] [] [] [] [] [] []]; simpl; destruct (cap * es <? 2 ^ 64); simpl;
      intros E; first [discriminate E | by injection E]. }
  destruct k as [[] [] [] []]; vm_compute; split; [split|..]; try done;
    intros _; split; set_solver.
Qed.

(** The number [queue_strerror] returns is the length of the message without
    its null byte, for any buffer; a buffer of that size, which the header says
    to allocate, loses the last character. *)
Theorem queue_strerror_size code maxlen :
  let n := fst (queue_strerror code maxlen) in
  n = Z.of_nat (String.length (strerror_message code)) /\
  Z.of_nat (length (snd (queue_strerror code n))) = n /\
  snd (queue_strerror code n) <> String.list_byte_of_string (strerror_message code) ++ [x00] /\
  snd (queue_strerror code (n + 1)) = String.list_byte_of_string (strerror_message code) ++ [x00].
Proof.
  unfold queue_strerror, strerror_message.
  repeat (destruct (code =? _); [by vm_compute|]). by vm_compute.
Qed.

(** Every call succeeds. *)
Definition all_calls : create_calls := CreateCalls true true true true true true true.

Lemma queue_create_outcome_witness : queue_wf (queue_init 8 2).
Proof. pose proof (queue_create_outcome all_calls 8 2 ltac:(lia) ltac:(lia)) as H. apply H. Defined.

Lemma queue_destroy_outcome_witness :
  RBuffer ∈ snd (queue_destroy (DestroyCalls true true true false)
                   [RCondPush; RCondPop; RMutex; RKey; RBuffer; RStruct]).
Proof.
  eapply (queue_destroy_outcome all_calls (DestroyCalls true true true false) 8 2);
    [reflexivity | discriminate].
Defined.
