(* ===== verification/QueueDebug.v ===== *)
(** [hw09/queue.c]: the size of [struct queue], and the output for debugging. *)

From S2P Require Import Prelude.
From S2P Require Import CLib.
From S2P Require Import QueueData.
From Stdlib Require Import Strings.Byte.
Import Init.Byte.

Open Scope string_scope.
Open Scope list_scope.
Open Scope Z_scope.

(* ------------------------------------------------------------------ *)
(** ** Sizes *)

(** The size of a type and its alignment. *)
Record layout := Layout { size : Z; align : Z }.

(** [n] rounded up to a multiple of [a]. *)
Definition round_up (n a : Z) : Z := (n + a - 1) / a * a.

(** A structure: each field at the next place that is aligned, and padding behind the
    last. *)
Definition fields_end (fs : list layout) : Z := fold_left (fun off f => round_up off (align f) + size f) fs 0.
Definition struct_layout (fs : list layout) : layout :=
  let a := fold_right Z.max 1 (map align fs) in Layout (round_up (fields_end fs) a) a.

Definition size_t : layout := Layout 8 8.
Definition pointer : layout := Layout 8 8.
Definition bool_t : layout := Layout 1 1.

(** The types of the thread library. *)
Section sizes.
Context (pthread_mutex_t pthread_cond_t pthread_key_t : layout).

Definition queue_memory_layout : layout := struct_layout [pointer; size_t; size_t; size_t].
Definition queue_synchronization_layout : layout :=
  struct_layout [pthread_mutex_t; pthread_cond_t; pthread_cond_t; bool_t; size_t; size_t].
Definition queue_layout : layout :=
  struct_layout [size_t; size_t; pthread_key_t; queue_memory_layout; queue_synchronization_layout].

Definition queue_type_size : Z := size queue_layout.
End sizes.

(** With the types that glibc has on x86-64. *)
Example queue_type_size_glibc : queue_type_size (Layout 40 8) (Layout 48 8) (Layout 4 4) = 216.
Proof. reflexivity. Qed.

(* ------------------------------------------------------------------ *)
(** ** [queue_state_debug] *)

(** A [char] is signed. *)
Definition char_value (b : byte) : Z := swrap 8 (Z.of_N (Byte.to_N b)).

(** The bytes that the loop reads; [None] when it leaves the block. *)
Definition debug_cells (q : queue) : option (list byte) :=
  mapM (fun i => memory (buffer q) !! i) (seq 0 (Z.to_nat (u64 (capacity q * elem_size q)))).

Definition debug_text (cells : list byte) (queue_size read_ptr write_ptr : Z) : string :=
  "queue memory:" +:+ tab +:+ String.concat "" (map (fun b => " " +:+ dec (char_value b)) cells) +:+ nl +:+
  "queue size:" +:+ tab +:+ tab +:+ dec (s64 queue_size) +:+ nl +:+
  "queue read ptr:" +:+ tab +:+ tab +:+ dec (s64 read_ptr) +:+ nl +:+
  "queue write ptr:" +:+ tab +:+ dec (s64 write_ptr) +:+ nl +:+ nl.

Definition queue_state_debug (q : queue) : option string :=
  cells ← debug_cells q;
  Some (debug_text cells (stored (buffer q)) (read_pointer (buffer q)) (write_pointer (buffer q))).

(* ------------------------------------------------------------------ *)
(** ** Properties *)

Lemma round_up_bounds n a : 0 < a -> n <= round_up n a < n + a /\ (a | round_up n a).
Proof. intros Ha. unfold round_up. split; [|by apply Z.divide_factor_r]. dlia. Qed.

Lemma fields_end_acc fs : Forall (fun f => 0 < align f /\ 0 <= size f) fs ->
  forall off, 0 <= off -> off + fold_right Z.add 0 (map size fs) <= fold_left (fun off f => round_up off (align f) + size f) fs off.
Proof.
  induction 1 as [|f fs [Ha Hs] _ IH]; intros off Ho; simpl; [lia|].
  pose proof (round_up_bounds off (align f) Ha) as [Hb _]. specialize (IH (round_up off (align f) + size f) ltac:(lia)). lia.
Qed.

(** A structure has room for its fields, and its size is a multiple of its alignment, so
    that the next one in an array is aligned as well. *)
Lemma struct_layout_room fs : Forall (fun f => 0 < align f /\ 0 <= size f) fs ->
  let l := struct_layout fs in
  fold_right Z.add 0 (map size fs) <= size l /\ (align l | size l) /\ 0 < align l.
Proof.
  intros H. simpl. assert (0 < fold_right Z.max 1 (map align fs)) as Ha.
  { induction fs as [|f fs IH]; simpl; [lia|]. inversion H; subst. specialize (IH ltac:(done)). lia. }
  pose proof (fields_end_acc fs H 0 ltac:(lia)). fold (fields_end fs) in *.
  pose proof (round_up_bounds (fields_end fs) _ Ha) as [? ?]. split_and!; [lia|done|done].
Qed.

Lemma mapM_lookup_seq {A} (l : list A) : forall k p, length p = k -> mapM (fun i => (p ++ l) !! i) (seq k (length l)) = Some l.
Proof.
  induction l as [|x l IH]; intros k p Hk; [done|]. cbn [length seq mapM].
  rewrite (lookup_app_r p) by lia. replace (k - length p)%nat with 0%nat by lia. simpl.
  specialize (IH (S k) (p ++ [x]) ltac:(rewrite length_app; simpl; lia)). rewrite <- app_assoc in IH. simpl in IH. by rewrite IH.
Qed.

(** On a queue that satisfies the invariant the loop reads exactly its block. *)
Theorem queue_state_debug_reads q (Hwf : queue_wf q) :
  queue_state_debug q =
  Some (debug_text (memory (buffer q)) (stored (buffer q)) (read_pointer (buffer q)) (write_pointer (buffer q))).
Proof.
  destruct Hwf. unfold queue_state_debug, debug_cells. rewrite u64_small by nia.
  replace (Z.to_nat (capacity q * elem_size q)) with (length (memory (buffer q))) by lia.
  pose proof (mapM_lookup_seq (memory (buffer q)) 0 [] eq_refl) as H. simpl in H. by rewrite H.
Qed.

Lemma queue_state_debug_reads_witness :
  queue_state_debug (queue_init 2 3) = Some (debug_text (replicate 6 x00) 0 0 0).
Proof. rewrite (queue_state_debug_reads (queue_init 2 3)); [reflexivity|]. by apply queue_init_wf. Defined.

(** Bytes from 128 on are shown as negative numbers. *)
Example negative_byte : char_value xff = -1.
Proof. reflexivity. Qed.
