(* ===== verification/TesterMult.v ===== *)
(** [hw09/tester_mult_thread.c]: producers, consumers and a main thread on top of the
    queue. A thread is the list of the calls it makes, which run as steps of
    [QueueThreads]; the program ignores the results of [queue_create] and
    [queue_destroy], and creation is taken to succeed. *)

From S2P Require Import Prelude QueueData QueueThreads.
From Stdlib Require Import Strings.Byte.
Import Init.Byte.

Open Scope Z_scope.

(** Integers in memory, the least significant byte first. *)
Definition byte_of (z : Z) : byte := default x00 (Byte.of_N (Z.to_N (z mod 256))).

Fixpoint le_bytes (n : nat) (z : Z) : list byte :=
  match n with O => [] | S n => byte_of z :: le_bytes n (z / 256) end.

Fixpoint le_value (l : list byte) : Z :=
  match l with [] => 0 | b :: l => Z.of_N (Byte.to_N b) + 256 * le_value l end.

Lemma length_le_bytes n : forall z, length (le_bytes n z) = n.
Proof. induction n as [|n IH]; intros z; simpl; [done|]. by rewrite IH. Qed.

Definition QUEUE_SIZE : Z := 4.
Definition THREADS : nat := 2.

(** The calls of [run_prod] and of [run_cons]. *)
Definition push (x : Z) : call := CPush (Some (le_bytes 4 x)).
Definition run_prod : list call := (push <$> [1; 2; 3; 4]) ++ [CTryPush (Some (le_bytes 4 0))].
Definition run_cons : list call := replicate 7 (CPop true) ++ [CTryPop true; CTryPop true].

(** [prod], [cons] and the main thread, which aborts the queue. *)
Definition scripts : list (list call) :=
  replicate (2 * THREADS) run_prod ++ replicate THREADS run_cons ++ [[CAbort]].
Definition main_thread : nat := 6.

(** Where [main] is: at a call of [pthread_create], at [queue_abort] behind [sleep],
    at a call of [pthread_join], at [queue_destroy]. *)
Inductive main_pc := MCreate (k : nat) | MAbort | MJoin (k : nat) | MDestroy | MReturn (status : Z).

(** The threads of [pthread_join] in their order: [cons], then [prod]. *)
Definition join_order : list nat := [4; 5; 0; 1; 2; 3]%nat.

(** The queue with its threads; how many are created; the calls each has still to
    make; [buffer[0]] and the printed values of each consumer; and [main]. *)
Record client := Client {
  sys : qsys;
  created : nat;
  todo : list (list call);
  bufs : list Z;
  lines : list (list Z);
  main : main_pc
}.

Definition start : client :=
  Client (qsys_init 7 4 QUEUE_SIZE) 0 scripts (replicate 7 0) (replicate 7 []) (MCreate 0).

Definition set_sys (s : qsys) (c : client) : client :=
  Client s (created c) (todo c) (bufs c) (lines c) (main c).
Definition set_main (m : main_pc) (c : client) : client :=
  Client (sys c) (created c) (todo c) (bufs c) (lines c) m.

(** A call has returned in thread [t]: a consumer prints [buffer[0]], which the call has
    changed if it delivered an element. *)
Definition returned (t : nat) (c : client) : client :=
  match threads (sys c) !! t with
  | Some (Idle (Some (_, out))) =>
      if bool_decide (t = 4 \/ t = 5)%nat then
        let v := match out with Some l => s32 (le_value l) | None => default 0 (bufs c !! t) end in
        Client (sys c) (created c) (todo c) (<[t := v]> (bufs c))
          (alter (fun l => l ++ [v]) t (lines c)) (main c)
      else c
  | _ => c
  end.

Definition is_idle (p : pc) : bool := match p with Idle _ => true | _ => false end.

(** Thread [t] has returned from its function. *)
Definition finished (t : nat) (c : client) : bool :=
  match threads (sys c) !! t, todo c !! t with
  | Some (Idle _), Some [] => true
  | _, _ => false
  end.

(** One step of [main]; [ok] is the outcome of [pthread_create]. *)
Definition main_step (ok : bool) (c : client) : option client :=
  match main c with
  | MCreate k =>
      if negb ok then Some (set_main (MReturn EXIT_FAILURE) c)
      else if (k =? 5)%nat then Some (Client (sys c) 7 (todo c) (bufs c) (lines c) MAbort)
      else Some (Client (sys c) (S k) (todo c) (bufs c) (lines c) (MCreate (S k)))
  | MAbort => if finished main_thread c then Some (set_main (MJoin 0) c) else None
  | MJoin k =>
      t ← join_order !! k;
      if finished t c then Some (set_main (if (k =? 5)%nat then MDestroy else MJoin (S k)) c) else None
  | MDestroy => Some (set_main (MReturn EXIT_SUCCESS) c)
  | MReturn _ => None
  end.

(** Who moves: [main], a thread at its next call, a thread inside a call, or a waiting
    thread that wakes up spuriously. Nothing moves once [main] has returned. *)
Inductive event := EMain (ok : bool) | EStart (t : nat) | ERun (t : nat) (pick : option nat) | EWake (t : nat).

Definition step (e : event) (c : client) : option client :=
  match main c with
  | MReturn _ => None
  | _ =>
      match e with
      | EMain ok => main_step ok c
      | EStart t =>
          if (t <? created c)%nat then
            match threads (sys c) !! t, todo c !! t with
            | Some (Idle _), Some (k :: ks) =>
                Some (Client (set_pc t (Enter k) (sys c)) (created c) (<[t := ks]> (todo c))
                        (bufs c) (lines c) (main c))
            | _, _ => None
            end
          else None
      | ERun t pick => s ← exec t pick (sys c); Some (returned t (set_sys s c))
      | EWake t =>
          match threads (sys c) !! t with
          | Some (Blocked k) => Some (set_sys (set_pc t (Woken k) (sys c)) c)
          | _ => None
          end
      end
  end.

Fixpoint run (es : list event) (c : client) : option client :=
  match es with [] => Some c | e :: es => c' ← step e c; run es c' end.

(* ------------------------------------------------------------------ *)
(** ** Properties *)

(** The calls a thread has finished, is in, or has still to make. *)
Definition busy (p : pc) : nat := b2n (negb (is_idle p)).

(** The abort is still to come, or the queue is aborted. *)
Definition abort_ok (c : client) : Prop :=
  (todo c !! main_thread = Some [CAbort] /\ exists r, threads (sys c) !! main_thread = Some (Idle r)) \/
  threads (sys c) !! main_thread = Some (Enter CAbort) \/
  threads (sys c) !! main_thread = Some (Locked CAbort) \/
  aborted (sync (sq (sys c))) = true.

Definition joined (k : nat) (c : client) : Prop :=
  created c = 7%nat /\ finished main_thread c = true /\
  Forall (fun t => finished t c = true) (take k join_order).

Definition main_ok (c : client) : Prop :=
  match main c with
  | MCreate k => (k < 6)%nat
  | MAbort => created c = 7%nat
  | MJoin k => (k < 6)%nat /\ joined k c
  | MDestroy => joined 6 c
  | MReturn st => st = EXIT_FAILURE \/ joined 6 c
  end.

(** A consumer prints a line for each of its nine calls. *)
Definition lines_ok (c : client) : Prop :=
  forall t, (t = 4 \/ t = 5)%nat -> exists p ks l,
    threads (sys c) !! t = Some p /\ todo c !! t = Some ks /\ lines c !! t = Some l /\
    (length l + length ks + busy p = 9)%nat.

Record cinv (c : client) : Prop := {
  cinv_ctrl : ctrl_inv (sys c);
  cinv_data : data_inv 4 4 (sys c);
  cinv_wait : wait_inv (sys c);
  cinv_calls : Forall (Forall (call_ok (sq (sys c)))) (todo c);
  cinv_length : length (threads (sys c)) = 7%nat /\ length (todo c) = 7%nat;
  cinv_abort : abort_ok c;
  cinv_main : main_ok c;
  cinv_lines : lines_ok c
}.

Lemma call_ok_size q q' : elem_size q' = elem_size q -> call_ok q = call_ok q'.
Proof. intros E. unfold call_ok. by rewrite E. Qed.

Lemma client_start_inv : cinv start.
Proof.
  assert (Z.of_nat 7 < 2 ^ 64) as H7 by lia.
  split; simpl.
  - apply ctrl_init.
  - by apply data_init.
  - by apply wait_init.
  - repeat constructor.
  - done.
  - left. split; [done|]. by eexists.
  - unfold main_ok. simpl. lia.
  - intros t [-> | ->]; do 3 eexists; (split_and!; [reflexivity..|done]).
Qed.

(** A step of the queue by thread [t], which goes from place [p] to place [p']. *)
Definition moves (t : nat) (p p' : pc) (s s' : qsys) : Prop :=
  exists ths, threads s !! t = Some p /\ threads s' = <[t:=p']> ths /\ Forall2 woken_from (threads s) ths.

Lemma moves_self t p p' s s' : moves t p p' s s' -> threads s' !! t = Some p'.
Proof.
  intros (ths & Ht & -> & Hw). apply list_lookup_insert_eq.
  rewrite <- (Forall2_length _ _ _ Hw). by eapply lookup_lt_Some.
Qed.

Lemma moves_other t p p' s s' u r :
  moves t p p' s s' -> u <> t -> threads s !! u = Some r ->
  exists r', threads s' !! u = Some r' /\ woken_from r r'.
Proof.
  intros (ths & Ht & -> & Hw) Hne Hu. rewrite list_lookup_insert_ne by done.
  by apply (Forall2_lookup_l _ _ _ _ _ Hw).
Qed.

(** The rest of the invariant only looks at which threads are idle and what they have
    still to do. *)
Lemma finished_moves t p p' c c' u :
  moves t p p' (sys c) (sys c') -> (u <> t -> todo c' !! u = todo c !! u) ->
  (u = t -> finished t c = true -> finished t c' = true) ->
  finished u c = true -> finished u c' = true.
Proof.
  intros Hm Ht Hs Hf. destruct (decide (u = t)) as [->|Hne]; [by apply Hs|].
  unfold finished in *. destruct (threads (sys c) !! u) as [r|] eqn:Hu; [|done].
  destruct (moves_other _ _ _ _ _ _ _ Hm Hne Hu) as (r' & -> & Hw). rewrite Ht by done.
  destruct r; try done. by destruct Hw as [-> | (? & ? & _)].
Qed.

Lemma main_ok_moves t p p' c c' :
  moves t p p' (sys c) (sys c') -> (forall u, u <> t -> todo c' !! u = todo c !! u) ->
  finished t c = false -> created c' = created c -> main c' = main c -> main_ok c -> main_ok c'.
Proof.
  intros Hm Ht Hf Hc Hmain Hok. unfold main_ok in *. rewrite Hmain.
  assert (forall k, joined k c -> joined k c') as Hj.
  { intros k (H1 & H2 & H3). split; [congruence|].
    assert (forall u, finished u c = true -> finished u c' = true) as Hu.
    { intros u. eapply finished_moves; [exact Hm|apply Ht|by rewrite Hf]. }
    split; [by apply Hu|]. by eapply Forall_impl. }
  destruct (main c); [done|congruence|split; [tauto|apply Hj; tauto]|by apply Hj|].
  destruct Hok; auto.
Qed.

(** The lines, given what happens to the thread that moves. *)
Lemma lines_ok_moves t p p' c c' :
  moves t p p' (sys c) (sys c') ->
  (forall u, u <> t -> todo c' !! u = todo c !! u /\ lines c' !! u = lines c !! u) ->
  (forall ks l, (t = 4 \/ t = 5)%nat -> todo c !! t = Some ks -> lines c !! t = Some l ->
     exists ks' l', todo c' !! t = Some ks' /\ lines c' !! t = Some l' /\
       (length l' + length ks' + busy p' = length l + length ks + busy p)%nat) ->
  lines_ok c -> lines_ok c'.
Proof.
  intros Hm Ho Hs Hl u Hu. destruct (Hl u Hu) as (r & ks & l & Hr & Hk & Hln & Hsum).
  destruct (decide (u = t)) as [->|Hne].
  - destruct (Hs ks l Hu Hk Hln) as (ks' & l' & ? & ? & ?).
    exists p', ks', l'. split_and!; try done; [by eapply moves_self|].
    assert (r = p) as -> by (destruct Hm as (? & ? & _); congruence). lia.
  - destruct (Ho u Hne) as [-> ->].
    destruct (moves_other _ _ _ _ _ _ _ Hm Hne Hr) as (r' & Hr' & Hw). exists r', ks, l.
    split_and!; try done. unfold busy in *. by destruct Hw as [-> | (? & -> & ->)].
Qed.

(** The abort, for a step of any thread. *)
Lemma abort_ok_moves t p p' c c' :
  moves t p p' (sys c) (sys c') -> (forall u, u <> t -> todo c' !! u = todo c !! u) ->
  (aborted (sync (sq (sys c))) = true -> aborted (sync (sq (sys c'))) = true) ->
  (t = main_thread -> todo c !! t = Some [CAbort] -> (exists r, p = Idle r) -> p' = Enter CAbort) ->
  (p = Enter CAbort -> p' = Locked CAbort) ->
  (p = Locked CAbort -> aborted (sync (sq (sys c'))) = true) ->
  abort_ok c -> abort_ok c'.
Proof.
  intros Hm Ht Ha H1 H2 H3 Hok. unfold abort_ok in *.
  pose proof (moves_self _ _ _ _ _ Hm) as Hself.
  assert (threads (sys c) !! t = Some p) as Hp by (by destruct Hm as (? & ? & _)).
  destruct (decide (main_thread = t)) as [<-|Hne].
  - destruct Hok as [(Hk & r & Hr) | [Hr | [Hr | Hr]]]; rewrite ?Hp in Hr; [| | |by auto].
    + injection Hr as ->. right. left. rewrite Hself. f_equal. naive_solver.
    + injection Hr as ->. right. right. left. rewrite Hself. f_equal. auto.
    + injection Hr as ->. auto.
  - rewrite (Ht _ Hne).
    assert (forall r, (forall k, r <> Blocked k) -> threads (sys c) !! main_thread = Some r ->
      threads (sys c') !! main_thread = Some r) as Hstay.
    { intros r Hnb Hr. destruct (moves_other _ _ _ _ _ _ _ Hm Hne Hr) as (r' & -> & Hw).
      destruct Hw as [-> | (k & -> & _)]; [done|by destruct (Hnb k)]. }
    destruct Hok as [(Hk & r & Hr) | [Hr | [Hr | Hr]]]; [|by auto..].
    left. split; [done|]. exists r. by apply Hstay.
Qed.

Lemma not_finished c t p : threads (sys c) !! t = Some p -> is_idle p = false -> finished t c = false.
Proof. intros Hp Hi. unfold finished. rewrite Hp. by destruct p. Qed.

(** The queue's own invariant moves with its steps. *)
Lemma sys_inv_step c s' :
  cinv c -> qstep (sys c) s' -> ctrl_inv s' /\ data_inv 4 4 s' /\ wait_inv s'.
Proof.
  intros Hi Hs. pose proof (data_wf _ _ _ (cinv_data c Hi)) as Hwf.
  pose proof (cinv_ctrl c Hi). pose proof (cinv_data c Hi). pose proof (cinv_wait c Hi).
  split_and!; [by eapply ctrl_step|by eapply data_step|by eapply wait_step].
Qed.

(** What [returned] leaves alone, and what it prints. *)
Lemma returned_same t c :
  sys (returned t c) = sys c /\ created (returned t c) = created c /\ todo (returned t c) = todo c /\
  main (returned t c) = main c /\ (forall u, u <> t -> lines (returned t c) !! u = lines c !! u).
Proof.
  unfold returned. repeat case_match; simpl; split_and!; try done.
  all: intros u Hu; by rewrite list_lookup_alter_ne.
Qed.

Lemma returned_lines t c p l :
  (t = 4 \/ t = 5)%nat -> threads (sys c) !! t = Some p -> lines c !! t = Some l ->
  p <> Idle None ->
  exists l', lines (returned t c) !! t = Some l' /\ length l' = (length l + (1 - busy p))%nat.
Proof.
  intros Ht Hp Hl Hne. unfold returned. rewrite Hp.
  assert (forall p, busy p = 1%nat -> exists l', lines c !! t = Some l' /\ length l' = (length l + (1 - busy p))%nat) as Hb.
  { intros q ->. exists l. split; [done|lia]. }
  destruct p as [[[ret out]|]|k|k|k|k|ret out]; try by apply Hb.
  - rewrite bool_decide_eq_true_2 by done. simpl. rewrite list_lookup_alter_eq, Hl. simpl.
    eexists. split; [done|]. rewrite length_app. simpl. unfold busy. simpl. lia.
Qed.

(** A step of a thread keeps the invariant. *)
Lemma tester_thread_inv c c' t p p' :
  cinv c -> qstep (sys c) (sys c') -> moves t p p' (sys c) (sys c') ->
  finished t c = false -> created c' = created c -> main c' = main c ->
  (forall u, u <> t -> todo c' !! u = todo c !! u /\ lines c' !! u = lines c !! u) ->
  length (todo c') = 7%nat -> Forall (Forall (call_ok (sq (sys c)))) (todo c') ->
  (aborted (sync (sq (sys c))) = true -> aborted (sync (sq (sys c'))) = true) ->
  (t = main_thread -> todo c !! t = Some [CAbort] -> (exists r, p = Idle r) -> p' = Enter CAbort) ->
  (p = Enter CAbort -> p' = Locked CAbort) ->
  (p = Locked CAbort -> aborted (sync (sq (sys c'))) = true) ->
  (forall ks l, (t = 4 \/ t = 5)%nat -> todo c !! t = Some ks -> lines c !! t = Some l ->
     exists ks' l', todo c' !! t = Some ks' /\ lines c' !! t = Some l' /\
       (length l' + length ks' + busy p' = length l + length ks + busy p)%nat) ->
  cinv c'.
Proof.
  intros Hi Hq Hm Hf Hc Hmain Ho Hl Hcalls Ha H1 H2 H3 Hlines.
  destruct (sys_inv_step c _ Hi Hq) as (I1 & I2 & I3).
  assert (forall u, u <> t -> todo c' !! u = todo c !! u) as Ho' by (intros u Hu; by apply Ho).
  split; [done..| | | | |].
  - rewrite <- (call_ok_size (sq (sys c))); [done|].
    by rewrite (data_es _ _ _ I2), (data_es _ _ _ (cinv_data c Hi)).
  - split; [|done]. destruct (qstep_lengths _ _ Hq) as [-> _]. apply Hi.
  - by eapply abort_ok_moves; eauto using cinv_abort.
  - by eapply main_ok_moves; eauto using cinv_main.
  - by eapply lines_ok_moves; eauto using cinv_lines.
Qed.

(** A thread makes its next call. *)
Lemma tester_creates_inv c t r k ks :
  cinv c -> threads (sys c) !! t = Some (Idle r) -> todo c !! t = Some (k :: ks) ->
  cinv (Client (set_pc t (Enter k) (sys c)) (created c) (<[t := ks]> (todo c)) (bufs c) (lines c) (main c)).
Proof.
  intros Hi Ht Hk.
  pose proof (Forall_lookup_1 _ _ _ _ (cinv_calls c Hi) Hk) as Hcalls. apply Forall_cons in Hcalls as [Hck Hcks].
  eapply (tester_thread_inv c _ t (Idle r) (Enter k) Hi); simpl; try done.
  - by eapply step_call.
  - exists (threads (sys c)). split_and!; [done|done|apply woken_refl].
  - unfold finished. by rewrite Ht, Hk.
  - intros u Hu. by rewrite list_lookup_insert_ne.
  - rewrite length_insert. apply Hi.
  - apply Forall_insert; [apply Hi|done].
  - intros -> Hk' _. rewrite Hk in Hk'. by injection Hk' as -> ->.
  - intros ks0 l _ Hk0 Hl. rewrite Hk in Hk0. injection Hk0 as <-. exists ks, l.
    rewrite list_lookup_insert_eq by (by eapply lookup_lt_Some). split_and!; [done|done|].
    unfold busy. simpl. lia.
Qed.

(** A thread wakes up for no reason. *)
Lemma wake_inv c t k :
  cinv c -> threads (sys c) !! t = Some (Blocked k) -> cinv (set_sys (set_pc t (Woken k) (sys c)) c).
Proof.
  intros Hi Ht. eapply (tester_thread_inv c _ t (Blocked k) (Woken k) Hi); simpl; try done.
  - by eapply step_spurious.
  - exists (threads (sys c)). split_and!; [done|done|apply woken_refl].
  - by eapply not_finished.
  - apply Hi.
  - apply Hi.
  - by intros _ _ [? ?].
  - intros ks l _ Hk Hl. by exists ks, l.
Qed.

(** A thread runs inside a call, and prints when it returns. *)
Lemma run_step_inv c t pick s' :
  cinv c -> exec t pick (sys c) = Some s' -> cinv (returned t (set_sys s' c)).
Proof.
  intros Hi Hx.
  destruct (exec_moves _ _ _ _ Hx) as (p & p' & ths & Ht & Hths & Hw & Hni & Hnn & Ha & H2 & H3).
  destruct (returned_same t (set_sys s' c)) as (Es & Ec & Et & Em & El).
  assert (moves t p p' (sys c) s') as Hm by (by exists ths).
  assert (is_idle p = false) as Hp by (destruct p as [r| | | | |]; [by destruct (Hni r)|done..]).
  eapply (tester_thread_inv c _ t p p' Hi); rewrite ?Es, ?Et; simpl; try done.
  - by eapply step_run.
  - by eapply not_finished.
  - intros u Hu. split; [done|]. by rewrite El.
  - apply Hi.
  - apply Hi.
  - intros _ _ [r ->]. by destruct (Hni r).
  - intros ks l Hc Hk Hl.
    destruct (returned_lines t (set_sys s' c) p' l Hc) as (l' & Hl' & Hlen);
      [by eapply moves_self|done|done|].
    exists ks, l'. split_and!; [done|done|]. rewrite Hlen. unfold busy. rewrite Hp. simpl.
    destruct (is_idle p'); simpl; lia.
Qed.

(** [main] moves. *)
Lemma tester_main_inv ok c c' : cinv c -> main_step ok c = Some c' -> cinv c'.
Proof.
  intros Hi H.
  assert (sys c' = sys c /\ todo c' = todo c /\ lines c' = lines c /\ main_ok c') as (Es & Et & El & Hm).
  { pose proof (cinv_main c Hi) as Hmain. unfold main_step, main_ok in *.
    destruct (main c) as [k| |k| |st]; [| | | |done].
    - destruct ok; simpl in H; [|by injection H as <-; simpl; auto].
      destruct (Nat.eqb_spec k 5); injection H as <-; simpl; [done|]. split_and!; try done. lia.
    - destruct (finished main_thread c) eqn:Hf; [|done]. injection H as <-. simpl.
      split_and!; try done; lia.
    - destruct Hmain as (Hk & Hc & Hf & Hj).
      destruct (join_order !! k) as [t|] eqn:Ht; [|done]. simpl in H.
      destruct (finished t c) eqn:Hft; [|done]. injection H as <-. split_and!; [done..|].
      assert (joined (S k) c) as Hj'.
      { split; [done|]. split; [done|]. rewrite (take_S_r _ _ _ Ht). apply Forall_app.
        split; [done|by constructor]. }
      simpl. destruct (Nat.eqb_spec k 5) as [->|]; [exact Hj'|]. split; [lia|exact Hj'].
    - injection H as <-. simpl. split_and!; try done. by right. }
  destruct Hi as [I1 I2 I3 I4 I5 I6 _ I8].
  split; unfold abort_ok, lines_ok in *; rewrite ?Es, ?Et, ?El; try done.
Qed.

Lemma client_step_inv e c c' : cinv c -> step e c = Some c' -> cinv c'.
Proof.
  intros Hi H. unfold step in H.
  assert (forall st, main c = MReturn st -> False) as Hr by (intros st E; by rewrite E in H).
  destruct e as [ok|t|t pick|t].
  - eapply (tester_main_inv ok); [exact Hi|]. by destruct (main c).
  - assert (exists r k ks, threads (sys c) !! t = Some (Idle r) /\ todo c !! t = Some (k :: ks) /\
      c' = Client (set_pc t (Enter k) (sys c)) (created c) (<[t := ks]> (todo c)) (bufs c) (lines c) (main c))
      as (r & k & ks & Ht & Hk & ->).
    { destruct (main c); repeat case_match; try done; simplify_eq; eauto 10. }
    by eapply tester_creates_inv.
  - assert (exists s, exec t pick (sys c) = Some s /\ c' = returned t (set_sys s c)) as (s & Hx & ->).
    { destruct (exec t pick (sys c)) as [s|] eqn:E; [|by destruct (main c)]. exists s. split; [done|].
      destruct (main c); try (by injection H as <-). by destruct (Hr status). }
    by eapply run_step_inv.
  - assert (exists k, threads (sys c) !! t = Some (Blocked k) /\ c' = set_sys (set_pc t (Woken k) (sys c)) c)
      as (k & Ht & ->).
    { destruct (main c); repeat case_match; try done; simplify_eq; eauto. }
    by apply wake_inv.
Qed.

Lemma client_run_inv es : forall c c', cinv c -> run es c = Some c' -> cinv c'.
Proof.
  induction es as [|e es IH]; intros c c' Hi H; simpl in H; [by injection H as <-|].
  destruct (step e c) as [c1|] eqn:E; [|done]. eapply IH; [|exact H]. by eapply client_step_inv.
Qed.

(** When nothing can move and [main] has not returned, every thread has finished. *)
Lemma stuck_finished c t :
  cinv c -> created c = 7%nat -> (forall e, step e c = None) -> (forall st, main c <> MReturn st) ->
  (t < 7)%nat -> finished t c = true.
Proof.
  intros Hi Hc Hstuck Hr Ht. destruct (cinv_length c Hi) as [L1 L2].
  assert (forall u pick, exec u pick (sys c) = None) as Hx.
  { intros u pick. specialize (Hstuck (ERun u pick)). unfold step in Hstuck.
    destruct (exec u pick (sys c)) as [s|]; [|done]. destruct (main c); try done. by destruct (Hr status). }
  destruct (stuck_quiet 4 4 (sys c) (cinv_ctrl c Hi) (cinv_data c Hi) Hx) as [_ Hq].
  assert (forall u r k ks, threads (sys c) !! u = Some (Idle r) -> todo c !! u <> Some (k :: ks)) as Hs.
  { intros u r k ks Hu Hk. specialize (Hstuck (EStart u)). unfold step in Hstuck.
    assert (u < 7)%nat as Hlt by (rewrite <- L2; by eapply lookup_lt_Some).
    rewrite Hc, (proj2 (Nat.ltb_lt u 7) Hlt), Hu, Hk in Hstuck.
    destruct (main c); try done. by destruct (Hr status). }
  assert (aborted (sync (sq (sys c))) = true) as Ha.
  { destruct (cinv_abort c Hi) as [(Hk & r & Hm) | [Hm | [Hm | Ha]]]; [by destruct (Hs _ _ _ _ Hm Hk)| | |done];
      destruct (Hq _ _ Hm) as [[? ?] | [? ?]]; done. }
  destruct (lookup_lt_is_Some_2 (threads (sys c)) t) as [p Hp]; [lia|].
  destruct (lookup_lt_is_Some_2 (todo c) t) as [ks Hk]; [lia|].
  unfold finished. rewrite Hp, Hk. destruct (Hq t p Hp) as [[r ->] | [k ->]].
  - destruct ks as [|k ks]; [done|]. by destruct (Hs _ _ _ _ Hp Hk).
  - by destruct (aborted_no_waiter _ t k (cinv_ctrl c Hi) (cinv_wait c Hi) Ha).
Qed.

Lemma joined_all c t : joined 6 c -> (t < 7)%nat -> finished t c = true.
Proof.
  intros (_ & Hm & Hj) Ht. unfold join_order in Hj. simpl in Hj. rewrite !Forall_cons in Hj.
  do 7 (destruct t as [|t]; [tauto|]). lia.
Qed.

(** C37: however its four producers, two consumers and main thread are scheduled, and
    whether threads wake up spuriously or cannot be created, the tester never hangs:
    it stops only when [main] has returned. The queue is destroyed only when every
    thread has returned from its calls, and each consumer has then printed a line
    for each of its nine calls. *)
Theorem tester_ends (es : list event) (c : client) (Hrun : run es start = Some c) :
  ((forall e, step e c = None) -> exists st, main c = MReturn st) /\
  (main c = MDestroy \/ main c = MReturn EXIT_SUCCESS ->
     (forall t, (t < 7)%nat -> finished t c = true) /\
     (forall t, (t = 4 \/ t = 5)%nat -> exists l, lines c !! t = Some l /\ length l = 9%nat)).
Proof.
  pose proof (client_run_inv es start c client_start_inv Hrun) as Hi. split.
  - intros Hstuck. pose proof (cinv_main c Hi) as Hm. unfold main_ok in Hm.
    pose proof (Hstuck (EMain true)) as Hs. unfold step, main_step in Hs.
    destruct (main c) as [k| |k| |st] eqn:E; [| | |done|by eexists]; exfalso.
    + simpl in Hs. by destruct (k =? 5)%nat.
    + rewrite stuck_finished in Hs; [done|done|done|done|congruence|unfold main_thread; lia].
    + destruct Hm as (Hk & Hc & _). destruct (lookup_lt_is_Some_2 join_order k) as [t Ht]; [done|].
      rewrite Ht in Hs. simpl in Hs. rewrite stuck_finished in Hs; [done|done|done|done|congruence|].
      unfold join_order in Ht. do 6 (destruct k as [|k]; [simpl in Ht; injection Ht as <-; lia|]). lia.
  - intros Hm. assert (joined 6 c) as Hj.
    { pose proof (cinv_main c Hi) as Hok. unfold main_ok in Hok. destruct Hm as [E | E]; rewrite E in Hok; [done|].
      by destruct Hok. }
    split; [intros t; by apply joined_all|]. intros t Ht.
    destruct (cinv_lines c Hi t Ht) as (p & ks & l & Hp & Hk & Hl & Hsum). exists l. split; [done|].
    pose proof (joined_all c t Hj ltac:(lia)) as Hf. unfold finished in Hf. rewrite Hp, Hk in Hf.
    destruct p; try done. destruct ks; [|done]. unfold busy in Hsum. simpl in Hsum. lia.
Qed.

(** A run in which the first of these events that is possible happens each time: [main]
    goes on when it can, the threads in their order, the main thread last. *)
Definition choices : list event :=
  EMain true :: concat (map (fun t => EStart t :: ERun t None :: map (fun w => ERun t (Some w)) (seq 0 7)) (seq 0 7)).

Fixpoint first_step (es : list event) (c : client) : option event :=
  match es with
  | [] => None
  | e :: es => match step e c with Some _ => Some e | None => first_step es c end
  end.

Fixpoint schedule (n : nat) (c : client) : list event :=
  match n with
  | O => []
  | S n =>
      match first_step choices c with
      | None => []
      | Some e => e :: schedule n (default c (step e c))
      end
  end.

Definition demo_run : list event := schedule 500 start.
Definition demo_end : client := default start (run demo_run start).

(** The lines of the two consumers of that run: a call that is aborted leaves the
    buffer alone, and the last element is printed again. *)
Example tester_output :
  main demo_end = MReturn EXIT_SUCCESS /\
  lines demo_end = [[]; []; []; []; [1; 2; 3; 4; 1; 2; 3; 4; 1]; [2; 3; 4; 1; 1; 1; 1; 1; 1]; []].
Proof. vm_compute. done. Qed.

Theorem tester_ends_witness :
  run demo_run start = Some demo_end /\ forall t, (t < 7)%nat -> finished t demo_end = true.
Proof.
  assert (run demo_run start = Some demo_end) as Hrun by (vm_compute; reflexivity).
  split; [done|].
  refine (proj1 (proj2 (tester_ends demo_run demo_end Hrun) _)). right. vm_compute. reflexivity.
Defined.

