(* ===== verification/TesterSolo.v ===== *)
(** [hw09/tester_impl.c] and [hw09/tester_thread_safe.c]: programs in which a queue is
    used by one thread. Creation of the queue is taken to succeed. *)

From S2P Require Import Prelude QueueData QueueThreads.
From S2P Require Import TesterMult.
From Stdlib Require Import Strings.Byte.
Import Init.Byte.

Open Scope Z_scope.

(* ------------------------------------------------------------------ *)
(** ** Calls of one thread *)

(** A call of the only thread of a queue, step by step, until it returns; [None] when
    it waits for ever (or would be undefined). *)
Fixpoint until_idle (fuel : nat) (s : qsys) : option (Z * option (list byte) * qsys) :=
  match threads s !! 0%nat with
  | Some (Idle (Some (ret, out))) => Some (ret, out, s)
  | _ => match fuel with O => None | S fuel => s' ← exec 0 None s; until_idle fuel s' end
  end.

Definition solo (c : call) (s : qsys) : option (Z * option (list byte) * qsys) :=
  until_idle 4 (set_pc 0 (Enter c) s).

(* ------------------------------------------------------------------ *)
(** ** [tester_impl.c] *)

(** What is printed, line by line. *)
Inductive line :=
| Empty (b : bool)
| SizeFull (n : Z) (b : bool)
| ErrorVal (n : Z)
| Text (s : string)
| Numbers (ns : list Z).

(** A call that passes the address of a [size_t]. *)
Definition push (x : Z) : call := CPush (Some (le_bytes 8 x)).
Definition try_push (x : Z) : call := CTryPush (Some (le_bytes 8 x)).

(** [ret_nums[i]] after a pop into it. *)
Definition store_ret (i : nat) (out : option (list byte)) (ret_nums : list Z) : list Z :=
  match out with Some l => <[i := le_value l]> ret_nums | None => ret_nums end.

(** [main]; [None] if a call never returns. *)
Definition impl_main : option (list line * Z) :=
  let s := qsys_init 1 8 2 in
  let l1 := Empty (queue_is_empty (sq s)) in
  '(_, s) ← solo (push 1024) s;
  '(_, s) ← solo (try_push 1025) s;
  let l2 := SizeFull (queue_size (sq s)) (queue_is_full (sq s)) in
  let ret_nums := [0; 0; 0; 0] in
  '(_, out, s) ← solo (CPop true) s;
  let ret_nums := store_ret 0 out ret_nums in
  '(_, s) ← solo (push 1026) s;
  '(_, s) ← solo (try_push 1026) s;
  let l3 := ErrorVal (queue_errno 0 s) in
  '(_, out, s) ← solo (CTryPop true) s;
  let ret_nums := store_ret 1 out ret_nums in
  '(_, s) ← solo (try_push 3) s;
  Some ([l1; l2; l3; Text "pushed"; Text "popped"; Numbers ret_nums; Text "Finished!"], EXIT_SUCCESS).

(** The tester returns, having seen a full queue refuse an element; both pops happen on
    a full queue, and so deliver the oldest element. *)
Theorem impl_result :
  impl_main =
  Some ([Empty true; SizeFull 2 true; ErrorVal QUEUE_FULL; Text "pushed"; Text "popped";
         Numbers [1024; 1025; 0; 0]; Text "Finished!"], EXIT_SUCCESS).
Proof. vm_compute. reflexivity. Qed.

(* ------------------------------------------------------------------ *)
(** ** [tester_thread_safe.c] *)

Definition QUEUE_SIZE : Z := 2.

(** The calls of [run_thread] on its own queue: a pop from the empty queue, three pushes
    in thread 0 and two in the others, three times [queue_abort]. *)
Definition run_thread (thread_num : nat) : list call :=
  CTryPop true ::
  ((fun x => CPush (Some (le_bytes 4 x))) <$> take (if (thread_num =? 0)%nat then 3 else 2) [1; 2; 3]) ++
  [CAbort; CAbort; CAbort].

(** A thread with its queue, and the calls still to make. *)
Record state := State { sys : qsys; todo : list call }.

Definition start (thread_num : nat) : state := State (qsys_init 1 4 QUEUE_SIZE) (run_thread thread_num).

(** The thread makes its next call, goes on inside one, or wakes up spuriously. *)
Inductive event := EStart | ERun (pick : option nat) | EWake.

Definition step (e : event) (s : state) : option state :=
  match e with
  | EStart =>
      match threads (sys s) !! 0%nat, todo s with
      | Some (Idle _), c :: cs => Some (State (set_pc 0 (Enter c) (sys s)) cs)
      | _, _ => None
      end
  | ERun pick => s' ← exec 0 pick (sys s); Some (State s' (todo s))
  | EWake =>
      match threads (sys s) !! 0%nat with
      | Some (Blocked c) => Some (State (set_pc 0 (Woken c) (sys s)) (todo s))
      | _ => None
      end
  end.

Fixpoint run (es : list event) (s : state) : option state :=
  match es with [] => Some s | e :: es => s' ← step e s; run es s' end.

Definition finished (s : state) : bool :=
  match threads (sys s), todo s with [Idle _], [] => true | _, _ => false end.

(** [main] joins the two threads in order and then returns. *)
Definition main_returns (s0 s1 : state) : bool := finished s0 && finished s1.

(** The states of a thread, one after the other. *)
Definition next (s : state) : state :=
  match step EStart s, step (ERun None) s, step EWake s with
  | Some s', _, _ | None, Some s', _ | None, None, Some s' => s'
  | None, None, None => s
  end.

Fixpoint trace (n : nat) (s : state) : list state :=
  match n with O => [] | S n => s :: trace n (next s) end.

(** The trace of thread [t] contains all its states. *)
Definition closed (l : list state) : Prop :=
  forall s e s', In s l -> step e s = Some s' -> In s' l.

Local Ltac member := first [left; reflexivity | right; member].
Local Ltac all_states :=
  let e := fresh in let Hs := fresh in let Hin := fresh in
  intros ? e ? Hin; vm_compute in Hin;
  repeat match type of Hin with _ \/ _ => destruct Hin as [<- | Hin] end; [..|done];
  destruct e as [|[[|?]|]|]; vm_compute; intros Hs; try discriminate Hs; injection Hs as <-; member.

Lemma trace0_closed : closed (trace 17 (start 0)).
Proof. all_states. Qed.

Lemma trace1_closed : closed (trace 24 (start 1)).
Proof. all_states. Qed.

Lemma run_closed es : forall l s s', closed l -> In s l -> run es s = Some s' -> In s' l.
Proof.
  induction es as [|e es IH]; intros l s s' Hc Hs H; simpl in H; [by injection H as <-|].
  destruct (step e s) as [s1|] eqn:E; [|done]. eapply IH; [done| |exact H]. by eapply Hc.
Qed.

(** Thread 0 never finishes, since nobody else can take an element from its queue or
    abort it: [main] waits for it for ever. Thread 1 finishes: it can always go on
    until it has. *)
Theorem thread_safe_hangs es0 es1 s0 s1
    (H0 : run es0 (start 0) = Some s0) (H1 : run es1 (start 1) = Some s1) :
  main_returns s0 s1 = false /\
  (finished s1 = true \/ exists e s', step e s1 = Some s').
Proof.
  pose proof (run_closed es0 _ _ _ trace0_closed ltac:(left; reflexivity) H0) as I0.
  pose proof (run_closed es1 _ _ _ trace1_closed ltac:(left; reflexivity) H1) as I1.
  split.
  - unfold main_returns. vm_compute in I0.
    repeat match type of I0 with _ \/ _ => destruct I0 as [<- | I0] end; [reflexivity..|done].
  - vm_compute in I1.
    repeat match type of I1 with _ \/ _ => destruct I1 as [<- | I1] end; [..|done];
      first [left; reflexivity | right; first [by exists EStart; eexists | by exists (ERun None); eexists]].
Qed.
