(* ===== verification/MemgrindConfig.v ===== *)
(** [hw03/utils.c] and [hw03/syslog_parser.c]: the configuration of the memory
    tracing library, read from the environment by its constructor. *)

From S2P Require Import Prelude CLib.
From Stdlib Require Import Ascii.

Open Scope string_scope.
Open Scope Z_scope.

(** [struct real_functions]: the addresses of the functions behind the wrappers. *)
Record real_functions := RealFunctions { real_calloc : Z; real_free : Z; real_malloc : Z; real_realloc : Z }.

(** [read_real_functions]: [dlsym(RTLD_NEXT, ...)] for each, or the end of the program with a
    message. *)
Definition read_real_functions (dlsym : string -> option Z) (dlerror : string) : (Z * output) + real_functions :=
  match dlsym "calloc", dlsym "free", dlsym "malloc", dlsym "realloc" with
  | Some c, Some f, Some m, Some r => inr (RealFunctions c f m r)
  | _, _, _, _ => inl (EXIT_FAILURE, Stderr ("Error in dlsym: " ++ dlerror ++ nl))
  end.

(** The priorities of [syslog.h]. *)
Definition LOG_EMERG : Z := 0.
Definition LOG_ALERT : Z := 1.
Definition LOG_CRIT : Z := 2.
Definition LOG_ERR : Z := 3.
Definition LOG_WARNING : Z := 4.
Definition LOG_NOTICE : Z := 5.
Definition LOG_INFO : Z := 6.
Definition LOG_DEBUG : Z := 7.
Definition LOG_PID : Z := 1.
Definition LOG_PERROR : Z := 32.

(** A message sent to [syslog], with its priority. *)
Record message := Msg { priority : Z; text : string }.

(** [struct enviroment_settings] *)
Record enviroment_settings := Settings {
  memgrind_mem_max : Z;
  memgrind_alloc_max : Z;
  memgrind_alloc_count : Z;
}.

Definition syslog_priority_map : list (string * Z) :=
  [("EMERG", LOG_EMERG); ("ALERT", LOG_ALERT); ("CRIT", LOG_CRIT);
   ("ERR", LOG_ERR); ("WARNING", LOG_WARNING); ("NOTICE", LOG_NOTICE);
   ("INFO", LOG_INFO); ("DEBUG", LOG_DEBUG)].

Fixpoint find_priority (log_val : string) (map : list (string * Z)) : Z :=
  match map with
  | (name, p) :: map => if bool_decide (log_val = name) then p else find_priority log_val map
  | [] => -1
  end.

(** [parse_log_value(log_val)]: the loop visits the [LOG_DEBUG + 1] named entries. *)
Definition parse_log_value (log_val : string) : Z := find_priority log_val syslog_priority_map.

(** Environment variables. *)
Definition environment := string -> option string.

(** [get_value(env_var_name)]; [inl] is the message logged before
    [_Exit(EXIT_FAILURE)]. *)
Definition get_value (env : environment) (env_var_name : string) : message + Z :=
  match env env_var_name with
  | None => inr (u64 (-1))
  | Some (String "-" _) => inl (Msg LOG_ERR (env_var_name +:+ " is negative"))
  | Some env_var =>
      let p := strtol env_var 10 in
      let value := u64 (st_value p) in
      if full_number p then inr value
      else inl (Msg LOG_ERR (env_var_name +:+ "='" +:+ env_var +:+ "' is invalid"))
  end.

(** [initialise_from_env]: the option of [openlog], the level of [setlogmask],
    and the settings; [inl] when the process ends with [EXIT_FAILURE]. *)
Definition initialise_from_env (env : environment)
    : message + (Z * Z * enviroment_settings * message) :=
  let memgrind_log_stderr :=
    match env "MEMGRIND_LOG_STDERR" with
    | Some (String _ _) => LOG_PERROR
    | _ => LOG_PID
    end in
  let level :=
    match env "MEMGRIND_LOG_LEVEL" with
    | None => inr LOG_DEBUG
    | Some env_var =>
        let l := parse_log_value env_var in
        if l =? -1
        then inl (Msg LOG_ERR ("MEMGRIND_LOG_LEVEL='" +:+ env_var +:+ "' is invalid" +:+ nl))
        else inr l
    end in
  match level, get_value env "MEMGRIND_ALLOC_COUNT", get_value env "MEMGRIND_ALLOC_MAX",
        get_value env "MEMGRIND_MEM_MAX" with
  | inl m, _, _, _ | inr _, inl m, _, _ | inr _, inr _, inl m, _ | inr _, inr _, inr _, inl m => inl m
  | inr level, inr count, inr alloc_max, inr mem_max =>
      let settings := Settings mem_max alloc_max count in
      inr (memgrind_log_stderr, level, settings,
           Msg LOG_INFO ("mem_max=" +:+ dec (s64 mem_max) +:+ " alloc_max=" +:+ dec (s64 alloc_max)
                         +:+ " alloc_count_max=" +:+ dec (s64 count)))
  end.

(* ------------------------------------------------------------------ *)
(** ** Properties *)

(** [parse_log_value] is the inverse of the naming of priorities: it returns
    a priority between 0 and [LOG_DEBUG] exactly for the eight names, each its
    own, and -1 for every other string. *)
Theorem parse_log_value_correct v p :
  0 <= p -> (parse_log_value v = p <-> (v, p) ∈ syslog_priority_map).
Proof.
  intros Hp. unfold parse_log_value. simpl. set_unfold.
  repeat case_bool_decide; subst; naive_solver (try done; try lia).
Qed.

(** A limit that is the decimal form of a number of at most 63 bits is read
    back exactly, and an unset limit is the largest [size_t], which no size
    exceeds. *)
Theorem get_value_decimal env name n :
  0 <= n <= LONG_MAX ->
  (env name = Some (dec n) -> get_value env name = inr n) /\
  (env name = None -> get_value env name = inr SIZE_MAX).
Proof.
  intros Hn. unfold get_value. split; intros ->; [|done].
  assert (strtol (dec n) 10 = Strto n "" true false) as E
    by (apply strtol_dec; unfold LONG_MIN, LONG_MAX in *; lia).
  destruct (dec n) as [|c s] eqn:Es; [by vm_compute in E|].
  rewrite E. simpl. rewrite u64_small by (unfold LONG_MAX in *; lia).
  pose proof (dec_no_dash n s ltac:(lia)) as Hd. rewrite Es in Hd.
  destruct c as [[] [] [] [] [] [] [] []]; done.
Qed.

Lemma parse_log_value_correct_witness : parse_log_value "NOTICE" = LOG_NOTICE.
Proof. apply (parse_log_value_correct "NOTICE" LOG_NOTICE); [done|]. set_solver. Defined.

Lemma get_value_decimal_witness :
  get_value (fun _ => Some (dec 1000)) "MEMGRIND_ALLOC_MAX" = inr 1000.
Proof. by apply (get_value_decimal (fun _ => Some (dec 1000)) "MEMGRIND_ALLOC_MAX" 1000). Defined.

(** A minus sign after a space passes the test for negative limits. *)
Example get_value_space_minus :
  get_value (fun _ => Some " -1") "MEMGRIND_MEM_MAX" = inr SIZE_MAX.
Proof. reflexivity. Qed.
