(* ===== verification/Memgrind.v ===== *)
(** [hw03/libmemgrind.c]: [malloc], [calloc], [realloc] and [free] of the memory
    tracing library, on top of the real allocator, which is a class.  A call is
    a function of the state; [None] is undefined behaviour: an access outside a
    block of the allocator. *)

From S2P Require Import Prelude CLib MemgrindConfig.
From stdpp Require Import fin_maps.

Open Scope string_scope.
Open Scope Z_scope.

(* ------------------------------------------------------------------ *)
(** ** Data *)

(** [struct memory_statistics] *)
Record memory_statistics := Statistics {
  total_used : Z;
  total_freed : Z;
  allocation_num : Z;
  dealllocation_num : Z;
  errors : Z;
  declined_allocations : Z;
}.

(** [struct service_info], at the start of every block of the library. *)
Record service_info := ServiceInfo { block_size : Z; check : string }.

Definition CANNARY_WORD : string := "ZDE".
Definition SERVICE_LENGTH : Z := 16.

(** A block of the real allocator: its size and, once written, its header. *)
Record block := Block { extent : Z; header : option service_info }.
Abbreviation heap_t := (gmap Z block).

(** The allocator behind [dlsym(RTLD_NEXT, ...)]: the address it returns for a
    request in a heap, if any. *)
Class allocator := {
  real_malloc : heap_t -> Z -> option Z;
  real_calloc : heap_t -> Z -> Z -> option Z;
  real_realloc : heap_t -> Z -> Z -> option Z;
}.

(** What the library relies on: a new block is not a live one and is not at
    address zero. *)
Class allocator_ok (A : allocator) : Prop := {
  malloc_fresh h n p : real_malloc h n = Some p -> h !! p = None /\ 0 < p;
  calloc_fresh h k n p : real_calloc h k n = Some p -> h !! p = None /\ 0 < p;
  realloc_fresh h q n p : real_realloc h q n = Some p -> (p = q \/ h !! p = None) /\ 0 < p;
}.

(** The largest object that the real functions serve: a request above it fails
    (malloc(3)). *)
Definition PTRDIFF_MAX : Z := 2 ^ 63 - 1.

Class allocator_bounded (A : allocator) : Prop :=
  realloc_bounded h q n p : real_realloc h q n = Some p -> n <= PTRDIFF_MAX.

(** The global state of the library. *)
Record mg := Mg {
  heap : heap_t;
  statistics : memory_statistics;
  allocation_setting : enviroment_settings;
  libc_guard : bool;
  sent : list message;          (* what was sent to syslog *)
  failed : list Z;              (* ghost: the sizes of the failed allocations *)
}.

Definition set_heap (h : heap_t) (s : mg) : mg :=
  Mg h (statistics s) (allocation_setting s) (libc_guard s) (sent s) (failed s).
Definition set_statistics (st : memory_statistics) (s : mg) : mg :=
  Mg (heap s) st (allocation_setting s) (libc_guard s) (sent s) (failed s).
Definition set_guard (g : bool) (s : mg) : mg :=
  Mg (heap s) (statistics s) (allocation_setting s) g (sent s) (failed s).
Definition syslog (p : Z) (t : string) (s : mg) : mg :=
  Mg (heap s) (statistics s) (allocation_setting s) (libc_guard s) (sent s ++ [Msg p t]) (failed s).
Definition note_failed (n : Z) (s : mg) : mg :=
  Mg (heap s) (statistics s) (allocation_setting s) (libc_guard s) (sent s) (failed s ++ [n]).

(** Updates of the counters. *)
Definition count_alloc (n : Z) (st : memory_statistics) : memory_statistics :=
  Statistics (total_used st + n)%C (total_freed st) (allocation_num st + 1)%C
             (dealllocation_num st) (errors st) (declined_allocations st).
Definition count_free (n : Z) (st : memory_statistics) : memory_statistics :=
  Statistics (total_used st) (total_freed st + n)%C (allocation_num st)
             (dealllocation_num st + 1)%C (errors st) (declined_allocations st).
Definition add_used (n : Z) (st : memory_statistics) : memory_statistics :=
  Statistics (total_used st + n)%C (total_freed st) (allocation_num st)
             (dealllocation_num st) (errors st) (declined_allocations st).
Definition add_freed (n : Z) (st : memory_statistics) : memory_statistics :=
  Statistics (total_used st) (total_freed st + n)%C (allocation_num st)
             (dealllocation_num st) (errors st) (declined_allocations st).
Definition count_error (st : memory_statistics) : memory_statistics :=
  Statistics (total_used st) (total_freed st) (allocation_num st)
             (dealllocation_num st) (errors st + 1)%C (declined_allocations st).
Definition count_declined (st : memory_statistics) : memory_statistics :=
  Statistics (total_used st) (total_freed st) (allocation_num st)
             (dealllocation_num st) (errors st) (declined_allocations st + 1)%C.

Definition stat (f : memory_statistics -> memory_statistics) (s : mg) : mg :=
  set_statistics (f (statistics s)) s.

(* ------------------------------------------------------------------ *)
(** ** Helpers of the library *)

Definition user_to_lib (ptr : Z) : Z := ptr - SERVICE_LENGTH.
Definition lib_to_user (ptr : Z) : Z := ptr + SERVICE_LENGTH.

(** [initialise_service_block]: the header must fit in the block. *)
Definition initialise_service_block (p bytes : Z) (s : mg) : option mg :=
  b ← heap s !! p;
  if SERVICE_LENGTH <=? extent b
  then Some (set_heap (<[p := Block (extent b) (Some (ServiceInfo bytes CANNARY_WORD))]> (heap s)) s)
  else None.

(** [check_service_validity], as the header it found when it is valid; reading a
    header that is not there is undefined. *)
Definition check_service_validity (p : Z) (s : mg) : option (option service_info) :=
  b ← heap s !! p;
  i ← header b;
  Some (if bool_decide (check i = CANNARY_WORD) then Some i else None).

Definition print_statistics (s : mg) : mg :=
  let st := statistics s in
  syslog LOG_DEBUG
    ("current: " +:+ dec (total_used st - total_freed st)%C +:+ tab +:+ "total: " +:+ dec (total_used st)
     +:+ tab +:+ "freed: " +:+ dec (total_freed st) +:+ tab +:+ "allocations: " +:+ dec (allocation_num st)
     +:+ tab +:+ "deallocations: " +:+ dec (dealllocation_num st) +:+ tab +:+ "errors: " +:+ dec (errors st)) s.

Definition enter_guarded (s : mg) : mg :=
  syslog LOG_DEBUG "Entering guarded space" (set_guard true s).

(** [RETURN_FROM_GUARDED(r)] *)
Definition return_from_guarded (r : Z) (s : mg) : option (mg * Z) :=
  Some (set_guard false (syslog LOG_DEBUG "Leaving guarded space" s), r).

Definition decline (size : Z) (why : string) (s : mg) : bool * mg :=
  (false, stat count_declined (syslog LOG_ERR
    ("Declined allocation of block of size " +:+ dec size +:+ " (" +:+ why +:+ ")") s)).

Definition can_alloc (size : Z) (s : mg) : bool * mg :=
  let set := allocation_setting s in
  let st := statistics s in
  if memgrind_alloc_max set <? size then decline size "max_size" s
  else if memgrind_mem_max set <? (total_used st + size)%C then decline size "total_size" s
  else if memgrind_alloc_count set <? (allocation_num st + 1)%C then decline size "alloc_count" s
  else (true, s).

(** [%p] *)
Definition fmt_ptr (p : Z) : string :=
  if p =? 0 then "(nil)" else "0x" +:+ hex (Z.to_nat (Z.log2 p / 4 + 1)) p.

(* ------------------------------------------------------------------ *)
(** ** The four functions *)

Section Functions.
Context `{A : allocator}.

(** The real functions, called inside the guard: the caller gets the block as
    the allocator made it. *)
Definition raw_block (r : option Z) (n : Z) (s : mg) : mg * Z :=
  match r with
  | Some p => (set_heap (<[p := Block n None]> (heap s)) s, p)
  | None => (s, 0)
  end.

Definition raw_realloc (ptr n : Z) (s : mg) : option (mg * Z) :=
  b ← heap s !! ptr;
  Some match real_realloc (heap s) ptr n with
  | Some p => (set_heap (<[p := Block n (header b)]> (delete ptr (heap s))) s, p)
  | None => (s, 0)
  end.

Definition raw_free (ptr : Z) (s : mg) : option (mg * Z) :=
  if ptr =? 0 then Some (s, 0) else
  _ ← heap s !! ptr;
  Some (set_heap (delete ptr (heap s)) s, 0).

Definition malloc (size : Z) (s : mg) : option (mg * Z) :=
  if libc_guard s then Some (raw_block (real_malloc (heap s) size) size s) else
  let s := syslog LOG_INFO ("malloc(" +:+ dec size +:+ ")") (enter_guarded s) in
  let '(ok, s) := can_alloc size s in
  if negb ok then return_from_guarded 0 s else
  let s := stat (count_alloc size) s in
  let request := (size + SERVICE_LENGTH)%C in
  match real_malloc (heap s) request with
  | None =>
      return_from_guarded 0 (note_failed size (syslog LOG_ERR "malloc failed" (stat count_error s)))
  | Some memory =>
      let s := set_heap (<[memory := Block request None]> (heap s)) s in
      s ← initialise_service_block memory size s;
      return_from_guarded (lib_to_user memory) (print_statistics s)
  end.

Definition calloc (num size : Z) (s : mg) : option (mg * Z) :=
  if libc_guard s then Some (raw_block (real_calloc (heap s) num size) (num * size) s) else
  let s := syslog LOG_INFO ("calloc(" +:+ dec num +:+ ", " +:+ dec size +:+ ")") (enter_guarded s) in
  let '(ok, s) := can_alloc size s in
  if negb ok then return_from_guarded 0 s else
  let bytes := (num * size)%C in
  let s := stat (count_alloc bytes) s in
  let request := (bytes + SERVICE_LENGTH)%C in
  match real_calloc (heap s) request 1 with
  | None =>
      return_from_guarded 0 (note_failed bytes (syslog LOG_ERR "calloc failed" (stat count_error s)))
  | Some memory =>
      let s := set_heap (<[memory := Block request None]> (heap s)) s in
      s ← initialise_service_block memory bytes s;
      return_from_guarded (lib_to_user memory) (print_statistics s)
  end.

(** The counters after a successful [realloc] of a block of [old] bytes. *)
Definition count_realloc (same : bool) (old size : Z) (st : memory_statistics) :
    memory_statistics :=
  if same then
    if old <=? size then add_used (size - old)%C st else add_freed (old - size)%C st
  else count_free old (count_alloc size st).

Definition realloc (ptr size : Z) (s : mg) : option (mg * Z) :=
  if ptr =? 0 then malloc size s else
  if libc_guard s then raw_realloc ptr size s else
  let s := syslog LOG_INFO ("realloc(" +:+ fmt_ptr ptr +:+ ", " +:+ dec size +:+ ")")
             (enter_guarded s) in
  let '(ok, s) := can_alloc size s in
  if negb ok then return_from_guarded 0 s else
  let ptr := user_to_lib ptr in
  valid ← check_service_validity ptr s;
  match valid with
  | None => return_from_guarded 0 (stat count_error (syslog LOG_ERR "service struct missing" s))
  | Some info =>
      let request := (size + SERVICE_LENGTH)%C in
      match real_realloc (heap s) ptr request with
      | None => return_from_guarded 0 (syslog LOG_ERR "realloc failed" (stat count_error s))
      | Some memory =>
          if request <? SERVICE_LENGTH then None else
          let s := stat (count_realloc (memory =? ptr) (block_size info) size) s in
          let s := set_heap (<[memory := Block request (Some (ServiceInfo size (check info)))]>
                               (delete ptr (heap s))) s in
          return_from_guarded (lib_to_user memory) (print_statistics s)
      end
  end.

Definition free (ptr : Z) (s : mg) : option (mg * Z) :=
  if libc_guard s then raw_free ptr s else
  let s := syslog LOG_INFO ("free(" +:+ fmt_ptr ptr +:+ ")") (enter_guarded s) in
  if ptr =? 0 then return_from_guarded 0 s else
  let ptr := user_to_lib ptr in
  valid ← check_service_validity ptr s;
  match valid with
  | None => return_from_guarded 0 (stat count_error (syslog LOG_ERR "service struct missing" s))
  | Some info =>
      let s := print_statistics (stat (count_free (block_size info)) s) in
      return_from_guarded 0 (set_heap (delete ptr (heap s)) s)
  end.

(** A program, as the calls it makes. *)
Inductive mg_call :=
  | Malloc (size : Z) | Calloc (num size : Z) | Realloc (ptr size : Z) | Free (ptr : Z).

Definition mg_exec (c : mg_call) (s : mg) : option (mg * Z) :=
  match c with
  | Malloc size => malloc size s
  | Calloc num size => calloc num size s
  | Realloc ptr size => realloc ptr size s
  | Free ptr => free ptr s
  end.

Fixpoint mg_run (cs : list mg_call) (s : mg) : option mg :=
  match cs with
  | [] => Some s
  | c :: cs => '(s, _) ← mg_exec c s; mg_run cs s
  end.
End Functions.

(** The state [library_init] leaves: nothing counted, the guard open. *)
Definition library_init (set : enviroment_settings) : mg :=
  Mg ∅ (Statistics 0 0 0 0 0 0) set false [Msg LOG_INFO "library loaded succefully"] [].

(** [print_final] *)
Definition print_final (s : mg) : mg :=
  let st := statistics s in
  let s := syslog LOG_INFO
    ("Final statistics:" +:+ nl +:+ "Current:" +:+ tab +:+ tab +:+ dec (total_used st - total_freed st)%C +:+ nl
     +:+ "Total used:" +:+ tab +:+ tab +:+ dec (total_used st) +:+ nl +:+ "Total freed:" +:+ tab +:+ tab +:+ dec (total_freed st) +:+ nl
     +:+ "Allocations:" +:+ tab +:+ tab +:+ dec (allocation_num st) +:+ nl
     +:+ "Deallocations:" +:+ tab +:+ tab +:+ dec (dealllocation_num st) +:+ nl
     +:+ "Errors:" +:+ tab +:+ tab +:+ tab +:+ dec (errors st) +:+ nl
     +:+ "Declined allocs:" +:+ tab +:+ dec (declined_allocations st)) s in
  if dealllocation_num st <? allocation_num st then
    syslog LOG_WARNING
      ("Possible memory leak of size " +:+ dec (total_used st - total_freed st)%C +:+ " in "
       +:+ dec (allocation_num st - dealllocation_num st)%C +:+ " blocks") s
  else s.

(** [library_destroy] *)
Definition library_destroy (s : mg) : mg :=
  syslog LOG_INFO "Memgrind says hello." (print_final (set_guard true s)).

(* ------------------------------------------------------------------ *)
(** ** The books: counters, heap and failures *)

Definition block_bytes (b : block) : Z :=
  match header b with Some i => block_size i | None => 0 end.

(** The bytes the program holds. *)
Definition live_bytes (h : heap_t) : Z := map_fold (fun _ b n => block_bytes b + n) 0 h.

Definition sum_list_z (l : list Z) : Z := foldr Z.add 0 l.

(** The counters account for the live blocks and for the failed allocations,
    which were counted before they failed. *)
Record books (h : heap_t) (st : memory_statistics) (lost : list Z) : Prop := {
  books_headers p b : h !! p = Some b -> exists i, header b = Some i /\ check i = CANNARY_WORD;
  books_bytes : eq64 (total_used st) (total_freed st + live_bytes h + sum_list_z lost);
  books_blocks : eq64 (allocation_num st)
    (dealllocation_num st + Z.of_nat (size h) + Z.of_nat (length lost));
}.

Lemma live_insert h p b : h !! p = None -> live_bytes (<[p:=b]> h) = block_bytes b + live_bytes h.
Proof. intros H. unfold live_bytes. rewrite map_fold_insert_L; [done| |done]. intros. lia. Qed.

Lemma live_delete h p b : h !! p = Some b -> live_bytes h = block_bytes b + live_bytes (delete p h).
Proof. intros H. unfold live_bytes. rewrite (map_fold_delete_L _ _ p b); [done| |done]. intros. lia. Qed.

Lemma size_delete (h : heap_t) p b : h !! p = Some b -> size h = S (size (delete p h)).
Proof.
  intros Hp. rewrite map_size_delete, Hp.
  assert (size h <> 0%nat) as Hs by (eapply map_size_ne_0_lookup_2; eauto). lia.
Qed.

Lemma sum_list_app l n : sum_list_z (l ++ [n]) = sum_list_z l + n.
Proof. unfold sum_list_z. induction l; simpl; lia. Qed.

(** Equations modulo 2^64: drop the reductions, use the hypothesis, compute. *)
Ltac eq64_solve H := rewrite ?eq64_u64; rewrite H; apply eq64_refl; lia.

Lemma books_alloc h st l p e n :
  books h st l -> h !! p = None ->
  books (<[p := Block e (Some (ServiceInfo n CANNARY_WORD))]> h) (count_alloc n st) l.
Proof.
  intros [Hh Hb Hn] Hp. constructor; simpl.
  - intros q b [[-> <-] | [_ Hq]]%lookup_insert_Some; simpl; eauto.
  - rewrite live_insert by done. unfold block_bytes; simpl. eq64_solve Hb.
  - rewrite map_size_insert_None by done. eq64_solve Hn.
Qed.

Lemma books_failed h st l n : books h st l -> books h (count_alloc n st) (l ++ [n]).
Proof.
  intros [Hh Hb Hn]. constructor; simpl; [done| |].
  - rewrite sum_list_app. eq64_solve Hb.
  - rewrite length_app. simpl. eq64_solve Hn.
Qed.

Lemma books_free h st l p b i :
  books h st l -> h !! p = Some b -> header b = Some i ->
  books (delete p h) (count_free (block_size i) st) l.
Proof.
  intros [Hh Hb Hn] Hp Hi. constructor; simpl.
  - intros q b' [_ Hq]%lookup_delete_Some. eauto.
  - rewrite (live_delete _ _ _ Hp) in Hb. unfold block_bytes in Hb. rewrite Hi in Hb. eq64_solve Hb.
  - rewrite (size_delete _ _ _ Hp) in Hn. eq64_solve Hn.
Qed.

Lemma books_realloc h st l p p' b i e n :
  books h st l -> h !! p = Some b -> header b = Some i -> p' = p \/ h !! p' = None ->
  books (<[p' := Block e (Some (ServiceInfo n (check i)))]> (delete p h))
        (count_realloc (p' =? p) (block_size i) n st) l.
Proof.
  intros [Hh Hb Hn] Hp Hi Hp'. destruct (Hh _ _ Hp) as (i' & Hi' & Hc). simplify_eq.
  assert (delete p h !! p' = None) as Hd.
  { apply lookup_delete_None. destruct Hp' as [-> | Hp']; auto. }
  pose proof (live_delete _ _ _ Hp) as Hl. unfold block_bytes in Hl. rewrite Hi in Hl.
  pose proof (size_delete _ _ _ Hp) as Hs.
  constructor.
  - intros q b' [[-> <-] | [_ Hq]]%lookup_insert_Some; simpl; [eauto|].
    apply lookup_delete_Some in Hq as [_ Hq]. eauto.
  - rewrite live_insert by done. unfold block_bytes, count_realloc; simpl. rewrite Hl in Hb.
    repeat case_match; simpl; eq64_solve Hb.
  - rewrite map_size_insert_None by done. rewrite Hs in Hn. unfold count_realloc.
    repeat case_match; simpl; eq64_solve Hn.
Qed.

Lemma books_error h st l : books h st l -> books h (count_error st) l.
Proof. by intros []. Qed.

Lemma books_declined h st l : books h st l -> books h (count_declined st) l.
Proof. by intros []. Qed.

Create HintDb books discriminated.
#[export] Hint Resolve books_alloc books_failed books_free books_realloc books_error
  books_declined : books.

(** Between two calls the guard is open and the books are right. *)
Definition mg_inv (s : mg) : Prop :=
  libc_guard s = false /\ books (heap s) (statistics s) (failed s).

Lemma can_alloc_cases size s ok s' :
  can_alloc size s = (ok, s') ->
  (ok = true /\ s' = s) \/ (ok = false /\ exists why, s' = snd (decline size why s)).
Proof.
  assert (forall why, decline size why s = (ok, s') -> ok = false /\ exists why, s' = snd (decline size why s)) as Hd.
  { intros why E. split; [by inversion E|]. exists why. by rewrite E. }
  unfold can_alloc. repeat case_match; eauto. intros [= <- <-]. auto.
Qed.

Section Accounting.
Context `{HA : allocator_ok}.

(** The common way out of an operation. *)
Lemma return_inv r s s' p :
  return_from_guarded r s = Some (s', p) -> books (heap s) (statistics s) (failed s) -> mg_inv s'.
Proof. by intros [= <- <-]. Qed.

Lemma init_block_inv m bytes request s s' :
  initialise_service_block m bytes
    (set_heap (<[m := Block request None]> (heap s)) s) = Some s' ->
  s' = set_heap (<[m := Block request (Some (ServiceInfo bytes CANNARY_WORD))]> (heap s)) s.
Proof.
  unfold initialise_service_block. simpl. rewrite lookup_insert_eq. simpl. case_match; [|done].
  intros [= <-]. unfold set_heap. simpl. by rewrite insert_insert_eq.
Qed.

(** The part [malloc] and [calloc] share, after their log message. *)
Lemma alloc_inv (r : option Z) bytes request (s s' : mg) p msg :
  books (heap s) (statistics s) (failed s) ->
  (forall m, r = Some m -> heap s !! m = None) ->
  match r with
  | None =>
      return_from_guarded 0
        (note_failed bytes (syslog LOG_ERR msg (stat count_error (stat (count_alloc bytes) s))))
  | Some m =>
      s ← initialise_service_block m bytes
            (set_heap (<[m := Block request None]> (heap s)) (stat (count_alloc bytes) s));
      return_from_guarded (lib_to_user m) (print_statistics s)
  end = Some (s', p) -> mg_inv s'.
Proof.
  intros Hb Hr. destruct r as [m|].
  - intros (s1 & H1 & H2)%bind_Some.
    apply (init_block_inv m bytes request (stat (count_alloc bytes) s)) in H1 as ->.
    eapply return_inv; [done|]. simpl. auto with books.
  - intros H. eapply return_inv; [done|]. simpl. auto with books.
Qed.

Lemma malloc_inv size s s' p : mg_inv s -> malloc size s = Some (s', p) -> mg_inv s'.
Proof.
  intros [Hg Hb]. unfold malloc. rewrite Hg. destruct (can_alloc _ _) as [ok s1] eqn:Ec.
  apply can_alloc_cases in Ec as [[-> ->] | (-> & why & ->)]; cbn [negb].
  - intros H. eapply alloc_inv; [..|exact H]; [done|]. intros m Hm. by eapply malloc_fresh.
  - intros H. eapply return_inv; [done|]. simpl. auto with books.
Qed.

Lemma calloc_inv num size s s' p : mg_inv s -> calloc num size s = Some (s', p) -> mg_inv s'.
Proof.
  intros [Hg Hb]. unfold calloc. rewrite Hg. destruct (can_alloc _ _) as [ok s1] eqn:Ec.
  apply can_alloc_cases in Ec as [[-> ->] | (-> & why & ->)]; cbn [negb].
  - intros H. eapply alloc_inv; [..|exact H]; [done|]. intros m Hm. by eapply calloc_fresh.
  - intros H. eapply return_inv; [done|]. simpl. auto with books.
Qed.

Lemma valid_inv p s v :
  check_service_validity p s = Some v ->
  exists b i, heap s !! p = Some b /\ header b = Some i /\ (v = Some i \/ v = None).
Proof.
  unfold check_service_validity. intros (b & Hb & H)%bind_Some.
  apply bind_Some in H as (i & Hi & [= <-]). exists b, i. case_bool_decide; eauto.
Qed.

Lemma realloc_inv ptr size s s' p : mg_inv s -> realloc ptr size s = Some (s', p) -> mg_inv s'.
Proof.
  intros Hi. unfold realloc. case_match; [by apply malloc_inv|]. destruct Hi as [Hg Hb].
  rewrite Hg. destruct (can_alloc _ _) as [ok s1] eqn:Ec.
  apply can_alloc_cases in Ec as [[-> ->] | (-> & why & ->)]; cbn [negb].
  2: { intros Hr. eapply return_inv; [done|]. simpl. auto with books. }
  intros (v & Hv & H1)%bind_Some. apply valid_inv in Hv as (b & i & Hp & Hi & [-> | ->]).
  2: { eapply return_inv; [done|]. simpl. auto with books. }
  destruct (real_realloc _ _ _) as [m|] eqn:Em.
  2: { eapply return_inv; [done|]. simpl. auto with books. }
  case_match; [done|]. eapply return_inv; [done|].
  apply realloc_fresh in Em as [Em _]. simpl in *. eauto with books.
Qed.

Lemma free_inv ptr s s' p : mg_inv s -> free ptr s = Some (s', p) -> mg_inv s'.
Proof.
  intros [Hg Hb]. unfold free. rewrite Hg. case_match; [by intros; eapply return_inv|].
  intros (v & Hv & H1)%bind_Some. apply valid_inv in Hv as (b & i & Hp & Hi & [-> | ->]);
    (eapply return_inv; [done|]); simpl in *; eauto with books.
Qed.

Lemma mg_exec_inv c s s' p : mg_inv s -> mg_exec c s = Some (s', p) -> mg_inv s'.
Proof.
  destruct c; simpl; [apply malloc_inv | apply calloc_inv | apply realloc_inv | apply free_inv].
Qed.

Lemma mg_run_inv cs s s' : mg_inv s -> mg_run cs s = Some s' -> mg_inv s'.
Proof.
  revert s. induction cs as [|c cs IH]; simpl; intros s Hi; [by intros [= <-]|].
  intros ([s1 p] & H1 & H2)%bind_Some. eapply IH; [|done]. by eapply mg_exec_inv.
Qed.
End Accounting.

Lemma library_init_inv set : mg_inv (library_init set).
Proof. split; [done|]. constructor; simpl; [|done..]. intros p b Hb. by rewrite lookup_empty in Hb. Qed.

(* ------------------------------------------------------------------ *)
(** ** The limits *)

(** The settings are of type [size_t]. *)
Definition valid_settings (set : enviroment_settings) : Prop :=
  0 <= memgrind_mem_max set < 2 ^ 64 /\ 0 <= memgrind_alloc_max set < 2 ^ 64 /\
  0 <= memgrind_alloc_count set < 2 ^ 64.

(** A block that the real allocator serves fits behind [MEMGRIND_MEM_MAX] bytes without
    passing 2^64, or there is no limit on the memory. *)
Definition no_wrap (set : enviroment_settings) : Prop :=
  memgrind_mem_max set = SIZE_MAX \/
  memgrind_mem_max set + Z.min (memgrind_alloc_max set) PTRDIFF_MAX < 2 ^ 64.

(** No counter has passed its limit, and no block is larger than allowed. *)
Record within (set : enviroment_settings) (h : heap_t) (st : memory_statistics) : Prop := {
  within_used : 0 <= total_used st < 2 ^ 64;
  within_memory : no_wrap set -> total_used st <= memgrind_mem_max set;
  within_count : 0 <= allocation_num st <= memgrind_alloc_count set;
  within_blocks p b : h !! p = Some b -> 0 <= block_bytes b <= memgrind_alloc_max set;
}.

Definition limits_inv (set : enviroment_settings) (s : mg) : Prop :=
  allocation_setting s = set /\ libc_guard s = false /\ within set (heap s) (statistics s).

(** [calloc] is left out: it checks [size], not [num * size]. *)
Definition no_calloc (c : mg_call) : Prop :=
  match c with
  | Malloc size => 0 <= size
  | Realloc _ size => 0 <= size
  | Calloc _ _ => False
  | Free _ => True
  end.

Lemma can_alloc_ok size s s' :
  can_alloc size s = (true, s') ->
  s' = s /\ size <= memgrind_alloc_max (allocation_setting s) /\
  (total_used (statistics s) + size)%C <= memgrind_mem_max (allocation_setting s) /\
  (allocation_num (statistics s) + 1)%C <= memgrind_alloc_count (allocation_setting s).
Proof.
  unfold can_alloc, decline. repeat case_match; intros [= <-].
  split_and!; [done|lia..].
Qed.

(** A request that is served has not wrapped around with its header. *)
Lemma request_served n :
  0 <= n < 2 ^ 64 -> SERVICE_LENGTH <= (n + SERVICE_LENGTH)%C -> (n + SERVICE_LENGTH)%C <= PTRDIFF_MAX ->
  n <= PTRDIFF_MAX.
Proof.
  unfold SERVICE_LENGTH, PTRDIFF_MAX. intros Hn. destruct (Z.lt_ge_cases (n + 16) (2 ^ 64)).
  - rewrite u64_small by lia. lia.
  - assert ((n + 16)%C = n + 16 - 2 ^ 64) as ->; [|lia].
    unfold u64, wrap. symmetry. apply (Z.mod_unique_pos _ _ 1); lia.
Qed.

Section Limits.
Context `{HA : allocator_bounded} (set : enviroment_settings).
Hypothesis Hset : valid_settings set.

Lemma within_alloc h st p e n c :
  within set h st -> 0 <= n <= memgrind_alloc_max set ->
  (total_used st + n)%C <= memgrind_mem_max set ->
  (allocation_num st + 1)%C <= memgrind_alloc_count set ->
  within set (<[p := Block e (Some (ServiceInfo n c))]> h) (count_alloc n st).
Proof.
  intros [Hu Hx Hn Hb] Hsz Hm Hc. constructor; simpl.
  - apply u64_range.
  - done.
  - split; [apply u64_range|done].
  - intros q b [[-> <-] | [_ Hq]]%lookup_insert_Some; eauto.
Qed.

Lemma within_used_only h st n :
  within set h st -> (total_used st + n)%C <= memgrind_mem_max set ->
  (allocation_num st + 1)%C <= memgrind_alloc_count set -> within set h (count_alloc n st).
Proof.
  intros [Hu Hx Hn Hb] Hm Hc. constructor; simpl; [apply u64_range|done|split; [apply u64_range|done]|done].
Qed.

Lemma within_delete h st p : within set h st -> within set (delete p h) st.
Proof. intros [Hu Hx Hn Hb]. constructor; [done..|]. intros q b [_ Hq]%lookup_delete_Some. eauto. Qed.

(** A block that grows where it is: the sum that [can_alloc] compared did not wrap around. *)
Lemma within_grown h st old n :
  within set h st -> 0 <= old <= n -> n <= memgrind_alloc_max set -> n <= PTRDIFF_MAX ->
  (total_used st + n)%C <= memgrind_mem_max set -> no_wrap set ->
  (total_used st + (n - old)%C)%C <= memgrind_mem_max set.
Proof.
  intros [Hu Hx Hn Hb] Ho Ha Hp Hm [->|Hs]; unfold PTRDIFF_MAX in *.
  { pose proof (u64_range (total_used st + (n - old)%C)). unfold SIZE_MAX. lia. }
  specialize (Hx (or_intror Hs)). rewrite (u64_small (_ + n)) in Hm by lia.
  rewrite (u64_small (n - old)), u64_small by lia. lia.
Qed.

Lemma within_realloc h st p p' b i e n c same :
  within set h st -> h !! p = Some b -> header b = Some i ->
  0 <= n <= memgrind_alloc_max set -> n <= PTRDIFF_MAX ->
  (total_used st + n)%C <= memgrind_mem_max set ->
  (allocation_num st + 1)%C <= memgrind_alloc_count set ->
  within set (<[p' := Block e (Some (ServiceInfo n c))]> (delete p h))
         (count_realloc same (block_size i) n st).
Proof.
  intros Hw Hp Hi Hsz Hpd Hm Hc. pose proof (within_blocks _ _ _ Hw _ _ Hp) as Hbs.
  unfold block_bytes in Hbs. rewrite Hi in Hbs. apply (within_delete _ _ p) in Hw.
  unfold count_realloc. destruct same.
  - case_match eqn:El; pose proof Hw as [Hu Hx Hn Hb]; constructor; simpl; try done.
    + apply u64_range.
    + apply Z.leb_le in El. apply (within_grown _ _ (block_size i) n Hw); lia.
    + intros q b' [[-> <-] | [_ Hq]]%lookup_insert_Some; eauto.
    + intros q b' [[-> <-] | [_ Hq]]%lookup_insert_Some; eauto.
  - apply (within_alloc _ _ p' e n c) in Hw; [|done..]. by destruct Hw.
Qed.

Lemma return_limits r s s' p :
  return_from_guarded r s = Some (s', p) ->
  allocation_setting s = set -> within set (heap s) (statistics s) -> limits_inv set s'.
Proof. by intros [= <- <-]. Qed.

Lemma limits_exec c s s' p :
  no_calloc c -> limits_inv set s -> mg_exec c s = Some (s', p) -> limits_inv set s'.
Proof.
  assert (forall size s s' p, 0 <= size -> limits_inv set s -> malloc size s = Some (s', p) ->
    limits_inv set s') as Hmalloc.
  { clear s s' p. intros size s s' p Hsz (Hs & Hg & Hw). unfold malloc. rewrite Hg.
    destruct (can_alloc _ _) as [[] s1] eqn:Ec; cbn [negb].
    - apply can_alloc_ok in Ec as (-> & H1 & H2 & H3). cbn -[u64] in H1, H2, H3. rewrite Hs in H1, H2, H3.
      case_match.
      + intros (s2 & H4 & H5)%bind_Some. apply (init_block_inv _ _ _ (stat (count_alloc size) _)) in H4 as ->.
        eapply return_limits; [done..|]. by apply within_alloc.
      + intros H4. eapply return_limits; [done..|]. apply (within_used_only _ _ size) in Hw; [|done..].
        by destruct Hw.
    - apply can_alloc_cases in Ec as [[? _] | (_ & why & ->)]; [done|].
      intros H4. eapply return_limits; [done..|]. by destruct Hw. }
  intros Hc (Hs & Hg & Hw). destruct c as [size|num size|ptr size|ptr]; simpl in Hc |- *; [by eapply Hmalloc|done| |].
  - unfold realloc. case_match; [by eapply Hmalloc|]. rewrite Hg.
    destruct (can_alloc _ _) as [[] s1] eqn:Ec; cbn [negb].
    2: { apply can_alloc_cases in Ec as [[? _] | (_ & why & ->)]; [done|].
         intros H4. eapply return_limits; [done..|]. by destruct Hw. }
    apply can_alloc_ok in Ec as (-> & H1 & H2 & H3). cbn -[u64] in H1, H2, H3. rewrite Hs in H1, H2, H3.
    intros (v & Hv & H4)%bind_Some. apply valid_inv in Hv as (b & i & Hp & Hi & [-> | ->]).
    2: { eapply return_limits; [done..|]. by destruct Hw. }
    destruct (real_realloc _ _ _) as [m|] eqn:Em.
    2: { eapply return_limits; [done..|]. by destruct Hw. }
    case_match eqn:Er; [done|]. apply Z.ltb_ge in Er. apply realloc_bounded in Em.
    assert (size <= PTRDIFF_MAX) as Hpd.
    { destruct Hset as (_ & Ha & _). apply (request_served size); [lia|exact Er|exact Em]. }
    eapply return_limits; [done..|]. by eapply within_realloc.
  - unfold free. rewrite Hg. case_match; [by intros; eapply return_limits|].
    intros (v & Hv & H1)%bind_Some. apply valid_inv in Hv as (b & i & Hp & Hi & [-> | ->]);
      (eapply return_limits; [done..|]); [|by destruct Hw].
    apply (within_delete _ _ (user_to_lib ptr)) in Hw. by destruct Hw.
Qed.

Lemma limits_run cs s s' :
  Forall no_calloc cs -> limits_inv set s -> mg_run cs s = Some s' -> limits_inv set s'.
Proof.
  intros Hcs. revert s. induction Hcs as [|c cs Hc _ IH]; simpl; intros s Hi; [by intros [= <-]|].
  intros ([s1 p] & H1 & H2)%bind_Some. eapply IH; [|done]. by eapply limits_exec.
Qed.
End Limits.

(* ------------------------------------------------------------------ *)
(** ** An allocator that meets the hypotheses *)

Definition next_address (h : heap_t) : Z := 1 + map_fold (fun k _ m => Z.max k m) 0 h.

(** Addresses are never used twice at once; requests above 2^40 bytes fail. *)
Definition bump : allocator := {|
  real_malloc h n := if n <=? 2 ^ 40 then Some (next_address h) else None;
  real_calloc h k n := if k * n <=? 2 ^ 40 then Some (next_address h) else None;
  real_realloc h p n := if n <=? 2 ^ 40 then Some (next_address h) else None;
|}.

Lemma next_address_fresh (h : heap_t) : h !! next_address h = None /\ 0 < next_address h.
Proof.
  unfold next_address.
  assert (0 <= map_fold (fun k _ m => Z.max k m) 0 h /\
          forall k b, h !! k = Some b -> k <= map_fold (fun k _ m => Z.max k m) 0 h) as [H0 Hmax].
  { apply (map_fold_weak_ind (fun m (h : heap_t) => 0 <= m /\ forall k b, h !! k = Some b -> k <= m)).
    - split; [done|]. intros k b Hk. by rewrite lookup_empty in Hk.
    - intros k b m r Hm [Hr Hk]. split; [lia|].
      intros k' b' [[-> _] | [_ Hk']]%lookup_insert_Some; [lia|]. specialize (Hk _ _ Hk'). lia. }
  split; [|lia]. destruct (h !! _) eqn:E; [|done]. apply Hmax in E. lia.
Qed.

#[export] Instance bump_ok : allocator_ok bump.
Proof.
  constructor; simpl; intros h *; case_match; intros [= <-];
    destruct (next_address_fresh h); auto.
Qed.

#[export] Instance bump_bounded : allocator_bounded bump.
Proof. intros h q n p. simpl. unfold PTRDIFF_MAX. case_match; [lia|done]. Qed.

(* ------------------------------------------------------------------ *)
(** ** Properties *)

(** C3: after any sequence of calls, whatever the real allocator answers, the
    guard is open again and, modulo 2^64, the bytes reported as used are those of
    the live blocks plus the sizes of the allocations that failed in the real
    allocator, and the blocks reported as allocated are the live ones plus the
    failed ones. *)
Theorem memgrind_accounting (A : allocator) (HA : allocator_ok A) set cs s :
  mg_run cs (library_init set) = Some s ->
  libc_guard s = false /\
  eq64 (total_used (statistics s) - total_freed (statistics s))
       (live_bytes (heap s) + sum_list_z (failed s)) /\
  eq64 (allocation_num (statistics s) - dealllocation_num (statistics s))
       (Z.of_nat (size (heap s)) + Z.of_nat (length (failed s))).
Proof.
  intros Hr. apply mg_run_inv in Hr as [Hg [_ Hb Hn]]; [|apply library_init_inv].
  split; [done|]. split; [rewrite Hb | rewrite Hn]; apply eq64_refl; lia.
Qed.

(** C11: the limits hold in every state that a program which does not call
    [calloc] reaches, whichever of them are set: the number of allocations never exceeds
    [MEMGRIND_ALLOC_COUNT] and no live block [MEMGRIND_ALLOC_MAX]; the counter of the total
    allocated never exceeds [MEMGRIND_MEM_MAX], provided that it is [SIZE_MAX], its default,
    or that its sum with [MEMGRIND_ALLOC_MAX], or with the largest object there can be
    if that is smaller, is below 2^64. *)
Theorem memgrind_limits (A : allocator) (HA : allocator_bounded A) set cs s :
  valid_settings set -> Forall no_calloc cs -> mg_run cs (library_init set) = Some s ->
  allocation_num (statistics s) <= memgrind_alloc_count set /\
  (forall p b, heap s !! p = Some b -> block_bytes b <= memgrind_alloc_max set) /\
  (memgrind_mem_max set = SIZE_MAX \/
   memgrind_mem_max set + Z.min (memgrind_alloc_max set) PTRDIFF_MAX < 2 ^ 64 ->
   total_used (statistics s) <= memgrind_mem_max set).
Proof.
  intros Hset Hcs Hr. apply (limits_run set Hset) in Hr as (_ & _ & [Hu Hx Hn Hb]); [|done|].
  - split_and!; [lia| |exact Hx]. intros p b Hp. by destruct (Hb _ _ Hp).
  - destruct Hset as (? & ? & ?). split_and!; [done..|].
    constructor; simpl; [lia..|]. intros p b Hp. by rewrite lookup_empty in Hp.
Qed.

(** C12: a block that [malloc] returns has room for exactly the bytes asked for
    after its header, [free] accepts it, and the pair leaves the heap of the
    allocator and the bytes in use as they were. *)
Theorem malloc_free_roundtrip (A : allocator) (HA : allocator_ok A) size s s1 p :
  libc_guard s = false -> 0 <= size < 2 ^ 64 - 16 -> malloc size s = Some (s1, p) -> p <> 0 ->
  (exists b, heap s1 !! (p - 16) = Some b /\ heap s !! (p - 16) = None /\
     extent b = size + 16 /\ block_bytes b = size) /\
  exists s2, free p s1 = Some (s2, 0) /\ heap s2 = heap s /\ libc_guard s2 = false /\
    eq64 (total_used (statistics s2) - total_freed (statistics s2))
         (total_used (statistics s) - total_freed (statistics s)).
Proof.
  intros Hg Hsz. unfold malloc. rewrite Hg. destruct (can_alloc _ _) as [[] s0] eqn:Ec; cbn [negb].
  2: { by intros [= <- <-]. }
  apply can_alloc_ok in Ec as (-> & _). case_match eqn:Em; [|by intros [= <- <-]].
  intros (s2 & H2 & H3)%bind_Some Hp.
  apply (init_block_inv _ _ _ (stat (count_alloc size) _)) in H2 as ->.
  injection H3 as <- <-. apply malloc_fresh in Em as [Hf Hpos]. unfold lib_to_user, SERVICE_LENGTH in *.
  simpl in Hf |- *. replace (z + 16 - 16) with z by lia. rewrite lookup_insert_eq.
  rewrite u64_small by lia. split; [by eexists|].
  unfold free. simpl. destruct (Z.eqb_spec (z + 16) 0); [lia|].
  unfold user_to_lib, SERVICE_LENGTH. replace (z + 16 - 16) with z by lia.
  unfold check_service_validity. simpl. rewrite lookup_insert_eq. simpl. eexists.
  split_and!; [reflexivity| |done|]; simpl.
  - by rewrite delete_insert_eq, delete_id.
  - rewrite !eq64_u64. apply eq64_refl. lia.
Qed.

(** A size within 16 of [SIZE_MAX] wraps around when the header is added:
    the limits do not stop it by default, and as soon as the real allocator
    serves the tiny request, the library writes its header past the block. *)
Theorem malloc_header_overflow (A : allocator) s size m :
  libc_guard s = false -> allocation_setting s = Settings SIZE_MAX SIZE_MAX SIZE_MAX ->
  2 ^ 64 - 16 <= size < 2 ^ 64 ->
  real_malloc (heap s) (size + 16 - 2 ^ 64) = Some m -> malloc size s = None.
Proof.
  intros Hg Hset Hsz Hm. unfold malloc. rewrite Hg.
  assert (can_alloc size (syslog LOG_INFO ("malloc(" +:+ dec size +:+ ")") (enter_guarded s)) =
          (true, syslog LOG_INFO ("malloc(" +:+ dec size +:+ ")") (enter_guarded s))) as ->.
  { unfold can_alloc. cbn -[u64 SIZE_MAX]. rewrite Hset. cbn -[u64 SIZE_MAX].
    pose proof (u64_range (total_used (statistics s) + size)).
    pose proof (u64_range (allocation_num (statistics s) + 1)). unfold SIZE_MAX.
    rewrite !(proj2 (Z.ltb_ge _ _)) by lia. done. }
  cbn [negb]. change SERVICE_LENGTH with 16.
  assert ((size + 16)%C = size + 16 - 2 ^ 64) as ->.
  { unfold u64, wrap. symmetry. apply (Z.mod_unique_pos _ _ 1); lia. }
  cbn -[Z.sub Z.pow]. rewrite Hm. unfold initialise_service_block. cbn -[Z.sub Z.pow].
  rewrite lookup_insert_eq. cbn -[Z.sub Z.pow]. change SERVICE_LENGTH with 16.
  by rewrite (proj2 (Z.leb_gt _ _)) by lia.
Qed.

(* ------------------------------------------------------------------ *)
(** ** The properties at concrete runs *)

Definition demo_limits : enviroment_settings := Settings 100 50 10.

Definition mg_result (o : option mg) : mg := default (library_init demo_limits) o.

(** Two blocks, one of them grown, and an allocation the real allocator refuses. *)
Definition demo_calls : list mg_call := [Malloc 10; Malloc 20; Realloc 17 30; Free 19].

Lemma memgrind_accounting_witness :
  eq64 (total_used (statistics (mg_result (mg_run (A := bump) demo_calls (library_init demo_limits)))) -
        total_freed (statistics (mg_result (mg_run (A := bump) demo_calls (library_init demo_limits)))))
       20.
Proof.
  eapply (memgrind_accounting bump bump_ok demo_limits demo_calls). vm_compute. reflexivity.
Defined.

Lemma memgrind_limits_witness :
  total_used (statistics (mg_result (mg_run (A := bump) demo_calls (library_init demo_limits)))) <= 100 /\
  total_used (statistics (mg_result (mg_run (A := bump) demo_calls
    (library_init (Settings 100 SIZE_MAX SIZE_MAX))))) <= 100.
Proof.
  split.
  - refine (proj2 (proj2 (memgrind_limits bump bump_bounded demo_limits demo_calls _ _ _ _)) _).
    + vm_compute. intuition congruence.
    + repeat constructor; vm_compute; congruence.
    + vm_compute. reflexivity.
    + right. reflexivity.
  - refine (proj2 (proj2 (memgrind_limits bump bump_bounded (Settings 100 SIZE_MAX SIZE_MAX) demo_calls _ _ _ _)) _).
    + vm_compute. intuition congruence.
    + repeat constructor; vm_compute; congruence.
    + vm_compute. reflexivity.
    + right. reflexivity.
Defined.

(** The proviso is needed: near 2^64 the sum that [can_alloc] compares wraps around, and a
    block that grows where it is takes the counter past the limit. *)
Definition in_place : allocator := {|
  real_malloc := real_malloc (allocator := bump);
  real_calloc := real_calloc (allocator := bump);
  real_realloc h p n := if n <=? 2 ^ 40 then Some p else None;
|}.

Example realloc_passes_limit :
  let set := Settings (2 ^ 64 - 12) SIZE_MAX SIZE_MAX in
  total_used (statistics (mg_result (mg_run (A := in_place)
    [Malloc (2 ^ 64 - 40); Malloc 11; Realloc 17 30] (library_init set)))) = 2 ^ 64 - 10.
Proof. vm_compute. reflexivity. Qed.

(** The size of the block is not what [calloc] compares with the limits. *)
Example calloc_bypasses_limits :
  total_used (statistics (mg_result (mg_run (A := bump) [Calloc 1000 50] (library_init demo_limits))))
    = 50000.
Proof. vm_compute. reflexivity. Qed.

(** [calloc] of 2^32 elements of 2^32 bytes returns a block of no bytes. *)
Example calloc_overflow :
  snd <$> calloc (A := bump) (2 ^ 32) (2 ^ 32) (library_init (Settings SIZE_MAX SIZE_MAX SIZE_MAX))
    = Some 17.
Proof. vm_compute. reflexivity. Qed.

(** A failed allocation is reported as a leak although nothing is allocated. *)
Example failed_malloc_is_a_leak :
  let s := mg_result (mg_run (A := bump) [Malloc (2 ^ 41)]
             (library_init (Settings SIZE_MAX SIZE_MAX SIZE_MAX))) in
  heap s = ∅ /\ priority <$> sent (library_destroy s) !! 6%nat = Some LOG_WARNING.
Proof. vm_compute. split; reflexivity. Qed.

Lemma malloc_free_roundtrip_witness :
  exists b, heap (fst (default (library_init demo_limits, 0)
                    (malloc (A := bump) 10 (library_init demo_limits)))) !! 1 = Some b /\
            extent b = 26.
Proof.
  destruct (malloc_free_roundtrip bump bump_ok 10 (library_init demo_limits)
    (fst (default (library_init demo_limits, 0) (malloc (A := bump) 10 (library_init demo_limits))))
    17) as [(b & H & _ & He & _) _]; [reflexivity|lia|vm_compute; reflexivity|lia|].
  exists b. split; [exact H | exact He].
Defined.

Lemma malloc_header_overflow_witness :
  malloc (A := bump) SIZE_MAX (library_init (Settings SIZE_MAX SIZE_MAX SIZE_MAX)) = None.
Proof.
  apply (malloc_header_overflow bump _ SIZE_MAX 1); try reflexivity. unfold SIZE_MAX. lia.
Defined.
