(* ===== verification/MemgrindTests.v ===== *)
(** [hw03/test_easy.c] and [hw03/test_realloc.c]: two programs that run on the memory tracing
    library. What they keep in their blocks is read back at once and is not stored; what
    [printf] allocates for its buffer is left out. *)

From S2P Require Import Prelude.
From S2P Require Import CLib.
From S2P Require Import MemgrindConfig.
From S2P Require Import Memgrind.
From stdpp Require Import fin_maps.

Open Scope string_scope.
Open Scope list_scope.
Open Scope Z_scope.

(** [sizeof(int)] *)
Definition int_size : Z := 4.

(** The state of the library, what has been printed, and the status when the program has
    returned; [None] is undefined behaviour. *)
Record ended := Ended { lib : mg; printed : list string; status : Z }.

Definition line (s : string) : string := s +:+ nl.
Definition pointer (p : Z) : string := fmt_ptr p +:+ nl.

(** An access to the element at [index] of the block at [ptr]: it must lie in the bytes that
    have been asked for. *)
Definition access (ptr index : Z) (s : mg) : option unit :=
  b ← heap s !! user_to_lib ptr;
  if (index + 1) * int_size <=? extent b - SERVICE_LENGTH then Some tt else None.

Section tests.
Context `{A : allocator}.

(** [main] of [test_easy.c]. *)
Definition easy_main (s : mg) : option ended :=
  let out := [line "started easy"] in
  '(s, vals) ← calloc 4 int_size s;
  if vals =? 0 then Some (Ended s (out ++ [line "calloc failed"]) EXIT_FAILURE)
  else
    _ ← access vals 0 s;
    let out := out ++ [line "5"] in
    '(s, tmp) ← realloc vals (8 * int_size) s;
    '(s, out) ← (if tmp =? 0 then '(s, _) ← free vals s; Some (s, out ++ [line "realloc failed"]) else Some (s, out));
    let vals := tmp in
    _ ← access vals 5 s;
    let out := out ++ [line "10"] in
    '(s, tmp1) ← realloc vals (2048 * int_size) s;
    '(s, out) ← (if tmp1 =? 0 then '(s, _) ← free vals s; Some (s, out ++ [line "realloc failed"]) else Some (s, out));
    let vals := tmp1 in
    '(s, _) ← free vals s;
    Some (Ended s (out ++ [line "free vals"]) EXIT_SUCCESS).

(** [main] of [test_realloc.c]. *)
Definition realloc_main (s : mg) : option ended :=
  '(s, my_ptr) ← realloc 0 (4 * int_size) s;
  if my_ptr =? 0 then Some (Ended s [line "null realloc failed"] EXIT_FAILURE)
  else
    _ ← access my_ptr 0 s;
    let out := ["after first alloc: " +:+ pointer my_ptr] in
    '(s, tmp) ← realloc my_ptr (4096 * int_size) s;
    let out := out ++ [pointer tmp] in
    if tmp =? 0 then
      '(s, _) ← free my_ptr s;
      Some (Ended s (out ++ ["realloc huge failed: " +:+ pointer my_ptr]) EXIT_FAILURE)
    else
      let my_ptr := tmp in
      '(s, tmp1) ← realloc my_ptr 1 s;
      let out := out ++ ["After shrink: " +:+ pointer tmp] in
      if tmp1 =? 0 then
        '(s, _) ← free my_ptr s;
        Some (Ended s (out ++ ["realloc shrink failed: " +:+ pointer my_ptr]) EXIT_FAILURE)
      else
        let my_ptr := tmp1 in
        '(s, _) ← free my_ptr s;
        Some (Ended s (out ++ ["Before last: " +:+ pointer my_ptr]) EXIT_SUCCESS).
End tests.

(* ------------------------------------------------------------------ *)
(** ** What the calls promise to such a program *)

(** The program holds the block [p] of [n] bytes, and the rest of the heap is [h]. *)
Definition owns (h : heap_t) (p n : Z) (s : mg) : Prop :=
  libc_guard s = false /\ p <> 0 /\ h !! user_to_lib p = None /\
  heap s = <[user_to_lib p := Block (n + SERVICE_LENGTH) (Some (ServiceInfo n CANNARY_WORD))]> h.

(** It holds none. *)
Definition nothing (h : heap_t) (s : mg) : Prop := libc_guard s = false /\ heap s = h.

(** [k] requests have been refused between the two states, as the library counts them. *)
Definition refused (k : Z) (s s' : mg) : Prop :=
  eq64 (errors (statistics s') + declined_allocations (statistics s'))
       (errors (statistics s) + declined_allocations (statistics s) + k).

(** What a request for [n] bytes promises. *)
Definition served (h : heap_t) (n : Z) (kept : mg -> Prop) (s : mg) (r : option (mg * Z)) : Prop :=
  exists s' p, r = Some (s', p) /\ ((p = 0 /\ kept s' /\ refused 1 s s') \/ (owns h p n s' /\ refused 0 s s')).

Section promises.
Context `{HA : allocator_ok}.

Ltac count := unfold refused, count_realloc; simpl; rewrite ?eq64_u64; repeat case_match; simpl; apply eq64_refl; lia.
Ltac refuse := do 2 eexists; split; [reflexivity|]; left; split; [reflexivity|]; split; [done|]; count.

Lemma fits n : 0 <= n < 2 ^ 63 -> u64 (n + SERVICE_LENGTH) = n + SERVICE_LENGTH.
Proof. intros. apply u64_small. unfold SERVICE_LENGTH. lia. Qed.

Lemma lib_user p : user_to_lib (lib_to_user p) = p.
Proof. unfold user_to_lib, lib_to_user. lia. Qed.

Lemma malloc_owns h n s : 0 <= n < 2 ^ 63 -> nothing h s -> served h n (nothing h) s (malloc n s).
Proof.
  intros Hn [Hg <-]. unfold malloc. rewrite Hg. destruct (can_alloc _ _) as [ok s1] eqn:Ec.
  apply can_alloc_cases in Ec as [[-> ->] | (-> & why & ->)]; cbn [negb].
  2: refuse.
  destruct (real_malloc _ _) as [m|] eqn:Em; [|refuse].
  apply malloc_fresh in Em as [Hf Hp]. unfold initialise_service_block. simpl in *.
  rewrite lookup_insert_eq, fits by done. simpl. destruct (Z.leb_spec SERVICE_LENGTH (n + SERVICE_LENGTH)); [|lia].
  do 2 eexists. split; [reflexivity|]. right. split; [|count]. unfold owns. rewrite lib_user. simpl. rewrite insert_insert_eq.
  split_and!; [done|unfold lib_to_user, SERVICE_LENGTH; lia|done|done].
Qed.

(** [calloc], of less than [2^63] bytes. *)
Lemma calloc_owns h k n s : 0 <= k * n < 2 ^ 63 -> nothing h s -> served h (k * n) (nothing h) s (calloc k n s).
Proof.
  intros Hn [Hg <-]. unfold calloc. rewrite Hg. destruct (can_alloc _ _) as [ok s1] eqn:Ec.
  apply can_alloc_cases in Ec as [[-> ->] | (-> & why & ->)]; cbn [negb].
  2: refuse.
  rewrite (u64_small (k * n)) by lia.
  destruct (real_calloc _ _ _) as [m|] eqn:Em; [|refuse].
  apply calloc_fresh in Em as [Hf Hp]. unfold initialise_service_block. simpl in *.
  rewrite lookup_insert_eq, fits by done. simpl.
  destruct (Z.leb_spec SERVICE_LENGTH (k * n + SERVICE_LENGTH)); [|lia].
  do 2 eexists. split; [reflexivity|]. right. split; [|count]. unfold owns. rewrite lib_user. simpl. rewrite insert_insert_eq.
  split_and!; [done|unfold lib_to_user, SERVICE_LENGTH; lia|done|done].
Qed.

(** [realloc] that fails leaves the block to the program. *)
Lemma realloc_owns h p n n' s : 0 <= n' < 2 ^ 63 -> owns h p n s -> served h n' (owns h p n) s (realloc p n' s).
Proof.
  intros Hn (Hg & Hp & Hf & Hs). unfold realloc. destruct (Z.eqb_spec p 0); [done|]. rewrite Hg.
  destruct (can_alloc _ _) as [ok s1] eqn:Ec.
  apply can_alloc_cases in Ec as [[-> ->] | (-> & why & ->)]; cbn [negb].
  2: refuse.
  unfold check_service_validity. simpl. rewrite Hs, lookup_insert_eq. simpl. rewrite fits by done.
  destruct (real_realloc _ _ _) as [m|] eqn:Em; [|refuse].
  destruct (Z.ltb_spec (n' + SERVICE_LENGTH) SERVICE_LENGTH); [lia|].
  do 2 eexists. split; [reflexivity|]. right. split; [|count]. apply realloc_fresh in Em as [Hm Hp'].
  unfold owns. rewrite lib_user. simpl. rewrite delete_insert_eq, delete_id by done.
  split_and!; [done|unfold lib_to_user, SERVICE_LENGTH; lia| |done].
  destruct Hm as [->|Hm]; [done|]. by apply lookup_insert_None in Hm as [Hm _].
Qed.

Lemma free_owns h p n s : owns h p n s -> exists s', free p s = Some (s', 0) /\ nothing h s' /\ refused 0 s s'.
Proof.
  intros (Hg & Hp & Hf & Hs). unfold free. rewrite Hg. destruct (Z.eqb_spec p 0); [done|].
  unfold check_service_validity. simpl. rewrite Hs, lookup_insert_eq. simpl.
  eexists. split; [reflexivity|]. split; [|count]. split; [done|]. simpl. by rewrite delete_insert_eq, delete_id.
Qed.

Lemma free_null h s : nothing h s -> exists s', free 0 s = Some (s', 0) /\ nothing h s' /\ refused 0 s s'.
Proof. intros [Hg Hs]. unfold free. rewrite Hg. simpl. eexists. split; [reflexivity|]. split; [done|]. count. Qed.

Lemma access_owns h p n i s : owns h p n s -> (i + 1) * int_size <= n -> access p i s = Some tt.
Proof.
  intros (_ & _ & _ & Hs) Hi. unfold access. rewrite Hs, lookup_insert_eq. simpl.
  destruct (Z.leb_spec ((i + 1) * int_size) (n + SERVICE_LENGTH - SERVICE_LENGTH)); [done|lia].
Qed.
End promises.


(* ------------------------------------------------------------------ *)
(** ** The two programs *)

Lemma refused_trans j k l s s1 s2 : refused j s s1 -> refused k s1 s2 -> l = j + k -> refused l s s2.
Proof. unfold refused. intros H1 H2 ->. rewrite H2, H1. apply eq64_refl. lia. Qed.

Section programs.
Context `{HA : allocator_ok}.

Lemma owns_not_null h p n s : owns h p n s -> (p =? 0) = false.
Proof. intros (_ & Hp & _). by apply Z.eqb_neq. Qed.

(** [test_realloc] always returns, whatever the limits and the allocator refuse, and has
    then freed what it allocated; it fails after the first refusal. *)
Theorem realloc_main_frees (h : heap_t) (s : mg) (Hs : nothing h s) :
  exists r, realloc_main s = Some r /\ nothing h (lib r) /\
    ((status r = EXIT_SUCCESS /\ refused 0 s (lib r)) \/ (status r = EXIT_FAILURE /\ refused 1 s (lib r))).
Proof.
  unfold realloc_main. change (realloc 0 (4 * int_size) s) with (malloc 16 s).
  destruct (malloc_owns h 16 s) as (s1 & p & -> & [(-> & H1 & R1)|[H1 R1]]); [done..| |]; simpl.
  { eexists. split; [reflexivity|]. auto. }
  rewrite (owns_not_null _ _ _ _ H1), (access_owns h p 16 0 s1) by done. simpl.
  destruct (realloc_owns h p 16 (4096 * int_size) s1) as (s2 & p2 & -> & [(-> & H2 & R2)|[H2 R2]]); [done..| |]; simpl.
  { destruct (free_owns h p 16 s2 H2) as (s3 & -> & H3 & R3). simpl. eexists. split; [reflexivity|].
    split; [done|]. right. split; [done|]. by eauto using refused_trans. }
  rewrite (owns_not_null _ _ _ _ H2).
  destruct (realloc_owns h p2 (4096 * int_size) 1 s2) as (s3 & p3 & -> & [(-> & H3 & R3)|[H3 R3]]); [done..| |]; simpl.
  - destruct (free_owns h p2 _ s3 H3) as (s4 & -> & H4 & R4). simpl. eexists. split; [reflexivity|].
    split; [done|]. right. split; [done|]. by eauto using refused_trans.
  - rewrite (owns_not_null _ _ _ _ H3). destruct (free_owns h p3 _ s3 H3) as (s4 & -> & H4 & R4). simpl.
    eexists. split; [reflexivity|]. split; [done|]. left. split; [done|]. by eauto using refused_trans.
Qed.

(** [test_easy] frees everything whenever it returns, and then it has succeeded unless the
    first request was refused. But when its first [realloc] is refused it frees the block and
    goes on with the null pointer. *)
Theorem easy_main_outcome (h : heap_t) (s : mg) (Hs : nothing h s) (Hnull : h !! user_to_lib 0 = None) :
  (exists r, easy_main s = Some r /\ nothing h (lib r) /\
     (status r = EXIT_SUCCESS \/ (status r = EXIT_FAILURE /\ refused 1 s (lib r)))) \/
  (easy_main s = None /\ exists s1 vals s2, calloc 4 int_size s = Some (s1, vals) /\ vals <> 0 /\
     realloc vals (8 * int_size) s1 = Some (s2, 0)).
Proof.
  unfold easy_main.
  destruct (calloc_owns h 4 int_size s) as (s1 & p & -> & [(-> & H1 & R1)|[H1 R1]]); [done..| |]; simpl.
  { left. eexists. split; [reflexivity|]. auto. }
  pose proof (owns_not_null _ _ _ _ H1) as Hp. rewrite Hp, (access_owns h p (4 * int_size) 0 s1) by done. simpl.
  destruct (realloc_owns h p (4 * int_size) (8 * int_size) s1) as (s2 & p2 & E & [(-> & H2 & R2)|[H2 R2]]); [|exact H1|..]; [done|..].
  { right. rewrite E. simpl. destruct (free_owns h p (4 * int_size) s2 H2) as (s3 & -> & [_ H3] & R3). simpl.
    unfold access. rewrite H3, Hnull. split; [done|]. apply Z.eqb_neq in Hp. by exists s1, p, s2. }
  left. rewrite E. simpl. rewrite (owns_not_null _ _ _ _ H2). simpl. rewrite (access_owns h p2 (8 * int_size) 5 s2 H2) by done. simpl.
  destruct (realloc_owns h p2 (8 * int_size) (2048 * int_size) s2) as (s3 & p3 & -> & [(-> & H3 & R3)|[H3 R3]]); [|exact H2|..];
    [done|..]; simpl.
  - destruct (free_owns h p2 _ s3 H3) as (s4 & -> & H4 & R4). simpl.
    destruct (free_null h s4 H4) as (s5 & -> & H5 & R5). simpl. eexists. split; [reflexivity|]. auto.
  - rewrite (owns_not_null _ _ _ _ H3). simpl. destruct (free_owns h p3 _ s3 H3) as (s4 & -> & H4 & R4). simpl.
    eexists. split; [reflexivity|]. auto.
Qed.
End programs.

Lemma realloc_main_frees_witness :
  exists r, realloc_main (A := bump) (library_init (Settings SIZE_MAX 1000 SIZE_MAX)) = Some r /\ nothing ∅ (lib r) /\
    ((status r = EXIT_SUCCESS /\ refused 0 (library_init (Settings SIZE_MAX 1000 SIZE_MAX)) (lib r)) \/
     (status r = EXIT_FAILURE /\ refused 1 (library_init (Settings SIZE_MAX 1000 SIZE_MAX)) (lib r))).
Proof. apply (realloc_main_frees (A := bump) ∅). done. Defined.

(** Blocks of at most 20 bytes: the second request of [test_easy] is refused. *)
Example easy_follows_null :
  easy_main (A := bump) (library_init (Settings SIZE_MAX 20 SIZE_MAX)) = None.
Proof. vm_compute. reflexivity. Qed.

(** Without limits both programs succeed; the second has its block moved twice. *)
Example realloc_prints :
  (printed <$> easy_main (A := bump) (library_init (Settings SIZE_MAX SIZE_MAX SIZE_MAX))) =
    Some [line "started easy"; line "5"; line "10"; line "free vals"] /\
  (status <$> realloc_main (A := bump) (library_init (Settings SIZE_MAX SIZE_MAX SIZE_MAX))) = Some EXIT_SUCCESS.
Proof. split; vm_compute; reflexivity. Qed.
