(* ===== verification/Guess.v ===== *)
(** [hw02]: the guessing game ([guess.c], [utils.c]) and its strategy libraries
    ([libbinary.c], [liblinear.c], [liboracle.c]).  A library is an instance of
    the class [strategy_impl]; the game is generic in it. *)

From S2P Require Import Prelude CLib.

Open Scope string_scope.
Open Scope Z_scope.

(* ------------------------------------------------------------------ *)
(** ** Strategies *)

(** [srand], [rand] and the value of [time(NULL)], of the C library. *)
Class prng := {
  rng : Type;
  srand : Z -> rng;
  rand : rng -> Z * rng;
  now : Z;
}.

(** The functions [guess] and [notify] of [struct strategy_impl]; [St] is what
    [void *self] points to.  [guess] may use and reseed the generator; both are
    [None] where C is undefined or the process exits. *)
Class strategy_impl `{prng} (St : Type) := {
  guess : St -> rng -> option (Z * rng);
  notify : St -> Z -> option St;
}.

(** [libbinary.c].  The fields are [long]; the functions work on [int] copies. *)
Record binary := Binary { b_min : Z; b_max : Z }.

Definition binary_init (min max : Z) : binary := Binary min max.

Definition binary_mid (l : binary) : option Z :=
  sum ← int_ok (s32 (b_min l) + s32 (b_max l)); Some (Z.quot sum 2).

Definition binary_guess (l : binary) : option Z := binary_mid l.

Definition binary_notify (l : binary) (sign : Z) : option binary :=
  mid ← binary_mid l;
  if sign =? 1 then Some (Binary mid (b_max l))
  else if sign =? -1 then Some (Binary (b_min l) mid)
  else None.

#[export] Instance binary_impl `{prng} : strategy_impl binary := {
  guess l r := g ← binary_guess l; Some (g, r);
  notify := binary_notify;
}.

(** [liblinear.c] *)
Record linear := Linear { l_min : Z; l_max : Z; l_state : bool }.

Definition linear_init (min max : Z) : linear := Linear min max false.

Definition linear_guess (l : linear) : Z := if l_state l then l_min l else l_max l.

Definition linear_notify (l : linear) : linear :=
  let state := negb (l_state l) in
  if negb state then Linear (l_min l + 1) (l_max l) state
  else Linear (l_min l) (l_max l - 1) state.

#[export] Instance linear_impl `{prng} : strategy_impl linear := {
  guess l r := Some (linear_guess l, r);
  notify l _ := Some (linear_notify l);
}.

(** [liboracle.c]: it reseeds the generator of the process on its first guesses. *)
Record oracle := Oracle { o_min : Z; o_max : Z; tries : Z }.

Definition oracle_init (min max : Z) : oracle := Oracle min max 0.

Definition oracle_guess `{prng} (l : oracle) (r : rng) : option (Z * rng) :=
  let max := s32 (o_max l) in
  let min := s32 (o_min l) in
  let r := if tries l <? 2 then srand (u32 (now - tries l)) else r in
  let '(x, r) := rand r in
  d ← int_ok (max - min);
  if d =? 0 then None else g ← int_ok (Z.rem x d + min); Some (g, r).

#[export] Instance oracle_impl `{prng} : strategy_impl oracle := {
  guess := oracle_guess;
  notify l _ := Some (Oracle (o_min l) (o_max l) (u32 (tries l + 1)));
}.

(** Any of the three, for a game between different libraries. *)
Inductive any_strategy := ABinary (s : binary) | ALinear (s : linear) | AOracle (s : oracle).

(** The [init] functions of the libraries of the repository, by file name. *)
Definition any_init (lib : string) : option (Z -> Z -> any_strategy) :=
  if bool_decide (lib = "libbinary.so") then Some (fun min max => ABinary (binary_init min max))
  else if bool_decide (lib = "liblinear.so") then Some (fun min max => ALinear (linear_init min max))
  else if bool_decide (lib = "liboracle.so") then Some (fun min max => AOracle (oracle_init min max))
  else None.

#[export] Instance any_impl `{prng} : strategy_impl any_strategy := {
  guess s r :=
    match s with ABinary s => guess s r | ALinear s => guess s r | AOracle s => guess s r end;
  notify s sign :=
    match s with
    | ABinary s => ABinary <$> notify s sign
    | ALinear s => ALinear <$> notify s sign
    | AOracle s => AOracle <$> notify s sign
    end;
}.

(* ------------------------------------------------------------------ *)
(** ** [gameloop] *)

(** The value returned, whether the last guess was right, and the output. *)
Record game := Game { rotating_counter : Z; correct : bool; printed : list string }.

Section Gameloop.
Context {St : Type} `{strategy_impl St}.

(** The [do]-[while] loop.  The counter grows by one each time and the loop
    stops at 100, so 100 iterations are always enough. *)
Fixpoint game_rounds (fuel : nat) (number counter : Z) (strategies : list St) (r : rng)
    (out : list string) : option game :=
  match fuel with
  | O => None
  | S fuel =>
      if (length strategies =? 0)%nat then None else
      let index := Z.to_nat (counter mod Z.of_nat (length strategies)) in
      s ← strategies !! index;
      '(g, r) ← guess s r;
      let current_guess := s32 g in
      let out := (out ++ ["Current guess is: " +:+ dec current_guess +:+ nl])%list in
      let counter := counter + 1 in
      if current_guess =? number then
        Some (Game counter true
          (out ++ [nl +:+ "Correct! "] ++ (if 100 <=? counter then [nl +:+ "Failed! "] else []))%list)
      else
        s ← notify s (if current_guess <? number then 1 else -1);
        let strategies := <[index := s]> strategies in
        if counter <? 100 then game_rounds fuel number counter strategies r out
        else Some (Game counter false (out ++ [nl +:+ "Failed! "])%list)
  end.

(** [gameloop(min, max, resources)]; [r] is the generator after [srand]. *)
Definition gameloop (min max : Z) (strategies : list St) (r : rng) : option game :=
  let '(x, r) := rand r in
  if max - min =? 0 then None else
  number ← int_ok (Z.rem x (max - min) + min);
  game_rounds 100 number 0 strategies r
    ["Number to guess is: " +:+ dec number +:+ nl +:+ nl].
End Gameloop.

(* ------------------------------------------------------------------ *)
(** ** The binary strategy *)

Lemma binary_mid_spec a b :
  0 <= a -> a < b -> b <= 2 ^ 30 -> binary_mid (Binary a b) = Some ((a + b) / 2).
Proof.
  intros. unfold binary_mid. simpl. rewrite !s32_small by (unfold INT_MIN, INT_MAX; lia).
  rewrite int_ok_small by (unfold INT_MIN, INT_MAX; lia). simpl. by rewrite Z.quot_div_nonneg by lia.
Qed.

(** The number of guesses left when the secret lies in [w] consecutive places. *)
Definition guesses (w : Z) : Z := Z.log2_up w + 1.

Lemma guesses_half w w' : 1 < w -> 0 < w' -> w' <= (w + 1) / 2 -> guesses w' + 1 <= guesses w.
Proof.
  intros Hw Hw' Hle. unfold guesses. pose proof (Z.log2_up_spec w Hw) as [_ Hu].
  pose proof (Z.log2_up_pos w Hw) as Hk.
  replace (Z.log2_up w) with (Z.succ (Z.log2_up w - 1)) in Hu by lia.
  rewrite Z.pow_succ_r in Hu by lia.
  assert (Z.log2_up w' <= Z.log2_up w - 1); [|lia].
  apply Z.log2_up_le_pow2; [done|]. revert Hu Hle. generalize (2 ^ (Z.log2_up w - 1)). dlia.
Qed.

Lemma guesses_pos w : 1 <= guesses w.
Proof. unfold guesses. pose proof (Z.log2_up_nonneg w). lia. Qed.

(** One round of a game with a single strategy. *)
Lemma game_rounds_single `{strategy_impl St} fuel number counter (s : St) r out :
  game_rounds (S fuel) number counter [s] r out =
  ('(g, r) ← guess s r;
   let out := (out ++ ["Current guess is: " +:+ dec (s32 g) +:+ nl])%list in
   if s32 g =? number then
     Some (Game (counter + 1) true
       (out ++ [nl +:+ "Correct! "] ++ (if 100 <=? counter + 1 then [nl +:+ "Failed! "] else []))%list)
   else
     s ← notify s (if s32 g <? number then 1 else -1);
     if counter + 1 <? 100 then game_rounds fuel number (counter + 1) [s] r out
     else Some (Game (counter + 1) false (out ++ [nl +:+ "Failed! "])%list)).
Proof. cbn [game_rounds length Nat.eqb]. rewrite Z.mod_1_r. reflexivity. Qed.

Lemma binary_rounds `{prng} fuel : forall a b n counter r out,
  0 <= a -> a <= n < b -> b <= 2 ^ 30 ->
  guesses (b - a) <= Z.of_nat fuel -> counter + guesses (b - a) <= 100 ->
  exists g, game_rounds fuel n counter [Binary a b] r out = Some g /\ correct g = true /\
    counter < rotating_counter g <= counter + guesses (b - a).
Proof.
  induction fuel as [|fuel IH]; intros a b n counter r out Ha Hn Hb Hf Hc.
  { pose proof (guesses_pos (b - a)). lia. }
  pose proof (guesses_pos (b - a)) as Hp. rewrite game_rounds_single. simpl.
  unfold binary_guess, binary_notify. rewrite binary_mid_spec by lia. simpl.
  set (mid := (a + b) / 2). assert (a <= mid < b) as Hm by (subst mid; dlia).
  rewrite s32_small by (unfold INT_MIN, INT_MAX; lia).
  destruct (Z.eqb_spec mid n) as [->|Hne].
  { eexists. split; [reflexivity|]. simpl. lia. }
  assert (1 < b - a) as Hw by lia.
  destruct (Z.ltb_spec mid n) as [Hlt|Hgt]; simpl.
  - assert (guesses (b - mid) + 1 <= guesses (b - a)) as Hg
      by (apply guesses_half; subst mid; dlia).
    pose proof (guesses_pos (b - mid)). rewrite (proj2 (Z.ltb_lt _ _)) by lia.
    edestruct (IH mid b n (counter + 1)) as (g & Hr & Hcor & Hcnt); [lia..|].
    exists g. split; [exact Hr|]. split; [done|]. lia.
  - assert (guesses (mid - a) + 1 <= guesses (b - a)) as Hg
      by (apply guesses_half; subst mid; dlia).
    pose proof (guesses_pos (mid - a)). rewrite (proj2 (Z.ltb_lt _ _)) by lia.
    edestruct (IH a mid n (counter + 1)) as (g & Hr & Hcor & Hcnt); [lia..|].
    exists g. split; [exact Hr|]. split; [done|]. lia.
Qed.

(* ------------------------------------------------------------------ *)
(** ** Properties *)

(** [rand] returns a number between 0 and [RAND_MAX], at most [INT_MAX]. *)
Class prng_ok (R : prng) : Prop := rand_range : forall r, 0 <= fst (rand r) <= INT_MAX.

(** The number drawn is in the half-open range, never [max] itself. *)
Lemma number_range `{prng_ok} min max r :
  0 <= min < max -> max <= INT_MAX ->
  exists n, min <= n < max /\ int_ok (Z.rem (fst (rand r)) (max - min) + min) = Some n.
Proof.
  intros Hm Hmax. pose proof (rand_range r) as Hr.
  pose proof (Z.rem_bound_pos (fst (rand r)) (max - min)) as Hb.
  exists (Z.rem (fst (rand r)) (max - min) + min). split; [lia|].
  apply int_ok_small. unfold INT_MIN. lia.
Qed.

(** C20: the binary strategy always wins: for any range of non-negative numbers
    (up to 2^30, where the sum of the bounds cannot overflow), a game of one
    binary strategy ends with a right guess after at most
    ceil(log2(max - min)) + 1 guesses. *)
Theorem binary_always_wins (R : prng) (HR : prng_ok R) min max r :
  0 <= min < max -> max <= 2 ^ 30 ->
  exists g, gameloop min max [binary_init min max] r = Some g /\ correct g = true /\
    1 <= rotating_counter g <= Z.log2_up (max - min) + 1.
Proof.
  intros Hm Hmax. destruct (number_range min max r) as (n & Hn & E); [done|unfold INT_MAX; lia|].
  unfold gameloop. destruct (rand r) as [x r'] eqn:Er. simpl in E.
  destruct (Z.eqb_spec (max - min) 0); [lia|]. rewrite E. cbn [mbind option_bind].
  assert (Z.log2_up (max - min) <= 30) as Hl.
  { apply Z.log2_up_le_pow2; lia. }
  assert (guesses (max - min) <= 31) as Hg by (unfold guesses; lia).
  edestruct (binary_rounds 100 min max n 0 r') as (g & Hgr & Hc & Hcnt); [lia..|].
  exists g. split; [exact Hgr|]. split; [done|]. unfold guesses in Hcnt. lia.
Qed.

(** The loop of a game between strategies none of which gets stuck. *)
Section Rounds.
Context `{I : strategy_impl St} (good : St -> Prop).
Hypothesis Hguess : forall s r, good s -> exists g r', guess s r = Some (g, r').
Hypothesis Hnotify : forall s sign, good s -> sign = 1 \/ sign = -1 ->
  exists s', notify s sign = Some s' /\ good s'.

Lemma game_rounds_return fuel : forall strategies n counter r out,
  strategies <> [] -> Forall good strategies ->
  0 <= counter -> counter + Z.of_nat fuel = 100 -> (0 < fuel)%nat ->
  exists g, game_rounds fuel n counter strategies r out = Some g /\
    counter < rotating_counter g <= 100 /\
    (correct g = false -> rotating_counter g = 100) /\
    (last (printed g) = Some (nl +:+ "Failed! ") <-> rotating_counter g = 100).
Proof.
  induction fuel as [|fuel IH];
    intros strategies n counter r0 out Hne Hall Hc Hf Hpos; [lia|].
  cbn [game_rounds]. destruct (Nat.eqb_spec (length strategies) 0) as [E|E].
  { by apply nil_length_inv in E. }
  set (index := Z.to_nat (counter mod Z.of_nat (length strategies))).
  assert (index < length strategies)%nat as Hi.
  { pose proof (Z.mod_pos_bound counter (Z.of_nat (length strategies))). lia. }
  destruct (lookup_lt_is_Some_2 _ _ Hi) as [s Hs].
  pose proof (proj1 (Forall_lookup _ _) Hall _ _ Hs) as Hgs. rewrite Hs. cbn [mbind option_bind].
  destruct (Hguess s r0 Hgs) as (g & r1 & Hg). rewrite Hg. cbn [mbind option_bind].
  destruct (Z.eqb_spec (s32 g) n) as [Heq|Hneq].
  - eexists. split; [reflexivity|]. cbn [rotating_counter correct printed].
    split; [lia|]. split; [done|]. destruct (Z.leb_spec 100 (counter + 1)).
    + rewrite !app_assoc, last_snoc. split; [lia|done].
    + rewrite app_nil_r, last_snoc. split; [done|lia].
  - destruct (Hnotify s (if s32 g <? n then 1 else -1) Hgs) as (s' & Hs' & Hgs').
    { destruct (s32 g <? n); auto. }
    rewrite Hs'. cbn [mbind option_bind]. destruct (Z.ltb_spec (counter + 1) 100).
    + destruct (IH (<[index:=s']> strategies) n (counter + 1) r1
        (out ++ ["Current guess is: " +:+ dec (s32 g) +:+ nl])%list) as (g' & Hg' & Hrange & Hrest).
      * intros En. apply (f_equal length) in En. rewrite length_insert in En. simpl in En. lia.
      * by apply Forall_insert.
      * lia.
      * lia.
      * lia.
      * exists g'. split; [exact Hg'|]. split; [lia|done].
    + eexists. split; [reflexivity|]. cbn [rotating_counter correct printed].
      rewrite last_snoc. split; [lia|]. split; [lia|]. split; [lia|done].
Qed.
End Rounds.

(** C21: [gameloop] returns: with at least one strategy, none of which gets stuck
    on the way, it makes between 1 and 100 guesses, and reports failure exactly
    when the counter has reached 100, be the last guess right or wrong. *)
Theorem gameloop_returns (R : prng) St (I : strategy_impl St) (good : St -> Prop)
    min max strategies r :
  prng_ok R -> 0 <= min < max -> max <= INT_MAX -> strategies <> [] ->
  Forall good strategies ->
  (forall s r, good s -> exists g r', guess s r = Some (g, r')) ->
  (forall s sign, good s -> sign = 1 \/ sign = -1 -> exists s', notify s sign = Some s' /\ good s') ->
  exists g, gameloop min max strategies r = Some g /\ 1 <= rotating_counter g <= 100 /\
    (correct g = false -> rotating_counter g = 100) /\
    (last (printed g) = Some (nl +:+ "Failed! ") <-> rotating_counter g = 100).
Proof.
  intros HR Hm Hmax Hne Hall Hguess Hnotify.
  destruct (number_range min max r) as (n & Hn & E); [done..|].
  unfold gameloop. destruct (rand r) as [x r'] eqn:Er. simpl in E.
  destruct (Z.eqb_spec (max - min) 0); [lia|]. rewrite E. cbn [mbind option_bind].
  destruct (game_rounds_return good Hguess Hnotify 100%nat strategies n 0 r'
    ["Number to guess is: " +:+ dec n +:+ nl +:+ nl]) as (g & Hg & Hrest); [done|done|lia..|].
  exists g. split; [exact Hg|]. split; [lia|apply Hrest].
Qed.

(** The number of guesses the linear strategy needs for [n] between 0 and 99. *)
Definition linear_tries (n : Z) : Z := if n <? 50 then 2 * n + 2 else Z.min 100 (2 * (100 - n) + 1).

(** The state of the linear strategy after [k] guesses. *)
Lemma linear_rounds (R : prng) n r : 0 <= n < 100 -> forall fuel k out,
  0 <= k -> k + Z.of_nat fuel = 100 -> (0 < fuel)%nat -> k < linear_tries n ->
  exists g, game_rounds fuel n k [Linear (k / 2) (100 - (k + 1) / 2) (Z.odd k)] r out = Some g /\
    rotating_counter g = linear_tries n /\ (correct g = true <-> n <> 50).
Proof.
  intros Hn. induction fuel as [|fuel IH]; intros k out Hk Hf Hpos Ht; [lia|].
  rewrite game_rounds_single. cbn [guess linear_impl mbind option_bind notify].
  unfold linear_guess, linear_notify. cbn [l_state l_min l_max].
  assert (k = 2 * (k / 2) + (if Z.odd k then 1 else 0)) as Hodd.
  { pose proof (Zdiv2_odd_eqn k) as Hd. by rewrite Z.div2_div in Hd. }
  unfold linear_tries in *.
  destruct (Z.odd k) eqn:Eo; cbn [negb].
  - rewrite s32_small by (unfold INT_MIN, INT_MAX; dlia).
    destruct (Z.eqb_spec (k / 2) n).
    + eexists. split; [reflexivity|]. simpl. destruct (Z.ltb_spec n 50); lia.
    + assert (Z.odd (k + 1) = false) as Eo'.
      { rewrite Z.odd_add, Eo. done. }
      destruct (Z.ltb_spec (k + 1) 100).
      * destruct (IH (k + 1) (out ++ ["Current guess is: " +:+ dec (k / 2) +:+ nl])%list)
          as (g & Hg & Hr); [lia..|destruct (Z.ltb_spec n 50); dlia|].
        exists g. split; [|exact Hr]. rewrite <- Hg. rewrite Eo'. do 3 f_equal; dlia.
      * eexists. split; [reflexivity|]. simpl. destruct (Z.ltb_spec n 50); dlia.
  - rewrite s32_small by (unfold INT_MIN, INT_MAX; dlia).
    destruct (Z.eqb_spec (100 - (k + 1) / 2) n).
    + eexists. split; [reflexivity|]. simpl. destruct (Z.ltb_spec n 50); dlia.
    + assert (Z.odd (k + 1) = true) as Eo'.
      { rewrite Z.odd_add, Eo. done. }
      destruct (Z.ltb_spec (k + 1) 100); [|dlia].
      destruct (IH (k + 1) (out ++ ["Current guess is: " +:+ dec (100 - (k + 1) / 2) +:+ nl])%list)
          as (g & Hg & Hr); [lia..|destruct (Z.ltb_spec n 50); dlia|].
      exists g. split; [|exact Hr]. rewrite <- Hg. rewrite Eo'. do 3 f_equal; dlia.
Qed.

(** The linear strategy, which tries 100, 0, 99, 1, ... in the range of the
    program, wins for every secret number but 50, the last one it would try,
    after the guesses counted by [linear_tries]. *)
Theorem linear_misses_middle (R : prng) n r out :
  0 <= n < 100 ->
  exists g, game_rounds 100 n 0 [linear_init 0 100] r out = Some g /\
    rotating_counter g = linear_tries n /\ (correct g = true <-> n <> 50).
Proof.
  intros Hn.
  apply (linear_rounds R n r Hn 100%nat 0 out); [lia..|]. unfold linear_tries. destruct (Z.ltb_spec n 50); lia.
Qed.

(* ------------------------------------------------------------------ *)
(** ** The properties at concrete games *)

(** A generator that always returns 49. *)
#[local] Instance rng49 : prng := {| rng := unit; srand _ := tt; rand _ := (49, tt); now := 0 |}.

#[local] Instance rng49_ok : prng_ok rng49.
Proof. intros r. simpl. unfold INT_MAX. lia. Qed.

Lemma binary_always_wins_witness :
  exists g, gameloop 0 100 [binary_init 0 100] (tt : @rng rng49) = Some g /\ correct g = true /\
    1 <= rotating_counter g <= Z.log2_up (100 - 0) + 1.
Proof. apply (binary_always_wins rng49 rng49_ok 0 100 tt); lia. Defined.

Lemma gameloop_returns_witness :
  exists g, gameloop 0 100 [linear_init 0 100] (tt : @rng rng49) = Some g /\
    1 <= rotating_counter g <= 100.
Proof.
  destruct (gameloop_returns rng49 linear linear_impl (fun _ => True) 0 100 [linear_init 0 100] tt)
    as (g & Hg & Hr & _); eauto; try (unfold INT_MAX; lia); try discriminate; try exact rng49_ok;
    try (simpl; eauto).
Defined.

Lemma linear_misses_middle_witness :
  exists g, game_rounds 100 50 0 [linear_init 0 100] (tt : @rng rng49) [] = Some g /\
    rotating_counter g = linear_tries 50 /\ (correct g = true <-> 50 <> 50).
Proof. apply (linear_misses_middle rng49 50 tt []). lia. Defined.

(** Finding 49 with the hundredth guess is reported both as correct and as failed. *)
Example linear_49_correct_and_failed :
  (fun g => (correct g, drop 101 (printed g))) <$>
    gameloop 0 100 [linear_init 0 100] (tt : @rng rng49)
  = Some (true, [nl +:+ "Correct! "; nl +:+ "Failed! "]).
Proof. vm_compute. reflexivity. Qed.

(** With a negative range the binary strategy rounds up and never reaches [min]:
    the secret number is -3. *)
Example binary_negative_range :
  rotating_counter <$> game_rounds 100 (-3) 0 [binary_init (-3) 0] (tt : @rng rng49) [] = Some 100.
Proof. vm_compute. reflexivity. Qed.

(** Nor does it ever guess the upper bound, which [strategy.h] says is inclusive. *)
Example binary_upper_bound :
  correct <$> game_rounds 100 100 0 [binary_init 0 100] (tt : @rng rng49) [] = Some false.
Proof. vm_compute. reflexivity. Qed.
