(* ===== verification/GuessMain.v ===== *)
(** [hw02/guess.c] and the library loading of [hw02/utils.c]: what [main]
    acquires, and what [cleanup] gives back on every way out. *)

From S2P Require Import Prelude CLib.

Open Scope string_scope.
Open Scope Z_scope.

Definition BUFFER_LENGTH : Z := 80.

(** What the game holds; the index is the position of the library on the
    command line. *)
Inductive holding :=
  | HFunctions | HHandles | HStrategies
  | HHandle (i : nat) | HImpl (i : nat) | HState (i : nat).

#[export] Instance holding_eq_dec : EqDecision holding.
Proof. solve_decision. Defined.

(** Calls that can fail. *)
Inductive gcall :=
  | CFunctions | CHandles | CStrategies
  | CDlopen (i : nat) | CMalloc (i : nat) | CDlsym (i : nat) | CInit (i : nat).

(** [struct guess_game]: for each array, [None] for a null pointer, or which of
    its elements are not null; and the ledger of what is held. *)
Record guess_game := GuessGame {
  length_ : nat;
  functions : option (list bool);
  handles : option (list bool);
  strategies : option (list bool);
  held : list holding;
}.

Definition drop_one (h : holding) (l : list holding) : list holding := filter (fun x => x <> h) l.

(** [free(a[i])] for the elements that are not null. *)
Definition free_all (f : nat -> holding) (present : list bool) (l : list holding) : list holding :=
  fold_left (fun l i => if default false (present !! i) then drop_one (f i) l else l)
            (seq 0 (length present)) l.

(** The loop over the handles, which stops at the first null one. *)
Fixpoint close_handles (i : nat) (present : list bool) (l : list holding) : list holding :=
  match present with
  | true :: present => close_handles (S i) present (drop_one (HHandle i) l)
  | _ => l
  end.

(** [cleanup(resources)], as the ledger it leaves.  It calls [destroy] on every
    strategy through [functions[i]], which is undefined for a null entry. *)
Definition cleanup (g : guess_game) : option (list holding) :=
  l ← match functions g with
      | None => Some (held g)
      | Some fs =>
          l ← match strategies g with
              | None => Some (held g)
              | Some ss =>
                  if forallb id fs then Some (drop_one HStrategies (free_all HState ss (held g)))
                  else None
              end;
          Some (drop_one HFunctions (free_all HImpl fs l))
      end;
  Some match handles g with
       | None => l
       | Some hs => drop_one HHandles (close_handles 0 hs l)
       end.

(** A way out of [main]: the exit status and what is still held. *)
Definition leave (status : Z) (g : guess_game) : option (Z * list holding) :=
  l ← cleanup g; Some (status, l).

Definition hold (h : holding) (g : guess_game) : guess_game :=
  GuessGame (length_ g) (functions g) (handles g) (strategies g) (h :: held g).

Definition set_functions (i : nat) (g : guess_game) : guess_game :=
  GuessGame (length_ g) (<[i := true]> <$> functions g) (handles g) (strategies g) (held g).
Definition set_handles (i : nat) (g : guess_game) : guess_game :=
  GuessGame (length_ g) (functions g) (<[i := true]> <$> handles g) (strategies g) (held g).
Definition set_strategies (i : nat) (g : guess_game) : guess_game :=
  GuessGame (length_ g) (functions g) (handles g) (<[i := true]> <$> strategies g) (held g).

Section Main.
(** Which calls fail. *)
Context (fails : gcall -> bool).

(** The bytes [sprintf] writes, with the null byte, for ["lib%s.so"]. *)
Definition lib_bytes (arg : string) : Z := 3 + Z.of_nat (String.length arg) + 3 + 1.

(** The loop of [init_libraries], at library [i]: [inl] is the end of [main];
    [None] is undefined behaviour: [sprintf] past the buffer. *)
Fixpoint init_libraries (i : nat) (args : list string) (g : guess_game)
    : option ((Z * list holding) + guess_game) :=
  match args with
  | [] => Some (inr g)
  | arg :: args =>
      let error_code := lib_bytes arg - 1 in
      if BUFFER_LENGTH <? lib_bytes arg then None else
      if (error_code <? 0) || (BUFFER_LENGTH <? error_code) then inl <$> leave EXIT_FAILURE g else
      if fails (CDlopen i) then inl <$> leave EXIT_FAILURE g else
      let g := set_handles i (hold (HHandle i) g) in
      if fails (CMalloc i) then inl <$> leave EXIT_FAILURE g else
      let g := hold (HImpl i) g in
      if fails (CDlsym i) then inl <$> leave EXIT_FAILURE g else
      init_libraries (S i) args (set_functions i g)
  end.

(** The loop of [main] that calls the [init] of each library. *)
Fixpoint init_strategies (js : list nat) (g : guess_game)
    : option ((Z * list holding) + guess_game) :=
  match js with
  | [] => Some (inr g)
  | i :: js =>
      if fails (CInit i) then inl <$> leave EXIT_FAILURE g
      else init_strategies js (set_strategies i (hold (HState i) g))
  end.

(** [main], less the game itself, for the arguments after the program name. *)
Definition guess_main (args : list string) : option (Z * list holding) :=
  let n := length args in
  if (n =? 0)%nat then Some (EXIT_FAILURE, []) else
  if fails CFunctions then Some (EXIT_FAILURE, []) else
  let g := GuessGame n (Some (replicate n false)) None None [HFunctions] in
  if fails CHandles then leave EXIT_FAILURE g else
  let g := GuessGame n (functions g) (Some (replicate n false)) None (HHandles :: held g) in
  r ← init_libraries 0 args g;
  match r with
  | inl e => Some e
  | inr g =>
      if fails CStrategies then leave EXIT_FAILURE g else
      let g := GuessGame n (functions g) (handles g) (Some (replicate n false))
                         (HStrategies :: held g) in
      r ← init_strategies (seq 0 n) g;
      match r with
      | inl e => Some e
      | inr g => leave EXIT_SUCCESS g
      end
  end.
End Main.

(* ------------------------------------------------------------------ *)
(** ** Lemmas: what is held at each point *)

Lemma elem_of_drop_one h x l : x ∈ drop_one h l <-> x <> h /\ x ∈ l.
Proof. unfold drop_one. by rewrite list_elem_of_filter. Qed.

Lemma elem_of_free_all f present x l :
  x ∈ free_all f present l <-> x ∈ l /\ forall i, present !! i = Some true -> x <> f i.
Proof.
  unfold free_all.
  assert (forall js l, x ∈ fold_left (fun l i => if default false (present !! i)
      then drop_one (f i) l else l) js l <->
    x ∈ l /\ forall i, i ∈ js -> present !! i = Some true -> x <> f i) as Hfold.
  { induction js as [|i js IH]; intros l'; simpl; [set_solver|]. rewrite IH.
    destruct (present !! i) as [[]|] eqn:E; simpl; rewrite ?elem_of_drop_one; set_solver. }
  rewrite Hfold. split; intros [Hx Hi]; (split; [done|]); intros i Hp; [|by intros; apply Hi].
  apply Hi; [|done]. apply elem_of_seq. apply lookup_lt_Some in Hp. lia.
Qed.

Lemma elem_of_close_handles x k m : forall i l,
  x ∈ close_handles i (replicate k true ++ replicate m false) l <->
  x ∈ l /\ forall j, (i <= j < i + k)%nat -> x <> HHandle j.
Proof.
  induction k as [|k IH]; intros i l; simpl.
  - assert (close_handles i (replicate m false) l = l) as -> by (by destruct m).
    split; [|by intros []]. intros H. split; [done|]. lia.
  - rewrite IH, elem_of_drop_one. split.
    + intros [[Hx Hl] Hj]. split; [done|]. intros j Hr.
      destruct (decide (j = i)) as [->|]; [done|]. apply Hj. lia.
    + intros [Hl Hj]. split_and!; [|done|]; [apply Hj; lia|]. intros j Hr. apply Hj. lia.
Qed.

(** An array whose first [k] elements are set. *)
Definition prefix (k n : nat) : list bool := replicate k true ++ replicate (n - k) false.

Lemma prefix_set k n : (k < n)%nat -> <[k := true]> (prefix k n) = prefix (S k) n.
Proof.
  intros Hk. unfold prefix. replace (n - k)%nat with (S (n - S k)) by lia.
  rewrite insert_app_r_alt by (rewrite length_replicate; lia).
  rewrite length_replicate, Nat.sub_diag. rewrite (replicate_S_end k), <- app_assoc. done.
Qed.

Lemma prefix_lookup k n i : prefix k n !! i = Some true <-> (i < k)%nat.
Proof.
  unfold prefix. destruct (decide (i < k)%nat) as [H|H].
  - rewrite lookup_app_l by (rewrite length_replicate; lia). rewrite lookup_replicate_2 by lia. done.
  - rewrite lookup_app_r by (rewrite length_replicate; lia).
    split; [|lia]. intros [E _]%lookup_replicate. done.
Qed.

Lemma prefix_0 n : prefix 0 n = replicate n false.
Proof. unfold prefix. by rewrite Nat.sub_0_r. Qed.

Lemma prefix_full n : forallb id (prefix n n) = true.
Proof. unfold prefix. rewrite Nat.sub_diag, app_nil_r. by induction n. Qed.

(** The ledger when the first [kh] handles, [ki] structures and [ks] strategies
    are held, next to the arrays. *)
Definition ledger_is (bh bs : bool) (kh ki ks : nat) (l : list holding) : Prop :=
  forall x, x ∈ l <->
    match x with
    | HFunctions => True
    | HHandles => bh = true
    | HStrategies => bs = true
    | HHandle i => (i < kh)%nat
    | HImpl i => (i < ki)%nat
    | HState i => (i < ks)%nat
    end.

(** The next element of one of the kinds is held. *)
Ltac ledger_grow k :=
  unfold ledger_is; intros Hl x; rewrite elem_of_cons, Hl; destruct x as [| | |i|i|i];
  (split; [intros [[=]|?]; subst; lia || done | intros Hi]);
  try (by right); (destruct (decide (i = k)) as [->|]; [by left|right; lia]).

Lemma ledger_hold_handle bs kh ki ks l :
  ledger_is true bs kh ki ks l -> ledger_is true bs (S kh) ki ks (HHandle kh :: l).
Proof. ledger_grow kh. Qed.

Lemma ledger_hold_impl bs kh ki ks l :
  ledger_is true bs kh ki ks l -> ledger_is true bs kh (S ki) ks (HImpl ki :: l).
Proof. ledger_grow ki. Qed.

Lemma ledger_hold_state bs kh ki ks l :
  ledger_is true bs kh ki ks l -> ledger_is true bs kh ki (S ks) (HState ks :: l).
Proof. ledger_grow ks. Qed.

(** [cleanup] before the strategies exist: what may stay is a structure that is
    not yet in the array. *)
Lemma cleanup_loading n g k kh ki l :
  functions g = Some (prefix k n) -> handles g = Some (prefix kh n) -> strategies g = None ->
  (kh <= n)%nat -> ledger_is true false kh ki 0 (held g) -> cleanup g = Some l ->
  forall x, x ∈ l -> exists i, x = HImpl i /\ (k <= i < ki)%nat.
Proof.
  intros Hf Hh Hs Hk Hl. unfold cleanup. rewrite Hf, Hs, Hh. cbn [mbind option_bind].
  intros [= <-] x. rewrite elem_of_drop_one. intros [Hx1 Hx].
  unfold prefix at 2 in Hx. apply elem_of_close_handles in Hx as [Hx Hx2].
  apply elem_of_drop_one in Hx as [Hx3 Hx]. apply elem_of_free_all in Hx as [Hx Hx4].
  apply Hl in Hx. destruct x as [| | |i|i|i]; try done; [exfalso; apply (Hx2 i); [lia|done]| |lia].
  exists i. split; [done|]. split; [|done]. destruct (decide (i < k)%nat); [|lia].
  destruct (Hx4 i); [|done]. by apply prefix_lookup.
Qed.

Lemma cleanup_running n g ks l :
  functions g = Some (prefix n n) -> handles g = Some (prefix n n) ->
  strategies g = Some (prefix ks n) -> ledger_is true true n n ks (held g) ->
  cleanup g = Some l -> l = [].
Proof.
  intros Hf Hh Hs Hl. unfold cleanup. rewrite Hf, Hs, Hh, prefix_full. cbn [mbind option_bind].
  intros [= <-]. apply elem_of_nil_inv. intros x. rewrite elem_of_drop_one. intros [Hx1 Hx].
  unfold prefix at 3 in Hx. apply elem_of_close_handles in Hx as [Hx Hx2].
  apply elem_of_drop_one in Hx as [Hx3 Hx]. apply elem_of_free_all in Hx as [Hx Hx4].
  apply elem_of_drop_one in Hx as [Hx5 Hx]. apply elem_of_free_all in Hx as [Hx Hx6].
  apply Hl in Hx. destruct x as [| | |i|i|i]; try done.
  - exfalso. apply (Hx2 i); [lia|done].
  - by destruct (Hx4 i); [apply prefix_lookup|].
  - by destruct (Hx6 i); [apply prefix_lookup|].
Qed.

Lemma cleanup_total g :
  (forall fs ss, functions g = Some fs -> strategies g = Some ss -> forallb id fs = true) ->
  exists l, cleanup g = Some l.
Proof.
  intros H. unfold cleanup. destruct (functions g) as [fs|], (strategies g) as [ss|];
    cbn [mbind option_bind]; eauto. rewrite (H fs ss) by done. cbn [mbind option_bind]. eauto.
Qed.

Lemma leave_loading status n g k kh ki o :
  functions g = Some (prefix k n) -> handles g = Some (prefix kh n) -> strategies g = None ->
  (kh <= n)%nat -> ledger_is true false kh ki 0 (held g) -> leave status g = o ->
  exists l, o = Some (status, l) /\ forall x, x ∈ l -> exists i, x = HImpl i /\ (k <= i < ki)%nat.
Proof.
  intros Hf Hh Hs Hk Hl Ho. destruct (cleanup_total g) as [l E].
  { intros fs ss _ Hss. by rewrite Hs in Hss. }
  exists l. unfold leave in Ho. rewrite E in Ho. split; [by rewrite <- Ho|].
  by eapply cleanup_loading.
Qed.

Lemma cleanup_start n :
  cleanup (GuessGame n (Some (replicate n false)) None None [HFunctions]) = Some [].
Proof.
  unfold cleanup. cbn [functions strategies handles held mbind option_bind].
  assert (free_all HImpl (replicate n false) [HFunctions] = [HFunctions]) as ->; [|done].
  unfold free_all. generalize (seq 0 (length (replicate n false))).
  induction l as [|i l IH]; [done|]. simpl.
  destruct (replicate n false !! i) eqn:Ei; [|done]. by apply lookup_replicate in Ei as [-> _].
Qed.

Section Loading.
Context (fails : gcall -> bool) (n : nat).

(** [init_libraries] from library [k] on. *)
Lemma init_libraries_ledger args : forall k g,
  (k + length args)%nat = n -> Forall (fun a => lib_bytes a <= BUFFER_LENGTH) args ->
  functions g = Some (prefix k n) -> handles g = Some (prefix k n) -> strategies g = None ->
  ledger_is true false k k 0 (held g) ->
  (exists g', init_libraries fails k args g = Some (inr g') /\
     functions g' = Some (prefix n n) /\ handles g' = Some (prefix n n) /\
     strategies g' = None /\ ledger_is true false n n 0 (held g')) \/
  (exists l, init_libraries fails k args g = Some (inl (EXIT_FAILURE, l)) /\
     (exists c, fails c = true) /\
     forall x, x ∈ l -> exists i, x = HImpl i /\ fails (CDlsym i) = true).
Proof.
  induction args as [|a args IH]; intros k g Hn Ha Hf Hh Hs Hl; simpl in *.
  { left. exists g. assert (k = n) as -> by lia. auto. }
  apply Forall_cons in Ha as [Ha1 Ha]. rewrite (proj2 (Z.ltb_ge _ _)) by done.
  assert ((lib_bytes a - 1 <? 0) || (BUFFER_LENGTH <? lib_bytes a - 1) = false) as ->.
  { unfold lib_bytes, BUFFER_LENGTH in *. apply orb_false_intro; lia. }
  destruct (fails (CDlopen k)) eqn:E1.
  { right. edestruct (leave_loading EXIT_FAILURE n g k k k) as (l & -> & Hx); [done..|lia|done|done|].
    exists l. split_and!; [done|eauto|]. intros x Hx'. apply Hx in Hx' as (i & _ & Hi). lia. }
  set (g1 := set_handles k (hold (HHandle k) g)).
  assert (handles g1 = Some (prefix (S k) n)) as Hh1.
  { unfold g1; simpl. rewrite Hh. simpl. by rewrite prefix_set by lia. }
  assert (ledger_is true false (S k) k 0 (held g1)) as Hl1 by (by apply ledger_hold_handle).
  destruct (fails (CMalloc k)) eqn:E2.
  { right. edestruct (leave_loading EXIT_FAILURE n g1 k (S k) k) as (l & -> & Hx); [done..|lia|done|done|].
    exists l. split_and!; [done|eauto|]. intros x Hx'. apply Hx in Hx' as (i & _ & Hi). lia. }
  set (g2 := hold (HImpl k) g1).
  assert (ledger_is true false (S k) (S k) 0 (held g2)) as Hl2 by (by apply ledger_hold_impl).
  destruct (fails (CDlsym k)) eqn:E3.
  { right. edestruct (leave_loading EXIT_FAILURE n g2 k (S k) (S k)) as (l & -> & Hx); [done..|lia|done|done|].
    exists l. split_and!; [done|eauto|]. intros x Hx'. apply Hx in Hx' as (i & -> & Hi).
    exists i. split; [done|]. by replace i with k by lia. }
  apply (IH (S k) (set_functions k g2)); [lia|done| |done|done|done].
  simpl. rewrite Hf. simpl. by rewrite prefix_set by lia.
Qed.

(** The loop of [main] over the strategies from [k] on. *)
Lemma init_strategies_ledger m : forall k g,
  (k + m)%nat = n -> functions g = Some (prefix n n) -> handles g = Some (prefix n n) ->
  strategies g = Some (prefix k n) -> ledger_is true true n n k (held g) ->
  (exists g', init_strategies fails (seq k m) g = Some (inr g') /\
     functions g' = Some (prefix n n) /\ handles g' = Some (prefix n n) /\
     strategies g' = Some (prefix n n) /\ ledger_is true true n n n (held g')) \/
  (init_strategies fails (seq k m) g = Some (inl (EXIT_FAILURE, [])) /\ exists c, fails c = true).
Proof.
  induction m as [|m IH]; intros k g Hn Hf Hh Hs Hl; simpl.
  { left. exists g. assert (k = n) as -> by lia. auto. }
  destruct (fails (CInit k)) eqn:E.
  { right. split; [|eauto]. destruct (cleanup_total g) as [l El].
    { intros fs ss Hfs _. rewrite Hf in Hfs. injection Hfs as <-. apply prefix_full. }
    unfold leave. rewrite El. cbn [mbind option_bind fmap option_fmap option_map].
    by rewrite (cleanup_running n g k l). }
  apply IH; [lia|done|done| |by apply ledger_hold_state].
  simpl. rewrite Hs. simpl. by rewrite prefix_set by lia.
Qed.
End Loading.

(* ------------------------------------------------------------------ *)
(** ** Properties *)

(** C22: every way out of [main] closes the libraries and frees what it allocated,
    whichever calls fail, except that the structure of a library without the
    four symbols is leaked; [main] succeeds when no call fails.  The names must
    fit the buffer of [init_libraries]. *)
Theorem guess_main_cleanup fails args :
  args <> [] -> Forall (fun a => lib_bytes a <= BUFFER_LENGTH) args ->
  exists status l, guess_main fails args = Some (status, l) /\
    (forall x, x ∈ l -> exists i, x = HImpl i /\ fails (CDlsym i) = true) /\
    (status = EXIT_SUCCESS -> l = []) /\
    ((forall c, fails c = false) -> status = EXIT_SUCCESS).
Proof.
  intros Hne Hargs. unfold guess_main. cbv zeta. set (n := length args).
  destruct (Nat.eqb_spec n 0) as [E|E]; [by apply nil_length_inv in E|].
  destruct (fails CFunctions) eqn:E1.
  { exists EXIT_FAILURE, []. split_and!; [done|set_solver|done|]. intros Hc. by rewrite Hc in E1. }
  destruct (fails CHandles) eqn:E2.
  { exists EXIT_FAILURE, []. split_and!; [|set_solver|done|]; [|intros Hc; by rewrite Hc in E2].
    unfold leave. rewrite cleanup_start. done. }
  simpl functions. simpl held. rewrite <- (prefix_0 n).
  destruct (init_libraries_ledger fails n args 0
    (GuessGame n (Some (prefix 0 n)) (Some (prefix 0 n)) None [HHandles; HFunctions]))
    as [(g & -> & Hf & Hh & Hs & Hl) | (l & -> & (c & Hc) & Hx)]; try done.
  { intros []; set_unfold; naive_solver lia. }
  2: { exists EXIT_FAILURE, l. split_and!; [done..|]. intros Hall. by rewrite Hall in Hc. }
  cbn [mbind option_bind]. destruct (fails CStrategies) eqn:E3.
  { destruct (leave_loading EXIT_FAILURE n g n n n (leave EXIT_FAILURE g)) as (l & -> & Hx); [done..|].
    exists EXIT_FAILURE, l. split_and!; [done| |done|]; [|intros Hc; by rewrite Hc in E3].
    intros x Hx'. apply Hx in Hx' as (i & _ & Hi). lia. }
  destruct (init_strategies_ledger fails n n 0
    (GuessGame n (functions g) (handles g) (Some (prefix 0 n)) (HStrategies :: held g)))
    as [(g' & Hg & Hf' & Hh' & Hs' & Hl') | (Hg & (c & Hc))]; try done.
  { unfold ledger_is. cbn [held]. intros x. rewrite elem_of_cons, (Hl x). destruct x; naive_solver. }
  - simpl in *. rewrite Hg. cbn [mbind option_bind].
    destruct (cleanup_total g') as [l El].
    { intros fs ss Hfs _. rewrite Hf' in Hfs. injection Hfs as <-. apply prefix_full. }
    unfold leave. rewrite El. rewrite (cleanup_running n g' n l) by done.
    exists EXIT_SUCCESS, []. split_and!; [done|set_solver|done|done].
  - simpl in *. rewrite Hg. cbn [mbind option_bind]. exists EXIT_FAILURE, [].
    split_and!; [done|set_solver|done|]. intros Hall. by rewrite Hall in Hc.
Qed.

(** A library without the symbols, as the second of two. *)
Lemma guess_main_cleanup_witness :
  exists status l,
    guess_main (fun c => match c with CDlsym 1 => true | _ => false end) ["linear"; "broken"]
      = Some (status, l) /\
    (forall x, x ∈ l -> exists i, x = HImpl i /\
       (fun c => match c with CDlsym 1 => true | _ => false end) (CDlsym i) = true).
Proof.
  destruct (guess_main_cleanup (fun c => match c with CDlsym 1 => true | _ => false end)
    ["linear"; "broken"]) as (status & l & H1 & H2 & _).
  - discriminate.
  - repeat constructor; vm_compute; discriminate.
  - exists status, l. split; [exact H1 | exact H2].
Defined.

(** The leaked structure. *)
Example dlsym_failure_leaks :
  guess_main (fun c => match c with CDlsym 1 => true | _ => false end) ["linear"; "broken"]
    = Some (EXIT_FAILURE, [HImpl 1]).
Proof. reflexivity. Qed.

(** A name of 74 characters: the 81 bytes of ["lib%s.so"] do not fit the buffer
    of 80, and the test that follows accepts the 80 characters written. *)
Example long_name_overflows :
  let name := String.concat "" (replicate 74 "x") in
  lib_bytes name - 1 = BUFFER_LENGTH /\ guess_main (fun _ => false) [name] = None.
Proof. split; reflexivity. Qed.
