(* ===== verification/Id.v ===== *)
(** [hw05]: the [id] program ([id.c], [utils.c]).  The user and group databases,
    the ids of the process and the outcome of allocations are parameters; a
    result [None] is undefined behaviour (a null pointer printed or followed). *)

From S2P Require Import Prelude CLib.
From Stdlib Require Import Ascii.

Open Scope string_scope.
Open Scope Z_scope.

(** [struct passwd] and [struct group], the fields the program reads. *)
Record passwd := Passwd { pw_name : string; pw_uid : Z; pw_gid : Z }.
Record group_entry := GroupEntry { gr_name : string; gr_gid : Z }.

(** [struct program_options] *)
Record program_options := Options {
  group : bool; groups : bool; name : bool; real : bool; user : bool;
}.
Definition no_options : program_options := Options false false false false false.

(** [print_options], which the program defines for debugging. *)
Definition print_options (o : program_options) : string :=
  let line name (b : bool) := name +:+ ":" +:+ tab +:+ dec (if b then 1 else 0) +:+ nl in
  line "Group" (group o) +:+ line "Groups" (groups o) +:+ line "Name" (name o) +:+
  line "Real" (real o) +:+ line "User" (user o).

(** [struct name_id] and [struct id_data] *)
Record name_id := NameId { id_real : Z; id_effective : Z; id_name : option string }.
Record id_data := IdData {
  user_data : name_id; group_data : name_id; groups_data : list name_id;
}.

(* ------------------------------------------------------------------ *)
(** ** Options *)

(** An option as written on the command line. *)
Inductive opt_arg := Short (c : ascii) | Long (n : string).

Definition optstring : list ascii := ["g"; "G"; "n"; "r"; "u"; "h"; "v"]%char.

Definition longopts : list (string * ascii) :=
  [("version", "h"%char); ("help", "v"%char); ("group", "g"%char); ("groups", "G"%char);
   ("name", "n"%char); ("real", "r"%char); ("user", "u"%char)].

Fixpoint find_long (n : string) (l : list (string * ascii)) : option ascii :=
  match l with
  | (m, c) :: l => if bool_decide (n = m) then Some c else find_long n l
  | [] => None
  end.

(** What [getopt_long] returns for an option, with the tables of the program. *)
Definition getopt_long (a : opt_arg) : ascii :=
  match a with
  | Short c => if bool_decide (c ∈ optstring) then c else "?"%char
  | Long n => default "?"%char (find_long n longopts)
  end.

Definition help : string :=
  "Usage: id [OPTION] [USER...]" +:+ nl +:+
  "Print user and group information for the specified USER," +:+ nl +:+
  "or (when USER omitted) for the current user." +:+ nl +:+ nl +:+
  "  -g, --group    print only the effective group ID" +:+ nl +:+
  "  -G, --groups   print all group IDs" +:+ nl +:+
  "  -n, --name     print a name instead of a number, for -ugG" +:+ nl +:+
  "  -r, --real     print the real ID instead of the effective ID, with -ugG" +:+ nl +:+
  "  -u, --user     print only the effective user ID" +:+ nl +:+
  "      --help     display this help and exit" +:+ nl +:+
  "      --version  output version information and exit" +:+ nl +:+ nl +:+
  "Without any OPTION, print some useful set of identified information." +:+ nl.

Definition version : string := "id 1.0" +:+ nl.

(** The [switch] of [main]: the end of the program, or the new options. *)
Definition option_step (o : program_options) (c : ascii) : (Z * list output) + program_options :=
  let '(Options g gs n r u) := o in
  if bool_decide (c = "h"%char) then inl (EXIT_SUCCESS, [Stdout help])
  else if bool_decide (c = "v"%char) then inl (EXIT_SUCCESS, [Stdout version])
  else if bool_decide (c = "g"%char) then inr (Options true gs n r u)
  else if bool_decide (c = "G"%char) then inr (Options g true n r u)
  else if bool_decide (c = "n"%char) then inr (Options g gs true r u)
  else if bool_decide (c = "r"%char) then inr (Options g gs n true u)
  else if bool_decide (c = "u"%char) then inr (Options g gs n r true)
  else inl (EXIT_FAILURE, [Stdout help]).

Fixpoint parse_options (opts : list opt_arg) (o : program_options) :
    (Z * list output) + program_options :=
  match opts with
  | [] => inr o
  | a :: opts =>
      match option_step o (getopt_long a) with
      | inl e => inl e
      | inr o => parse_options opts o
      end
  end.

Definition selected (o : program_options) : nat := (b2n (group o) + b2n (groups o) + b2n (user o))%nat.

(** The two checks of [main] on the options. *)
Definition check_options (o : program_options) : option string :=
  if (1 <? selected o)%nat then
    Some ("You can't set parameters -u, -g, -G in parallel" +:+ nl)
  else if (selected o =? 0)%nat && (real o || name o) then
    Some ("Can't use name or real ID in default mode" +:+ nl)
  else None.

(* ------------------------------------------------------------------ *)
(** ** Printing *)

(** [%d] of an unsigned id. *)
Definition fmt_id (x : Z) : string := dec (s32 x).

Definition proper_print (effective real_ : Z) (name_ : option string) (o : program_options) :
    option string :=
  if name o then name_ else Some (fmt_id (if real o then real_ else effective)).

Definition print_one (o : program_options) (x : name_id) : option string :=
  proper_print (id_effective x) (id_real x) (id_name x) o.

(** ["%d(%s)"]: a null name is undefined. *)
Definition id_and_name (id : Z) (name_ : option string) : option string :=
  n ← name_; Some (fmt_id id +:+ "(" +:+ n +:+ ")").

(** The strings of a list, if none is undefined, one after the other. *)
Definition concat_opt (l : list (option string)) : option string :=
  foldr (fun s acc => s ← s; acc ← acc; Some (s +:+ acc)) (Some "") l.

Section Id.
Context (getpwuid : Z -> option passwd) (getpwnam : string -> option passwd).
Context (getgrgid : Z -> option group_entry) (getgrouplist : string -> Z -> list Z).

(** [print_data(data, length, options)], where [length] is that of the groups;
    [length - 1] of no groups is a huge bound, beyond the array. *)
Definition print_data (d : id_data) (o : program_options) : option string :=
  let print_all := (selected o =? 0)%nat in
  let all_but_last := take (length (groups_data d) - 1) (groups_data d) in
  user_part ← (if print_all then s ← id_and_name (id_real (user_data d)) (id_name (user_data d));
                                 Some ("uid=" +:+ s +:+ " ")
               else if user o then print_one o (user_data d) else Some "");
  group_part ← (if print_all then s ← id_and_name (id_real (group_data d)) (id_name (group_data d));
                                  Some ("gid=" +:+ s +:+ " ")
                else if group o then print_one o (group_data d) else Some "");
  groups_part ←
    (if print_all || groups o then
       let euid :=
         if print_all then
           (if id_real (user_data d) =? id_effective (user_data d) then "" else
            "euid=" +:+ fmt_id (id_effective (user_data d)) +:+ "(" +:+
            match getpwuid (id_effective (user_data d)) with Some e => pw_name e | None => "" end
            +:+ ") ") +:+ "groups="
         else "" in
       last_group ← last (groups_data d);
       front ← concat_opt ((fun x => s ← (if print_all then id_and_name (id_real x) (id_name x)
                                          else print_one o x);
                                     Some (s +:+ if print_all then ", " else " ")) <$> all_but_last);
       back ← (if print_all then id_and_name (id_effective last_group) (id_name last_group)
               else print_one o last_group);
       Some (euid +:+ front +:+ back)
     else Some "");
  Some (user_part +:+ group_part +:+ groups_part +:+ nl).

(** The loops that look up the groups.  For the process a missing group is
    followed all the same ([gsinfo->gr_gid]), which is undefined. *)
Fixpoint process_groups (ids : list Z) : option (list name_id) :=
  match ids with
  | [] => Some []
  | gid :: ids =>
      gsinfo ← getgrgid gid;
      rest ← process_groups ids;
      Some (NameId (gr_gid gsinfo) (gr_gid gsinfo) (Some (gr_name gsinfo)) :: rest)
  end.

(** [groups_ids] after the search for the effective group. *)
Definition with_effective (egid : Z) (ids : list Z) : list Z :=
  if bool_decide (egid ∈ ids) then ids else (ids ++ [egid])%list.

(** [get_process_info(options)] for a process with these ids, when the system
    calls and the allocations succeed: what it prints. *)
Definition get_process_info (ruid euid rgid egid : Z) (ids : list Z) (o : program_options) :
    option string :=
  let u := NameId ruid euid (pw_name <$> getpwuid ruid) in
  let g := NameId rgid egid (gr_name <$> getgrgid rgid) in
  gs ← process_groups (with_effective egid ids);
  print_data (IdData u g gs) o.

(** The loop of [get_user_info]: a missing group ends the program. *)
Fixpoint user_groups (ids : list Z) : option (list name_id) :=
  match ids with
  | [] => Some []
  | gid :: ids =>
      gsinfo ← getgrgid gid;
      rest ← user_groups ids;
      Some (NameId (gr_gid gsinfo) (gr_gid gsinfo) (Some (gr_name gsinfo)) :: rest)
  end.

(** The user an operand names; [inl] is the message before [exit]. *)
Definition find_user (user_name : string) : string + passwd :=
  let p := strtol user_name 10 in
  let uid := s32 (st_value p) in
  if negb (st_conv p) then
    match getpwnam user_name with
    | Some u => inr u
    | None => inl ("getpwnam failed" +:+ nl)
    end
  else if bool_decide (st_rest p = "") then
    match getpwuid (u32 uid) with
    | Some u => inr u
    | None => inl ("getpwuid failed" +:+ nl)
    end
  else inl ("Invalid user name / user id" +:+ nl).

(** [get_user_info(user_name, options)]: [inl] is the message before
    [exit(EXIT_FAILURE)], [inr] what it prints. *)
Definition get_user_info (user_name : string) (o : program_options) : option (string + string) :=
  match find_user user_name with
  | inl e => Some (inl e)
  | inr uinfo =>
      match getgrgid (pw_gid uinfo) with
      | None => Some (inl ("getgrgid failed" +:+ nl))
      | Some ginfo =>
          let u := NameId (pw_uid uinfo) (pw_uid uinfo) (Some (pw_name uinfo)) in
          let g := NameId (gr_gid ginfo) (gr_gid ginfo) (Some (gr_name ginfo)) in
          match user_groups (getgrouplist (pw_name uinfo) (pw_gid uinfo)) with
          | None => Some (inl "getgrgid failed")
          | Some gs => s ← print_data (IdData u g gs) o; Some (inr s)
          end
      end
  end.

(** The loop of [main] over the operands. *)
Fixpoint print_users (users : list string) (o : program_options) : option (Z * list output) :=
  match users with
  | [] => Some (EXIT_SUCCESS, [])
  | u :: users =>
      r ← get_user_info u o;
      match r with
      | inl e => Some (EXIT_FAILURE, [Stderr e])
      | inr s => '(status, out) ← print_users users o; Some (status, Stdout s :: out)
      end
  end.

(** [main]: the options, the operands and the ids of the process. *)
Definition id_main (opts : list opt_arg) (users : list string)
    (ruid euid rgid egid : Z) (ids : list Z) : option (Z * list output) :=
  match parse_options opts no_options with
  | inl e => Some e
  | inr o =>
      match check_options o with
      | Some e => Some (EXIT_FAILURE, [Stderr e])
      | None =>
          match users with
          | [] => s ← get_process_info ruid euid rgid egid ids o; Some (EXIT_SUCCESS, [Stdout s])
          | _ => print_users users o
          end
      end
  end.
End Id.

(* ------------------------------------------------------------------ *)
(** ** Lemmas *)

Definition flags : list ascii := ["g"; "G"; "n"; "r"; "u"]%char.

Definition has (c : ascii) (opts : list opt_arg) : bool :=
  existsb (fun a => bool_decide (getopt_long a = c)) opts.

Definition or_flags (o : program_options) (opts : list opt_arg) : program_options :=
  Options (group o || has "g" opts) (groups o || has "G" opts) (name o || has "n" opts)
          (real o || has "r" opts) (user o || has "u" opts).

(** One option: it sets its flag, or ends the program. *)
Lemma option_step_spec o a :
  (getopt_long a ∈ flags /\ option_step o (getopt_long a) = inr (or_flags o [a])) \/
  (getopt_long a ∉ flags /\ exists e, option_step o (getopt_long a) = inl e).
Proof.
  destruct o as [g gs n r u]. unfold option_step, or_flags, has. simpl.
  generalize (getopt_long a). intros c.
  destruct (decide (c ∈ flags)) as [Hc|Hc]; [left | right]; (split; [done|]).
  - unfold flags in Hc. set_unfold. destruct_or! Hc; subst; simpl; by rewrite ?orb_false_r, ?orb_true_r.
  - unfold flags in Hc. set_unfold. repeat (case_bool_decide; [naive_solver|]). naive_solver.
Qed.

Lemma or_flags_cons o a opts : or_flags (or_flags o [a]) opts = or_flags o (a :: opts).
Proof.
  unfold or_flags, has. cbn [existsb group groups name real user].
  by rewrite !orb_false_r, !orb_assoc.
Qed.

Lemma parse_options_spec opts : forall o o',
  parse_options opts o = inr o' <->
  Forall (fun a => getopt_long a ∈ flags) opts /\ o' = or_flags o opts.
Proof.
  induction opts as [|a opts IH]; intros o o'; simpl.
  - split; [intros [= <-]; split; [done|] | intros [_ ->]]; destruct o; unfold or_flags; simpl;
      by rewrite !orb_false_r.
  - rewrite Forall_cons. destruct (option_step_spec o a) as [[Ha ->] | [Ha [e ->]]].
    + rewrite IH, or_flags_cons. naive_solver.
    + naive_solver.
Qed.

Lemma concat_opt_some {A} (f : A -> option string) (g : A -> string) l :
  (forall x, x ∈ l -> f x = Some (g x)) -> concat_opt (f <$> l) = Some (String.concat "" (g <$> l)).
Proof.
  induction l as [|x l IH]; intros H; [done|]. unfold concat_opt in *. rewrite !fmap_cons. cbn [foldr].
  rewrite IH by set_solver. rewrite H by set_solver. simpl.
  destruct (g <$> l) eqn:E; simpl; [by rewrite append_nil_r|done].
Qed.

Lemma process_groups_ids getgrgid ids :
  (forall gid, gid ∈ ids -> exists g, getgrgid gid = Some g /\ gr_gid g = gid) ->
  exists gs, process_groups getgrgid ids = Some gs /\ id_effective <$> gs = ids /\ id_real <$> gs = ids.
Proof.
  induction ids as [|i ids IH]; intros H; simpl; [by exists []|].
  destruct (H i) as (g & Hg & Hi); [set_solver|]. rewrite Hg. simpl.
  destruct IH as (gs & -> & H1 & H2); [set_solver|]. simpl. eexists. split; [reflexivity|].
  rewrite !fmap_cons. simpl. by rewrite H1, H2, Hi.
Qed.

Lemma process_groups_none getgrgid ids :
  (exists gid, gid ∈ ids /\ getgrgid gid = None) -> process_groups getgrgid ids = None.
Proof.
  induction ids as [|i ids IH]; intros (gid & Hin & Hn); simpl; [set_solver|].
  apply elem_of_cons in Hin as [<- | Hin]; [by rewrite Hn|].
  destruct (getgrgid i); [|done]. simpl. by rewrite IH by eauto.
Qed.

(** [-G] prints the ids separated by spaces. *)
Fixpoint join (sep : string) (l : list string) : string :=
  match l with
  | [] => ""
  | [x] => x
  | x :: l => x +:+ sep +:+ join sep l
  end.

Lemma join_snoc sep l x :
  join sep (l ++ [x])%list = String.concat "" ((fun y => y +:+ sep) <$> l) +:+ x.
Proof.
  induction l as [|y l IH]; [done|]. rewrite fmap_cons.
  assert (join sep ((y :: l) ++ [x])%list = y +:+ sep +:+ join sep (l ++ [x])%list) as ->
    by (destruct l; done).
  rewrite IH. destruct l as [|z l]; simpl; [by rewrite append_assoc_s|].
  by rewrite !append_assoc_s.
Qed.

(* ------------------------------------------------------------------ *)
(** ** Properties *)

(** The options are accepted exactly when each of them, short or long, is
    one of the five flags; then a flag is set when one of the options says so,
    whatever their order or repetition. *)
Theorem id_options opts o :
  parse_options opts no_options = inr o <->
  Forall (fun a => getopt_long a ∈ flags) opts /\
  o = Options (has "g" opts) (has "G" opts) (has "n" opts) (has "r" opts) (has "u" opts).
Proof. apply parse_options_spec. Qed.

(** [id -G] prints the supplementary groups of the process and, at the end if
    it is not among them, its effective group, separated by spaces; it follows a
    null pointer when one of these groups has no entry in the group database. *)
Theorem id_groups getpwuid getgrgid ruid euid rgid egid ids :
  egid ∈ with_effective egid ids /\
  ((forall gid, gid ∈ with_effective egid ids -> exists g, getgrgid gid = Some g /\ gr_gid g = gid) ->
   get_process_info getpwuid getgrgid ruid euid rgid egid ids (Options false true false false false) =
     Some (join " " (fmt_id <$> with_effective egid ids) +:+ nl)) /\
  ((exists gid, gid ∈ with_effective egid ids /\ getgrgid gid = None) ->
   forall o, get_process_info getpwuid getgrgid ruid euid rgid egid ids o = None).
Proof.
  split_and!.
  - unfold with_effective. case_bool_decide; [done|]. set_solver.
  - intros Hg. unfold get_process_info.
    destruct (process_groups_ids getgrgid _ Hg) as (gs & -> & Heff & Hreal). cbn [mbind option_bind].
    unfold print_data. simpl selected. simpl Nat.eqb. cbn [user group groups groups_data mbind option_bind orb].
    assert (exists init x, gs = (init ++ [x])%list) as (l & x & ->).
    { destruct gs as [|x gs] using rev_ind; [|eauto]. exfalso. simpl in Heff.
      unfold with_effective in Heff. case_bool_decide as E; [rewrite <- Heff in E; set_solver|].
      by destruct ids. }
    rewrite last_snoc, length_app. simpl length. rewrite Nat.add_sub, take_app_length.
    cbn [mbind option_bind].
    rewrite (concat_opt_some _ (fun x => fmt_id (id_effective x) +:+ " ")).
    2: { intros y _. done. }
    simpl. f_equal. rewrite <- Heff, <- list_fmap_compose, fmap_app. simpl. rewrite join_snoc.
    rewrite <- list_fmap_compose, !append_assoc_s. done.
  - intros Hn o. unfold get_process_info. by rewrite process_groups_none.
Qed.

(** A decimal number as operand is looked up as a user id reduced modulo
    2^32, so that the user printed for 4294967296 is the one with id 0; a word
    that does not start like a number is looked up as a name. *)
Theorem id_find_user getpwuid getpwnam n s :
  0 <= n <= LONG_MAX ->
  find_user getpwuid getpwnam (dec n) =
    match getpwuid (n mod 2 ^ 32) with
    | Some u => inr u
    | None => inl ("getpwuid failed" +:+ nl)
    end /\
  (st_conv (strtol s 10) = false ->
   find_user getpwuid getpwnam s =
     match getpwnam s with Some u => inr u | None => inl ("getpwnam failed" +:+ nl) end).
Proof.
  intros Hn. unfold find_user. split.
  - rewrite strtol_dec by (unfold LONG_MIN; lia). simpl.
    assert (u32 (s32 n) = n mod 2 ^ 32) as ->; [|done].
    unfold u32, s32, swrap, wrap. case_match; [by rewrite Zmod_mod|].
    rewrite Zminus_mod, Z_mod_same_full, Z.sub_0_r, !Zmod_mod. done.
  - intros E. by rewrite E.
Qed.

(** What [id -u] prints for the process: the effective id, the real id with
    [-r], and with [-n] always the name of the real user. *)
Theorem id_user_modes getpwuid getgrgid ruid euid rgid egid ids r u :
  (forall gid, gid ∈ with_effective egid ids -> is_Some (getgrgid gid)) ->
  getpwuid ruid = Some u ->
  get_process_info getpwuid getgrgid ruid euid rgid egid ids (Options false false false r true) =
    Some (fmt_id (if r then ruid else euid) +:+ nl) /\
  get_process_info getpwuid getgrgid ruid euid rgid egid ids (Options false false true r true) =
    Some (pw_name u +:+ nl).
Proof.
  intros Hg Hu. unfold get_process_info. rewrite Hu.
  assert (exists gs, process_groups getgrgid (with_effective egid ids) = Some gs) as [gs ->].
  { clear Hu. induction (with_effective egid ids) as [|i l IH]; simpl; [eauto|].
    destruct (Hg i) as [g Hi]; [set_solver|]. rewrite Hi. simpl.
    destruct IH as [gs ->]; [set_solver|]. simpl. eauto. }
  unfold print_data. simpl. by destruct r.
Qed.

(* ------------------------------------------------------------------ *)
(** ** The properties at a concrete system *)

Definition demo_passwd (uid : Z) : option passwd :=
  if uid =? 0 then Some (Passwd "root" 0 0)
  else if uid =? 1000 then Some (Passwd "alice" 1000 100) else None.

Definition demo_group (gid : Z) : option group_entry :=
  if gid =? 0 then Some (GroupEntry "root" 0)
  else if gid =? 100 then Some (GroupEntry "users" 100) else None.

Lemma id_user_modes_witness :
  get_process_info demo_passwd demo_group 1000 0 100 0 [100] (Options false false true false true) =
    Some ("alice" +:+ nl).
Proof.
  refine (proj2 (id_user_modes demo_passwd demo_group 1000 0 100 0 [100] false
    (Passwd "alice" 1000 100) _ _)); [|reflexivity].
  intros gid Hg. vm_compute in Hg. apply elem_of_cons in Hg as [-> | Hg]; [by eexists|].
  apply elem_of_cons in Hg as [-> | Hg]; [by eexists|]. by apply not_elem_of_nil in Hg.
Defined.

Lemma id_find_user_witness :
  find_user demo_passwd (fun _ => None) (dec 4294967296) = inr (Passwd "root" 0 0).
Proof.
  apply (id_find_user demo_passwd (fun _ => None) 4294967296 ""). unfold LONG_MAX. lia.
Defined.

(** [--help] prints the version, and [--version] the help. *)
Example help_and_version_swapped :
  parse_options [Long "help"] no_options = inl (EXIT_SUCCESS, [Stdout version]) /\
  parse_options [Long "version"] no_options = inl (EXIT_SUCCESS, [Stdout help]).
Proof. split; reflexivity. Qed.

(** The default output. *)
Example id_default :
  id_main demo_passwd (fun _ => None) demo_group (fun _ _ => []) [] [] 1000 0 100 0 [100] =
  Some (EXIT_SUCCESS,
    [Stdout ("uid=1000(alice) gid=100(users) euid=0(root) groups=100(users), 0(root)" +:+ nl)]).
Proof. reflexivity. Qed.

Lemma id_groups_witness :
  get_process_info demo_passwd demo_group 1000 1000 100 0 [100] (Options false true false false false) =
    Some (join " " (fmt_id <$> [100; 0]) +:+ nl).
Proof.
  refine (proj1 (proj2 (id_groups demo_passwd demo_group 1000 1000 100 0 [100])) _).
  intros gid Hg. vm_compute in Hg. apply elem_of_cons in Hg as [-> | Hg]; [by eexists|].
  apply elem_of_cons in Hg as [-> | Hg]; [by eexists|]. by apply not_elem_of_nil in Hg.
Defined.
