(* ===== verification/IdMemory.v ===== *)
(** [hw05/utils.c]: the blocks that [get_process_info] and [get_user_info] allocate, with
    every allocation that can fail. What is looked up and printed is in [Id]. *)

From S2P Require Import Prelude.
From stdpp Require Import gmap.

Open Scope Z_scope.

(** The live blocks, the next address, and what the coming allocations answer: [true]
    when the list is empty. A pointer is null or a block. *)
Record mem := Mem { live : gset nat; next : nat; answers : list bool }.
Abbreviation pointer := (option nat).

Definition alloc (m : mem) : pointer * mem :=
  match answers m with
  | false :: l => (None, Mem (live m) (next m) l)
  | l => (Some (next m), Mem ({[next m]} ∪ live m) (S (next m)) (tail l))
  end.

(** [free]; [None] is a block that is not live. *)
Definition free (p : pointer) (m : mem) : option mem :=
  match p with
  | None => Some m
  | Some b => if decide (b ∈ live m) then Some (Mem (live m ∖ {[b]}) (next m) (answers m)) else None
  end.

Definition is_null (p : pointer) : bool := match p with None => true | Some _ => false end.

(** The part of [struct id_data] that owns memory: the name of the group, and the array
    with the names of the groups, once it is there. *)
Record id_data := IdData { group_name : pointer; groups_data : option (nat * list pointer) }.

Fixpoint free_names (names : list pointer) (m : mem) : option mem :=
  match names with [] => Some m | p :: names => m ← free p m; free_names names m end.

Definition free_memory (data : id_data) (m : mem) : option mem :=
  m ← free (group_name data) m;
  match groups_data data with
  | None => Some m
  | Some (a, names) => m ← free_names names m; free (Some a) m
  end.

(** A function returns, or ends the program. *)
Inductive outcome := Returns (m : mem) | Exits (status : Z) (m : mem).
Definition memory (o : outcome) : mem := match o with Returns m | Exits _ m => m end.

Definition exit_failure (m : option mem) : option outcome := m ← m; Some (Exits EXIT_FAILURE m).

(** The loop of [get_process_info]: for each group whether [getgrgid] finds it; a group that
    is not found is followed. [ginfo] tells whether that of the process has been found. *)
Fixpoint process_loop (ginfo : bool) (group_name : pointer) (a ids : nat) (names : list pointer)
    (found : list bool) (m : mem) : option outcome :=
  match found with
  | [] => m ← free (Some ids) m; m ← free_memory (IdData group_name (Some (a, names))) m; Some (Returns m)
  | gsinfo :: found =>
      let '(p, m) := if gsinfo then alloc m else (None, m) in
      if ginfo && is_null group_name then
        m ← free (Some ids) m;
        exit_failure (free_memory (IdData group_name (Some (a, names ++ [p]))) m)
      else if negb gsinfo then None
      else process_loop ginfo group_name a ids (names ++ [p]) found m
  end.

(** [get_process_info]: [ginfo] and [found] as above, [getgroups] whether the call succeeds. *)
Definition process_memory (ginfo getgroups : bool) (found : list bool) (m : mem) : option outcome :=
  let '(name, m) := if ginfo then alloc m else (None, m) in
  if ginfo && is_null name then Some (Exits EXIT_FAILURE m)
  else
    let '(groups_ids, m) := alloc m in
    match groups_ids with
    | None => exit_failure (free name m)
    | Some ids =>
        if negb getgroups then m ← free (Some ids) m; exit_failure (free name m)
        else
          let '(groups_data, m) := alloc m in
          match groups_data with
          | None => m ← free (Some ids) m; exit_failure (free name m)
          | Some a => process_loop ginfo name a ids [] found m
          end
    end.

(** The loop of [get_user_info]: a group that is not found ends the program, with the names
    that have not been looked up still null. *)
Fixpoint user_loop (group_name : pointer) (a ids : nat) (names : list pointer) (found : list bool) (m : mem) :
    option outcome :=
  match found with
  | [] => m ← free (Some ids) m; m ← free_memory (IdData group_name (Some (a, names))) m; Some (Returns m)
  | gsinfo :: found =>
      if negb gsinfo then
        m ← free_memory (IdData group_name (Some (a, names ++ replicate (S (length found)) None))) m;
        exit_failure (free (Some ids) m)
      else
        let '(p, m) := alloc m in
        user_loop group_name a ids (names ++ [p]) found m
  end.

(** [get_user_info]: [user] and [ginfo] tell whether the user and its group are found,
    [positive] whether the first [getgrouplist] has given a number of groups, [getgrouplist]
    whether the second succeeds. *)
Definition user_memory (user ginfo positive getgrouplist : bool) (found : list bool) (m : mem) : option outcome :=
  if negb user || negb ginfo then Some (Exits EXIT_FAILURE m)
  else
    let '(name, m) := alloc m in
    if negb positive then exit_failure (free name m)
    else
      let '(groups_ids, m) := alloc m in
      match groups_ids with
      | None => exit_failure (free name m)
      | Some ids =>
          if negb getgrouplist then m ← free name m; exit_failure (free (Some ids) m)
          else
            let '(groups_data, m) := alloc m in
            match groups_data with
            | None => m ← free (Some ids) m; exit_failure (free name m)
            | Some a => user_loop name a ids [] found m
            end
      end.

(* ------------------------------------------------------------------ *)
(** ** Ownership *)

(** Besides the blocks [L] of the rest of the program exactly the blocks [bs] are live. *)
Record holds (L : gset nat) (bs : list nat) (m : mem) : Prop := {
  holds_distinct : NoDup bs;
  holds_fresh : forall b, b ∈ bs -> b ∉ L;
  holds_live : live m = L ∪ list_to_set bs;
  holds_next : forall b, b ∈ live m -> (b < next m)%nat
}.

Lemma holds_perm L bs bs' m : holds L bs m -> bs ≡ₚ bs' -> holds L bs' m.
Proof.
  intros [Hd Hf Hl Hn] Hp. split; [by rewrite <- Hp|intros b; rewrite <- Hp; apply Hf| |done].
  rewrite Hl. f_equal. by apply list_to_set_perm_L.
Qed.

Lemma alloc_holds L bs m p m' : alloc m = (p, m') -> holds L bs m -> holds L (option_list p ++ bs) m'.
Proof.
  unfold alloc. intros H [Hd Hf Hl Hn].
  assert (next m ∉ live m) as Hnew by (intros ?%Hn; lia).
  destruct (answers m) as [|[] l]; injection H as <- <-; (split; simpl; [..|set_solver by lia]); try done;
    try (constructor; set_solver); set_solver.
Qed.

Lemma free_holds L bs p m : holds L (option_list p ++ bs) m -> exists m', free p m = Some m' /\ holds L bs m'.
Proof.
  intros H. destruct p as [b|]; [|by eexists]. destruct H as [Hd Hf Hl Hn]. simpl in *.
  destruct (decide (b ∈ live m)) as [|Hb]; [|set_solver]. eexists. split; [reflexivity|].
  apply NoDup_cons in Hd as [Hb Hd]. split; simpl; [done|set_solver|set_solver|set_solver].
Qed.

Lemma free_names_holds L names : forall bs m, holds L (omap id names ++ bs) m ->
  exists m', free_names names m = Some m' /\ holds L bs m'.
Proof.
  induction names as [|p names IH]; intros bs m H; simpl; [by eexists|].
  destruct (free_holds L (omap id names ++ bs) p m) as (m1 & -> & H1); [by destruct p|]. simpl. by apply IH.
Qed.

(** The blocks that [free_memory] frees. *)
Definition owned (data : id_data) : list nat :=
  option_list (group_name data) ++
  match groups_data data with Some (a, names) => omap id names ++ [a] | None => [] end.

Lemma free_memory_holds L data bs m : holds L (owned data ++ bs) m ->
  exists m', free_memory data m = Some m' /\ holds L bs m'.
Proof.
  unfold owned, free_memory. intros H. rewrite <- app_assoc in H.
  destruct (free_holds _ _ _ _ H) as (m1 & -> & H1). simpl. destruct (groups_data data) as [[a names]|]; [|by eexists].
  rewrite <- app_assoc in H1. destruct (free_names_holds _ _ _ _ H1) as (m2 & -> & H2). simpl.
  by apply (free_holds _ _ (Some a)).
Qed.

(** The function has ended without undefined behaviour and has kept nothing. *)
Definition clean (L : gset nat) (o : option outcome) : Prop := exists r, o = Some r /\ holds L [] (memory r).

Lemma exit_clean L m m' : m = Some m' -> holds L [] m' -> clean L (exit_failure m).
Proof. intros -> H. by eexists. Qed.

Lemma free_clean L p m : holds L (option_list p) m -> clean L (exit_failure (free p m)).
Proof.
  intros H. destruct (free_holds L [] p m) as (m' & Hm & H'); [by rewrite app_nil_r|]. by eapply exit_clean.
Qed.

Lemma free_memory_clean L data m : holds L (owned data) m -> clean L (exit_failure (free_memory data m)).
Proof.
  intros H. destruct (free_memory_holds L data [] m) as (m' & Hm & H'); [by rewrite app_nil_r|]. by eapply exit_clean.
Qed.

Lemma omap_null names k : omap id (names ++ replicate k (@None nat)) = omap id names.
Proof. rewrite omap_app. replace (omap id (replicate k None)) with (@nil nat); [by rewrite app_nil_r|]. by induction k. Qed.

Lemma omap_snoc names (p : pointer) : omap id (names ++ [p]) = omap id names ++ option_list p.
Proof. rewrite omap_app. by destruct p. Qed.

(** What both loops do when there are no groups left. *)
Lemma finish_clean L data ids m : holds L (ids :: owned data) m ->
  clean L (m ← free (Some ids) m; m ← free_memory data m; Some (Returns m)).
Proof.
  intros H. destruct (free_holds L (owned data) (Some ids) m H) as (m1 & -> & H1). simpl.
  destruct (free_memory_holds L data [] m1) as (m2 & -> & H2); [by rewrite app_nil_r|]. by eexists.
Qed.

Lemma next_name L g a ids names p m :
  holds L (option_list p ++ ids :: owned (IdData g (Some (a, names)))) m ->
  holds L (ids :: owned (IdData g (Some (a, names ++ [p])))) m.
Proof.
  intros H. eapply holds_perm; [exact H|]. unfold owned. simpl. rewrite omap_snoc. solve_Permutation.
Qed.

Lemma user_loop_clean L g a ids found : forall names m,
  holds L (ids :: owned (IdData g (Some (a, names)))) m -> clean L (user_loop g a ids names found m).
Proof.
  induction found as [|gsinfo found IH]; intros names m H; simpl; [by apply finish_clean|].
  destruct gsinfo; simpl.
  - destruct (alloc m) as [p m1] eqn:Ha. apply IH, next_name. by eapply alloc_holds.
  - destruct (free_memory_holds L (IdData g (Some (a, names ++ replicate (S (length found)) None))) [ids] m)
      as (m1 & Hm & H1).
    { eapply holds_perm; [exact H|]. unfold owned. cbn [group_name groups_data]. rewrite omap_null. solve_Permutation. }
    simpl in Hm. rewrite Hm. by apply (free_clean L (Some ids)).
Qed.

Lemma process_loop_clean L ginfo g a ids found : forall names m,
  holds L (ids :: owned (IdData g (Some (a, names)))) m -> ginfo && is_null g = false ->
  if bool_decide (false ∈ found) then process_loop ginfo g a ids names found m = None
  else clean L (process_loop ginfo g a ids names found m).
Proof.
  induction found as [|gsinfo found IH]; intros names m H Hg; simpl; [by apply finish_clean|]. rewrite Hg.
  destruct gsinfo; simpl.
  - destruct (alloc m) as [p m1] eqn:Ha.
    replace (bool_decide (false ∈ true :: found)) with (bool_decide (false ∈ found))
      by (apply bool_decide_ext; set_solver).
    apply IH; [|done]. by eapply next_name, alloc_holds.
  - done.
Qed.

(* ------------------------------------------------------------------ *)
(** ** The functions *)

Lemma holds_nothing m : (forall b, b ∈ live m -> (b < next m)%nat) -> holds (live m) [] m.
Proof. intros H. split; [constructor|set_solver|set_solver|done]. Qed.

Lemma ptr_cases (p : pointer) : (p = None) \/ exists b, p = Some b.
Proof. destruct p; eauto. Qed.

Lemma process_clean L ginfo getgroups found m : holds L [] m ->
  clean L (process_memory ginfo getgroups found m) \/
  (false ∈ found /\ process_memory ginfo getgroups found m = None).
Proof.
  intros H. unfold process_memory.
  destruct (if ginfo then alloc m else (None, m)) as [name m1] eqn:E1.
  assert (holds L (option_list name) m1) as H1.
  { destruct ginfo; [|by injection E1 as <- <-]. pose proof (alloc_holds L [] _ _ _ E1 H) as H1. by rewrite app_nil_r in H1. }
  destruct (ginfo && is_null name) eqn:Hn.
  { left. destruct name as [b|]; [by rewrite andb_false_r in Hn|]. by eexists. }
  destruct (alloc m1) as [[ids|] m2] eqn:E2; apply (alloc_holds L _ _ _ _ E2) in H1; [|left; by apply free_clean].
  destruct getgroups; simpl.
  2:{ left. destruct (free_holds L (option_list name) (Some ids) m2) as (m3 & Hf & H3); [done|]. simpl in Hf.
      rewrite Hf. by apply free_clean. }
  destruct (alloc m2) as [[a|] m3] eqn:E3; apply (alloc_holds L _ _ _ _ E3) in H1.
  2:{ left. destruct (free_holds L (option_list name) (Some ids) m3) as (m4 & Hf & H4); [done|]. simpl in Hf.
      rewrite Hf. by apply free_clean. }
  pose proof (process_loop_clean L ginfo name a ids found [] m3) as Hloop.
  case_bool_decide; [right; split; [done|]|left]; (apply Hloop; [|done]);
    (eapply holds_perm; [exact H1|]; unfold owned; simpl; solve_Permutation).
Qed.

Lemma user_clean L user ginfo positive getgrouplist found m : holds L [] m ->
  clean L (user_memory user ginfo positive getgrouplist found m).
Proof.
  intros H. unfold user_memory. destruct (_ || _); [by eexists|].
  destruct (alloc m) as [name m1] eqn:E1. apply (alloc_holds L _ _ _ _ E1) in H. rewrite app_nil_r in H.
  destruct positive; simpl; [|by apply free_clean].
  destruct (alloc m1) as [[ids|] m2] eqn:E2; apply (alloc_holds L _ _ _ _ E2) in H; [|by apply free_clean].
  destruct getgrouplist; simpl.
  2:{ destruct (free_holds L [ids] name m2) as (m3 & -> & H3); [eapply holds_perm; [exact H|]; simpl; solve_Permutation|].
      by apply (free_clean L (Some ids)). }
  destruct (alloc m2) as [[a|] m3] eqn:E3; apply (alloc_holds L _ _ _ _ E3) in H.
  2:{ destruct (free_holds L (option_list name) (Some ids) m3) as (m4 & Hf & H4); [done|]. simpl in Hf.
      rewrite Hf. by apply free_clean. }
  apply user_loop_clean. eapply holds_perm; [exact H|]. unfold owned. simpl. solve_Permutation.
Qed.

(** C23: whatever fails, [id] frees every block it has allocated exactly once, on the paths
    that return and on those that end the program; the only exception is the null entry of
    [getgrgid] that [get_process_info] follows. *)
Theorem id_frees (m : mem) (Hm : forall b, b ∈ live m -> (b < next m)%nat) :
  (forall user ginfo positive getgrouplist found, exists r,
     user_memory user ginfo positive getgrouplist found m = Some r /\ live (memory r) = live m) /\
  (forall ginfo getgroups found, ~ false ∈ found -> exists r,
     process_memory ginfo getgroups found m = Some r /\ live (memory r) = live m).
Proof.
  pose proof (holds_nothing m Hm) as H.
  split; [intros user ginfo positive gl found|intros ginfo gg found Hf].
  - destruct (user_clean _ user ginfo positive gl found m H) as (r & Hr & [_ _ Hl _]). exists r. split; [done|]. set_solver.
  - destruct (process_clean _ ginfo gg found m H) as [(r & Hr & [_ _ Hl _])|[? _]]; [|done].
    exists r. split; [done|]. set_solver.
Qed.

Lemma id_frees_witness :
  exists r, user_memory true true true true [true; true; false] (Mem ∅ 1 [true; true; true; false]) = Some r /\
    live (memory r) = ∅.
Proof.
  exact (proj1 (id_frees (Mem ∅ 1 [true; true; true; false]) ltac:(set_solver)) true true true true [true; true; false]).
Defined.

(** A group without an entry ends [id] without arguments with a null pointer that is
    followed. *)
Example group_without_entry : process_memory true true [true; false] (Mem ∅ 1 []) = None.
Proof. vm_compute. reflexivity. Qed.
