(* ===== verification/Siglogd.v ===== *)
(** [hw06]: the signal logger ([siglogd.c], [utils.c]) as a state machine.  The
    kernel's side, the pending signals and the alarm, is part of the state; the
    signals of the program are blocked except in [sigsuspend], so a handler is
    one step. *)

From S2P Require Import Prelude CLib MemgrindConfig.
From Stdlib Require Import Ascii.

Open Scope string_scope.
Open Scope Z_scope.

Definition SIGINT : Z := 2.
Definition SIGQUIT : Z := 3.
Definition SIGUSR1 : Z := 10.
Definition SIGUSR2 : Z := 12.
Definition SIGALRM : Z := 14.
Definition SIGTERM : Z := 15.
Definition SIGCONT : Z := 18.

(** [struct signal_value] *)
Record signal_value := SignalValue { sig_name : string; sig_val : Z; statistic : Z }.

Definition signals_to_log : list signal_value :=
  [SignalValue "SIGINT" SIGINT 0; SignalValue "SIGQUIT" SIGQUIT 0; SignalValue "SIGTERM" SIGTERM 0;
   SignalValue "SIGUSR1" SIGUSR1 0; SignalValue "SIGUSR2" SIGUSR2 0; SignalValue "SIGCONT" SIGCONT 0].

(** [struct program_options] *)
Record log_options := LogOptions { daemon : bool; log_error : bool; interval : Z }.

(** The options of [main]: the character and argument of each, as [getopt]
    returns them for ["dvi:"]. *)
Definition getopt_char (c : ascii) : ascii :=
  if bool_decide (c ∈ ["d"; "v"; "i"]%char) then c else "?"%char.

Definition siglogd_help : string :=
  "Logger of signals" +:+ nl +:+ "Usage:" +:+ nl +:+
  "eh, am lazy to do this, but I would just copy the assigment" +:+ nl.

Fixpoint siglogd_options (opts : list (ascii * string)) (o : log_options) :
    (Z * list output) + log_options :=
  match opts with
  | [] => inr o
  | (c, optarg) :: opts =>
      let c := getopt_char c in
      if bool_decide (c = "h"%char) then inl (EXIT_SUCCESS, [Stdout siglogd_help])
      else if bool_decide (c = "v"%char) then
        siglogd_options opts (LogOptions (daemon o) true (interval o))
      else if bool_decide (c = "d"%char) then
        siglogd_options opts (LogOptions true (log_error o) (interval o))
      else if bool_decide (c = "i"%char) then
        let p := strtol optarg 10 in
        if full_number p then
          siglogd_options opts (LogOptions (daemon o) (log_error o) (u32 (s32 (st_value p))))
        else inl (EXIT_FAILURE, [Stderr ("wrong input - expected number" +:+ nl)])
      else inl (EXIT_FAILURE, [Stdout siglogd_help])
  end.

(** The process: its globals, its log and, from the kernel, the pending signals
    (each with the sender recorded with it, 0 for the kernel) and whether the
    alarm is set. *)
Record logger_state := LoggerState {
  signals : list signal_value;
  timer_seconds : Z;
  pending : gmap Z Z;
  armed : bool;
  exited : option Z;
  log : list message;
}.

Definition say (p : Z) (t : string) (s : logger_state) : logger_state :=
  LoggerState (signals s) (timer_seconds s) (pending s) (armed s) (exited s) (log s ++ [Msg p t])%list.
Definition set_armed (a : bool) (s : logger_state) : logger_state :=
  LoggerState (signals s) (timer_seconds s) (pending s) a (exited s) (log s).
Definition set_pending (m : gmap Z Z) (s : logger_state) : logger_state :=
  LoggerState (signals s) (timer_seconds s) m (armed s) (exited s) (log s).
Definition set_exited (e : Z) (s : logger_state) : logger_state :=
  LoggerState (signals s) (timer_seconds s) (pending s) (armed s) (Some e) (log s).
Definition set_signals (l : list signal_value) (s : logger_state) : logger_state :=
  LoggerState l (timer_seconds s) (pending s) (armed s) (exited s) (log s).

(** [alarm(timer_seconds)] when it is not zero. *)
Definition rearm (s : logger_state) : logger_state :=
  if timer_seconds s =? 0 then s else set_armed true s.

Definition print_statistics (s : logger_state) : logger_state :=
  fold_left (fun s v =>
    say LOG_INFO (sig_name v +:+ " (" +:+ dec (sig_val v) +:+ "):" +:+ tab +:+ dec (s64 (statistic v))) s)
    (signals s) (say LOG_INFO "Signal statistics:" s).

(** One iteration of the loop of [signal_handler]. *)
Definition count_signal (sig : Z) (v : signal_value) : signal_value :=
  if sig =? sig_val v then SignalValue (sig_name v) (sig_val v) (statistic v + 1)%C else v.

Definition log_signal (sig : Z) (s : logger_state) (v : signal_value) : logger_state :=
  if sig =? sig_val v then
    say LOG_INFO ("Got signal " +:+ sig_name v +:+ " (" +:+ dec sig +:+ ")" +:+ nl) s
  else s.

Definition signal_handler (sig : Z) (s : logger_state) : logger_state :=
  let s := set_signals (count_signal sig <$> signals s) (fold_left (log_signal sig) (signals s) s) in
  if (sig =? SIGTERM) || (sig =? SIGINT) then
    set_exited EXIT_SUCCESS (print_statistics (say LOG_INFO "shutting down" s))
  else s.

Definition alarm_handler (si_pid : Z) (s : logger_state) : logger_state :=
  if negb (si_pid =? 0) then s else rearm (print_statistics s).

(** [logger(options)] up to its loop, in a process [pid] whose calls succeed. *)
Definition logger (pid : Z) (o : log_options) : logger_state :=
  let s := LoggerState signals_to_log (s32 (interval o)) ∅ false None [] in
  let s := say LOG_INFO ("PID: " +:+ dec pid) s in
  let s := fold_left (fun s v => say LOG_DEBUG ("Added signal " +:+ sig_name v +:+ " to mask") s)
                     signals_to_log s in
  let s := fold_left (fun s v => say LOG_DEBUG ("Added signal " +:+ sig_name v +:+ " to handler") s)
                     signals_to_log s in
  rearm (say LOG_INFO "Initalization successful" s).

(** What happens while the process waits in [sigsuspend]: a process sends a
    signal (a pending one is not queued again), the alarm goes off, or a pending
    signal is delivered to its handler. *)
Inductive action := Send (sig pid : Z) | Expire | Deliver (sig : Z).

Definition send (sig pid : Z) (s : logger_state) : logger_state :=
  match pending s !! sig with
  | Some _ => s
  | None => set_pending (<[sig := pid]> (pending s)) s
  end.

Definition handled (sig : Z) : bool :=
  (sig =? SIGALRM) || existsb (fun v => sig =? sig_val v) signals_to_log.

Definition act (a : action) (s : logger_state) : option logger_state :=
  match exited s with
  | Some _ => None
  | None =>
      match a with
      | Send sig pid => if handled sig then Some (send sig pid s) else None
      | Expire => if armed s then Some (send SIGALRM 0 (set_armed false s)) else None
      | Deliver sig =>
          pid ← pending s !! sig;
          let s := set_pending (delete sig (pending s)) s in
          Some (if sig =? SIGALRM then alarm_handler pid s else signal_handler sig s)
      end
  end.

Fixpoint acts (l : list action) (s : logger_state) : option logger_state :=
  match l with
  | [] => Some s
  | a :: l => s ← act a s; acts l s
  end.

(* ------------------------------------------------------------------ *)
(** ** Lemmas *)

Lemma say_fold {A} (f : A -> message) (l : list A) : forall s,
  fold_left (fun s v => say (priority (f v)) (text (f v)) s) l s =
  LoggerState (signals s) (timer_seconds s) (pending s) (armed s) (exited s) (log s ++ (f <$> l))%list.
Proof.
  induction l as [|v l IH]; intros s; simpl; [by rewrite app_nil_r; destruct s|].
  rewrite IH. simpl. rewrite <- app_assoc. by destruct (f v).
Qed.

(** The lines of the statistics. *)
Definition stat_line (v : signal_value) : message :=
  Msg LOG_INFO (sig_name v +:+ " (" +:+ dec (sig_val v) +:+ "):" +:+ tab +:+ dec (s64 (statistic v))).

Lemma print_statistics_spec s :
  print_statistics s =
  LoggerState (signals s) (timer_seconds s) (pending s) (armed s) (exited s)
    (log s ++ Msg LOG_INFO "Signal statistics:" :: (stat_line <$> signals s))%list.
Proof.
  unfold print_statistics. rewrite (say_fold stat_line). simpl. by rewrite <- app_assoc.
Qed.

Lemma log_signal_spec sig l : forall s,
  exists ms, fold_left (log_signal sig) l s =
    LoggerState (signals s) (timer_seconds s) (pending s) (armed s) (exited s) (log s ++ ms)%list.
Proof.
  induction l as [|v l IH]; intros s; simpl.
  { exists []. rewrite app_nil_r. by destruct s. }
  destruct (IH (log_signal sig s v)) as [ms ->]. unfold log_signal. destruct (sig =? sig_val v).
  - eexists. simpl. rewrite <- app_assoc. reflexivity.
  - eauto.
Qed.


(** An invariant of runs, which may depend on the actions so far. *)
Lemma acts_inv (P : list action -> logger_state -> Prop) :
  (forall past a s s', P past s -> act a s = Some s' -> P (past ++ [a])%list s') ->
  forall l past s s', P past s -> acts l s = Some s' -> P (past ++ l)%list s'.
Proof.
  intros Hstep. induction l as [|a l IH]; simpl; intros past s s' Hp.
  { intros [= <-]. by rewrite app_nil_r. }
  intros (s1 & H1 & H2)%bind_Some. replace (past ++ a :: l)%list with ((past ++ [a]) ++ l)%list
    by (by rewrite <- app_assoc). eauto.
Qed.

(** How often a signal was delivered, sent, and raised by the alarm. *)
Definition deliveries (sig : Z) (l : list action) : nat :=
  count_if (fun a => match a with Deliver g => sig =? g | _ => false end) l.
Definition raised (sig : Z) (l : list action) : nat :=
  count_if (fun a => match a with Send g _ => sig =? g | Expire => sig =? SIGALRM | _ => false end) l.

(** The table with the counts of a run. *)
Definition tally (l : list action) : list signal_value :=
  (fun v => SignalValue (sig_name v) (sig_val v) (u64 (Z.of_nat (deliveries (sig_val v) l)))) <$>
  signals_to_log.

Lemma count_if_snoc {A} (P : A -> bool) l x : count_if P (l ++ [x])%list = (count_if P l + b2n (P x))%nat.
Proof. induction l; simpl; lia. Qed.

Lemma tally_snoc l a :
  tally (l ++ [a])%list =
  match a with Deliver sig => count_signal sig <$> tally l | _ => tally l end.
Proof.
  unfold tally, deliveries. destruct a as [sig pid| |sig]; rewrite <- ?list_fmap_compose;
    apply list_fmap_ext; intros i v _; unfold count_signal; simpl; rewrite count_if_snoc; simpl;
    rewrite ?Nat.add_0_r; try done.
  rewrite Z.eqb_sym. destruct (sig =? sig_val v); simpl; [|by rewrite Nat.add_0_r].
  f_equal. rewrite Nat2Z.inj_add. unfold u64. by rewrite wrap_add_l.
Qed.

(** The alarm is not in the table. *)
Lemma tally_alarm l : count_signal SIGALRM <$> tally l = tally l.
Proof.
  unfold tally. rewrite <- list_fmap_compose. apply list_fmap_ext. intros i v Hv.
  assert (SIGALRM =? sig_val v = false) as Hf.
  { apply list_elem_of_lookup_2 in Hv. unfold signals_to_log in Hv. set_unfold.
    by destruct_or! Hv; subst. }
  unfold count_signal. cbn [compose sig_val]. by rewrite Hf.
Qed.

(** What a run maintains. *)
Record log_inv (past : list action) (s : logger_state) : Prop := {
  inv_signals : signals s = tally past;
  inv_exited : exited s =
    if (deliveries SIGTERM past + deliveries SIGINT past =? 0)%nat then None else Some EXIT_SUCCESS;
  inv_report : exited s <> None -> exists pre,
    log s = (pre ++ Msg LOG_INFO "Signal statistics:" :: (stat_line <$> tally past))%list;
  inv_pending sig :
    (deliveries sig past + b2n (bool_decide (is_Some (pending s !! sig))) <= raised sig past)%nat;
}.

Lemma send_pending sig pid s g :
  (b2n (bool_decide (is_Some (pending (send sig pid s) !! g))) <=
   b2n (bool_decide (is_Some (pending s !! g))) + b2n (g =? sig)%Z)%nat.
Proof.
  unfold send. case_match; simpl; [lia|]. destruct (Z.eqb_spec g sig) as [->|Hne].
  - rewrite lookup_insert_eq, bool_decide_eq_true_2 by done. simpl. lia.
  - rewrite lookup_insert_ne by done. lia.
Qed.

Lemma send_fields sig pid s :
  signals (send sig pid s) = signals s /\ exited (send sig pid s) = exited s /\
  log (send sig pid s) = log s /\ timer_seconds (send sig pid s) = timer_seconds s /\
  armed (send sig pid s) = armed s.
Proof. unfold send. by case_match. Qed.

Lemma deliveries_snoc sig l a :
  deliveries sig (l ++ [a])%list =
  (deliveries sig l + match a with Deliver g => b2n (sig =? g)%Z | _ => 0 end)%nat.
Proof. unfold deliveries. rewrite count_if_snoc. by destruct a. Qed.

Lemma raised_snoc sig l a :
  raised sig (l ++ [a])%list =
  (raised sig l + match a with Send g _ => b2n (sig =? g)%Z | Expire => b2n (sig =? SIGALRM)%Z | _ => 0 end)%nat.
Proof. unfold raised. rewrite count_if_snoc. by destruct a. Qed.

(** The effect of a handler on the fields of the invariant. *)
Lemma signal_handler_spec sig s :
  exited s = None ->
  signals (signal_handler sig s) = (count_signal sig <$> signals s) /\
  pending (signal_handler sig s) = pending s /\ armed (signal_handler sig s) = armed s /\
  timer_seconds (signal_handler sig s) = timer_seconds s /\
  exited (signal_handler sig s) =
    (if (sig =? SIGTERM) || (sig =? SIGINT) then Some EXIT_SUCCESS else None) /\
  (exited (signal_handler sig s) <> None -> exists pre,
     log (signal_handler sig s) =
       (pre ++ Msg LOG_INFO "Signal statistics:" :: (stat_line <$> (count_signal sig <$> signals s)))%list).
Proof.
  intros Hx. unfold signal_handler. destruct (log_signal_spec sig (signals s) s) as [ms ->].
  destruct ((sig =? SIGTERM) || (sig =? SIGINT)); simpl; [|done].
  rewrite print_statistics_spec. simpl. split_and!; try done. intros _. eauto.
Qed.

Lemma alarm_handler_spec pid s :
  signals (alarm_handler pid s) = signals s /\ pending (alarm_handler pid s) = pending s /\
  exited (alarm_handler pid s) = exited s /\ timer_seconds (alarm_handler pid s) = timer_seconds s /\
  armed (alarm_handler pid s) =
    (if (pid =? 0) && negb (timer_seconds s =? 0) then true else armed s).
Proof.
  unfold alarm_handler, rearm. destruct (pid =? 0); simpl; [|done].
  rewrite print_statistics_spec. simpl. by destruct (timer_seconds s =? 0).
Qed.

Lemma delete_pending sig g (m : gmap Z Z) :
  is_Some (m !! sig) ->
  (b2n (bool_decide (is_Some (delete sig m !! g))) + b2n (g =? sig)%Z =
   b2n (bool_decide (is_Some (m !! g))))%nat.
Proof.
  intros Hs. destruct (Z.eqb_spec g sig) as [->|Hne].
  - rewrite lookup_delete_eq, bool_decide_eq_false_2, bool_decide_eq_true_2; simpl; [done|done|].
    by intros [].
  - rewrite lookup_delete_ne by done. simpl. lia.
Qed.

Lemma log_inv_step past a s s' :
  log_inv past s -> act a s = Some s' -> log_inv (past ++ [a])%list s'.
Proof.
  intros [Hsig Hex Hrep Hpen] H. unfold act in H. destruct (exited s) eqn:Ee; [done|].
  destruct a as [sig pid| |sig].
  - destruct (handled sig); [|done]. injection H as <-.
    destruct (send_fields sig pid s) as (E1 & E2 & E3 & _). constructor.
    + by rewrite E1, tally_snoc.
    + by rewrite E2, Ee, !deliveries_snoc, !Nat.add_0_r.
    + by rewrite E2, Ee.
    + intros g. rewrite deliveries_snoc, raised_snoc. pose proof (send_pending sig pid s g) as Hs.
      specialize (Hpen g). lia.
  - destruct (armed s); [|done]. injection H as <-.
    destruct (send_fields SIGALRM 0 (set_armed false s)) as (E1 & E2 & E3 & _). constructor.
    + by rewrite E1, tally_snoc.
    + by rewrite E2; simpl; rewrite Ee, !deliveries_snoc, !Nat.add_0_r.
    + rewrite E2. simpl. by rewrite Ee.
    + intros g. rewrite deliveries_snoc, raised_snoc.
      pose proof (send_pending SIGALRM 0 (set_armed false s) g) as Hs. specialize (Hpen g).
      simpl in Hs. lia.
  - apply bind_Some in H as (pid & Hp & [= <-]).
    set (s1 := set_pending (delete sig (pending s)) s).
    assert (forall g, deliveries g (past ++ [Deliver sig])%list
      + b2n (bool_decide (is_Some (delete sig (pending s) !! g))) <=
      raised g (past ++ [Deliver sig])%list)%nat as Hpen'.
    { intros g. rewrite deliveries_snoc, raised_snoc.
      pose proof (delete_pending sig g (pending s) ltac:(eauto)). specialize (Hpen g). lia. }
    destruct (Z.eqb_spec sig SIGALRM) as [->|Hne].
    + destruct (alarm_handler_spec pid s1) as (E1 & E2 & E3 & _). constructor.
      * rewrite E1, tally_snoc, tally_alarm. done.
      * rewrite E3, !deliveries_snoc. simpl. rewrite !Nat.add_0_r. by rewrite Ee.
      * rewrite E3. simpl. by rewrite Ee.
      * intros g. rewrite E2. apply Hpen'.
    + destruct (signal_handler_spec sig s1 Ee) as (E1 & E2 & _ & _ & E3 & E4). constructor.
      * rewrite E1, tally_snoc. simpl. by rewrite Hsig.
      * rewrite E3, !deliveries_snoc, (Z.eqb_sym sig SIGTERM), (Z.eqb_sym sig SIGINT).
        assert (deliveries SIGTERM past + deliveries SIGINT past = 0)%nat as E0.
        { destruct (Nat.eqb_spec (deliveries SIGTERM past + deliveries SIGINT past) 0); congruence. }
        replace (deliveries SIGTERM past) with 0%nat by lia.
        replace (deliveries SIGINT past) with 0%nat by lia.
        by destruct (SIGTERM =? sig), (SIGINT =? sig).
      * intros Hx. rewrite tally_snoc, <- Hsig. by apply E4.
      * intros g. rewrite E2. apply Hpen'.
Qed.

(** The initial part of [logger] only writes the log and sets the alarm. *)
Lemma logger_spec pid o : exists ms,
  logger pid o = LoggerState signals_to_log (s32 (interval o)) ∅
    (negb (s32 (interval o) =? 0)) None ms.
Proof.
  pose proof (say_fold (fun v => Msg LOG_DEBUG ("Added signal " +:+ sig_name v +:+ " to mask"))
                signals_to_log) as H1.
  pose proof (say_fold (fun v => Msg LOG_DEBUG ("Added signal " +:+ sig_name v +:+ " to handler"))
                signals_to_log) as H2.
  cbn [priority text] in H1, H2. unfold logger, rearm. rewrite H1, H2. cbn -[signals_to_log s32].
  destruct (s32 (interval o) =? 0) eqn:E; cbn -[signals_to_log s32]; rewrite ?E; eauto.
Qed.

Lemma log_inv_init pid o : log_inv [] (logger pid o).
Proof.
  destruct (logger_spec pid o) as [ms ->]. constructor; simpl; try done.
Qed.

(* ------------------------------------------------------------------ *)
(** ** Properties *)

(** C25: after any run the table holds, for each signal, the number of times it was
    delivered (modulo 2^64), never more than it was raised; the process has
    ended, successfully, exactly when [SIGTERM] or [SIGINT] was delivered, and
    its log then ends with these counts. *)
Theorem siglogd_counts pid o l s :
  acts l (logger pid o) = Some s ->
  signals s = tally l /\
  (exited s <> None <-> (0 < deliveries SIGTERM l + deliveries SIGINT l)%nat) /\
  (exited s <> None -> exited s = Some EXIT_SUCCESS /\ exists pre,
     log s = (pre ++ Msg LOG_INFO "Signal statistics:" :: (stat_line <$> tally l))%list) /\
  (forall sig, deliveries sig l <= raised sig l)%nat.
Proof.
  intros H. apply (acts_inv log_inv log_inv_step l [] _ _ (log_inv_init pid o)) in H as [H1 H2 H3 H4].
  simpl in *. split; [done|]. split_and!.
  - rewrite H2. destruct (Nat.eqb_spec (deliveries SIGTERM l + deliveries SIGINT l) 0); split; try done; lia.
  - intros Hx. split; [|by apply H3]. rewrite H2 in Hx |- *. by case_match.
  - intros sig. specialize (H4 sig). lia.
Qed.

(** The alarm is set, or its signal is on its way. *)
Definition timer_alive (s : logger_state) : Prop :=
  timer_seconds s <> 0 -> exited s = None -> armed s = true \/ pending s !! SIGALRM = Some 0.

Definition alarm_inv (past : list action) (s : logger_state) : Prop :=
  (forall a, a ∈ past -> match a with Send g _ => g <> SIGALRM | _ => True end) ->
  timer_alive s /\ (forall p, pending s !! SIGALRM = Some p -> p = 0).

Lemma alarm_inv_step past a s s' :
  alarm_inv past s -> act a s = Some s' -> alarm_inv (past ++ [a])%list s'.
Proof.
  intros Hi H Hall. destruct Hi as [Ht Hp]; [intros b Hb; apply Hall; set_solver|].
  specialize (Hall a ltac:(set_solver)). unfold act in H. destruct (exited s) eqn:Ee; [done|].
  destruct a as [sig pid| |sig].
  - destruct (handled sig); [|done]. injection H as <-.
    destruct (send_fields sig pid s) as (_ & E2 & _ & E4 & E5). unfold timer_alive. rewrite E2, E4, E5.
    assert (pending (send sig pid s) !! SIGALRM = pending s !! SIGALRM) as ->; [|by split].
    unfold send. case_match; [done|]. simpl. by rewrite lookup_insert_ne.
  - destruct (armed s); [|done]. injection H as <-.
    assert (pending (send SIGALRM 0 (set_armed false s)) !! SIGALRM = Some 0) as E.
    { unfold send. simpl. destruct (pending s !! SIGALRM) as [p|] eqn:Ep; simpl.
      - by rewrite Ep, (Hp p).
      - by rewrite lookup_insert_eq. }
    split; [intros _ _; by right|]. rewrite E. by intros p [= <-].
  - apply bind_Some in H as (pid & Hpid & [= <-]). destruct (Z.eqb_spec sig SIGALRM) as [->|Hne].
    + destruct (alarm_handler_spec pid (set_pending (delete SIGALRM (pending s)) s))
        as (_ & E2 & E3 & E4 & E5). unfold timer_alive. rewrite E2, E3, E4, E5. simpl.
      rewrite (Hp pid Hpid). simpl. rewrite lookup_delete_eq. split; [|done].
      intros Hts _. left. by rewrite (proj2 (Z.eqb_neq _ _) Hts).
    + destruct (signal_handler_spec sig (set_pending (delete sig (pending s)) s) Ee)
        as (_ & E2 & E5 & E4 & E3 & _). unfold timer_alive. rewrite E2, E4, E5. simpl.
      rewrite lookup_delete_ne by done. split; [|done]. intros Hts _. by apply Ht.
Qed.

(** C26: with an interval, as long as no process sends [SIGALRM], the statistics
    keep coming: until it ends, the process has its alarm set or the alarm's
    signal pending. *)
Theorem siglogd_timer_alive pid o l s :
  acts l (logger pid o) = Some s ->
  (forall a, a ∈ l -> match a with Send g _ => g <> SIGALRM | _ => True end) ->
  s32 (interval o) <> 0 -> exited s = None ->
  armed s = true \/ pending s !! SIGALRM = Some 0.
Proof.
  intros H Hall Hint Hex.
  assert (timer_seconds s = s32 (interval o)) as Hts.
  { refine (acts_inv (fun _ s => timer_seconds s = s32 (interval o)) _ l [] _ _ _ H).
    - intros past a s1 s2 Hs1 Ha. unfold act in Ha. repeat case_match; simplify_eq.
      + rewrite <- Hs1. apply send_fields.
      + rewrite <- Hs1. apply (send_fields SIGALRM 0 (set_armed false s1)).
      + apply bind_Some in Ha as (p & _ & [= <-]). rewrite <- Hs1.
        by destruct (alarm_handler_spec p (set_pending (delete sig (pending s1)) s1))
          as (_ & _ & _ & -> & _).
      + apply bind_Some in Ha as (p & _ & [= <-]). rewrite <- Hs1.
        by destruct (signal_handler_spec sig (set_pending (delete sig (pending s1)) s1) ltac:(done))
          as (_ & _ & _ & -> & _).
    - by destruct (logger_spec pid o) as [ms ->]. }
  assert (alarm_inv l s) as Hinv; [refine (acts_inv alarm_inv alarm_inv_step l [] _ _ _ H)|].
  2: { destruct (Hinv Hall) as [Ht _]. apply Ht; congruence. }
  intros _. destruct (logger_spec pid o) as [ms ->]. unfold timer_alive. simpl. split; [|done].
  intros Hz _. left. by rewrite (proj2 (Z.eqb_neq _ _) Hz).
Qed.

(* ------------------------------------------------------------------ *)
(** ** The properties at concrete runs *)

Definition demo_log_options : log_options := LogOptions false false 5.

Lemma siglogd_counts_witness :
  exists s, acts [Send SIGUSR1 42; Send SIGUSR1 43; Deliver SIGUSR1; Send SIGTERM 42; Deliver SIGTERM]
              (logger 7 demo_log_options) = Some s /\ exited s = Some EXIT_SUCCESS.
Proof.
  eexists. split; [vm_compute; reflexivity|].
  refine (proj1 (proj1 (proj2 (proj2 (siglogd_counts 7 demo_log_options
    [Send SIGUSR1 42; Send SIGUSR1 43; Deliver SIGUSR1; Send SIGTERM 42; Deliver SIGTERM] _ _))) _));
    [vm_compute; reflexivity | discriminate].
Defined.

Lemma siglogd_timer_alive_witness :
  exists s, acts [Expire; Deliver SIGALRM] (logger 7 demo_log_options) = Some s /\
    (armed s = true \/ pending s !! SIGALRM = Some 0).
Proof.
  eexists. split; [vm_compute; reflexivity|].
  refine (siglogd_timer_alive 7 demo_log_options [Expire; Deliver SIGALRM] _ _ _ _ _).
  - vm_compute. reflexivity.
  - intros a Ha. apply elem_of_cons in Ha as [-> | Ha]; [done|].
    apply elem_of_cons in Ha as [-> | Ha]; [done|]. by apply not_elem_of_nil in Ha.
  - vm_compute. discriminate.
  - reflexivity.
Defined.

(** A [SIGALRM] from another process, pending when the alarm goes off, absorbs
    it; its handler returns early and the alarm is never set again. *)
Example foreign_alarm_stops_timer :
  (fun s => (armed s, bool_decide (pending s !! SIGALRM = None), exited s)) <$>
    acts [Send SIGALRM 42; Expire; Deliver SIGALRM] (logger 7 demo_log_options)
  = Some (false, true, None).
Proof. vm_compute. reflexivity. Qed.

(** [-h] is not among the options of [getopt]. *)
Example siglogd_h_fails :
  siglogd_options [("h"%char, "")] demo_log_options = inl (EXIT_FAILURE, [Stdout siglogd_help]).
Proof. reflexivity. Qed.
