(* ===== verification/Ptgrep.v ===== *)
(** [hw08/ptgrep.c]: the threaded search.  A line of a file may hold null bytes;
    every function that the program gives it to ([strstr], [strcasestr], [strlen],
    [printf]) stops at the first one, so the inner loop works on the characters
    before it, and [line_copy] is a position in them. *)

From S2P Require Import Prelude CLib.
From Stdlib Require Import Ascii.

Open Scope string_scope.
Open Scope Z_scope.

(* ------------------------------------------------------------------ *)
(** ** [strstr] and [strcasestr] *)

(** ASCII case folding. *)
Definition to_lower (c : ascii) : ascii :=
  let n := nat_of_ascii c in
  if ((65 <=? n) && (n <=? 90))%nat then ascii_of_nat (n + 32) else c.

Definition same_char (insensitive : bool) (a b : ascii) : bool :=
  if insensitive then bool_decide (to_lower a = to_lower b) else bool_decide (a = b).

Fixpoint starts_with (insensitive : bool) (needle hay : list ascii) : bool :=
  match needle, hay with
  | [], _ => true
  | a :: needle, b :: hay => same_char insensitive a b && starts_with insensitive needle hay
  | _ :: _, [] => false
  end.

(** The offset of the first occurrence. *)
Fixpoint string_find (insensitive : bool) (needle hay : list ascii) : option nat :=
  if starts_with insensitive needle hay then Some 0%nat else
  match hay with
  | [] => None
  | _ :: hay => S <$> string_find insensitive needle hay
  end.

(* ------------------------------------------------------------------ *)
(** ** [thread_run] *)

(** [struct shared_thread_data], and whether standard output is a terminal. *)
Record shared_data := Shared {
  needle : list ascii; line_number : bool; insensitive : bool; tty : bool;
}.

Definition str (l : list ascii) : string := String.string_of_list_ascii l.

Definition escape : string := String "027"%char "".

(** What is printed in front of every match. *)
Definition match_prefix (sh : shared_data) (file_name : string) (line_num : Z) : string :=
  file_name +:+ ": " +:+ (if line_number sh then dec line_num +:+ ": " else "").

(** The highlighted line for a match at position [loc]. *)
Definition highlight (sh : shared_data) (line : list ascii) (loc : nat) : string :=
  str (take loc line) +:+ escape +:+ "[35m" +:+ str (take (length (needle sh)) (drop loc line)) +:+
  escape +:+ "[0m" +:+ str (drop (loc + length (needle sh)) line).

(** The inner [while] loop, from position [pos] of the line: what it prints and
    whether it found something; [None] when the fuel runs out. *)
Fixpoint match_loop (fuel : nat) (sh : shared_data) (file_name : string) (line_num : Z)
    (line : list ascii) (pos : nat) : option (list string) :=
  match string_find (insensitive sh) (needle sh) (drop pos line) with
  | None => Some []
  | Some offset =>
      match fuel with
      | O => None
      | S fuel =>
          let location := (pos + offset)%nat in
          if negb (tty sh) then
            rest ← match_loop fuel sh file_name line_num line pos;
            Some (match_prefix sh file_name line_num :: str line :: rest)
          else
            let shown := [match_prefix sh file_name line_num; highlight sh line location] in
            if (length line <? location + 1)%nat then Some shown
            else rest ← match_loop fuel sh file_name line_num line (location + 1);
                 Some (shown ++ rest)%list
      end
  end.

(** What the string functions see of a buffer: the characters before the first
    null byte. *)
Fixpoint c_string (buffer : list ascii) : list ascii :=
  match buffer with
  | [] => []
  | c :: buffer => if bool_decide (c = "000"%char) then [] else c :: c_string buffer
  end.

(** The fuel of a line: one iteration per position, and one more. *)
Definition line_fuel (line : list ascii) : nat := S (length line).

(** The loop over the lines: the output and [found]. *)
Fixpoint search_lines (sh : shared_data) (file_name : string) (line_num : Z) (found : bool)
    (lines : list (list ascii)) : option (list string * bool) :=
  match lines with
  | [] => Some ([], found)
  | line :: lines =>
      let text := c_string line in
      out ← match_loop (line_fuel text) sh file_name line_num text 0;
      let found := match out with [] => found | _ => true end in
      '(rest, found) ← search_lines sh file_name (line_num + 1) found lines;
      Some ((out ++ rest)%list, found)
  end.

(** [thread_run] on a file: its contents, or [None] if it cannot be opened; the
    output, [opened] and [found]. *)
Definition thread_run (sh : shared_data) (file_name : string) (contents : option string) :
    option (list output * bool * bool) :=
  match contents with
  | None => Some ([Stderr ("Can't open file: " +:+ file_name +:+ nl)], false, false)
  | Some c =>
      match search_lines sh file_name 0 false (String.list_ascii_of_string <$> getlines c) with
      | Some (out, found) => Some (Stdout <$> out, true, found)
      | None => None
      end
  end.

(* ------------------------------------------------------------------ *)
(** ** [main] *)

Definition grep_help (argv0 : string) : string :=
  "usage: " +:+ argv0 +:+ " [OPTIONS] STRING [FILES...]" +:+ nl +:+ nl +:+
  "OPTIONS AND ARGUMENTS" +:+ nl +:+
  "  -h" +:+ tab +:+ tab +:+ "show this message and exit" +:+ nl +:+
  "  -n" +:+ tab +:+ tab +:+
  "write out line number when the matching string has been found" +:+ nl +:+ nl +:+
  "  STRING" +:+ tab +:+ "String that we are searching for in files." +:+ nl +:+
  "  FILES " +:+ tab +:+ "Files that are meant to be searched." +:+ nl.

(** The options, as [getopt] returns them for ["nhi"]. *)
Fixpoint grep_options (argv0 : string) (opts : list ascii) (line_number insensitive : bool) :
    (Z * list output) + (bool * bool) :=
  match opts with
  | [] => inr (line_number, insensitive)
  | c :: opts =>
      if bool_decide (c = "h"%char) then inl (EXIT_SUCCESS, [Stdout (grep_help argv0)])
      else if bool_decide (c = "n"%char) then grep_options argv0 opts true insensitive
      else if bool_decide (c = "i"%char) then grep_options argv0 opts line_number true
      else inl (EXIT_FAILURE, [Stdout (grep_help argv0)])
  end.

(** The threads run on their own data; [main] joins them in order. *)
Fixpoint run_threads (sh : shared_data) (fs : string -> option string) (files : list string) :
    option (list (list output * bool * bool)) :=
  match files with
  | [] => Some []
  | f :: files => r ← thread_run sh f (fs f); rs ← run_threads sh fs files; Some (r :: rs)
  end.

(** [main]: the exit status and the output of each thread ([None] when a thread
    never ends), for the operands after the options. *)
Definition ptgrep_main (argv0 : string) (tty : bool) (fs : string -> option string)
    (opts : list ascii) (operands : list string) : option (Z * list (list output)) :=
  match grep_options argv0 opts false false with
  | inl (status, out) => Some (status, [out])
  | inr (line_number, insensitive) =>
      match operands with
      | [] => Some (EXIT_FAILURE, [[Stderr ("No string specified" +:+ nl);
                                    Stderr ("No files specified" +:+ nl)]])
      | [_] => Some (EXIT_FAILURE, [[Stderr ("No files specified" +:+ nl)]])
      | string :: files =>
          let sh := Shared (String.list_ascii_of_string string) line_number insensitive tty in
          rs ← run_threads sh fs files;
          let opened := forallb (fun r => snd (fst r)) rs in
          let found := existsb snd rs in
          Some (if negb opened || negb found then EXIT_FAILURE else EXIT_SUCCESS,
                (fun r => fst (fst r)) <$> rs)
      end
  end.

(* ------------------------------------------------------------------ *)
(** ** Lemmas *)

(** The positions at which the needle occurs in the line, overlapping or not. *)
Definition occurs (sh : shared_data) (line : list ascii) (i : nat) : bool :=
  starts_with (insensitive sh) (needle sh) (drop i line).

Definition occurrences (sh : shared_data) (line : list ascii) (from : nat) : list nat :=
  List.filter (occurs sh line) (seq from (S (length line) - from)).

Definition contains (sh : shared_data) (line : list ascii) : bool :=
  existsb (occurs sh line) (seq 0 (S (length line))).

Lemma string_find_spec i n hay :
  match string_find i n hay with
  | Some k => (k <= length hay)%nat /\ starts_with i n (drop k hay) = true /\
              forall j, (j < k)%nat -> starts_with i n (drop j hay) = false
  | None => forall j, (j <= length hay)%nat -> starts_with i n (drop j hay) = false
  end.
Proof.
  induction hay as [|c hay IH]; simpl.
  - destruct (starts_with i n []) eqn:E; simpl; [auto with lia|]. intros j _. by rewrite drop_nil.
  - destruct (starts_with i n (c :: hay)) eqn:E; simpl; [split_and!; try done; lia|].
    destruct (string_find i n hay) as [k|]; simpl.
    + destruct IH as (Hk & Hs & Hn). split_and!; [lia|done|].
      intros [|j] Hj; [done|]. apply Hn. lia.
    + intros [|j] Hj; [done|]. apply IH. lia.
Qed.

(** The next occurrence is what [string_find] returns. *)
Lemma occurrences_find sh line pos :
  (pos <= length line)%nat ->
  occurrences sh line pos =
  match string_find (insensitive sh) (needle sh) (drop pos line) with
  | Some k => (pos + k)%nat :: occurrences sh line (S (pos + k))
  | None => []
  end.
Proof.
  intros Hp. pose proof (string_find_spec (insensitive sh) (needle sh) (drop pos line)) as H.
  rewrite length_drop in H. unfold occurrences.
  assert (forall m n, (forall j, (j < n)%nat -> occurs sh line (m + j) = false) ->
    List.filter (occurs sh line) (seq m n) = []) as Hnone.
  { clear. intros m n. revert m. induction n as [|n IH]; intros m Hn; [done|]. simpl.
    pose proof (Hn 0%nat ltac:(lia)) as H0. rewrite Nat.add_0_r in H0. rewrite H0. apply IH.
    intros j Hj. replace (S m + j)%nat with (m + S j)%nat by lia. apply Hn. lia. }
  destruct (string_find _ _ _) as [k|].
  - destruct H as (Hk & Hs & Hn).
    replace (S (length line) - pos)%nat with (k + S (length line - (pos + k)))%nat by lia.
    rewrite seq_app, List.filter_app, Hnone.
    + simpl. unfold occurs at 1. rewrite <- drop_drop, Hs.
      do 2 f_equal; lia.
    + intros j Hj. unfold occurs. rewrite <- drop_drop. by apply Hn.
  - apply Hnone. intros j Hj. unfold occurs. rewrite <- drop_drop. apply H. lia.
Qed.

(** What a terminal shows for a line. *)
Definition line_output (sh : shared_data) (file_name : string) (line_num : Z) (line : list ascii)
    (is_ : list nat) : list string :=
  concat ((fun i => [match_prefix sh file_name line_num; highlight sh line i]) <$> is_).

Lemma match_loop_tty sh file_name line_num line : tty sh = true -> forall fuel pos,
  (pos <= length line)%nat -> (S (length line) <= fuel + pos)%nat ->
  match_loop fuel sh file_name line_num line pos =
    Some (line_output sh file_name line_num line (occurrences sh line pos)).
Proof.
  intros Ht. induction fuel as [|fuel IH]; intros pos Hp Hf; [lia|].
  rewrite occurrences_find by done. cbn [match_loop].
  destruct (string_find (insensitive sh) (needle sh) (drop pos line)) as [k|] eqn:E; [|done].
  rewrite Ht. cbn [negb]. destruct (Nat.ltb_spec (length line) (pos + k + 1)) as [Hl|Hl].
  - assert (occurrences sh line (S (pos + k)) = []) as ->; [|done].
    unfold occurrences. by replace (S (length line) - S (pos + k))%nat with 0%nat by lia.
  - rewrite Nat.add_1_r in *. rewrite IH by lia. done.
Qed.

Lemma match_loop_pipe sh file_name line_num line : tty sh = false -> forall fuel,
  match_loop fuel sh file_name line_num line 0 = (if contains sh line then None else Some []).
Proof.
  intros Ht fuel. pose proof (string_find_spec (insensitive sh) (needle sh) line) as H.
  assert (contains sh line = match string_find (insensitive sh) (needle sh) line with
                             | Some _ => true | None => false end) as ->.
  { unfold contains. destruct (string_find _ _ _) as [k|].
    - apply existsb_exists. exists k. split; [apply in_seq; lia|apply H].
    - apply not_true_is_false. intros (j & Hj & Ho)%existsb_exists. apply in_seq in Hj.
      unfold occurs in Ho. rewrite H in Ho by lia. done. }
  induction fuel as [|fuel IH]; cbn [match_loop]; rewrite drop_0;
    destruct (string_find _ _ _) as [k|] eqn:E; try done.
  rewrite Ht. cbn [negb]. by rewrite IH.
Qed.

Lemma occurrences_contains sh line :
  contains sh line = match occurrences sh line 0 with [] => false | _ => true end.
Proof.
  unfold contains, occurrences. rewrite Nat.sub_0_r. generalize (seq 0 (S (length line))).
  induction l as [|i l IH]; [done|]. simpl. by destruct (occurs sh line i).
Qed.

(** Some line of the file contains the string before its first null byte. *)
Definition file_contains (sh : shared_data) (contents : option string) : bool :=
  match contents with
  | Some c => existsb (fun line => contains sh (c_string line)) (String.list_ascii_of_string <$> getlines c)
  | None => false
  end.

Lemma search_lines_tty sh file_name lines : tty sh = true -> forall line_num found,
  exists out, search_lines sh file_name line_num found lines =
    Some (out, found || existsb (fun line => contains sh (c_string line)) lines).
Proof.
  intros Ht. induction lines as [|line lines IH]; intros line_num found; cbn [search_lines existsb].
  { exists []. by rewrite orb_false_r. }
  rewrite match_loop_tty by (done || unfold line_fuel; lia). cbn [mbind option_bind].
  destruct (IH (line_num + 1) (found || contains sh (c_string line))) as [out Hout].
  assert (match line_output sh file_name line_num (c_string line) (occurrences sh (c_string line) 0) with
          | [] => found | _ => true end = found || contains sh (c_string line)) as ->.
  { rewrite occurrences_contains. destruct (occurrences sh (c_string line) 0); simpl;
      by rewrite ?orb_false_r, ?orb_true_r. }
  rewrite Hout. simpl. rewrite orb_assoc. eauto.
Qed.

Lemma run_threads_tty sh fs files : tty sh = true -> exists rs,
  run_threads sh fs files = Some rs /\
  ((fun r => snd (fst r)) <$> rs) = ((fun g => bool_decide (is_Some (fs g))) <$> files) /\
  (snd <$> rs) = ((fun g => file_contains sh (fs g)) <$> files).
Proof.
  intros Ht. induction files as [|g files (rs & Hrs & H1 & H2)]; [by exists []|].
  cbn [run_threads].
  assert (exists out, thread_run sh g (fs g) =
            Some (out, bool_decide (is_Some (fs g)), file_contains sh (fs g))) as [out ->].
  { unfold thread_run. destruct (fs g) as [c|]; [|eauto]. 
    destruct (search_lines_tty sh g (String.list_ascii_of_string <$> getlines c) Ht 0 false)
      as [out ->]. eauto. }
  rewrite Hrs. cbn [mbind option_bind]. eexists. split; [reflexivity|].
  rewrite !fmap_cons, H1, H2. done.
Qed.

Lemma forallb_fmap {A} (f : A -> bool) (l : list A) : forallb f l = forallb id (f <$> l).
Proof. induction l; simpl; [done|]. by f_equal. Qed.

Lemma existsb_fmap {A} (f : A -> bool) (l : list A) : existsb f l = existsb id (f <$> l).
Proof. induction l; simpl; [done|]. by f_equal. Qed.

Lemma all_opened {A} (fs : string -> option A) (files : list string) :
  forallb (fun g => bool_decide (is_Some (fs g))) files = true <->
  forall g, g ∈ files -> is_Some (fs g).
Proof.
  rewrite forallb_forall. setoid_rewrite <- list_elem_of_In.
  by setoid_rewrite bool_decide_eq_true.
Qed.

Lemma file_contains_any sh (fs : string -> option string) files :
  existsb (fun g => file_contains sh (fs g)) files = true <->
  exists g c line, g ∈ files /\ fs g = Some c /\ line ∈ getlines c /\
    contains sh (c_string (String.list_ascii_of_string line)) = true.
Proof.
  rewrite existsb_exists. setoid_rewrite <- list_elem_of_In. unfold file_contains. split.
  - intros (g & Hg & Hc). destruct (fs g) as [c|] eqn:Ef; [|done].
    apply existsb_exists in Hc as (l & Hl & Hc). apply list_elem_of_In in Hl.
    apply list_elem_of_fmap in Hl as (line & -> & Hl). by exists g, c, line.
  - intros (g & c & line & Hg & Ef & Hl & Hc). exists g. split; [done|]. rewrite Ef.
    apply existsb_exists. exists (String.list_ascii_of_string line). split; [|done].
    apply list_elem_of_In. by apply list_elem_of_fmap_2.
Qed.

(* ------------------------------------------------------------------ *)
(** ** Properties *)

(** On a terminal the search of a line ends, and shows the line once for
    every position at which the string occurs, from left to right, with exactly
    that occurrence highlighted. *)
Theorem ptgrep_terminal_matches sh file_name line_num line :
  tty sh = true ->
  match_loop (line_fuel line) sh file_name line_num line 0 =
    Some (concat ((fun i => [match_prefix sh file_name line_num; highlight sh line i]) <$>
            List.filter (occurs sh line) (seq 0 (S (length line))))).
Proof.
  intros Ht. rewrite match_loop_tty; [|done|lia|unfold line_fuel; lia].
  unfold line_output, occurrences. by rewrite Nat.sub_0_r.
Qed.

(** C24: the exit status: on a terminal [main] always ends, and reports success
    exactly when every file could be opened and one of their lines contains the
    string before its first null byte; when the output is not a terminal, the loop
    over the first such line never ends, however many iterations it is given. *)
Theorem ptgrep_status argv0 fs opts pat f files n i :
  grep_options argv0 opts false false = inr (n, i) ->
  (exists status out,
     ptgrep_main argv0 true fs opts (pat :: f :: files) = Some (status, out) /\
     (status = EXIT_SUCCESS <->
      (forall g, g ∈ f :: files -> is_Some (fs g)) /\
      (exists g c line, g ∈ f :: files /\ fs g = Some c /\ line ∈ getlines c /\
         contains (Shared (String.list_ascii_of_string pat) n i true)
                  (c_string (String.list_ascii_of_string line)) = true))) /\
  (forall fuel file_name line_num line,
     contains (Shared (String.list_ascii_of_string pat) n i false) (c_string line) = true ->
     match_loop fuel (Shared (String.list_ascii_of_string pat) n i false) file_name line_num (c_string line) 0
       = None).
Proof.
  intros Ho. split; [|intros; rewrite match_loop_pipe by done; by case_match].
  unfold ptgrep_main. rewrite Ho. set (sh := Shared _ n i true).
  destruct (run_threads_tty sh fs (f :: files) eq_refl) as (rs & -> & H1 & H2).
  cbn [mbind option_bind]. eexists _, _. split; [reflexivity|].
  rewrite (forallb_fmap (fun r => snd (fst r))), H1, <- forallb_fmap.
  rewrite (existsb_fmap snd), H2, <- existsb_fmap.
  pose proof (all_opened fs (f :: files)) as E1. pose proof (file_contains_any sh fs (f :: files)) as E2.
  rewrite <- E1, <- E2. unfold EXIT_SUCCESS, EXIT_FAILURE.
  destruct (forallb _ (f :: files)), (existsb _ (f :: files)); cbn; naive_solver.
Qed.

(* ------------------------------------------------------------------ *)
(** ** The properties at concrete files *)

Definition demo_fs (f : string) : option string :=
  if bool_decide (f = "a") then Some ("banana" +:+ nl +:+ "apple" +:+ nl) else None.

Lemma ptgrep_terminal_matches_witness :
  let sh := Shared (String.list_ascii_of_string "ana") false false true in
  match_loop 7 sh "a" 0 (String.list_ascii_of_string "banana") 0 =
    Some ["a: "; highlight sh (String.list_ascii_of_string "banana") 1;
          "a: "; highlight sh (String.list_ascii_of_string "banana") 3].
Proof.
  intros sh. exact (ptgrep_terminal_matches sh "a" 0 (String.list_ascii_of_string "banana") eq_refl).
Defined.

Lemma ptgrep_status_witness :
  match_loop 1000 (Shared (String.list_ascii_of_string "ana") true false false) "a" 0
    (String.list_ascii_of_string "banana") 0 = None.
Proof.
  refine (proj2 (ptgrep_status "ptgrep" demo_fs ["n"%char] "ana" "a" [] true false _) 1000%nat "a" 0
    (String.list_ascii_of_string "banana") _); reflexivity.
Defined.

(** A null byte hides what is behind it in its line, and only there. *)
Example null_byte_hides :
  let sh := Shared (String.list_ascii_of_string "ana") false false true in
  let hidden := "x" +:+ String "000" "ana" +:+ nl in
  thread_run sh "f" (Some hidden) = Some ([], true, false) /\
  (snd <$> thread_run sh "f" (Some (hidden +:+ "ana" +:+ nl))) = Some true.
Proof. by split. Qed.
