(* ===== verification/Fifo.v ===== *)
(** What a list of [ex09/primes] promises to the threads that share it: a
    first-in first-out queue of [int] values whose [push] may fail. The clients
    are proved against this interface; [LinkedList] implements it. *)

From S2P Require Import Prelude.

(** Operations on the queue state [Q]; [None] is undefined behaviour. *)
Class fifo (Q : Type) := {
  f_is_empty : Q -> bool;
  f_push : Z -> Q -> option (bool * Q);
  f_pop : Q -> option (option Z * Q);
  (** the state holds these values, oldest first *)
  f_holds : Q -> list Z -> Prop;
}.

(** The laws of the interface. *)
Class fifo_laws (Q : Type) `{!fifo Q} := {
  f_is_empty_holds q vs : f_holds q vs -> f_is_empty q = bool_decide (vs = []);
  f_push_holds q vs v :
    f_holds q vs -> Z.of_nat (length vs) + 1 < 2 ^ 64 ->
    exists ok q', f_push v q = Some (ok, q') /\
      f_holds q' (if ok : bool then vs ++ [v] else vs);
  f_pop_holds q vs :
    f_holds q vs -> exists q', f_pop q = Some (head vs, q') /\ f_holds q' (tail vs);
}.

(* ------------------------------------------------------------------ *)
(** ** Traces *)

Inductive fifo_op := Push (v : Z) | Pop | Size.
Inductive fifo_res := Pushed (ok : bool) | Popped (v : option Z) | Sized (n : Z).

(** What the contents become when an operation gives a result; [None] when it
    must not give it. *)
Definition fifo_spec (vs : list Z) (e : fifo_op * fifo_res) : option (list Z) :=
  match e with
  | (Push v, Pushed true) => Some (vs ++ [v])
  | (Push v, Pushed false) => Some vs
  | (Pop, Popped r) => if decide (r = head vs) then Some (tail vs) else None
  | (Size, Sized n) => if decide (n = Z.of_nat (length vs)) then Some vs else None
  | _ => None
  end.

Fixpoint fifo_trace (vs : list Z) (es : list (fifo_op * fifo_res)) : option (list Z) :=
  match es with
  | [] => Some vs
  | e :: es => vs' ← fifo_spec vs e; fifo_trace vs' es
  end.
