(* ===== verification/LinkedList.v ===== *)
(** [ex09/primes/list.c]: the singly linked list, on a heap of nodes, and the
    interface [fifo] it offers to the threads of [primes.c]. *)

From S2P Require Import Prelude.
From S2P Require Import Fifo.

(** [struct node] and [struct list]; address 0 is [NULL]. *)
Record node := Node { next : Z; value : Z }.
Record llist := LList { head : Z; tail : Z; size : Z }.

Abbreviation node_heap := (gmap Z node).

(** A list together with the heap its nodes live in. *)
Record list_state := ListState { nodes : node_heap; lst : llist }.

(** [malloc(sizeof *node)]: the new address in a heap, if any. *)
Class node_alloc := {
  malloc_node : node_heap -> option Z;
  malloc_node_fresh h a : malloc_node h = Some a -> h !! a = None /\ a <> 0;
}.

(* ------------------------------------------------------------------ *)
(** ** Operations *)

(** [list_init], when [calloc] succeeds. *)
Definition list_init (h : node_heap) : list_state := ListState h (LList 0 0 0).

Definition list_size (s : list_state) : Z := size (lst s).
Definition list_is_empty (s : list_state) : bool := size (lst s) =? 0.

(** [list_push]: whether it succeeded, and the new state; [None] is a null or
    dangling [tail]. *)
Definition list_push `{node_alloc} (v : Z) (s : list_state) : option (bool * list_state) :=
  match malloc_node (nodes s) with
  | None => Some (false, s)
  | Some a =>
      let h := <[a := Node 0 v]> (nodes s) in
      let l := lst s in
      if head l =? 0 then Some (true, ListState h (LList a a (size l + 1)%C))
      else
        t ← h !! tail l;
        Some (true, ListState (<[tail l := Node a (value t)]> h) (LList (head l) a (size l + 1)%C))
  end.

(** [list_pop]: the value, if the list was not empty. *)
Definition list_pop (s : list_state) : option (option Z * list_state) :=
  let l := lst s in
  if size l =? 0 then Some (None, s) else
  rm ← nodes s !! head l;
  let hd := next rm in
  Some (Some (value rm),
        ListState (delete (head l) (nodes s))
                  (LList hd (if hd =? 0 then 0 else tail l) (size l - 1)%C)).

(** [list_destroy]: the heap after the loop; as many iterations as elements, and
    the one that finds the list empty. *)
Fixpoint pop_all (fuel : nat) (s : list_state) : option list_state :=
  '(v, s') ← list_pop s;
  match v, fuel with
  | None, _ => Some s'
  | Some _, O => None
  | Some _, S fuel => pop_all fuel s'
  end.

Definition list_destroy (s : list_state) : option node_heap :=
  nodes <$> pop_all (Z.to_nat (size (lst s))) s.

(* ------------------------------------------------------------------ *)
(** ** The list in memory *)

(** [p] points to the nodes [ns] (addresses and values), linked in order. *)
Fixpoint linked (h : node_heap) (p : Z) (ns : list (Z * Z)) : Prop :=
  match ns with
  | [] => p = 0
  | (a, v) :: ns => p = a /\ a <> 0 /\ exists n, h !! a = Some (Node n v) /\ linked h n ns
  end.

Definition last_address (ns : list (Z * Z)) : Z := default 0 (fst <$> last ns).

(** The state represents the nodes [ns]. *)
Record list_rep (s : list_state) (ns : list (Z * Z)) : Prop := {
  rep_linked : linked (nodes s) (head (lst s)) ns;
  rep_distinct : NoDup ns.*1;
  rep_tail : tail (lst s) = last_address ns;
  rep_size : size (lst s) = Z.of_nat (length ns);
  rep_bound : Z.of_nat (length ns) < 2 ^ 64;
}.

Lemma linked_frame h h' p ns :
  (forall a, a ∈ ns.*1 -> h' !! a = h !! a) -> linked h p ns -> linked h' p ns.
Proof.
  revert p. induction ns as [|[a v] ns IH]; intros p Hf; simpl; [done|].
  intros (-> & Ha & n & Hn & Hl). split_and!; [done..|]. exists n. split.
  - rewrite Hf; [done|]. set_solver.
  - apply IH; [|done]. intros b Hb. apply Hf. set_solver.
Qed.

Lemma linked_addresses h p ns a : linked h p ns -> a ∈ ns.*1 -> is_Some (h !! a) /\ a <> 0.
Proof.
  revert p. induction ns as [|[b v] ns IH]; intros p; simpl; [set_solver|].
  intros (-> & Hb & n & Hn & Hl) [-> | Ha]%elem_of_cons; [by rewrite Hn|by eapply IH].
Qed.

(** A new node is linked behind the last one. *)
Lemma linked_snoc h p ns t w a v :
  linked h p (ns ++ [(t, w)]) -> NoDup (ns ++ [(t, w)]).*1 -> h !! a = None -> a <> 0 ->
  linked (<[t := Node a w]> (<[a := Node 0 v]> h)) p (ns ++ [(t, w); (a, v)]).
Proof.
  revert p. induction ns as [|[b u] ns IH]; intros p Hl Hd Ha Hz; simpl in *.
  - destruct Hl as (-> & Ht & n & Hn & _). split_and!; [done..|]. exists a.
    rewrite lookup_insert_eq. split; [done|]. split_and!; [done..|]. exists 0.
    split; [|done]. rewrite lookup_insert_ne by congruence. by rewrite lookup_insert_eq.
  - destruct Hl as (-> & Hb & n & Hn & Hl). apply NoDup_cons in Hd as [Hbd Hd].
    split_and!; [done..|]. exists n. split; [|by apply IH].
    rewrite !lookup_insert_ne; [done|congruence|].
    intros ->. apply Hbd. rewrite fmap_app. set_solver.
Qed.

Lemma list_init_rep h : list_rep (list_init h) [].
Proof. by constructor; try done; constructor. Qed.

Lemma list_push_rep `{node_alloc} v s ns :
  list_rep s ns -> Z.of_nat (length ns) + 1 < 2 ^ 64 ->
  exists ok s', list_push v s = Some (ok, s') /\
    (ok = false -> s' = s) /\
    (ok = true -> exists a, malloc_node (nodes s) = Some a /\ list_rep s' (ns ++ [(a, v)])).
Proof.
  intros [Hl Hd Ht Hs Hb] Hlen. unfold list_push.
  destruct (malloc_node (nodes s)) as [a|] eqn:Em; [|by do 2 eexists].
  destruct (malloc_node_fresh _ _ Em) as [Hfresh Hz].
  assert (a ∉ ns.*1) as Hnew.
  { intros Hin. destruct (linked_addresses _ _ _ _ Hl Hin) as [[x Hx] _]. congruence. }
  assert (NoDup (ns ++ [(a, v)]).*1) as Hd'.
  { rewrite fmap_app. apply NoDup_app. split_and!; [done| |apply NoDup_singleton].
    intros x Hx Hx'. set_solver. }
  assert ((size (lst s) + 1)%C = Z.of_nat (length (ns ++ [(a, v)]))) as Hs'.
  { rewrite length_app. simpl. rewrite Hs, u64_small by lia. lia. }
  destruct ns as [|[t w] ns _] using rev_ind.
  - simpl in Hl. rewrite Hl, Z.eqb_refl. do 2 eexists. split; [done|]. split; [done|].
    intros _. exists a. split; [done|]. constructor; simpl; [|done..].
    split_and!; [done..|]. exists 0. by rewrite lookup_insert_eq.
  - assert (tail (lst s) = t) as Et by (rewrite Ht; unfold last_address; by rewrite last_snoc).
    assert (head (lst s) <> 0) as Hh.
    { destruct ns as [|[b u] ns]; simpl in Hl; destruct Hl as (-> & ? & _); done. }
    rewrite (proj2 (Z.eqb_neq _ _) Hh), Et.
    assert (exists n, nodes s !! t = Some (Node n w)) as [n Hn].
    { clear -Hl. revert Hl. generalize (head (lst s)).
      induction ns as [|[b u] ns IH]; simpl; intros p (-> & _ & n & Hn & Hl); eauto. }
    rewrite lookup_insert_ne by congruence. rewrite Hn. simpl. do 2 eexists.
    split; [done|]. split; [done|]. intros _. exists a. split; [done|].
    constructor; simpl; [|done| |done|].
    + rewrite <- app_assoc. by apply linked_snoc.
    + unfold last_address. by rewrite last_snoc.
    + rewrite !length_app in *. simpl in *. lia.
Qed.

Lemma list_pop_rep s ns :
  list_rep s ns ->
  match ns with
  | [] => list_pop s = Some (None, s)
  | (a, v) :: ns => exists s', list_pop s = Some (Some v, s') /\ list_rep s' ns /\
                      nodes s' = delete a (nodes s)
  end.
Proof.
  intros [Hl Hd Ht Hs Hb]. unfold list_pop. destruct ns as [|[a v] ns]; simpl in *; [by rewrite Hs|].
  destruct (Z.eqb_spec (size (lst s)) 0); [lia|]. destruct Hl as (-> & Ha & nx & Hn & Hl).
  rewrite Hn. simpl. eexists. split; [done|]. split; [|done].
  apply NoDup_cons in Hd as [Hnew Hd].
  assert (linked (delete a (nodes s)) nx ns) as Hl'.
  { eapply linked_frame; [|done]. intros b Hbn. rewrite lookup_delete_ne; [done|]. by intros ->. }
  constructor; simpl; [done|done| |rewrite Hs, u64_small by lia; lia|lia].
  destruct ns as [|[b u] ns]; simpl in Hl'; [by rewrite Hl'|].
  destruct Hl' as (-> & Hbz & _). rewrite (proj2 (Z.eqb_neq _ _) Hbz), Ht.
  unfold last_address. by rewrite last_cons_cons.
Qed.

Lemma pop_all_rep ns : forall s fuel,
  list_rep s ns -> (length ns <= fuel)%nat ->
  exists s', pop_all fuel s = Some s' /\ list_rep s' [] /\
    nodes s' = foldl (fun h a => delete a h) (nodes s) ns.*1.
Proof.
  induction ns as [|[a v] ns IH]; intros s fuel Hr Hf; pose proof (list_pop_rep _ _ Hr) as Hp.
  - exists s. destruct fuel; simpl; by rewrite Hp.
  - destruct Hp as (s1 & Hp & Hr1 & Hn). destruct fuel as [|fuel]; simpl in *; [lia|].
    rewrite Hp. simpl. destruct (IH s1 fuel Hr1) as (s' & -> & Hr' & Hh); [lia|].
    exists s'. rewrite Hh, Hn. done.
Qed.

(* ------------------------------------------------------------------ *)
(** ** The interface *)

#[export] Instance list_fifo `{node_alloc} : fifo list_state := {|
  f_is_empty := list_is_empty;
  f_push := list_push;
  f_pop := list_pop;
  f_holds s vs := exists ns, list_rep s ns /\ vs = ns.*2;
|}.

#[export] Instance list_fifo_laws `{node_alloc} : fifo_laws list_state.
Proof.
  split.
  - intros s vs (ns & Hr & ->). simpl. unfold list_is_empty. rewrite (rep_size _ _ Hr).
    by destruct ns.
  - intros s vs v (ns & Hr & ->) Hlen. rewrite length_fmap in Hlen.
    destruct (list_push_rep v s ns Hr Hlen) as ([] & s' & Hp & Hf & Ht).
    + exists true, s'. destruct (Ht eq_refl) as (a & _ & Hr'). split; [done|].
      exists (ns ++ [(a, v)]). by rewrite fmap_app.
    + exists false, s'. split; [done|]. rewrite (Hf eq_refl). by exists ns.
  - intros s vs (ns & Hr & ->). pose proof (list_pop_rep _ _ Hr) as Hp. destruct ns as [|[a v] ns].
    + exists s. split; [done|]. by exists [].
    + destruct Hp as (s' & Hp & Hr' & _). exists s'. split; [done|]. by exists ns.
Qed.

(** A client's calls, with their results. *)
Definition list_call `{node_alloc} (o : fifo_op) (s : list_state) : option (fifo_res * list_state) :=
  match o with
  | Push v => '(ok, s) ← list_push v s; Some (Pushed ok, s)
  | Pop => '(v, s) ← list_pop s; Some (Popped v, s)
  | Size => Some (Sized (list_size s), s)
  end.

Fixpoint list_calls `{node_alloc} (os : list fifo_op) (s : list_state)
    : option (list fifo_res * list_state) :=
  match os with
  | [] => Some ([], s)
  | o :: os => '(r, s) ← list_call o s; '(rs, s) ← list_calls os s; Some (r :: rs, s)
  end.

(** The list has its own nodes on the heap [h0], and nothing else changed. *)
Record owns (h0 : node_heap) (s : list_state) (ns : list (Z * Z)) : Prop := {
  owns_rep : list_rep s ns;
  owns_free : foldl (fun h a => delete a h) (nodes s) ns.*1 = h0;
}.

Lemma foldl_delete_lookup (l : list Z) (h : node_heap) a :
  foldl (fun h a => delete a h) h l !! a = if decide (a ∈ l) then None else h !! a.
Proof.
  revert h. induction l as [|b l IH]; intros h; cbn [foldl]; [by rewrite decide_False by set_solver|].
  rewrite IH. destruct (decide (a ∈ l)); [by rewrite decide_True by set_solver|].
  destruct (decide (a = b)) as [->|].
  - rewrite lookup_delete_eq, decide_True; [done|set_solver].
  - rewrite lookup_delete_ne, decide_False; [done|set_solver|done].
Qed.

(** After a successful push, freeing the nodes of the list still gives [h0]. *)
Lemma list_push_frame `{node_alloc} v s ns h0 a s' :
  list_rep s ns -> malloc_node (nodes s) = Some a -> list_push v s = Some (true, s') ->
  foldl (fun h a => delete a h) (nodes s) ns.*1 = h0 ->
  foldl (fun h a => delete a h) (nodes s') (ns ++ [(a, v)]).*1 = h0.
Proof.
  intros Hr Hm Hp <-. apply map_eq. intros b. rewrite !foldl_delete_lookup, fmap_app.
  assert (b <> a -> b ∉ ns.*1 -> nodes s' !! b = nodes s !! b) as Hsame.
  { intros Hba Hbn. unfold list_push in Hp. rewrite Hm in Hp.
    destruct (Z.eqb_spec (head (lst s)) 0) as [Hz|Hz].
    { injection Hp as <-. simpl. by rewrite lookup_insert_ne. }
    destruct (_ !! tail (lst s)) as [t|]; [|done]. injection Hp as <-. simpl.
    rewrite !lookup_insert_ne; [done|done|]. intros <-. apply Hbn.
    destruct Hr as [Hl _ -> _ _]. unfold last_address.
    destruct ns as [|[c w] ns _] using rev_ind; [done|]. rewrite last_snoc, fmap_app. set_solver. }
  destruct (malloc_node_fresh _ _ Hm) as [Hfresh _].
  destruct (decide (b ∈ ns.*1)), (decide (b ∈ ns.*1 ++ [(a, v)].*1)) as [Hin|];
    [done|set_solver| |by apply Hsame; set_solver].
  apply elem_of_app in Hin as [|Hin]; [done|]. by apply list_elem_of_singleton in Hin as ->.
Qed.

Lemma list_call_owns `{node_alloc} h0 s ns o :
  owns h0 s ns -> Z.of_nat (length ns) + 1 < 2 ^ 64 ->
  exists r s' ns', list_call o s = Some (r, s') /\ owns h0 s' ns' /\
    fifo_spec ns.*2 (o, r) = Some ns'.*2 /\ (length ns' <= length ns + 1)%nat.
Proof.
  intros [Hr Ho] Hlen. destruct o as [v| |]; simpl.
  - destruct (list_push_rep v s ns Hr Hlen) as ([] & s' & Hp & Hf & Ht); rewrite Hp; simpl.
    + destruct (Ht eq_refl) as (a & Hm & Hr'). exists (Pushed true), s', (ns ++ [(a, v)]).
      split; [done|]. split; [|by rewrite fmap_app, length_app; simpl].
      split; [done|]. apply (list_push_frame _ _ _ _ _ _ Hr Hm Hp Ho).
    + exists (Pushed false), s', ns. rewrite (Hf eq_refl). split; [done|]. split; [by split|].
      split; [done|lia].
  - pose proof (list_pop_rep _ _ Hr) as Hp. destruct ns as [|[a v] ns].
    + exists (Popped None), s, []. rewrite Hp. simpl. split; [done|]. split; [by split|].
      split; [done|lia].
    + destruct Hp as (s' & Hp & Hr' & Hn). exists (Popped (Some v)), s', ns.
      rewrite Hp. simpl. rewrite decide_True by done. split; [done|].
      split; [split; [done|by rewrite Hn]|]. split; [done|lia].
  - exists (Sized (list_size s)), s, ns. split; [done|]. split; [by split|].
    rewrite decide_True; [split; [done|lia]|].
    unfold list_size. by rewrite (rep_size _ _ Hr), length_fmap.
Qed.

Lemma list_calls_owns `{node_alloc} h0 os : forall s ns,
  owns h0 s ns -> Z.of_nat (length ns) + Z.of_nat (length os) < 2 ^ 64 ->
  exists rs s' ns', list_calls os s = Some (rs, s') /\ owns h0 s' ns' /\
    length rs = length os /\ fifo_trace ns.*2 (zip os rs) = Some ns'.*2.
Proof.
  induction os as [|o os IH]; intros s ns Ho Hlen; simpl in *; [by exists [], s, ns|].
  destruct (list_call_owns h0 s ns o Ho) as (r & s1 & ns1 & -> & Ho1 & Hs1 & Hl1); [lia|].
  simpl. destruct (IH s1 ns1 Ho1) as (rs & s' & ns' & -> & Ho' & Hl' & Ht'); [lia|].
  exists (r :: rs), s', ns'. split; [done|]. split; [done|]. split; [simpl; lia|]. cbn [zip zip_with fifo_trace]. rewrite Hs1. exact Ht'.
Qed.

Lemma list_destroy_owns h0 s ns : owns h0 s ns -> list_destroy s = Some h0.
Proof.
  intros [Hr Ho]. unfold list_destroy.
  destruct (pop_all_rep ns s (Z.to_nat (size (lst s))) Hr) as (s' & -> & _ & Hn).
  - rewrite (rep_size _ _ Hr). lia.
  - simpl. by rewrite Hn, Ho.
Qed.

(** C7: the list of [ex09/primes] is a first-in first-out queue: whatever pushes,
    pops and size queries follow [list_init] on a heap [h0], none of them is
    undefined, every result is the one a mathematical queue gives (a push that
    finds no memory says so and changes nothing), and [list_destroy] then gives
    back [h0]: it frees all the nodes of the list, each once, and no other. *)
Theorem list_refines_fifo `{node_alloc} (h0 : node_heap) (os : list fifo_op)
    (Hlen : Z.of_nat (length os) < 2 ^ 64) :
  exists rs s vs, list_calls os (list_init h0) = Some (rs, s) /\ length rs = length os /\
    fifo_trace [] (zip os rs) = Some vs /\ f_holds s vs /\ list_destroy s = Some h0.
Proof.
  assert (owns h0 (list_init h0) []) as Ho by (split; [apply list_init_rep|done]).
  destruct (list_calls_owns h0 os _ _ Ho) as (rs & s & ns & Hc & Ho' & Hl & Ht); [simpl; lia|].
  exists rs, s, ns.*2. split_and!; [done..| |by eapply list_destroy_owns].
  exists ns. by split; [apply owns_rep in Ho'|].
Qed.

(** A heap that hands out the addresses 1, 2, ... up to [n]. *)
Definition counting_alloc (n : nat) (h : node_heap) : option Z :=
  find (fun a => bool_decide (h !! a = None)) (Z.of_nat <$> seq 1 n).

#[export, program] Instance counting_node_alloc (n : nat) : node_alloc :=
  {| malloc_node := counting_alloc n |}.
Next Obligation.
  intros n h a Hf. apply find_some in Hf as [Hin Hb].
  apply bool_decide_eq_true in Hb. split; [done|].
  apply in_map_iff in Hin as (k & <- & Hk). apply in_seq in Hk. lia.
Qed.

Theorem list_refines_fifo_witness :
  let os := [Push 7; Push 8; Push 9; Size; Pop; Pop; Pop] in
  Z.of_nat (length os) < 2 ^ 64 /\
  fst <$> list_calls (H := counting_node_alloc 2) os (list_init ∅) =
    Some [Pushed true; Pushed true; Pushed false; Sized 2; Popped (Some 7); Popped (Some 8); Popped None] /\
  exists rs s vs, list_calls (H := counting_node_alloc 2) os (list_init ∅) = Some (rs, s) /\
    length rs = length os /\ fifo_trace [] (zip os rs) = Some vs /\
    f_holds (fifo := list_fifo (H := counting_node_alloc 2)) s vs /\ list_destroy s = Some ∅.
Proof.
  split; [done|]. split; [vm_compute; reflexivity|].
  apply (list_refines_fifo (H := counting_node_alloc 2)). done.
Defined.
