(* ===== verification/Primes.v ===== *)
(** [ex09/primes/primes.c]: producers and consumers of prime numbers sharing one
    list, one mutex and one condition variable, as a step relation. The list is
    any implementation of [fifo]. *)

From S2P Require Import Prelude.
From S2P Require Import Fifo.
From S2P Require Import LinkedList.
From Stdlib Require Import Znumtheory.

(* ------------------------------------------------------------------ *)
(** ** The primality test *)

(** [for (int k = 2; k < n; ++k) if (n % k == 0) return false;] *)
Fixpoint prime_loop (fuel : nat) (k n : Z) : option bool :=
  if k <? n then
    if Z.rem n k =? 0 then Some false
    else match fuel with
         | O => None
         | S fuel => prime_loop fuel (k + 1) n
         end
  else Some true.

(** [is_prime] for [n >= 0] (the assertion). *)
Definition is_prime (n : Z) : option bool :=
  if (n =? 0) || (n =? 1) then Some false else prime_loop (Z.to_nat n) 2 n.

(* ------------------------------------------------------------------ *)
(** ** The threads *)

Definition PRODUCERS : nat := 5.
Definition CONSUMERS : nat := 2.

(** Where a producer is; [k] is the loop variable. *)
Inductive p_pc :=
| PTest (k : Z)               (* the head of the [for] loop *)
| PLock (k : Z)               (* [pthread_mutex_lock] *)
| PPush (k : Z)               (* [list_push] *)
| PNotify (k : Z) (ok : bool) (* [error] or [pthread_cond_signal], [++counter] *)
| PUnlock (k : Z)
| PExit.

Inductive c_pc :=
| CLock
| CTest                       (* [while (list_is_empty(...))] *)
| CWaiting                    (* asleep in [pthread_cond_wait] *)
| CWake                       (* woken, needs the mutex *)
| CFinished                   (* [if (data->shared->finished)] in the loop *)
| CPop
| CUnlock (tmp : bool)
| CAgain                      (* [if (tmp)]: the list was empty *)
| CExit.

Inductive m_pc :=
| MCreateConsumers
| MCreateProducers
| MJoinProducers (tx : nat) (produced : Z)
| MFinish (produced : Z)
| MBroadcast (produced : Z)
| MJoinConsumers (tx : nat) (produced consumed : Z)
| MReturn (produced consumed status : Z).

Inductive tid := Producer (i : nat) | Consumer (i : nat).

#[export] Instance tid_eq : EqDecision tid.
Proof. solve_decision. Defined.

(** [struct thread_data]: the position of the thread and its [counter]. *)
Abbreviation producer := (p_pc * Z)%type.
Abbreviation consumer := (c_pc * Z)%type.

Record state (Q : Type) := State {
  data : Q;                    (* [shared.list] *)
  finished : bool;             (* [shared.finished] *)
  list_mutex : option tid;     (* who holds it *)
  producers : list producer;
  consumers : list consumer;
  main_pc : m_pc;
  messages : Z;                (* "failed to push data" lines on stderr *)
}.
Arguments State {_}. Arguments data {_}. Arguments finished {_}. Arguments list_mutex {_}.
Arguments producers {_}. Arguments consumers {_}. Arguments main_pc {_}. Arguments messages {_}.

(** What the scheduler and the system choose: which thread takes its next step,
    whom a signal wakes, whether [pthread_create] succeeds; a waiting thread may
    also wake up spuriously. *)
Inductive event :=
| Main (created : bool)
| Prod (i : nat) (woken : option nat)
| Cons (i : nat)
| Spurious (i : nat).

Section threads.
Context {Q : Type} `{!fifo Q}.

Definition set_producer (i : nat) (t : producer) (s : state Q) : state Q :=
  State (data s) (finished s) (list_mutex s) (<[i:=t]> (producers s)) (consumers s) (main_pc s) (messages s).
Definition set_consumer (i : nat) (t : consumer) (s : state Q) : state Q :=
  State (data s) (finished s) (list_mutex s) (producers s) (<[i:=t]> (consumers s)) (main_pc s) (messages s).
Definition set_mutex (m : option tid) (s : state Q) : state Q :=
  State (data s) (finished s) m (producers s) (consumers s) (main_pc s) (messages s).
Definition set_data (q : Q) (s : state Q) : state Q :=
  State q (finished s) (list_mutex s) (producers s) (consumers s) (main_pc s) (messages s).
Definition set_main (m : m_pc) (s : state Q) : state Q :=
  State (data s) (finished s) (list_mutex s) (producers s) (consumers s) m (messages s).
Definition set_messages (n : Z) (s : state Q) : state Q :=
  State (data s) (finished s) (list_mutex s) (producers s) (consumers s) (main_pc s) n.

(** [pthread_mutex_lock] returns only when the mutex is free. *)
Definition lock (t : tid) (s : state Q) : option (state Q) :=
  if decide (list_mutex s = None) then Some (set_mutex (Some t) s) else None.

Definition waiting (c : consumer) : bool := match fst c with CWaiting => true | _ => false end.
Definition wake (c : consumer) : consumer := if waiting c then (CWake, snd c) else c.

(** [pthread_cond_signal]: one waiting thread, if there is any. *)
Definition cond_signal (woken : option nat) (s : state Q) : option (state Q) :=
  match woken with
  | None => if existsb waiting (consumers s) then None else Some s
  | Some j =>
      c ← consumers s !! j;
      if waiting c then Some (set_consumer j (wake c) s) else None
  end.

(** [run_producer] *)
Definition producer_step (i : nat) (woken : option nat) (s : state Q) : option (state Q) :=
  '(pc, counter) ← producers s !! i;
  match pc with
  | PTest k =>
      if k <? 5000 then
        p ← is_prime k;
        Some (set_producer i (if (p : bool) then PLock k else PTest (k + 1), counter) s)
      else Some (set_producer i (PExit, counter) s)
  | PLock k => set_producer i (PPush k, counter) <$> lock (Producer i) s
  | PPush k =>
      '(ok, q) ← f_push k (data s);
      Some (set_producer i (PNotify k ok, counter) (set_data q s))
  | PNotify k true => set_producer i (PUnlock k, counter + 1) <$> cond_signal woken s
  | PNotify k false => Some (set_producer i (PUnlock k, counter) (set_messages (messages s + 1) s))
  | PUnlock k => Some (set_producer i (PTest (k + 1), counter) (set_mutex None s))
  | PExit => None
  end.

(** [run_consumer] *)
Definition consumer_step (i : nat) (s : state Q) : option (state Q) :=
  '(pc, counter) ← consumers s !! i;
  match pc with
  | CLock => set_consumer i (CTest, counter) <$> lock (Consumer i) s
  | CTest =>
      if f_is_empty (data s) then Some (set_consumer i (CWaiting, counter) (set_mutex None s))
      else Some (set_consumer i (CPop, counter) s)
  | CWaiting => None
  | CWake => set_consumer i (CFinished, counter) <$> lock (Consumer i) s
  | CFinished =>
      if finished s then Some (set_consumer i (CExit, counter) (set_mutex None s))
      else Some (set_consumer i (CTest, counter) s)
  | CPop =>
      '(v, q) ← f_pop (data s);
      Some (set_consumer i (CUnlock (bool_decide (v = None)), counter) (set_data q s))
  | CUnlock tmp =>
      Some (set_consumer i (if tmp then (CAgain, counter) else (CLock, counter + 1)) (set_mutex None s))
  | CAgain => Some (set_consumer i (if finished s then CExit else CLock, counter) s)
  | CExit => None
  end.

Definition add_consumer (s : state Q) : state Q :=
  State (data s) (finished s) (list_mutex s) (producers s) (consumers s ++ [(CLock, 0)]) (main_pc s)
    (messages s).
Definition add_producer (s : state Q) : state Q :=
  State (data s) (finished s) (list_mutex s) (producers s ++ [(PTest 1000, 0)]) (consumers s) (main_pc s)
    (messages s).

(** [main], with [_run_bulk] unrolled: the two creation loops, the joins and the
    exit status. *)
Definition main_step (created : bool) (s : state Q) : option (state Q) :=
  match main_pc s with
  | MCreateConsumers =>
      if (length (consumers s) <? CONSUMERS)%nat then
        if created then Some (add_consumer s) else Some (set_main (MFinish 0) s)
      else Some (set_main MCreateProducers s)
  | MCreateProducers =>
      if (length (producers s) <? PRODUCERS)%nat then
        if created then Some (add_producer s) else Some (set_main (MJoinProducers 0 0) s)
      else Some (set_main (MJoinProducers 0 0) s)
  | MJoinProducers tx produced =>
      match producers s !! tx with
      | Some (PExit, counter) => Some (set_main (MJoinProducers (S tx) (produced + counter)) s)
      | Some _ => None
      | None => Some (set_main (MFinish produced) s)
      end
  | MFinish produced =>
      Some (State (data s) true (list_mutex s) (producers s) (consumers s) (MBroadcast produced) (messages s))
  | MBroadcast produced =>
      Some (State (data s) (finished s) (list_mutex s) (producers s) (wake <$> consumers s)
              (MJoinConsumers 0 produced 0) (messages s))
  | MJoinConsumers tx produced consumed =>
      match consumers s !! tx with
      | Some (CExit, counter) => Some (set_main (MJoinConsumers (S tx) produced (consumed + counter)) s)
      | Some _ => None
      | None => Some (set_main (MReturn produced consumed (if produced =? consumed then 1 else 0)) s)
      end
  | MReturn _ _ _ => None
  end.

Definition step (e : event) (s : state Q) : option (state Q) :=
  match e with
  | Main created => main_step created s
  | Prod i woken => producer_step i woken s
  | Cons i => consumer_step i s
  | Spurious i =>
      c ← consumers s !! i;
      if waiting c then Some (set_consumer i (wake c) s) else None
  end.

Fixpoint run (es : list event) (s : state Q) : option (state Q) :=
  match es with
  | [] => Some s
  | e :: es => s' ← step e s; run es s'
  end.

(** [main] after [list_init]. *)
Definition start (q : Q) : state Q := State q false None [] [] MCreateConsumers 0.

End threads.

(* ------------------------------------------------------------------ *)
(** ** Primality *)

Lemma prime_loop_spec fuel : forall k n,
  2 <= k <= n -> n - k <= Z.of_nat fuel ->
  exists b, prime_loop fuel k n = Some b /\
    (b = true <-> forall d, k <= d < n -> ~ (d | n)).
Proof.
  induction fuel as [|fuel IH]; intros k n Hk Hf; cbn [prime_loop].
  { destruct (Z.ltb_spec k n); [lia|]. eexists. split; [done|]. split; [lia|done]. }
  destruct (Z.ltb_spec k n); [|eexists; split; [done|]; split; [lia|done]].
  rewrite Z.rem_mod_nonneg by lia. destruct (Z.eqb_spec (n mod k) 0) as [Hm|Hm].
  - eexists. split; [done|]. split; [done|]. intros Hd. destruct (Hd k); [lia|].
    apply Z.mod_divide; [lia|done].
  - destruct (IH (k + 1) n) as (b & -> & Hb); [lia..|]. eexists. split; [done|].
    rewrite Hb. split; intros Hd d Hr; [|apply Hd; lia].
    destruct (decide (d = k)) as [->|]; [|apply Hd; lia].
    intros Hdiv. apply Hm, Z.mod_divide; [lia|done].
Qed.

Lemma is_prime_total n : 0 <= n -> exists b, is_prime n = Some b /\ (b = true <-> prime n).
Proof.
  intros Hn. unfold is_prime. setoid_rewrite <- prime_alt. unfold Z.prime.
  destruct (Z.eqb_spec n 0); [eexists; split; [done|split; [done|lia]]|].
  destruct (Z.eqb_spec n 1); [eexists; split; [done|split; [done|lia]]|]. simpl.
  destruct (prime_loop_spec (Z.to_nat n) 2 n) as (b & -> & Hb); [lia..|].
  eexists. split; [done|]. rewrite Hb. split.
  - intros Hd. split; [lia|]. intros d Hr. apply Hd. lia.
  - intros [_ Hd] d Hr. apply Hd. lia.
Qed.

#[export] Instance prime_decision n : Decision (prime n) := prime_dec n.

(** [is_prime] ends on every non-negative [int] and decides primality. *)
Theorem is_prime_correct (n : Z) (Hn : 0 <= n <= INT_MAX) :
  is_prime n = Some (bool_decide (prime n)).
Proof.
  destruct (is_prime_total n) as (b & -> & Hb); [lia|]. f_equal.
  destruct b; symmetry; [by apply bool_decide_eq_true, Hb|].
  apply bool_decide_eq_false. intros Hp%Hb. done.
Qed.

(* ------------------------------------------------------------------ *)
(** ** The mutex *)

(** The thread is between [pthread_mutex_lock] and [pthread_mutex_unlock]. *)
Definition p_crit (pc : p_pc) : bool :=
  match pc with PPush _ | PNotify _ _ | PUnlock _ => true | _ => false end.
Definition c_crit (pc : c_pc) : bool :=
  match pc with CTest | CFinished | CPop | CUnlock _ => true | _ => false end.

(** The primes in [1000 .. k - 1]. *)
Definition prime_at (k : Z) : Z := match is_prime k with Some true => 1 | _ => 0 end.
Definition passed (k : Z) : Z := zsum prime_at (seqZ 1000 (k - 1000)).

(** The primes a producer at [pc] is done with. *)
Definition progress (pc : p_pc) : Z :=
  match pc with
  | PTest k | PLock k | PPush k | PNotify k _ => passed k
  | PUnlock k => passed (k + 1)
  | PExit => passed 5000
  end.

Definition p_ok (pc : p_pc) : Prop :=
  match pc with
  | PTest k => 1000 <= k <= 5000
  | PLock k | PPush k | PNotify k _ | PUnlock k => 1000 <= k < 5000 /\ is_prime k = Some true
  | PExit => True
  end.

(** A consumer never finds the list empty after its waiting loop. *)
Definition c_ok (pc : c_pc) : Prop := pc <> CUnlock true /\ pc <> CAgain.

Lemma passed_S k : 1000 <= k -> passed (k + 1) = passed k + prime_at k.
Proof.
  intros Hk. unfold passed. replace (k + 1 - 1000) with ((k - 1000) + 1) by lia.
  rewrite seqZ_app by lia. rewrite zsum_app. replace (1000 + (k - 1000)) with k by lia.
  change (seqZ k 1) with [0 + k]. rewrite Z.add_0_l. simpl. lia.
Qed.

Lemma passed_prime k : 1000 <= k -> is_prime k = Some true -> passed (k + 1) = passed k + 1.
Proof. intros Hk Hp. rewrite passed_S by done. unfold prime_at. by rewrite Hp. Qed.

Lemma passed_composite k : 1000 <= k -> is_prime k = Some false -> passed (k + 1) = passed k.
Proof. intros Hk Hp. rewrite passed_S by done. unfold prime_at. rewrite Hp. lia. Qed.

Lemma prime_at_range k : 0 <= prime_at k <= 1.
Proof. unfold prime_at. destruct (is_prime k) as [[]|]; lia. Qed.

Lemma passed_le k : 1000 <= k -> 0 <= passed k <= k - 1000.
Proof.
  intros Hk. unfold passed. set (l := seqZ 1000 (k - 1000)).
  assert (Z.of_nat (length l) = k - 1000) as Hl by (subst l; rewrite length_seqZ; lia).
  pose proof (zsum_le prime_at (fun _ => 1) l) as H1. pose proof (zsum_le (fun _ => 0) prime_at l) as H0.
  rewrite zsum_const in H0, H1.
  assert (forall i x, l !! i = Some x -> 0 <= prime_at x <= 1) as Hr by (intros; apply prime_at_range).
  split; [apply H0; intros; by apply prime_at_range|].
  rewrite Hl in H1. etrans; [apply H1; intros; by apply prime_at_range|lia].
Qed.

Section proofs.
Context {Q : Type} `{!fifo Q} `{!fifo_laws Q}.
Implicit Types s : state Q.

Definition holds (s : state Q) (t : tid) : bool :=
  match t with
  | Producer i => match producers s !! i with Some (pc, _) => p_crit pc | None => false end
  | Consumer i => match consumers s !! i with Some (pc, _) => c_crit pc | None => false end
  end.

(** Exactly the holder of the mutex is in its critical section. *)
Definition mutex_inv s : Prop := forall t, holds s t = true <-> list_mutex s = Some t.

(** Thread [t] moves, takes the mutex or gives it back. *)
Lemma mutex_step s s' t :
  mutex_inv s -> (forall t', t' <> t -> holds s' t' = holds s t') ->
  (list_mutex s' = list_mutex s /\ holds s' t = holds s t \/
   list_mutex s = None /\ list_mutex s' = Some t /\ holds s' t = true \/
   holds s t = true /\ list_mutex s' = None /\ holds s' t = false) ->
  mutex_inv s'.
Proof.
  intros Hm Ho Hc t'. pose proof (Hm t) as Ht. pose proof (Hm t') as Ht'.
  destruct (decide (t' = t)) as [->|Hn].
  - destruct Hc as [[-> ->]|[(_ & -> & ->)|(_ & -> & ->)]]; naive_solver.
  - rewrite (Ho _ Hn). destruct Hc as [[-> _]|[(E & -> & _)|(E & -> & _)]]; [done| |].
    + rewrite Ht', E. naive_solver.
    + apply Ht in E. rewrite Ht', E. naive_solver.
Qed.

Lemma mutex_same s s' :
  mutex_inv s -> (forall t, holds s' t = holds s t) -> list_mutex s' = list_mutex s -> mutex_inv s'.
Proof. intros Hm Hh He t. rewrite Hh, He. apply Hm. Qed.

Lemma holds_set_producer s i pc c t :
  is_Some (producers s !! i) ->
  holds (set_producer i (pc, c) s) t =
  if decide (t = Producer i) then p_crit pc else holds s t.
Proof.
  intros [x Hx]. destruct (decide (t = Producer i)) as [->|Hn].
  - cbn. by rewrite list_lookup_insert_eq by (by eapply lookup_lt_Some).
  - destruct t as [j|j]; [|done]. cbn.
    rewrite list_lookup_insert_ne; [done|congruence].
Qed.

Lemma holds_set_consumer s i pc c t :
  is_Some (consumers s !! i) ->
  holds (set_consumer i (pc, c) s) t =
  if decide (t = Consumer i) then c_crit pc else holds s t.
Proof.
  intros [x Hx]. destruct (decide (t = Consumer i)) as [->|Hn].
  - cbn. by rewrite list_lookup_insert_eq by (by eapply lookup_lt_Some).
  - destruct t as [j|j]; [done|]. cbn.
    rewrite list_lookup_insert_ne; [done|congruence].
Qed.

Lemma c_crit_wake c : c_crit (fst (wake c)) = c_crit (fst c).
Proof. by destruct c as [[] n]. Qed.

Lemma wake_pair c : wake c = (fst (wake c), snd c).
Proof. by destruct c as [[] n]. Qed.

Lemma cond_signal_cases woken s s' :
  cond_signal woken s = Some s' ->
  s' = s \/ exists j n, consumers s !! j = Some (CWaiting, n) /\ s' = set_consumer j (CWake, n) s.
Proof.
  unfold cond_signal. destruct woken as [j|].
  - destruct (consumers s !! j) as [[[] n]|] eqn:Ec; try done. intros [= <-]. right. by exists j, n.
  - destruct (existsb _ _); [done|]. intros [= <-]. by left.
Qed.

Record ctrl_inv s : Prop := {
  ctrl_mutex : mutex_inv s;
  ctrl_ok i pc c : producers s !! i = Some (pc, c) -> p_ok pc;
}.

Lemma lock_cases t s s' : lock t s = Some s' -> list_mutex s = None /\ s' = set_mutex (Some t) s.
Proof. unfold lock. case_decide; [|done]. by intros [= <-]. Qed.

(** The two ways a thread's step changes the control state. *)
Lemma ctrl_producer s s' i pc c pc' c' :
  ctrl_inv s -> producers s !! i = Some (pc, c) ->
  producers s' = <[i:=(pc', c')]> (producers s) -> p_ok pc' ->
  (forall j, holds s' (Consumer j) = holds s (Consumer j)) ->
  (list_mutex s' = list_mutex s /\ p_crit pc' = p_crit pc \/
   list_mutex s = None /\ list_mutex s' = Some (Producer i) /\ p_crit pc' = true \/
   p_crit pc = true /\ list_mutex s' = None /\ p_crit pc' = false) ->
  ctrl_inv s'.
Proof.
  intros [Hm Hok] Hi Hps Hp' Hc Hcase.
  assert (holds s (Producer i) = p_crit pc) as E by (simpl; by rewrite Hi).
  assert (holds s' (Producer i) = p_crit pc') as E'.
  { simpl. rewrite Hps, list_lookup_insert_eq; [done|by eapply lookup_lt_Some]. }
  split.
  - apply (mutex_step s s' (Producer i) Hm); [|by rewrite E, E'].
    intros [j|j] Hj; [|apply Hc]. simpl. rewrite Hps, list_lookup_insert_ne; [done|congruence].
  - intros j pcj cj. rewrite Hps. destruct (decide (j = i)) as [->|].
    + rewrite list_lookup_insert_eq by (by eapply lookup_lt_Some). by intros [= <- <-].
    + rewrite list_lookup_insert_ne by done. apply Hok.
Qed.

Lemma ctrl_consumer s s' i pc c pc' c' :
  ctrl_inv s -> consumers s !! i = Some (pc, c) ->
  producers s' = producers s -> consumers s' = <[i:=(pc', c')]> (consumers s) ->
  (list_mutex s' = list_mutex s /\ c_crit pc' = c_crit pc \/
   list_mutex s = None /\ list_mutex s' = Some (Consumer i) /\ c_crit pc' = true \/
   c_crit pc = true /\ list_mutex s' = None /\ c_crit pc' = false) ->
  ctrl_inv s'.
Proof.
  intros [Hm Hok] Hi Hps Hcs Hcase.
  assert (holds s (Consumer i) = c_crit pc) as E by (simpl; by rewrite Hi).
  assert (holds s' (Consumer i) = c_crit pc') as E'.
  { simpl. rewrite Hcs, list_lookup_insert_eq; [done|by eapply lookup_lt_Some]. }
  split; [|intros j; rewrite Hps; apply Hok].
  apply (mutex_step s s' (Consumer i) Hm); [|by rewrite E, E'].
  intros [j|j] Hj; simpl; [by rewrite Hps|].
  rewrite Hcs, list_lookup_insert_ne; [done|congruence].
Qed.

(** Waking threads, creating threads and the steps of [main] leave the critical
    sections alone. *)
Lemma ctrl_same s s' :
  ctrl_inv s -> (forall t, holds s' t = holds s t) -> list_mutex s' = list_mutex s ->
  (forall i pc c, producers s' !! i = Some (pc, c) -> p_ok pc) -> ctrl_inv s'.
Proof. intros [Hm Hok] Hh He Hp. split; [by eapply mutex_same|done]. Qed.

Lemma producer_step_ctrl s s' i woken :
  ctrl_inv s -> producer_step i woken s = Some s' -> ctrl_inv s'.
Proof.
  intros Hinv Hs. unfold producer_step in Hs.
  destruct (producers s !! i) as [[pc c]|] eqn:Ei; [|done]. cbn [mbind option_bind] in Hs.
  pose proof (ctrl_ok _ Hinv _ _ _ Ei) as Hok.
  destruct pc as [k|k|k|k ok|k|]; simpl in Hok.
  - destruct (Z.ltb_spec k 5000) as [Hlt|Hge].
    + destruct (is_prime k) as [[]|] eqn:Ep; [..|done]; injection Hs as <-;
        (eapply ctrl_producer; [done..|simpl|done|by left]); [split; [lia|done]|lia].
    + injection Hs as <-. eapply ctrl_producer; [done..|simpl; done|done|by left].
  - apply fmap_Some in Hs as (s1 & [Hf ->]%lock_cases & ->).
    eapply ctrl_producer; [done..|simpl; tauto|done|by right; left].
  - destruct (f_push k (data s)) as [[ok q]|]; [|done]. injection Hs as <-.
    eapply ctrl_producer; [done..|simpl; tauto|done|by left].
  - destruct ok.
    + apply fmap_Some in Hs as (s1 & Hsig & ->).
      destruct (cond_signal_cases _ _ _ Hsig) as [->|(j & n & Hj & ->)].
      * eapply ctrl_producer; [done..|simpl; tauto|done|by left].
      * eapply ctrl_producer; [done..|simpl; tauto| |by left].
        intros j'. change (holds (set_consumer j (CWake, n) s) (Consumer j') = holds s (Consumer j')).
        rewrite holds_set_consumer by done. case_decide as E; [|done].
        injection E as ->. simpl. by rewrite Hj.
    + injection Hs as <-. eapply ctrl_producer; [done..|simpl; tauto|done|by left].
  - injection Hs as <-. eapply ctrl_producer; [done..|simpl; lia|done|by right; right].
  - done.
Qed.

Lemma consumer_step_ctrl s s' i : ctrl_inv s -> consumer_step i s = Some s' -> ctrl_inv s'.
Proof.
  intros Hinv Hs. unfold consumer_step in Hs.
  destruct (consumers s !! i) as [[pc c]|] eqn:Ei; [|done]. cbn [mbind option_bind] in Hs.
  destruct pc as [| | | | | |tmp| |].
  - apply fmap_Some in Hs as (s1 & [Hf ->]%lock_cases & ->).
    eapply ctrl_consumer; [done..|by right; left].
  - destruct (f_is_empty _); injection Hs as <-;
      (eapply ctrl_consumer; [done..|]); [by right; right|by left].
  - done.
  - apply fmap_Some in Hs as (s1 & [Hf ->]%lock_cases & ->).
    eapply ctrl_consumer; [done..|by right; left].
  - destruct (finished s); injection Hs as <-;
      (eapply ctrl_consumer; [done..|]); [by right; right|by left].
  - destruct (f_pop (data s)) as [[v q]|]; [|done]. injection Hs as <-.
    eapply ctrl_consumer; [done..|by left].
  - injection Hs as <-. destruct tmp; (eapply ctrl_consumer; [done..|by right; right]).
  - injection Hs as <-. eapply ctrl_consumer; [done..|left; by destruct (finished s)].
  - done.
Qed.

(** What [main] does to the threads in one step. *)
Lemma main_step_cases b s s' :
  main_step b s = Some s' ->
  data s' = data s /\ list_mutex s' = list_mutex s /\ messages s' = messages s /\
  (producers s' = producers s \/
     producers s' = producers s ++ [(PTest 1000, 0)] /\ (length (producers s) < PRODUCERS)%nat) /\
  (consumers s' = consumers s \/ consumers s' = consumers s ++ [(CLock, 0)] \/
     consumers s' = wake <$> consumers s).
Proof.
  unfold main_step. intros Hs.
  destruct (main_pc s);
    repeat match type of Hs with
      | context [if ?c then _ else _] => destruct c eqn:?
      | context [match ?l !! ?i with _ => _ end] => destruct (l !! i) as [[[] ?]|]
      end;
    try done; injection Hs as <-; cbn; try (split_and!; auto; fail).
  split_and!; auto. right. split; [done|]. by apply Nat.ltb_lt.
Qed.

Lemma main_step_ctrl b s s' : ctrl_inv s -> main_step b s = Some s' -> ctrl_inv s'.
Proof.
  intros Hinv (_ & Hm & _ & Hp & Hc)%main_step_cases. apply (ctrl_same s s' Hinv); [|done|].
  - intros [j|j]; simpl.
    + destruct Hp as [->|[-> _]]; [done|]. rewrite lookup_app.
      destruct (producers s !! j) as [[pc c]|]; [done|]. by destruct (j - _)%nat as [|[]].
    + destruct Hc as [->|[->| ->]]; [done| |].
      * rewrite lookup_app. destruct (consumers s !! j) as [[pc c]|]; [done|].
        by destruct (j - _)%nat as [|[]].
      * rewrite list_lookup_fmap. destruct (consumers s !! j) as [[[] c]|]; done.
  - intros j pc c. destruct Hp as [->|[-> _]]; [apply (ctrl_ok _ Hinv)|].
    intros [Hj|[Hlt Hj]]%lookup_app_Some; [by apply (ctrl_ok _ Hinv _ _ _ Hj)|].
    apply list_lookup_singleton_Some in Hj as [_ [= <- <-]]. simpl. lia.
Qed.

Lemma spurious_cases i s s' :
  step (Spurious i) s = Some s' ->
  exists n, consumers s !! i = Some (CWaiting, n) /\ s' = set_consumer i (CWake, n) s.
Proof.
  simpl. destruct (consumers s !! i) as [[[] n]|] eqn:Ei; try done. intros [= <-]. by exists n.
Qed.

Lemma step_ctrl e s s' : ctrl_inv s -> step e s = Some s' -> ctrl_inv s'.
Proof.
  intros Hinv Hs. destruct e as [b|i w|i|i].
  - by eapply main_step_ctrl.
  - by eapply producer_step_ctrl.
  - by eapply consumer_step_ctrl.
  - apply spurious_cases in Hs as (n & Hi & ->). eapply ctrl_consumer; [done..|by left].
Qed.

(* ------------------------------------------------------------------ *)
(** ** The elements *)

(** Elements a producer has pushed, and a consumer has taken; the counter is
    behind by one between the list operation and [++counter]. *)
Definition made (t : producer) : Z :=
  snd t + match fst t with PNotify _ true => 1 | _ => 0 end.
Definition taken (t : consumer) : Z :=
  snd t + match fst t with CUnlock false => 1 | _ => 0 end.

Record data_inv s : Prop := {
  data_elems : exists vs, f_holds (data s) vs /\
    zsum made (producers s) = Z.of_nat (length vs) + zsum taken (consumers s) /\
    (forall i c, consumers s !! i = Some (CPop, c) -> vs <> []);
  data_tmp i pc c : consumers s !! i = Some (pc, c) -> c_ok pc /\ 0 <= c;
  data_messages : zsum snd (producers s) + messages s = zsum (progress ∘ fst) (producers s);
  data_messages_pos : 0 <= messages s;
  data_producers : (length (producers s) <= PRODUCERS)%nat;
}.

Lemma wake_taken c : taken (wake c) = taken c.
Proof. by destruct c as [[] n]. Qed.

Lemma zsum_wake (l : list consumer) : zsum taken (wake <$> l) = zsum taken l.
Proof. rewrite zsum_map. apply zsum_ext. intros. apply wake_taken. Qed.

(** The list is never as long as a [size_t] can count. *)
Lemma data_bound s (vs : list Z) :
  ctrl_inv s -> data_inv s ->
  zsum made (producers s) = Z.of_nat (length vs) + zsum taken (consumers s) ->
  Z.of_nat (length vs) + 1 < 2 ^ 64.
Proof.
  intros Hc [_ Htmp Hm Hp Hl] He.
  assert (0 <= zsum taken (consumers s)) as Ht.
  { rewrite <- (Z.mul_0_l (Z.of_nat (length (consumers s)))), <- zsum_const. apply zsum_le.
    intros i [pc c] Hi. destruct (Htmp _ _ _ Hi) as [_ Hpos]. unfold taken. simpl.
    destruct pc as [| | | | | |[]| |]; lia. }
  assert (zsum made (producers s) <= zsum snd (producers s) + Z.of_nat (length (producers s))) as Hmd.
  { rewrite <- (Z.mul_1_l (Z.of_nat _)), <- zsum_const. generalize (producers s).
    induction l as [|[pc c] l IH]; simpl; [lia|]. unfold made at 1. simpl.
    destruct pc as [| | |k []| |]; lia. }
  assert (zsum (progress ∘ fst) (producers s) <= 4000 * Z.of_nat (length (producers s))) as Hpr.
  { rewrite <- zsum_const. apply zsum_le. intros i [pc c] Hi.
    pose proof (ctrl_ok _ Hc _ _ _ Hi) as Hok. simpl.
    assert (forall k, 1000 <= k <= 5000 -> passed k <= 4000) as Hk
      by (intros k Hk; pose proof (passed_le k ltac:(lia)); lia).
    destruct pc as [k|k|k|k ok|k|]; simpl in *; apply Hk; lia. }
  unfold PRODUCERS in Hl. lia.
Qed.

(** A producer moves without touching the list. *)
Lemma data_producer s s' i t pc' c' :
  data_inv s -> producers s !! i = Some t ->
  producers s' = <[i:=(pc', c')]> (producers s) ->
  data s' = data s -> consumers s' = consumers s ->
  made (pc', c') = made t ->
  c' + messages s' - progress pc' = snd t + messages s - progress (fst t) ->
  messages s <= messages s' -> data_inv s'.
Proof.
  intros [(vs & Hv & He & Hpop) Htmp Hm Hp Hl] Hi Hps Hd Hc Hmd Hpr Hms. split.
  - exists vs. rewrite Hd, Hc, Hps, (zsum_insert _ _ _ _ _ Hi), Hmd. split_and!; [done|lia|done].
  - rewrite Hc. apply Htmp.
  - rewrite Hps, !(zsum_insert _ _ _ _ _ Hi). simpl. lia.
  - lia.
  - by rewrite Hps, length_insert.
Qed.

(** A consumer moves without touching the list. *)
Lemma data_consumer s s' i t pc' c' :
  data_inv s -> consumers s !! i = Some t ->
  consumers s' = <[i:=(pc', c')]> (consumers s) ->
  data s' = data s -> producers s' = producers s -> messages s' = messages s ->
  taken (pc', c') = taken t -> c_ok pc' -> 0 <= c' ->
  (pc' = CPop -> f_is_empty (data s) = false) -> data_inv s'.
Proof.
  intros [(vs & Hv & He & Hpop) Htmp Hm Hp Hl] Hi Hcs Hd Hps Hms Htk Hok Hc' Hpc. split.
  - exists vs. rewrite Hd, Hps, Hcs, (zsum_insert _ _ _ _ _ Hi), Htk. split_and!; [done|lia|].
    intros j c Hj. destruct (decide (j = i)) as [->|].
    + rewrite list_lookup_insert_eq in Hj by (by eapply lookup_lt_Some). injection Hj as -> ->.
      specialize (Hpc eq_refl). rewrite (f_is_empty_holds _ _ Hv) in Hpc.
      by apply bool_decide_eq_false in Hpc.
    + rewrite list_lookup_insert_ne in Hj by done. by eapply Hpop.
  - intros j pc c. rewrite Hcs. destruct (decide (j = i)) as [->|].
    + rewrite list_lookup_insert_eq by (by eapply lookup_lt_Some). by intros [= <- <-].
    + rewrite list_lookup_insert_ne by done. apply Htmp.
  - by rewrite Hps, Hms.
  - by rewrite Hms.
  - by rewrite Hps.
Qed.

Lemma data_wake_one s i n :
  data_inv s -> consumers s !! i = Some (CWaiting, n) -> data_inv (set_consumer i (CWake, n) s).
Proof.
  intros Hd Hi. destruct (data_tmp _ Hd _ _ _ Hi) as [_ Hn].
  by eapply data_consumer; [done..|split|done|].
Qed.

Lemma primes_data_push s i k c ok q :
  ctrl_inv s -> data_inv s -> producers s !! i = Some (PPush k, c) ->
  f_push k (data s) = Some (ok, q) -> data_inv (set_producer i (PNotify k ok, c) (set_data q s)).
Proof.
  intros Hctrl Hd Hi Hp. destruct (data_elems _ Hd) as (vs & Hv & He & Hpop).
  pose proof (data_bound _ _ Hctrl Hd He) as Hb.
  destruct (f_push_holds _ _ k Hv Hb) as (ok' & q' & Hp' & Hv'). rewrite Hp in Hp'.
  injection Hp' as <- <-. destruct Hd as [_ Htmp Hm Hpos Hl]. split; cbn [data producers consumers messages set_producer set_consumer set_data]; [|done| |done|].
  - exists (if ok then vs ++ [k] else vs). split; [done|].
    rewrite (zsum_insert _ _ _ _ _ Hi), He. unfold made. simpl. split.
    + destruct ok; [rewrite length_app; simpl|]; lia.
    + intros j cj Hj. specialize (Hpop _ _ Hj). by destruct ok, vs.
  - rewrite !(zsum_insert _ _ _ _ _ Hi), <- Hm. simpl. lia.
  - by rewrite length_insert.
Qed.

(** Only one consumer pops at a time, so the others lose nothing. *)
Lemma primes_data_pop s i c v q :
  ctrl_inv s -> data_inv s -> consumers s !! i = Some (CPop, c) ->
  f_pop (data s) = Some (v, q) ->
  v <> None /\ data_inv (set_consumer i (CUnlock false, c) (set_data q s)).
Proof.
  intros Hctrl [(vs & Hv & He & Hpop) Htmp Hm Hpos Hl] Hi Hp.
  destruct (f_pop_holds _ _ Hv) as (q' & Hp' & Hv'). rewrite Hp in Hp'. injection Hp' as -> <-.
  destruct vs as [|x vs]; [by destruct (Hpop _ _ Hi)|]. simpl in *. split; [done|].
  split; cbn [data producers consumers messages set_producer set_consumer set_data]; [| |done..].
  - exists vs. split; [done|]. rewrite (zsum_insert _ _ _ _ _ Hi). unfold taken at 2 3. simpl.
    split; [lia|]. intros j cj Hj. destruct (decide (j = i)) as [->|Hne].
    { rewrite list_lookup_insert_eq in Hj by (by eapply lookup_lt_Some). done. }
    rewrite list_lookup_insert_ne in Hj by done.
    pose proof (proj1 (ctrl_mutex _ Hctrl (Consumer i))) as H1.
    pose proof (proj1 (ctrl_mutex _ Hctrl (Consumer j))) as H2. simpl in H1, H2.
    rewrite Hi in H1. rewrite Hj in H2. rewrite H1 in H2 by done. specialize (H2 eq_refl). congruence.
  - intros j pc cj Hj. destruct (decide (j = i)) as [->|].
    + rewrite list_lookup_insert_eq in Hj by (by eapply lookup_lt_Some). injection Hj as <- <-.
      split; [by split|by destruct (Htmp _ _ _ Hi)].
    + rewrite list_lookup_insert_ne in Hj by done. by eapply Htmp.
Qed.

Lemma producer_step_data s s' i woken :
  ctrl_inv s -> data_inv s -> producer_step i woken s = Some s' -> data_inv s'.
Proof.
  intros Hctrl Hd Hs. unfold producer_step in Hs.
  destruct (producers s !! i) as [[pc c]|] eqn:Ei; [|done]. cbn [mbind option_bind] in Hs.
  pose proof (ctrl_ok _ Hctrl _ _ _ Ei) as Hok.
  destruct pc as [k|k|k|k ok|k|]; simpl in Hok.
  - destruct (Z.ltb_spec k 5000) as [Hlt|Hge].
    + destruct (is_prime k) as [[]|] eqn:Ep; [..|done]; injection Hs as <-;
        (eapply data_producer; [done..|simpl|done]); [lia|rewrite passed_composite by (done || lia); lia].
    + injection Hs as <-. eapply data_producer; [done..|simpl|done].
      replace k with 5000 by lia. lia.
  - apply fmap_Some in Hs as (s1 & [Hf ->]%lock_cases & ->).
    by eapply data_producer.
  - destruct (f_push k (data s)) as [[ok q]|] eqn:Ep; [|done]. injection Hs as <-.
    by apply primes_data_push.
  - pose proof (passed_prime k ltac:(lia) ltac:(tauto)) as Hpk. destruct ok.
    + apply fmap_Some in Hs as (s1 & Hsig & ->).
      destruct (cond_signal_cases _ _ _ Hsig) as [->|(j & n & Hj & ->)].
      * eapply data_producer; [done..|unfold made; simpl; lia|simpl; lia|done].
      * eapply data_producer; [by eapply data_wake_one|done..|unfold made; simpl; lia|simpl; lia|done].
    + injection Hs as <-. eapply data_producer; [done..|simpl; lia|simpl; lia].
  - injection Hs as <-. by eapply data_producer.
  - done.
Qed.

Lemma consumer_step_data s s' i :
  ctrl_inv s -> data_inv s -> consumer_step i s = Some s' -> data_inv s'.
Proof.
  intros Hctrl Hd Hs. unfold consumer_step in Hs.
  destruct (consumers s !! i) as [[pc c]|] eqn:Ei; [|done]. cbn [mbind option_bind] in Hs.
  destruct (data_tmp _ Hd _ _ _ Ei) as [[Hok1 Hok2] Hc].
  destruct pc as [| | | | | |tmp| |].
  - apply fmap_Some in Hs as (s1 & [Hf ->]%lock_cases & ->).
    by eapply data_consumer; [done..|split|done|].
  - destruct (f_is_empty _) eqn:Ee; injection Hs as <-; by eapply data_consumer; [done..|split|done|].
  - done.
  - apply fmap_Some in Hs as (s1 & [Hf ->]%lock_cases & ->).
    by eapply data_consumer; [done..|split|done|].
  - destruct (finished s); injection Hs as <-; by eapply data_consumer; [done..|split|done|].
  - destruct (f_pop (data s)) as [[v q]|] eqn:Ep; [|done]. injection Hs as <-.
    destruct (primes_data_pop _ _ _ _ _ Hctrl Hd Ei Ep) as [Hv Hd']. by rewrite bool_decide_eq_false_2.
  - destruct tmp; [done|]. injection Hs as <-.
    eapply data_consumer; [done..|unfold taken; simpl; lia|by split|lia|done].
  - done.
  - done.
Qed.

Lemma main_step_data b s s' : data_inv s -> main_step b s = Some s' -> data_inv s'.
Proof.
  intros [(vs & Hv & He & Hpop) Htmp Hm Hpos Hl] (Ed & _ & Em & Hp & Hc)%main_step_cases.
  assert (zsum taken (consumers s') = zsum taken (consumers s)) as Et.
  { destruct Hc as [->|[->| ->]]; [done|by rewrite zsum_snoc, Z.add_0_r|apply zsum_wake]. }
  assert (forall i pc c, consumers s' !! i = Some (pc, c) ->
            consumers s !! i = Some (pc, c) \/ (pc = CLock /\ c = 0) \/
            (pc = CWake /\ consumers s !! i = Some (CWaiting, c))) as Hlk.
  { intros i pc c. destruct Hc as [->|[->| ->]]; [by left| |].
    - intros [Hi|[_ Hi]]%lookup_app_Some; [by left|].
      apply list_lookup_singleton_Some in Hi as [_ [= <- <-]]. auto.
    - rewrite list_lookup_fmap. destruct (consumers s !! i) as [[[] n]|]; intros [= <- <-]; auto. }
  split.
  - exists vs. rewrite Ed, Et. split; [done|]. split; [|].
    + rewrite <- He. destruct Hp as [->|[-> _]]; [done|]. rewrite zsum_snoc. unfold made at 2. simpl. lia.
    + intros i c [Hi|[[? _]|[? _]]]%Hlk; [by eapply Hpop|done..].
  - intros i pc c [Hi|[[-> ->]|[-> Hi]]]%Hlk; [by eapply Htmp|by repeat split|].
    by destruct (Htmp _ _ _ Hi).
  - rewrite Em. destruct Hp as [->|[-> _]]; [done|]. rewrite !zsum_snoc. simpl.
    replace (passed 1000) with 0 by done. lia.
  - by rewrite Em.
  - destruct Hp as [->|[-> Hlt]]; [done|]. rewrite length_app. simpl. lia.
Qed.

Lemma step_data e s s' : ctrl_inv s -> data_inv s -> step e s = Some s' -> data_inv s'.
Proof.
  intros Hctrl Hd Hs. destruct e as [b|i w|i|i].
  - by eapply main_step_data.
  - by eapply producer_step_data.
  - by eapply consumer_step_data.
  - apply spurious_cases in Hs as (n & Hi & ->). by apply data_wake_one.
Qed.

(* ------------------------------------------------------------------ *)
(** ** What [main] adds up *)

Definition p_exited (t : producer) : Prop := fst t = PExit.
Definition c_exited (t : consumer) : Prop := fst t = CExit.

Definition main_inv s : Prop :=
  match main_pc s with
  | MCreateConsumers => producers s = []
  | MCreateProducers => True
  | MJoinProducers tx produced =>
      produced = zsum snd (take tx (producers s)) /\ Forall p_exited (take tx (producers s))
  | MFinish produced | MBroadcast produced =>
      produced = zsum snd (producers s) /\ Forall p_exited (producers s)
  | MJoinConsumers tx produced consumed =>
      produced = zsum snd (producers s) /\ Forall p_exited (producers s) /\
      consumed = zsum snd (take tx (consumers s)) /\ Forall c_exited (take tx (consumers s))
  | MReturn produced consumed status =>
      produced = zsum snd (producers s) /\ Forall p_exited (producers s) /\
      consumed = zsum snd (consumers s) /\ Forall c_exited (consumers s) /\
      status = if produced =? consumed then 1 else 0
  end.

(** Only threads that have not exited move. *)
Definition moved {T} (exited : T -> Prop) (l l' : list T) : Prop :=
  l' = l \/ exists i x y, l !! i = Some x /\ ~ exited x /\ l' = <[i:=y]> l.

Lemma moved_take {T} (exited : T -> Prop) (l l' : list T) n :
  moved exited l l' -> Forall exited (take n l) -> take n l' = take n l.
Proof.
  intros [->|(i & x & y & Hi & Hx & ->)] Hf; [done|]. destruct (decide (i < n)%nat) as [Hlt|].
  - destruct Hx. apply (Forall_lookup_1 _ _ i x Hf). by rewrite lookup_take_lt.
  - by rewrite take_insert_ge by lia.
Qed.

Lemma moved_all {T} (exited : T -> Prop) (l l' : list T) :
  moved exited l l' -> Forall exited l -> l' = l.
Proof.
  intros Hm Hf. assert (length l' = length l) as E.
  { destruct Hm as [->|(i & x & y & _ & _ & ->)]; [done|apply length_insert]. }
  rewrite <- (firstn_all l'), <- (firstn_all l) at 1. rewrite E.
  eapply moved_take; [done|]. by rewrite firstn_all.
Qed.

Lemma main_threads s s' :
  main_inv s -> main_pc s' = main_pc s -> moved p_exited (producers s) (producers s') ->
  moved c_exited (consumers s) (consumers s') -> main_inv s'.
Proof.
  unfold main_inv. intros Hm -> Hp Hc. destruct (main_pc s) as [| |tx p|p|p|tx p c|p c st].
  - destruct Hp as [->|(i & x & y & Hi & _)]; [done|]. by rewrite Hm in Hi.
  - done.
  - destruct Hm as [Hs Hf]. by rewrite (moved_take _ _ _ _ Hp Hf).
  - destruct Hm as [Hs Hf]. by rewrite (moved_all _ _ _ Hp Hf).
  - destruct Hm as [Hs Hf]. by rewrite (moved_all _ _ _ Hp Hf).
  - destruct Hm as (Hs & Hf & Hs' & Hf').
    by rewrite (moved_all _ _ _ Hp Hf), (moved_take _ _ _ _ Hc Hf').
  - destruct Hm as (Hs & Hf & Hs' & Hf' & Hst).
    by rewrite (moved_all _ _ _ Hp Hf), (moved_all _ _ _ Hc Hf').
Qed.

Lemma producer_step_moved s s' i woken :
  producer_step i woken s = Some s' ->
  main_pc s' = main_pc s /\ moved p_exited (producers s) (producers s') /\
  moved c_exited (consumers s) (consumers s').
Proof.
  unfold producer_step. destruct (producers s !! i) as [[pc c]|] eqn:Ei; [|done].
  cbn [mbind option_bind]. intros Hs.
  assert (pc <> PExit) as Hpc by (intros ->; done).
  assert (forall y, moved p_exited (producers s) (<[i:=y]> (producers s))) as Hmv.
  { intros y. right. by exists i, (pc, c), y. }
  destruct pc as [k|k|k|k ok|k|].
  - destruct (k <? 5000); [|by injection Hs as <-; split_and!; [|apply Hmv|left]].
    destruct (is_prime k); [|done]. injection Hs as <-. by split_and!; [|apply Hmv|left].
  - apply fmap_Some in Hs as (s1 & [Hf ->]%lock_cases & ->). by split_and!; [|apply Hmv|left].
  - destruct (f_push k (data s)) as [[ok q]|]; [|done]. injection Hs as <-.
    by split_and!; [|apply Hmv|left].
  - destruct ok; [|by injection Hs as <-; split_and!; [|apply Hmv|left]].
    apply fmap_Some in Hs as (s1 & Hsig & ->).
    destruct (cond_signal_cases _ _ _ Hsig) as [->|(j & n & Hj & ->)];
      split_and!; [done|apply Hmv|by left|done|apply Hmv|].
    right. by exists j, (CWaiting, n), (CWake, n).
  - injection Hs as <-. by split_and!; [|apply Hmv|left].
  - done.
Qed.

Lemma consumer_step_moved s s' i :
  consumer_step i s = Some s' ->
  main_pc s' = main_pc s /\ producers s' = producers s /\
  moved c_exited (consumers s) (consumers s').
Proof.
  unfold consumer_step. destruct (consumers s !! i) as [[pc c]|] eqn:Ei; [|done].
  cbn [mbind option_bind]. intros Hs.
  assert (pc <> CExit) as Hpc by (intros ->; done).
  assert (forall y, moved c_exited (consumers s) (<[i:=y]> (consumers s))) as Hmv.
  { intros y. right. by exists i, (pc, c), y. }
  destruct pc as [| | | | | |tmp| |]; try done.
  - apply fmap_Some in Hs as (s1 & [Hf ->]%lock_cases & ->). by split_and!; [..|apply Hmv].
  - destruct (f_is_empty _); injection Hs as <-; by split_and!; [..|apply Hmv].
  - apply fmap_Some in Hs as (s1 & [Hf ->]%lock_cases & ->). by split_and!; [..|apply Hmv].
  - destruct (finished s); injection Hs as <-; by split_and!; [..|apply Hmv].
  - destruct (f_pop (data s)) as [[v q]|]; [|done]. injection Hs as <-. by split_and!; [..|apply Hmv].
  - injection Hs as <-. by split_and!; [..|apply Hmv].
  - injection Hs as <-. by split_and!; [..|apply Hmv].
Qed.

Lemma joined {T} (l : list (T * Z)) tx acc (exited : T * Z -> Prop) pc c :
  l !! tx = Some (pc, c) -> exited (pc, c) ->
  acc = zsum snd (take tx l) /\ Forall exited (take tx l) ->
  acc + c = zsum snd (take (S tx) l) /\ Forall exited (take (S tx) l).
Proof.
  intros Hl Hx [-> Hf]. rewrite (zsum_take_S _ _ _ _ Hl), (take_S_r _ _ _ Hl).
  split; [done|]. apply Forall_app. split; [done|by constructor].
Qed.

Lemma main_step_main b s s' : main_inv s -> main_step b s = Some s' -> main_inv s'.
Proof.
  unfold main_step. intros Hm Hs. pose proof Hm as Hinv. unfold main_inv in Hm.
  destruct (main_pc s) as [| |tx p|p|p|tx p c|p c st] eqn:Em.
  - destruct (_ <? _)%nat; [destruct b|]; injection Hs as <-; unfold main_inv; cbn [main_pc add_consumer set_main];
      rewrite ?Em; cbn [producers add_consumer set_main]; [done|by rewrite Hm|done].
  - destruct (_ <? _)%nat; [destruct b|]; injection Hs as <-; unfold main_inv; cbn [main_pc add_producer set_main];
      rewrite ?Em; done.
  - destruct (producers s !! tx) as [[[] n]|] eqn:Et; try done; injection Hs as <-.
    + by apply (joined _ _ _ p_exited _ _ Et).
    + apply lookup_ge_None in Et. by rewrite take_ge in Hm by done.
  - by injection Hs as <-.
  - injection Hs as <-. unfold main_inv. cbn. destruct Hm. by split_and!.
  - destruct Hm as (Hs1 & Hf1 & Hm). destruct (consumers s !! tx) as [[[] n]|] eqn:Et; try done; injection Hs as <-.
    + pose proof (joined _ _ _ c_exited _ _ Et eq_refl Hm) as [? ?]. by split_and!.
    + apply lookup_ge_None in Et. rewrite take_ge in Hm by done. destruct Hm. by split_and!.
  - done.
Qed.

Lemma step_main e s s' : main_inv s -> step e s = Some s' -> main_inv s'.
Proof.
  intros Hm Hs. destruct e as [b|i w|i|i].
  - by eapply main_step_main.
  - apply producer_step_moved in Hs as (? & ? & ?). by eapply main_threads.
  - apply consumer_step_moved in Hs as (? & E & ?). eapply main_threads; [done..|by left|done].
  - apply spurious_cases in Hs as (n & Hi & ->). eapply main_threads; [done..|by left|].
    right. by exists i, (CWaiting, n), (CWake, n).
Qed.

(* ------------------------------------------------------------------ *)
(** ** Reachable states *)

Definition reachable s : Prop := exists q es, f_holds q [] /\ run es (start q) = Some s.

Record sys_inv s : Prop := {
  sys_ctrl : ctrl_inv s;
  sys_data : data_inv s;
  sys_main : main_inv s;
}.

Lemma start_inv q : f_holds q [] -> sys_inv (start q).
Proof.
  intros Hq. split; [split|split|done]; try done.
  - by intros [i|i].
  - by exists [].
  - simpl. lia.
Qed.

Lemma run_inv es : forall s s', sys_inv s -> run es s = Some s' -> sys_inv s'.
Proof.
  induction es as [|e es IH]; intros s s' Hi Hr; simpl in Hr; [by injection Hr as <-|].
  destruct (step e s) as [s1|] eqn:Es; [|done]. destruct Hi as [Hc Hd Hm].
  apply (IH s1); [|done]. split; [by eapply step_ctrl|by eapply step_data|by eapply step_main].
Qed.

Lemma primes_reachable_inv s : reachable s -> sys_inv s.
Proof. intros (q & es & Hq & Hr). eapply run_inv; [by apply start_inv|done]. Qed.

End proofs.

(* ------------------------------------------------------------------ *)
(** ** Properties *)

(** Nothing below computes the number of primes. *)
Opaque passed.

Lemma progress_exit t : p_exited t -> (progress ∘ fst) t = passed 5000.
Proof. unfold compose, progress. by intros ->. Qed.

Section claims.
Context {Q : Type} `{!fifo Q} `{!fifo_laws Q}.

(** C8: whatever the interleaving, when [main] returns: every element produced
    was consumed or is still in the list; the elements produced and those that could
    not be pushed, which are the lines on stderr, are together as many as the primes
    between 1000 and 4999 for each producer thread; and the exit status is 1 when nothing was left behind and 0
    when elements were lost. *)
Theorem primes_accounting (s : state Q) (produced consumed status : Z)
    (Hr : reachable s) (Hm : main_pc s = MReturn produced consumed status) :
  exists vs, f_holds (data s) vs /\ produced = consumed + Z.of_nat (length vs) /\
    produced + messages s = passed 5000 * Z.of_nat (length (producers s)) /\
    status = if decide (vs = []) then 1 else 0.
Proof.
  destruct (primes_reachable_inv s Hr) as [_ [(vs & Hv & He & _) _ Hms _ _] Hmain].
  unfold main_inv in Hmain. rewrite Hm in Hmain. destruct Hmain as (Hp & Hpx & Hc & Hcx & Hst).
  rewrite Forall_lookup in Hpx. rewrite Forall_lookup in Hcx.
  rewrite (zsum_ext made snd) in He.
  2:{ intros i [pc c] Hi. unfold made. rewrite (Hpx _ _ Hi). simpl. lia. }
  rewrite (zsum_ext taken snd) in He.
  2:{ intros i [pc c] Hi. unfold taken. rewrite (Hcx _ _ Hi). simpl. lia. }
  rewrite (zsum_ext (progress ∘ fst) (fun _ => passed 5000)) in Hms.
  2:{ intros i [pc c] Hi. apply (progress_exit (pc, c) (Hpx _ _ Hi)). }
  rewrite zsum_const in Hms. rewrite Hp. exists vs. split_and!; [done|clear Hms; lia|exact Hms|].
  clear Hms. rewrite Hst. case_decide as Hvs.
  - rewrite (proj2 (Z.eqb_eq _ _)); [done|]. subst vs. simpl in *. lia.
  - rewrite (proj2 (Z.eqb_neq _ _)); [done|]. destruct vs; [done|]. simpl in *. lia.
Qed.

(** The thread whose step an event is. *)
Definition event_tid (e : event) : option tid :=
  match e with Prod i _ => Some (Producer i) | Cons i => Some (Consumer i) | _ => None end.

(** C13: the mutex protects the list in every reachable state: it is held by a
    thread exactly when that thread is between its lock and its unlock, so that
    two threads never are, and the holder can always take its next step (no list
    operation is undefined, nothing in the critical section blocks), so that no
    exit or wait leaves the mutex locked. *)
Theorem primes_critical_section (s : state Q) (Hr : reachable s) :
  (forall t, holds s t = true <-> list_mutex s = Some t) /\
  (forall t, list_mutex s = Some t -> exists e s', event_tid e = Some t /\ step e s = Some s').
Proof.
  destruct (primes_reachable_inv s Hr) as [Hc Hd _]. split; [apply (ctrl_mutex _ Hc)|].
  intros t Ht%(ctrl_mutex _ Hc).
  destruct (data_elems _ Hd) as (vs & Hv & He & _). pose proof (data_bound _ _ Hc Hd He) as Hb.
  destruct t as [i|i]; simpl in Ht.
  - destruct (producers s !! i) as [[pc c]|] eqn:Ei; [|done].
    assert (exists w s1, cond_signal w s = Some s1) as (w & s1 & Hw).
    { destruct (existsb waiting (consumers s)) eqn:Ex.
      - apply existsb_exists in Ex as (x & Hx%list_elem_of_In & Hwx).
        apply list_elem_of_lookup in Hx as [j Hj]. exists (Some j). simpl. rewrite Hj. simpl.
        rewrite Hwx. by eexists.
      - exists None. simpl. rewrite Ex. by eexists. }
    exists (Prod i w). simpl. unfold producer_step. rewrite Ei. cbn [mbind option_bind].
    destruct pc as [k|k|k|k ok|k|]; try done.
    + destruct (f_push_holds _ _ k Hv Hb) as (ok & q & -> & _). by eexists.
    + destruct ok; [rewrite Hw|]; by eexists.
    + by eexists.
  - destruct (consumers s !! i) as [[pc c]|] eqn:Ei; [|done].
    exists (Cons i). simpl. unfold consumer_step. rewrite Ei. cbn [mbind option_bind].
    destruct pc as [| | | | | |tmp| |]; try done.
    + destruct (f_is_empty (data s)); by eexists.
    + destruct (finished s); by eexists.
    + destruct (f_pop_holds _ _ Hv) as (q & -> & _). by eexists.
    + by eexists.
Qed.

End claims.

(* ------------------------------------------------------------------ *)
(** ** Runs *)

(** Runs use the linked list on a heap of 100 nodes. *)
#[local] Existing Instance counting_node_alloc.
#[local] Instance demo_alloc : node_alloc := counting_node_alloc 100.

(** One consumer starts, the second cannot; it goes to sleep before [main] sets
    [finished], is woken by the broadcast and exits. *)
Definition demo_return : list event :=
  [Main true; Main false; Cons 0; Cons 0; Main true; Main true; Cons 0; Cons 0;
   Main true; Main true].

Theorem is_prime_correct_witness :
  (0 <= 4999 <= INT_MAX) /\ is_prime 4999 = Some (bool_decide (prime 4999)).
Proof. split; [done|]. apply (is_prime_correct 4999). done. Defined.

Theorem primes_accounting_witness :
  exists s, run demo_return (start (list_init ∅)) = Some s /\
    main_pc s = MReturn 0 0 1 /\
    exists vs, f_holds (data s) vs /\ 0 = 0 + Z.of_nat (length vs) /\
      0 + messages s = passed 5000 * Z.of_nat (length (producers s)) /\
      1 = if decide (vs = []) then 1 else 0.
Proof.
  eexists. split; [vm_compute; reflexivity|]. split; [reflexivity|].
  refine (primes_accounting _ 0 0 1 _ _); [|reflexivity].
  exists (list_init ∅), demo_return. split; [|vm_compute; reflexivity].
  exists []. split; [apply list_init_rep|reflexivity].
Defined.

Theorem primes_critical_section_witness :
  exists s, run (take 3 demo_return) (start (list_init ∅)) = Some s /\
    list_mutex s = Some (Consumer 0) /\
    (forall t, holds s t = true <-> list_mutex s = Some t) /\
    (forall t, list_mutex s = Some t -> exists e s', event_tid e = Some t /\ step e s = Some s').
Proof.
  eexists. split; [vm_compute; reflexivity|]. split; [reflexivity|].
  apply primes_critical_section.
  exists (list_init ∅), (take 3 demo_return). split; [|vm_compute; reflexivity].
  exists []. split; [apply list_init_rep|reflexivity].
Defined.

(** [main] sets [finished] and broadcasts without the mutex: a consumer that has
    just found the list empty goes to sleep after the broadcast, and nothing but
    a spurious wake-up can end the program. *)
Example lost_broadcast :
  exists s, run [Main true; Main false; Cons 0; Main true; Main true; Cons 0]
              (start (list_init ∅)) = Some s /\
    main_pc s = MJoinConsumers 0 0 0 /\ finished s = true /\
    forall e, (forall i, e <> Spurious i) -> step e s = None.
Proof.
  eexists. split; [vm_compute; reflexivity|]. split; [done|]. split; [done|].
  intros [b|i w|[|i]|i] He; try done. by destruct (He i).
Qed.
