(* ===== verification/ThreadsArg.v ===== *)
(** The command line that [ex09/power/power.c] and [ex09/sqrt/sqrt.c] share: one
    argument, a positive number of threads. *)

From S2P Require Import Prelude.
From S2P Require Import CLib.

(** The arguments after the program name; [None] is the usage message or "not a
    positive integer", both [EXIT_FAILURE]. *)
Definition parse_threads (args : list string) : option Z :=
  match args with
  | [arg] =>
      let threads := strtol arg 10 in
      if negb (full_number threads) || st_range threads || (st_value threads <=? 0) then None
      else Some (st_value threads)
  | _ => None
  end.

Lemma parse_threads_positive args n : parse_threads args = Some n -> 0 < n.
Proof.
  unfold parse_threads. destruct args as [|arg [|]]; [done| |done].
  destruct (negb _ || _); simpl; [done|].
  destruct (Z.leb_spec (st_value (strtol arg 10)) 0); [done|]. by intros [= <-].
Qed.

(** The start of both [main]s: room for the records of the threads, a [struct worker] of 24
    bytes and a [struct consumer_data] of 32; the size is computed in [size_t]. [malloc] tells
    which requests succeed. *)
Definition power_threads (malloc : Z -> bool) (args : list string) : option Z :=
  threads ← parse_threads args; if malloc (u64 (24 * threads)) then Some threads else None.

Definition sqrt_threads (malloc : Z -> bool) (args : list string) : option Z :=
  threads ← parse_threads args; if malloc (u64 (32 * threads)) then Some threads else None.

(** With 2^59 threads the size wraps around to 0: the array has no element. *)
Example sqrt_array_wraps :
  sqrt_threads (fun size => size <=? 4096) ["576460752303423488"%string] = Some (2 ^ 59) /\
  u64 (32 * 2 ^ 59) = 0.
Proof. by vm_compute. Qed.
