(* ===== verification/Power.v ===== *)
(** [ex09/power/power.c]: [threads] workers that pass a barrier together and
    each add 1, [threads] times, to a counter under a mutex. *)

From S2P Require Import Prelude.
From S2P Require Import ThreadsArg.

(** Where a worker is in [worker_run]; [i] is the loop variable. *)
Inductive w_pc :=
| WStart                       (* [pthread_barrier_wait] not yet reached *)
| WBarrier                     (* asleep at the barrier *)
| WLoop (i : Z)                (* the head of the loop, then [pthread_mutex_lock] *)
| WRead (i : Z)                (* [++*counter]: the read ... *)
| WWrite (i : Z) (v : Z)       (* ... and the write *)
| WUnlock (i : Z)
| WExit.

(** [main]; [threads] is the variable that a failed creation lowers. *)
Inductive m_pc :=
| MCreate
| MJoin (tx : nat) (threads : Z)
| MReturn (threads got expected status : Z).

Record state := State {
  counter : Z;
  mutex : option nat;
  workers : list w_pc;
  main_pc : m_pc;
}.

Section power.
(** The argument of the program, the size of the barrier. *)
Context (n : Z).

Definition set_worker (t : nat) (pc : w_pc) (s : state) : state :=
  State (counter s) (mutex s) (<[t:=pc]> (workers s)) (main_pc s).
Definition set_mutex (m : option nat) (s : state) : state :=
  State (counter s) m (workers s) (main_pc s).

Definition at_barrier (pc : w_pc) : bool := match pc with WBarrier => true | _ => false end.
Definition release (pc : w_pc) : w_pc := if at_barrier pc then WLoop 0 else pc.

(** [pthread_barrier_wait]: the last thread to arrive lets all of them go. *)
Definition barrier_wait (t : nat) (s : state) : state :=
  if Z.of_nat (count_if at_barrier (workers s)) + 1 =? n then
    State (counter s) (mutex s) (<[t:=WLoop 0]> (release <$> workers s)) (main_pc s)
  else set_worker t WBarrier s.

(** [worker_run] *)
Definition worker_step (t : nat) (s : state) : option state :=
  pc ← workers s !! t;
  match pc with
  | WStart => Some (barrier_wait t s)
  | WBarrier => None
  | WLoop i =>
      if i <? n then
        if decide (mutex s = None) then Some (set_worker t (WRead i) (set_mutex (Some t) s)) else None
      else Some (set_worker t WExit s)
  | WRead i => Some (set_worker t (WWrite i (counter s)) s)
  | WWrite i v =>
      c ← int_ok (v + 1);
      Some (State c (mutex s) (<[t:=WUnlock i]> (workers s)) (main_pc s))
  | WUnlock i => Some (set_worker t (WLoop (i + 1)) (set_mutex None s))
  | WExit => None
  end.

(** [int expected = threads * threads;] *)
Definition expected : Z := s32 (n * n).

Definition set_main (m : m_pc) (s : state) : state :=
  State (counter s) (mutex s) (workers s) m.

(** [main]; [created] is whether [pthread_create] succeeds. *)
Definition main_step (created : bool) (s : state) : option state :=
  match main_pc s with
  | MCreate =>
      if Z.of_nat (length (workers s)) <? n then
        if created then Some (State (counter s) (mutex s) (workers s ++ [WStart]) MCreate)
        else Some (set_main (MJoin 0 (Z.of_nat (length (workers s)))) s)
      else Some (set_main (MJoin 0 n) s)
  | MJoin tx threads =>
      if Z.of_nat tx <? threads then
        match workers s !! tx with
        | Some WExit => Some (set_main (MJoin (S tx) threads) s)
        | _ => None
        end
      else Some (set_main (MReturn threads (counter s) expected
                             (if counter s =? expected then EXIT_SUCCESS else EXIT_FAILURE)) s)
  | MReturn _ _ _ _ => None
  end.

(** One step of [main] or of a worker. *)
Inductive step : state -> state -> Prop :=
| step_main b s s' : main_step b s = Some s' -> step s s'
| step_worker t s s' : worker_step t s = Some s' -> step s s'.

Definition start : state := State 0 None [] MCreate.

Inductive reachable : state -> Prop :=
| reach_start : reachable start
| reach_step s s' : reachable s -> step s s' -> reachable s'.

(* ------------------------------------------------------------------ *)
(** ** Invariants *)

Definition crit (pc : w_pc) : bool :=
  match pc with WRead _ | WWrite _ _ | WUnlock _ => true | _ => false end.

(** The increments a worker has done. *)
Definition done_by (pc : w_pc) : Z :=
  match pc with
  | WStart | WBarrier => 0
  | WLoop i | WRead i | WWrite i _ => i
  | WUnlock i => i + 1
  | WExit => n
  end.

(** The worker has passed the barrier. *)
Definition passed (pc : w_pc) : bool :=
  match pc with WStart | WBarrier => false | _ => true end.

Definition w_ok (pc : w_pc) : Prop :=
  match pc with
  | WLoop i => 0 <= i <= n
  | WRead i | WWrite i _ | WUnlock i => 0 <= i < n
  | _ => True
  end.

Definition main_ok (s : state) : Prop :=
  match main_pc s with
  | MCreate => True
  | MJoin tx threads =>
      threads = Z.of_nat (length (workers s)) /\ Forall (.= WExit) (take tx (workers s))
  | MReturn threads got exp status =>
      threads = Z.of_nat (length (workers s)) /\ Forall (.= WExit) (workers s) /\
      got = counter s /\ exp = expected /\
      status = if counter s =? expected then EXIT_SUCCESS else EXIT_FAILURE
  end.

Record inv (s : state) : Prop := {
  inv_mutex t pc : workers s !! t = Some pc -> crit pc = true <-> mutex s = Some t;
  inv_holder t : mutex s = Some t -> is_Some (workers s !! t);
  inv_ok t pc : workers s !! t = Some pc -> w_ok pc;
  inv_value t i v : workers s !! t = Some (WWrite i v) -> v = counter s;
  inv_counter : counter s = zsum done_by (workers s);
  inv_length : Z.of_nat (length (workers s)) <= n;
  inv_barrier t pc : workers s !! t = Some pc -> passed pc = true -> Z.of_nat (length (workers s)) = n;
  inv_main : main_ok s;
}.

Lemma power_inv_start : 0 <= n -> inv start.
Proof. intros Hn. split; try done. Qed.

(** A worker moves, keeping the mutex, taking it or giving it back. *)
Lemma inv_worker s t pc pc' c' m' :
  inv s -> workers s !! t = Some pc -> pc <> WExit -> w_ok pc' ->
  c' - done_by pc' = counter s - done_by pc ->
  (m' = mutex s /\ crit pc' = crit pc \/
   mutex s = None /\ m' = Some t /\ crit pc' = true \/
   crit pc = true /\ m' = None /\ crit pc' = false) ->
  (forall i v, pc' = WWrite i v -> v = c') -> (c' = counter s \/ crit pc = true) ->
  (passed pc' = true -> passed pc = true \/ Z.of_nat (length (workers s)) = n) ->
  inv (State c' m' (<[t:=pc']> (workers s)) (main_pc s)).
Proof.
  intros [Hm Hh Hok Hv Hc Hl Hb Hmain] Ht Hx Hok' Hcnt Hmut Hval Hcrit Hpass.
  assert (forall u q, <[t:=pc']> (workers s) !! u = Some q ->
            u = t /\ q = pc' \/ u <> t /\ workers s !! u = Some q) as Hlk.
  { intros u q. destruct (decide (u = t)) as [->|Hne].
    - rewrite list_lookup_insert_eq by (by eapply lookup_lt_Some). intros [= <-]. auto.
    - rewrite list_lookup_insert_ne by done. auto. }
  pose proof (Hm _ _ Ht) as Hmt.
  split; cbn [workers mutex counter]; rewrite ?length_insert; [| | | | |done| |].
  - intros u q [[-> ->]|[Hne Hu]]%Hlk.
    + destruct Hmut as [[-> ->]|[(_ & -> & ->)|(_ & -> & ->)]]; naive_solver.
    + pose proof (Hm _ _ Hu) as Hmu.
      destruct Hmut as [[-> _]|[(E & -> & _)|(E & -> & _)]]; naive_solver.
  - intros u Hu. destruct (decide (u = t)) as [->|Hne].
    + rewrite list_lookup_insert_eq by (by eapply lookup_lt_Some). done.
    + rewrite list_lookup_insert_ne by done. apply Hh.
      destruct Hmut as [[E _]|[(E & E' & _)|(E & E' & _)]]; congruence.
  - intros u q [[-> ->]|[Hne Hu]]%Hlk; [done|by eapply Hok].
  - intros u i v [[_ Hq]|[Hne Hu]]%Hlk; [by eapply Hval|].
    destruct Hcrit as [->|Hcr]; [by eapply Hv|].
    pose proof (proj1 (Hm _ _ Hu) eq_refl). apply Hmt in Hcr. congruence.
  - rewrite (zsum_insert _ _ _ _ _ Ht), <- Hc. lia.
  - intros u q [[-> ->]|[Hne Hu]]%Hlk Hp; [|by eapply Hb].
    destruct (Hpass Hp); [by eapply Hb|done].
  - unfold main_ok in *. cbn [main_pc workers counter]. rewrite length_insert.
    assert (forall k, Forall (.= WExit) (take k (workers s)) ->
              take k (<[t:=pc']> (workers s)) = take k (workers s)) as Htk.
    { intros k Hf. destruct (decide (t < k)%nat) as [Hlt|]; [|by rewrite take_insert_ge by lia].
      rewrite Forall_lookup in Hf. by rewrite (Hf t pc) in Hx by (by rewrite lookup_take_lt). }
    destruct (main_pc s) as [|tx k|k g e st]; [done| |].
    + destruct Hmain as [Hk Hf]. by rewrite Htk.
    + destruct Hmain as (_ & Hf & _). rewrite Forall_lookup in Hf. by rewrite (Hf _ _ Ht) in Hx.
Qed.

(** The barrier opens. *)
Lemma inv_release s :
  inv s -> Z.of_nat (length (workers s)) = n -> 0 <= n -> inv (State (counter s) (mutex s) (release <$> workers s) (main_pc s)).
Proof.
  intros [Hm Hh Hok Hv Hc Hl Hb Hmain] Hlen Hn.
  assert (forall u q, (release <$> workers s) !! u = Some q ->
            workers s !! u = Some q \/ workers s !! u = Some WBarrier /\ q = WLoop 0) as Hlk.
  { intros u q. rewrite list_lookup_fmap. destruct (workers s !! u) as [[]|]; intros [= <-]; auto. }
  split; cbn [workers mutex counter]; rewrite ?length_fmap; [| | | | |done|done|].
  - intros u q [Hu|[Hu ->]]%Hlk; [by apply Hm|]. by apply Hm in Hu.
  - intros u Hu. rewrite list_lookup_fmap. by apply fmap_is_Some, Hh.
  - intros u q [Hu|[Hu ->]]%Hlk; [by eapply Hok|]. simpl. lia.
  - intros u i v [Hu|[Hu Hq]]%Hlk; [by eapply Hv|done].
  - rewrite zsum_map, Hc. apply zsum_ext. intros u [] _; done.
  - unfold main_ok in *. cbn [main_pc workers counter]. rewrite length_fmap.
    assert (forall l, Forall (.= WExit) l -> Forall (.= WExit) (release <$> l)) as Hf.
    { intros l. induction 1 as [|q l ->]; by constructor. }
    destruct (main_pc s) as [|tx k|k g e st]; [done| |].
    + destruct Hmain as [Hk Hx]. rewrite <- fmap_take. auto.
    + destruct Hmain as (? & ? & ?). auto.
Qed.

Definition starting (pc : w_pc) : bool := match pc with WStart => true | _ => false end.

(** The last thread arrives only when all [n] of them exist. *)
Lemma barrier_full s t :
  inv s -> workers s !! t = Some WStart ->
  Z.of_nat (count_if at_barrier (workers s)) + 1 = n -> Z.of_nat (length (workers s)) = n.
Proof.
  intros Hi Ht Hc. pose proof (inv_length _ Hi).
  pose proof (count_if_lookup starting _ _ _ Ht eq_refl).
  pose proof (count_if_disjoint at_barrier starting (workers s) ltac:(by intros [])). lia.
Qed.

Lemma barrier_inv s t :
  0 <= n -> inv s -> workers s !! t = Some WStart -> inv (barrier_wait t s).
Proof.
  intros Hn Hi Ht. unfold barrier_wait.
  destruct (Z.eqb_spec (Z.of_nat (count_if at_barrier (workers s)) + 1) n) as [Hc|Hc].
  - pose proof (barrier_full _ _ Hi Ht Hc) as Hl. pose proof (inv_release _ Hi Hl Hn) as Hr.
    assert ((release <$> workers s) !! t = Some WStart) as Ht' by (by rewrite list_lookup_fmap, Ht).
    rewrite <- (length_fmap release) in Hl.
    eapply (inv_worker _ t WStart (WLoop 0) _ _ Hr Ht'); simpl; auto; (done || lia).
  - eapply (inv_worker _ t WStart WBarrier _ _ Hi Ht); simpl; auto; done.
Qed.

(** No sum of increments exceeds [n * n]; a worker that still has one to do keeps
    it below. *)
Lemma counter_bound s : 0 <= n -> inv s -> 0 <= counter s <= n * n.
Proof.
  intros Hn [_ _ Hok _ -> Hl _ _].
  assert (forall t pc, workers s !! t = Some pc -> 0 <= done_by pc <= n) as Hd.
  { intros t pc Ht. specialize (Hok _ _ Ht). destruct pc; simpl in *; lia. }
  pose proof (zsum_le done_by (fun _ => n) (workers s) (fun t pc Ht => proj2 (Hd t pc Ht))) as H1.
  pose proof (zsum_le (fun _ => 0) done_by (workers s) (fun t pc Ht => proj1 (Hd t pc Ht))) as H0.
  rewrite zsum_const in H0, H1. nia.
Qed.

Lemma counter_below s t pc :
  0 <= n -> inv s -> workers s !! t = Some pc -> done_by pc < n -> counter s < n * n.
Proof.
  intros Hn Hi Ht Hd. pose proof Hi as [_ _ Hok _ Hc Hl _ _].
  assert (zsum done_by (<[t:=WExit]> (workers s)) <= n * Z.of_nat (length (workers s))) as Hle.
  { rewrite <- (length_insert (workers s) t WExit), <- zsum_const. apply zsum_le.
    intros u q. destruct (decide (u = t)) as [->|Hne].
    - rewrite list_lookup_insert_eq by (by eapply lookup_lt_Some). intros [= <-]. simpl. lia.
    - rewrite list_lookup_insert_ne by done. intros Hu. specialize (Hok _ _ Hu).
      destruct q; simpl in *; lia. }
  rewrite (zsum_insert _ _ _ _ _ Ht), <- Hc in Hle. simpl in Hle. nia.
Qed.

Lemma worker_step_inv t s s' : 0 <= n -> inv s -> worker_step t s = Some s' -> inv s'.
Proof.
  intros Hn Hi Hs. unfold worker_step in Hs.
  destruct (workers s !! t) as [pc|] eqn:Et; [|done]. cbn [mbind option_bind] in Hs.
  pose proof (inv_ok _ Hi _ _ Et) as Hok. simpl in Hok.
  destruct pc as [| |i|i|i v|i|]; simpl in Hok; try done.
  - injection Hs as <-. by apply barrier_inv.
  - destruct (Z.ltb_spec i n) as [Hlt|Hge].
    + case_decide as Hm; [|done]. injection Hs as <-.
      eapply (inv_worker _ t (WLoop i) _ _ _ Hi Et); simpl; auto; (done || lia).
    + injection Hs as <-. eapply (inv_worker _ t (WLoop i) _ _ _ Hi Et); simpl; auto; (done || lia).
  - injection Hs as <-. eapply (inv_worker _ t (WRead i) _ _ _ Hi Et); simpl; auto; try done.
    by intros ? ? [= <- <-].
  - destruct (int_ok (v + 1)) as [c|] eqn:Ec; [|done]. injection Hs as <-.
    pose proof (inv_value _ Hi _ _ _ Et) as ->.
    unfold int_ok in Ec. destruct (_ && _); [|done]. injection Ec as <-.
    eapply (inv_worker _ t (WWrite i (counter s)) _ _ _ Hi Et); simpl; auto; (done || lia).
  - injection Hs as <-. eapply (inv_worker _ t (WUnlock i) _ _ _ Hi Et); simpl; auto; try done; lia.
Qed.

Lemma power_main_step_inv b s s' : inv s -> main_step b s = Some s' -> inv s'.
Proof.
  intros Hi Hs. unfold main_step in Hs. destruct (main_pc s) as [|tx k|k g e st] eqn:Em; [| |done].
  - destruct (Z.ltb_spec (Z.of_nat (length (workers s))) n) as [Hlt|Hge].
    2:{ injection Hs as <-. destruct Hi as [Hm Hh Hok Hv Hc Hl Hb Hmain]. split; try done.
        cbn. split; [lia|constructor]. }
    destruct b; injection Hs as <-.
    2:{ destruct Hi as [Hm Hh Hok Hv Hc Hl Hb Hmain]. by split. }
    destruct Hi as [Hm Hh Hok Hv Hc Hl Hb Hmain].
    assert (forall u q, (workers s ++ [WStart]) !! u = Some q ->
              workers s !! u = Some q \/ u = length (workers s) /\ q = WStart) as Hlk.
    { intros u q [Hu|[Hle Hu]]%lookup_app_Some; [by left|right].
      apply list_lookup_singleton_Some in Hu as [Hu <-]. split; [lia|done]. }
    split; cbn [workers mutex counter].
    + intros u q [Hu|[-> ->]]%Hlk; [by apply Hm|]. split; [done|]. intros [x Hx]%Hh.
      apply lookup_lt_Some in Hx. lia.
    + intros u [x Hx]%Hh. exists x. by apply lookup_app_l_Some.
    + intros u q [Hu|[-> ->]]%Hlk; [by eapply Hok|done].
    + intros u i v [Hu|[_ ?]]%Hlk; [by eapply Hv|done].
    + rewrite zsum_snoc, <- Hc. simpl. lia.
    + rewrite length_app. simpl. lia.
    + intros u q [Hu|[-> ->]]%Hlk Hp; [|done]. specialize (Hb _ _ Hu Hp). lia.
    + done.
  - pose proof (inv_main _ Hi) as Hmain. unfold main_ok in Hmain. rewrite Em in Hmain.
    destruct Hmain as [Hk Hf]. destruct (Z.ltb_spec (Z.of_nat tx) k) as [Hlt|Hge].
    + destruct (workers s !! tx) as [[]|] eqn:Et; try done. injection Hs as <-.
      destruct Hi as [Hm Hh Hok Hv Hc Hl Hb _]. split; try done. cbn. split; [done|].
      rewrite (take_S_r _ _ _ Et). apply Forall_app. split; [done|by constructor].
    + injection Hs as <-. rewrite take_ge in Hf by lia.
      destruct Hi as [Hm Hh Hok Hv Hc Hl Hb _]. by split.
Qed.

Lemma power_reachable_inv s : 0 <= n -> reachable s -> inv s.
Proof.
  intros Hn. induction 1 as [|s s' _ IH Hs]; [by apply power_inv_start|].
  destruct Hs as [b s s' Hs|t s s' Hs].
  - by eapply power_main_step_inv.
  - by eapply worker_step_inv.
Qed.

End power.

(** C14: whatever the interleaving of [main] and the workers, when [n] squared fits
    in an [int] the increment of the counter never overflows, and [main] returns
    only when every thread was created, with counter [n] squared and status
    [EXIT_SUCCESS], or when not even the first one could be, with [EXIT_FAILURE];
    after any other failed [pthread_create] the workers wait at the barrier and
    [main] waits for them for ever. *)
Theorem power_result (args : list string) (n : Z) (s : state)
    (Ha : parse_threads args = Some n) (Hsq : n * n <= INT_MAX) (Hr : reachable n s) :
  (forall t i v, workers s !! t = Some (WWrite i v) -> is_Some (worker_step n t s)) /\
  (forall threads got exp status, main_pc s = MReturn threads got exp status ->
     threads = n /\ got = n * n /\ exp = n * n /\ status = EXIT_SUCCESS \/
     threads = 0 /\ got = 0 /\ exp = n * n /\ status = EXIT_FAILURE).
Proof.
  pose proof (parse_threads_positive _ _ Ha) as Hn. assert (0 <= n) as Hn0 by lia. pose proof (power_reachable_inv n s Hn0 Hr) as Hi. split.
  - intros t i v Ht. unfold worker_step. rewrite Ht. cbn [mbind option_bind].
    pose proof (inv_value _ _ Hi _ _ _ Ht) as ->. pose proof (inv_ok _ _ Hi _ _ Ht) as Hok.
    pose proof (counter_below _ _ _ _ Hn0 Hi Ht) as Hb. pose proof (counter_bound _ _ Hn0 Hi).
    simpl in *. rewrite int_ok_small by (unfold INT_MIN; lia). by eexists.
  - intros k g e st Hm. pose proof Hi as [_ _ _ _ Hc _ Hb Hmain].
    unfold main_ok in Hmain. rewrite Hm in Hmain. destruct Hmain as (-> & Hx & -> & -> & ->).
    assert (expected n = n * n) as -> by (apply s32_small; unfold INT_MIN; nia).
    destruct (workers s) as [|pc l] eqn:Ew.
    + right. rewrite Hc. cbn [zsum foldr]. rewrite (proj2 (Z.eqb_neq 0 (n * n))) by nia. done.
    + left. apply Forall_cons in Hx as [-> Hx].
      assert (Z.of_nat (length (WExit :: l)) = n) as Hl by (by apply (Hb 0%nat WExit)).
      rewrite Hc, (zsum_ext _ (fun _ => n)), zsum_const, Hl, Z.eqb_refl; [done|].
      intros [|t] pc; simpl; [by intros [= <-]|]. intros Ht. rewrite Forall_lookup in Hx.
      by rewrite (Hx _ _ Ht).
Qed.

(* ------------------------------------------------------------------ *)
(** ** A run *)

(** A schedule: [None] is [main], with successful creations. *)
Fixpoint run (n : Z) (es : list (option nat)) (s : state) : option state :=
  match es with
  | [] => Some s
  | e :: es =>
      s' ← match e with None => main_step n true s | Some t => worker_step n t s end;
      run n es s'
  end.

Lemma power_run_reachable n es : forall s s', reachable n s -> run n es s = Some s' -> reachable n s'.
Proof.
  induction es as [|e es IH]; intros s s' Hr Hs; simpl in Hs; [by injection Hs as <-|].
  destruct e as [t|].
  - destruct (worker_step n t s) as [s1|] eqn:E; [|done].
    apply (IH s1); [|done]. eapply reach_step; [done|by eapply step_worker].
  - destruct (main_step n true s) as [s1|] eqn:E; [|done].
    apply (IH s1); [|done]. eapply reach_step; [done|by eapply step_main].
Qed.

(** Two threads, interleaved. *)
Definition demo_two : list (option nat) :=
  [None; None; Some 1; None; Some 0; Some 1; Some 1; Some 1; Some 1;
   Some 0; Some 0; Some 0; Some 0; Some 1; Some 1; Some 1; Some 1; Some 1;
   Some 0; Some 0; Some 0; Some 0; Some 0; None; None; None]%nat.

Theorem power_result_witness :
  exists s, run 2 demo_two start = Some s /\ main_pc s = MReturn 2 4 4 EXIT_SUCCESS /\
    (2 = 2 /\ 4 = 2 * 2 /\ 4 = 2 * 2 /\ EXIT_SUCCESS = EXIT_SUCCESS \/
     2 = 0 /\ 4 = 0 /\ 4 = 2 * 2 /\ EXIT_SUCCESS = EXIT_FAILURE).
Proof.
  eexists. split; [vm_compute; reflexivity|]. split; [reflexivity|].
  assert (reachable 2 (State 4 None [WExit; WExit] (MReturn 2 4 4 EXIT_SUCCESS))) as Hr.
  { apply (power_run_reachable 2 demo_two start); [constructor|vm_compute; reflexivity]. }
  apply (proj2 (power_result ["2"%string] 2 _ eq_refl ltac:(by vm_compute) Hr) 2 4 4 EXIT_SUCCESS).
  reflexivity.
Defined.

(** With two threads asked for and only one created, nobody can move. *)
Example barrier_deadlock :
  exists s, (exists s1 s2, run 2 [None; Some 0%nat] start = Some s1 /\
               main_step 2 false s1 = Some s2 /\ s = s2) /\
    main_pc s = MJoin 0 1 /\ forall s', ~ step 2 s s'.
Proof.
  eexists. split; [do 2 eexists; split_and!; [vm_compute; reflexivity|vm_compute; reflexivity|reflexivity]|].
  split; [done|]. intros s' Hs. inversion Hs as [b s1 s2 E|t s1 s2 E]; [done|].
  by destruct t as [|t].
Qed.
