(* ===== verification/Sqrt.v ===== *)
(** [ex09/sqrt/sqrt.c]: one producer publishes a number and its integer square
    root under a read-write lock, [threads] consumers check them. *)

From S2P Require Import Prelude.
From S2P Require Import ThreadsArg.

(** [pthread_rwlock_t] *)
Record rwlock := RW { readers : nat; writer : bool }.

(** The calls return when the lock lets them through. *)
Definition rdlock (l : rwlock) : option rwlock :=
  if writer l then None else Some (RW (S (readers l)) false).
Definition wrlock (l : rwlock) : option rwlock :=
  if writer l || negb (readers l =? 0)%nat then None else Some (RW 0 true).
Definition unlock (l : rwlock) : rwlock :=
  if writer l then RW (readers l) false else RW (Nat.pred (readers l)) false.

(** Where a consumer is; the parameters are its local variables. *)
Inductive c_pc :=
| CFlagLock | CFlagRead | CFlagUnlock (cond : bool)
| CRdlock | CReadS | CReadN (temp_s : Z) | CUnlock (temp_s temp_n : Z)
| CCheck (temp_s temp_n : Z)
| CExit.

Inductive p_pc :=
| PLoop (i : Z)
| PSearch (i temp_n temp_s : Z)
| PWrlock (i temp_n temp_s : Z) | PWriteN (i temp_n temp_s : Z) | PWriteS (i temp_s : Z)
| PUnlock (i : Z)
| PPrint (i : Z)
| PFlagLock | PFlagSet | PFlagUnlock
| PExit.

Inductive m_pc :=
| MCreateConsumers
| MCreateProducer
| MJoin (tx : nat) (threads errors : Z)
| MReturn (errors status : Z).

(** [struct consumer_data]: position and [errors]. *)
Definition consumer : Type := c_pc * Z.

Record state := State {
  sh_s : Z; sh_n : Z;           (* the anonymous struct of [shared_thread_data] *)
  finished : bool;
  lock : rwlock;
  finished_rwlock : rwlock;
  consumers : list consumer;
  producer : option p_pc;
  main_pc : m_pc;
  commits : list (Z * Z);       (* the lines "producer: commit s, n" *)
}.

Section sqrt.
(** The argument of the program. *)
Context (threads : Z).

Definition set_consumer (t : nat) (c : consumer) (s : state) : state :=
  State (sh_s s) (sh_n s) (finished s) (lock s) (finished_rwlock s) (<[t:=c]> (consumers s))
    (producer s) (main_pc s) (commits s).
Definition set_lock (l : rwlock) (s : state) : state :=
  State (sh_s s) (sh_n s) (finished s) l (finished_rwlock s) (consumers s)
    (producer s) (main_pc s) (commits s).
Definition set_flag_lock (l : rwlock) (s : state) : state :=
  State (sh_s s) (sh_n s) (finished s) (lock s) l (consumers s)
    (producer s) (main_pc s) (commits s).
Definition set_producer (p : p_pc) (s : state) : state :=
  State (sh_s s) (sh_n s) (finished s) (lock s) (finished_rwlock s) (consumers s)
    (Some p) (main_pc s) (commits s).
Definition set_shared (sq n : Z) (s : state) : state :=
  State sq n (finished s) (lock s) (finished_rwlock s) (consumers s)
    (producer s) (main_pc s) (commits s).
Definition set_finished (s : state) : state :=
  State (sh_s s) (sh_n s) true (lock s) (finished_rwlock s) (consumers s)
    (producer s) (main_pc s) (commits s).
Definition set_main (m : m_pc) (s : state) : state :=
  State (sh_s s) (sh_n s) (finished s) (lock s) (finished_rwlock s) (consumers s)
    (producer s) m (commits s).
Definition commit (s : state) : state :=
  State (sh_s s) (sh_n s) (finished s) (lock s) (finished_rwlock s) (consumers s)
    (producer s) (main_pc s) (commits s ++ [(sh_s s, sh_n s)]).

Definition mismatch (temp_s temp_n : Z) : bool :=
  (temp_n <? temp_s * temp_s) || ((temp_s + 1) * (temp_s + 1) <=? temp_n).

(** [consumer_run] *)
Definition consumer_step (t : nat) (s : state) : option state :=
  '(pc, errors) ← consumers s !! t;
  match pc with
  | CFlagLock =>
      l ← rdlock (finished_rwlock s);
      Some (set_consumer t (CFlagRead, errors) (set_flag_lock l s))
  | CFlagRead => Some (set_consumer t (CFlagUnlock (negb (finished s)), errors) s)
  | CFlagUnlock cond =>
      Some (set_consumer t (if cond then CRdlock else CExit, errors)
              (set_flag_lock (unlock (finished_rwlock s)) s))
  | CRdlock =>
      l ← rdlock (lock s);
      Some (set_consumer t (CReadS, errors) (set_lock l s))
  | CReadS => Some (set_consumer t (CReadN (sh_s s), errors) s)
  | CReadN temp_s => Some (set_consumer t (CUnlock temp_s (sh_n s), errors) s)
  | CUnlock temp_s temp_n =>
      Some (set_consumer t (CCheck temp_s temp_n, errors) (set_lock (unlock (lock s)) s))
  | CCheck temp_s temp_n =>
      Some (set_consumer t (CFlagLock, if mismatch temp_s temp_n then errors + 1 else errors) s)
  | CExit => None
  end.

(** [producer.iterations] *)
Definition iterations : Z := 5 * threads.

(** [producer_run]; [r] is the result of [rand()]. *)
Definition producer_step (r : Z) (s : state) : option state :=
  pc ← producer s;
  match pc with
  | PLoop i =>
      if i <? iterations then
        let temp_n := 128 + Z.rem r 4096 in Some (set_producer (PSearch i temp_n temp_n) s)
      else Some (set_producer PFlagLock s)
  | PSearch i temp_n temp_s =>
      if temp_n <? temp_s * temp_s then Some (set_producer (PSearch i temp_n (temp_s - 1)) s)
      else Some (set_producer (PWrlock i temp_n temp_s) s)
  | PWrlock i temp_n temp_s =>
      l ← wrlock (lock s);
      Some (set_producer (PWriteN i temp_n temp_s) (set_lock l s))
  | PWriteN i temp_n temp_s =>
      Some (set_producer (PWriteS i temp_s) (set_shared (sh_s s) temp_n s))
  | PWriteS i temp_s => Some (set_producer (PUnlock i) (set_shared temp_s (sh_n s) s))
  | PUnlock i => Some (set_producer (PPrint i) (set_lock (unlock (lock s)) s))
  | PPrint i => Some (set_producer (PLoop (i + 1)) (commit s))
  | PFlagLock =>
      l ← wrlock (finished_rwlock s);
      Some (set_producer PFlagSet (set_flag_lock l s))
  | PFlagSet => Some (set_producer PFlagUnlock (set_finished s))
  | PFlagUnlock => Some (set_producer PExit (set_flag_lock (unlock (finished_rwlock s)) s))
  | PExit => None
  end.

Definition add_consumer (s : state) : state :=
  State (sh_s s) (sh_n s) (finished s) (lock s) (finished_rwlock s) (consumers s ++ [(CFlagLock, 0)])
    (producer s) (main_pc s) (commits s).

(** [main]; [created] is whether [pthread_create] succeeds. [status] is set once,
    to [EXIT_FAILURE]. *)
Definition main_step (created : bool) (s : state) : option state :=
  match main_pc s with
  | MCreateConsumers =>
      let tx := Z.of_nat (length (consumers s)) in
      if tx <? threads then
        if created then Some (add_consumer s) else Some (set_main (MJoin 0 tx 0) s)
      else Some (set_main MCreateProducer s)
  | MCreateProducer =>
      if created then Some (set_main (MJoin 0 threads 0) (set_producer (PLoop 0) s))
      else Some (set_main (MJoin 0 threads 0) s)
  | MJoin tx k errors =>
      if Z.of_nat tx <? k then
        match consumers s !! tx with
        | Some (CExit, e) => Some (set_main (MJoin (S tx) k (errors + e)) s)
        | _ => None
        end
      else Some (set_main (MReturn errors EXIT_FAILURE) s)
  | MReturn _ _ => None
  end.

Inductive step : state -> state -> Prop :=
| step_main created s s' : main_step created s = Some s' -> step s s'
| step_consumer t s s' : consumer_step t s = Some s' -> step s s'
| step_producer r s s' : 0 <= r <= INT_MAX -> producer_step r s = Some s' -> step s s'.

Definition start : state :=
  State 0 0 false (RW 0 false) (RW 0 false) [] None MCreateConsumers [].

Inductive reachable : state -> Prop :=
| reach_start : reachable start
| reach_step s s' : reachable s -> step s s' -> reachable s'.

(* ------------------------------------------------------------------ *)
(** ** Invariants *)

(** [sq] is the integer square root of [n]. *)
Definition is_sqrt (sq n : Z) : Prop := sq * sq <= n < (sq + 1) * (sq + 1).

Definition reading (c : consumer) : bool :=
  match fst c with CReadS | CReadN _ | CUnlock _ _ => true | _ => false end.

Definition writing (p : option p_pc) : bool :=
  match p with Some (PWriteN _ _ _ | PWriteS _ _ | PUnlock _) => true | _ => false end.

(** What a consumer has read so far agrees with what is published. *)
Definition c_ok (s : state) (c : consumer) : Prop :=
  snd c = 0 /\
  match fst c with
  | CReadN temp_s => temp_s = sh_s s
  | CUnlock temp_s temp_n | CCheck temp_s temp_n => is_sqrt temp_s temp_n
  | _ => True
  end.

Definition p_ok (s : state) : Prop :=
  match producer s with
  | Some (PSearch i n sq) => 128 <= n /\ 0 <= sq <= n /\ n < (sq + 1) * (sq + 1)
  | Some (PWrlock i n sq) | Some (PWriteN i n sq) => is_sqrt sq n
  | Some (PWriteS i sq) => is_sqrt sq (sh_n s)
  | _ => True
  end /\
  match producer s with Some (PWriteS _ _) => True | _ => is_sqrt (sh_s s) (sh_n s) end.

Definition main_ok (s : state) (m : m_pc) : Prop :=
  match m with
  | MCreateConsumers | MCreateProducer => producer s = None
  | MJoin _ _ errors => errors = 0
  | MReturn errors status => errors = 0 /\ status = EXIT_FAILURE
  end.

Record inv (s : state) : Prop := {
  inv_readers : readers (lock s) = count_if reading (consumers s);
  inv_writer : writer (lock s) = writing (producer s);
  inv_exclusive : writer (lock s) = true -> readers (lock s) = 0%nat;
  inv_producer : p_ok s;
  inv_consumers : Forall (c_ok s) (consumers s);
  inv_commits : Forall (fun c => is_sqrt (fst c) (snd c)) (commits s);
  inv_main : main_ok s (main_pc s);
}.

Lemma mismatch_sqrt sq n : is_sqrt sq n -> mismatch sq n = false.
Proof. unfold is_sqrt, mismatch. intros. apply orb_false_iff. split; lia. Qed.

Lemma sqrt_inv_start : inv start.
Proof. by split; repeat constructor. Qed.

Lemma inv_flag_lock l s : inv s -> inv (set_flag_lock l s).
Proof. by intros [? ? ? ? ? ? ?]; split. Qed.

Lemma inv_finished s : inv s -> inv (set_finished s).
Proof. by intros [? ? ? ? ? ? ?]; split. Qed.

(** A consumer inside its read section keeps the producer out of its own. *)
Lemma reader_excludes s t c :
  inv s -> consumers s !! t = Some c -> reading c = true ->
  writer (lock s) = false /\ is_sqrt (sh_s s) (sh_n s).
Proof.
  intros [Hr Hw Hx [_ Hp] _ _ _] Ht Hc. pose proof (count_if_lookup reading _ _ _ Ht Hc).
  destruct (writer (lock s)) eqn:Ew; [by rewrite Hr in Hx; rewrite Hx in *; lia|].
  split; [done|]. by destruct (producer s) as [[]|].
Qed.

(** A consumer moves, keeping the read lock, taking it or giving it back. *)
Lemma inv_consumer s t c c' l' :
  inv s -> consumers s !! t = Some c -> c_ok s c' ->
  (l' = lock s /\ reading c' = reading c \/
   rdlock (lock s) = Some l' /\ reading c = false /\ reading c' = true \/
   l' = unlock (lock s) /\ reading c = true /\ reading c' = false) ->
  inv (set_consumer t c' (set_lock l' s)).
Proof.
  intros Hi Ht Hc' Hl. pose proof Hi as [Hr Hw Hx Hp Hc Ho Hm].
  pose proof (count_if_insert reading _ _ _ c' Ht) as Hcnt.
  assert (readers l' = count_if reading (<[t:=c']> (consumers s)) /\
          writer l' = writer (lock s) /\ (writer l' = true -> readers l' = 0%nat)) as (Hr' & Hw' & Hx').
  { destruct Hl as [[-> E]|[(E & E1 & E2)|(-> & E1 & E2)]].
    - rewrite E in Hcnt. split_and!; [lia|done|done].
    - unfold rdlock in E. destruct (writer (lock s)) eqn:Ew; [done|]. injection E as <-.
      rewrite E1, E2 in Hcnt. simpl in *. split_and!; [lia|done|done].
    - destruct (reader_excludes _ _ _ Hi Ht E1) as [Ew _]. unfold unlock. rewrite Ew.
      rewrite E1, E2 in Hcnt. simpl in *. split_and!; [lia|done|done]. }
  split; try done.
  - simpl. congruence.
  - apply Forall_insert; [|done]. by apply (Forall_impl _ _ _ Hc).
Qed.

Lemma set_lock_same s : set_lock (lock s) s = s.
Proof. by destruct s. Qed.

Lemma inv_consumer_same s t c c' :
  inv s -> consumers s !! t = Some c -> c_ok s c' -> reading c' = reading c ->
  inv (set_consumer t c' s).
Proof.
  intros Hi Ht Hc Hr. rewrite <- (set_lock_same s) at 1. eapply inv_consumer; [done..|by left].
Qed.

Lemma consumer_step_inv t s s' : inv s -> consumer_step t s = Some s' -> inv s'.
Proof.
  intros Hi Hs. unfold consumer_step in Hs.
  destruct (consumers s !! t) as [[pc e]|] eqn:Et; [|done]. cbn [mbind option_bind] in Hs.
  pose proof (Forall_lookup_1 _ _ _ _ (inv_consumers _ Hi) Et) as [He Hpc]. simpl in He, Hpc. subst e.
  destruct pc as [| |b| | |sq|sq n|sq n|].
  - destruct (rdlock (finished_rwlock s)) as [l|]; [|done]. injection Hs as <-.
    by eapply inv_consumer_same; [apply inv_flag_lock|..].
  - injection Hs as <-. by eapply inv_consumer_same.
  - injection Hs as <-. eapply inv_consumer_same; [by apply inv_flag_lock|done|by destruct b..].
  - destruct (rdlock (lock s)) as [l|] eqn:El; [|done]. injection Hs as <-.
    eapply inv_consumer; [done..|by right; left].
  - injection Hs as <-. by eapply inv_consumer_same.
  - injection Hs as <-. destruct (reader_excludes _ _ _ Hi Et eq_refl) as [_ Hsq].
    eapply inv_consumer_same; [done..| |done]. split; [done|]. simpl. by rewrite Hpc.
  - injection Hs as <-. eapply inv_consumer; [done..|by right; right].
  - injection Hs as <-. rewrite mismatch_sqrt by done. by eapply inv_consumer_same.
  - done.
Qed.

(** Once the producer runs [main] is joining. *)
Lemma main_ok_running s s' : main_ok s (main_pc s) -> is_Some (producer s) -> main_ok s' (main_pc s).
Proof. intros Hm [p Hp]. unfold main_ok in *. destruct (main_pc s); congruence. Qed.

Lemma inv_producer_pc s p :
  inv s -> is_Some (producer s) -> writing (Some p) = writing (producer s) ->
  p_ok (set_producer p s) -> inv (set_producer p s).
Proof.
  intros [Hr Hw Hx Hp Hc Ho Hm] Hsome E Hp'. split; try done.
  - exact (eq_trans Hw (eq_sym E)).
  - by apply (main_ok_running s).
Qed.

(** While the producer is about to write nobody is reading. *)
Lemma no_reader s c : inv s -> writer (lock s) = true -> c ∈ consumers s -> reading c = false.
Proof.
  intros [Hr _ Hx _ _ _ _] Hw [t Ht]%list_elem_of_lookup. specialize (Hx Hw).
  destruct (reading c) eqn:Ec; [|done]. pose proof (count_if_lookup reading _ _ _ Ht Ec). lia.
Qed.

(** A write to the shared numbers, under the write lock. *)
Lemma inv_write s sq n p :
  inv s -> writing (producer s) = true -> writing (Some p) = true ->
  p_ok (set_producer p (set_shared sq n s)) -> inv (set_producer p (set_shared sq n s)).
Proof.
  intros Hi E E' Hp'. pose proof Hi as [Hr Hw Hx Hp Hc Ho Hm]. split; try done.
  - simpl in *. congruence.
  - apply Forall_forall. intros [pc e] Hin. rewrite Forall_forall in Hc.
    specialize (Hc _ Hin) as [He Hpc]. split; [done|].
    pose proof (no_reader s _ Hi (eq_trans Hw E) Hin) as Hnr. simpl in *. by destruct pc.
  - apply (main_ok_running s); [done|]. by destruct (producer s).
Qed.

Lemma producer_step_inv r s s' :
  0 <= r <= INT_MAX -> inv s -> producer_step r s = Some s' -> inv s'.
Proof.
  intros Hrand Hi Hs. unfold producer_step in Hs.
  destruct (producer s) as [pc|] eqn:Ep; [|done]. cbn [mbind option_bind] in Hs.
  pose proof (inv_producer _ Hi) as [Hok Hsq]. rewrite Ep in Hok, Hsq.
  assert (is_Some (producer s)) as Hsome by by rewrite Ep.
  destruct pc as [i|i n sq|i n sq|i n sq|i sq|i|i| | | |].
  - destruct (i <? iterations); injection Hs as <-; (apply inv_producer_pc; [done|done|by rewrite Ep|]);
      (split; [|done]); [|done]. simpl.
    pose proof (Z.rem_bound_pos r 4096 ltac:(lia) ltac:(lia)). nia.
  - destruct (Z.ltb_spec n (sq * sq)) as [Hlt|Hge]; injection Hs as <-;
      (apply inv_producer_pc; [done|done|by rewrite Ep|]); (split; [|done]); simpl; unfold is_sqrt in *; nia.
  - unfold wrlock in Hs. pose proof Hi as [Hr Hw Hx Hp Hc Ho Hm].
    destruct (writer (lock s)) eqn:Ew; [done|]. destruct (Nat.eqb_spec (readers (lock s)) 0); [|done].
    injection Hs as <-. split; try done; [simpl; congruence|by apply (main_ok_running s)].
  - injection Hs as <-. by apply inv_write; [|rewrite Ep|..].
  - injection Hs as <-. by apply inv_write; [|rewrite Ep|..].
  - injection Hs as <-. pose proof Hi as [Hr Hw Hx Hp Hc Ho Hm]. rewrite Ep in Hw. simpl in Hw.
    unfold unlock. rewrite Hw. split; try done. by apply (main_ok_running s).
  - injection Hs as <-. pose proof Hi as [Hr Hw Hx Hp Hc Ho Hm]. rewrite Ep in Hw. split; try done.
    + simpl. apply Forall_app. split; [done|by constructor].
    + by apply (main_ok_running s).
  - destruct (wrlock (finished_rwlock s)) as [l|]; [|done]. injection Hs as <-.
    by apply inv_producer_pc; [apply inv_flag_lock|done|simpl; rewrite Ep|].
  - injection Hs as <-. by apply inv_producer_pc; [apply inv_finished|done|simpl; rewrite Ep|].
  - injection Hs as <-. by apply inv_producer_pc; [apply inv_flag_lock|done|simpl; rewrite Ep|].
  - done.
Qed.

Lemma inv_set_main m s : inv s -> main_ok s m -> inv (set_main m s).
Proof. by intros [? ? ? ? ? ? ?] ?; split. Qed.

Lemma sqrt_main_step_inv b s s' : inv s -> main_step b s = Some s' -> inv s'.
Proof.
  intros Hi Hs. unfold main_step in Hs. pose proof (inv_main _ Hi) as Hm.
  destruct (main_pc s) as [| |tx k e|e st] eqn:Em; simpl in Hm.
  - destruct (_ <? threads); [destruct b|]; injection Hs as <-; [|by apply inv_set_main..].
    destruct Hi as [Hr Hw Hx Hp Hc Ho Hmn]. split; try done; simpl.
    + rewrite count_if_app. simpl. lia.
    + apply Forall_app. split; [done|by constructor].
  - destruct b; injection Hs as <-; [|by apply inv_set_main].
    pose proof (inv_producer _ Hi) as [_ Hsq]. rewrite Hm in Hsq.
    destruct Hi as [Hr Hw Hx Hp Hc Ho Hmn]. rewrite Hm in Hw. by split.
  - destruct (_ <? k); [|by injection Hs as <-; apply inv_set_main].
    destruct (consumers s !! tx) as [[[] c]|] eqn:Et; try done. injection Hs as <-.
    pose proof (Forall_lookup_1 _ _ _ _ (inv_consumers _ Hi) Et) as [Hc _]. simpl in Hc.
    apply inv_set_main; [done|]. simpl. lia.
  - done.
Qed.

Lemma sqrt_reachable_inv s : reachable s -> inv s.
Proof.
  induction 1 as [|s s' _ IH Hs]; [apply sqrt_inv_start|]. destruct Hs as [b s s' Hs|t s s' Hs|r s s' Hr Hs].
  - by eapply sqrt_main_step_inv.
  - by eapply consumer_step_inv.
  - by eapply producer_step_inv.
Qed.

End sqrt.

(** C15: whatever the interleaving and the random numbers, the read-write lock keeps
    the two published numbers together: no consumer ever counts a mismatch, every
    line the producer prints (after it has released the lock) shows a number and
    its integer square root, and [main] returns only with "no errors detected",
    yet always with [EXIT_FAILURE]. *)
Theorem sqrt_no_mismatch (args : list string) (threads : Z) (s : state)
    (Ha : parse_threads args = Some threads) (Hr : reachable threads s) :
  (forall t pc errors, consumers s !! t = Some (pc, errors) -> errors = 0) /\
  (forall sq n, (sq, n) ∈ commits s -> is_sqrt sq n) /\
  (forall errors status, main_pc s = MReturn errors status -> errors = 0 /\ status = EXIT_FAILURE).
Proof.
  destruct (sqrt_reachable_inv _ _ Hr) as [_ _ _ _ Hc Ho Hm]. split_and!.
  - intros t pc e Ht. by destruct (Forall_lookup_1 _ _ _ _ Hc Ht).
  - intros sq n Hin. rewrite Forall_forall in Ho. by apply (Ho (sq, n)).
  - intros e st E. by rewrite E in Hm.
Qed.

(* ------------------------------------------------------------------ *)
(** ** A run *)

Inductive sched := Main (created : bool) | Consumer (t : nat) | Producer (r : Z).

Fixpoint run (threads : Z) (es : list sched) (s : state) : option state :=
  match es with
  | [] => Some s
  | e :: es =>
      s' ← match e with
           | Main b => main_step threads b s
           | Consumer t => consumer_step t s
           | Producer r => if decide (0 <= r <= INT_MAX) then producer_step threads r s else None
           end;
      run threads es s'
  end.

Lemma sqrt_run_reachable threads es : forall s s',
  reachable threads s -> run threads es s = Some s' -> reachable threads s'.
Proof.
  induction es as [|e es IH]; intros s s' Hr Hs; simpl in Hs; [by injection Hs as <-|].
  destruct e as [b|t|r].
  - destruct (main_step threads b s) as [s1|] eqn:E; [|done].
    apply (IH s1); [|done]. eapply reach_step; [done|by eapply step_main].
  - destruct (consumer_step t s) as [s1|] eqn:E; [|done].
    apply (IH s1); [|done]. eapply reach_step; [done|by eapply step_consumer].
  - case_decide; [|done]. destruct (producer_step threads r s) as [s1|] eqn:E; [|done].
    apply (IH s1); [|done]. eapply reach_step; [done|by eapply step_producer].
Qed.

(** One consumer; it checks the initial zeros, then a published number. The
    random numbers are 0, so that the search starts from 128 and ends at 11. *)
Definition demo_publish : list sched :=
  [Main true; Main true; Main true] ++
  repeat (Consumer 0) 10 ++ repeat (Producer 0) 124 ++ repeat (Consumer 0) 5.

Theorem sqrt_no_mismatch_witness :
  exists s, run 1 demo_publish start = Some s /\
    commits s = [(11, 128)] /\ consumers s = [(CCheck 11 128, 0)] /\
    (forall t pc errors, consumers s !! t = Some (pc, errors) -> errors = 0) /\
    (forall sq n, (sq, n) ∈ commits s -> is_sqrt sq n).
Proof.
  eexists. split; [vm_compute; reflexivity|]. split; [reflexivity|]. split; [reflexivity|].
  match goal with |- (forall t pc errors, consumers ?st !! t = _ -> _) /\ _ =>
    assert (reachable 1 st) as Hr end.
  { apply (sqrt_run_reachable 1 demo_publish start); [constructor|vm_compute; reflexivity]. }
  split; apply (sqrt_no_mismatch ["1"%string] 1 _ eq_refl Hr).
Defined.

(** When the second consumer cannot be created the producer never starts, and the
    first consumer loops for ever: here its position after one round is its
    position before. *)
Example no_producer_no_end :
  exists s, run 2 [Main true; Main false] start = Some s /\ main_pc s = MJoin 0 1 0 /\
    run 2 (repeat (Consumer 0) 8) s = Some s.
Proof. eexists. split; [vm_compute; reflexivity|]. split; [done|]. vm_compute. done. Qed.
