(* ===== verification/DropPriv.v ===== *)
(** [ex05/drop_priv/drop.c]: a set-uid program that drops its privileges the
    wrong way and the right way. The identity system calls are those of Linux. *)

From S2P Require Import Prelude.
From S2P Require Import CLib.
From Stdlib Require Import Ascii.

Open Scope string_scope.
Open Scope Z_scope.

(* ------------------------------------------------------------------ *)
(** ** The credentials of the process *)

Record creds := Creds { ruid : Z; euid : Z; suid : Z }.

(** [seteuid] and [setuid] (user 0 is the privileged one): [-1] is [EPERM]. *)
Definition seteuid (u : Z) (c : creds) : Z * creds :=
  if (euid c =? 0) || (u =? ruid c) || (u =? euid c) || (u =? suid c)
  then (0, Creds (ruid c) u (suid c)) else (-1, c).

Definition setuid (u : Z) (c : creds) : Z * creds :=
  if euid c =? 0 then (0, Creds u u u)
  else if (u =? ruid c) || (u =? suid c) then (0, Creds (ruid c) u (suid c))
  else (-1, c).

(* ------------------------------------------------------------------ *)
(** ** Logging *)

(** One line of output. *)
Inductive log :=
| Notify (s : string)                      (* [LOGNOTIFY] *)
| Info (ruid euid suid : Z)                (* [LOGINFO] of [print_privileges] *)
| Expr (expr : string) (val : Z)           (* [LOGEXPR] *)
| Call (expr : string) (val : Z)           (* [LOGCALL] *)
| Warn (s : string)                        (* [LOGWARN], on stderr *)
| Die (s : string)                         (* [LOGDIE], on stderr *)
| Success (s : string)                     (* [LOGSUCCESS] *)
| Blank
| Help                                     (* the text of [help] *)
| Usage.                                   (* the line of [usage] *)

Record proc := Proc { cr : creds; out : list log }.

(** A computation either goes on or has died with a message ([LOGDIE]). *)
Definition prog (A : Type) : Type := proc -> (string + A) * proc.

#[export] Instance prog_ret : MRet prog := fun A x p => (inr x, p).
#[export] Instance prog_bind : MBind prog := fun A B f m p =>
  match m p with
  | (inr x, p) => f x p
  | (inl e, p) => (inl e, p)
  end.

Definition emit (l : log) : prog unit := fun p => (inr (), Proc (cr p) (out p ++ [l])).
Definition die {A} (msg : string) : prog A := fun p => (inl msg, Proc (cr p) (out p ++ [Die msg])).
Definition getresuid : prog creds := fun p => (inr (cr p), p).
Definition syscall (f : creds -> Z * creds) : prog Z :=
  fun p => let '(r, c) := f (cr p) in (inr r, Proc c (out p)).

(** [_logexpr]: the value is printed and returned. *)
Definition _logexpr (expr_str : string) (is_errcode : bool) (m : prog Z) : prog Z :=
  v ← m; _ ← emit (if is_errcode then Call expr_str v else Expr expr_str v); mret v.
Definition LOGEXPR (expr : string) (m : prog Z) : prog Z := _logexpr expr false m.
Definition LOGCALL (expr : string) (m : prog Z) : prog Z := _logexpr expr true m.

(** [if (LOGCALL(...) != 0) LOGWARN(errno, ...)] *)
Definition call_or_warn (expr warning : string) (m : prog Z) : prog unit :=
  r ← LOGCALL expr m;
  if r =? 0 then mret () else emit (Warn warning).

(* ------------------------------------------------------------------ *)
(** ** The program *)

(** [getresuid] does not fail here: its arguments are valid pointers. *)
Definition check_privileges : prog unit :=
  c ← getresuid;
  if ruid c =? euid c then die "program is not set-uid" else mret ().

Definition print_privileges : prog unit :=
  c ← getresuid; emit (Info (ruid c) (euid c) (suid c)).

Definition drop_privileges (correct : bool) : prog unit :=
  _ ← emit (Notify "program started");
  _ ← print_privileges;
  _ ← emit Blank;
  _ ← emit (Notify "dropping privileges temporarily");
  old_euid ← LOGEXPR "old_euid = geteuid()" (c ← getresuid; mret (euid c));
  c ← getresuid;
  _ ← call_or_warn "seteuid(getuid())" "seteuid" (syscall (seteuid (ruid c)));
  _ ← print_privileges;
  _ ← emit Blank;
  _ ← (if correct then
         _ ← emit (Notify ("dropping privileges permanently (" +:+ sgr 92 +:+ "the right way" +:+ sgr 0 +:+ ")"));
         _ ← call_or_warn "seteuid(old_euid)" "setuid" (syscall (seteuid old_euid));
         _ ← print_privileges;
         c ← getresuid;
         _ ← call_or_warn "setuid(getuid())" "setuid" (syscall (setuid (ruid c)));
         print_privileges
       else
         _ ← emit (Notify ("dropping privileges premanently (" +:+ sgr 91 +:+ "the wrong way" +:+ sgr 0 +:+ ")"));
         c ← getresuid;
         _ ← call_or_warn "setuid(getuid())" "setuid" (syscall (setuid (ruid c)));
         print_privileges);
  _ ← emit Blank;
  _ ← emit (Notify "check that we dropped priviliges correctly");
  r ← LOGCALL "setuid(old_euid)" (syscall (setuid old_euid));
  _ ← (if r =? -1 then mret ()
       else die "old priviliges restored, potential security problem detected");
  _ ← emit Blank;
  emit (Success "privileges dropped correctly").

(** The options of [main], as [getopt] returns them for [hcw] (["?"] is one it
    does not know): an early return, or the counted commands. *)
Fixpoint parse_options (opts : list ascii) (commands : nat) (correct : bool) :
    (Z * list log) + (nat * bool) :=
  match opts with
  | [] => inr (commands, correct)
  | c :: opts =>
      if bool_decide (c = "h"%char) then inl (EXIT_SUCCESS, [Help])
      else if bool_decide (c = "c"%char) then parse_options opts (S commands) true
      else if bool_decide (c = "w"%char) then parse_options opts (S commands) correct
      else inl (EXIT_FAILURE, [])
  end.

(** [main]: the options, whether operands follow them ([optind != argc]), and the
    process as [execve] left it. [LOGDIE] exits with [EXIT_FAILURE]. *)
Definition main (opts : list ascii) (operands : bool) (c : creds) : Z * proc :=
  match parse_options opts 0 false with
  | inl (status, o) => (status, Proc c o)
  | inr (commands, correct) =>
      if negb (commands =? 1)%nat || operands then (EXIT_FAILURE, Proc c [Usage]) else
      match (_ ← check_privileges; drop_privileges correct) (Proc c []) with
      | (inl _, p) => (EXIT_FAILURE, p)
      | (inr _, p) => (EXIT_SUCCESS, p)
      end
  end.

(* ------------------------------------------------------------------ *)
(** ** The text *)

Definition help : string :=
  "NAME" +:+ nl +:+ "    drop -- demonstrate privileges drop" +:+ nl +:+ nl +:+
  "SYNOPSIS" +:+ nl +:+ "    drop -h" +:+ nl +:+ "    drop (-w|-c)" +:+ nl +:+ nl +:+
  "OPTIONS" +:+ nl +:+ "    -h     show help and exit" +:+ nl +:+ nl +:+
  "    -w     drop permissions, the wrong way" +:+ nl +:+
  "    -c     drop permissions, the correct way" +:+ nl.

Definition usage (argv0 : string) : string := "usage: " +:+ libgen_basename argv0 +:+ " [-h] (-w|-c)" +:+ nl.

(** The formats of the macros and of [_logexpr]. The calls only fail with [EPERM], whose text
    is [eperm]. *)
Definition log_text (argv0 eperm : string) (l : log) : output :=
  let fmt4 x := pad 4 (dec (s32 x)) in
  match l with
  | Notify s => Stdout (sgr 96 +:+ " * " +:+ sgr 0 +:+ sgr 96 +:+ s +:+ sgr 0 +:+ nl)
  | Info r e s =>
      Stdout (sgr 94 +:+ " * " +:+ sgr 0 +:+ "(RUID " +:+ fmt4 r +:+ ")  (EUID " +:+ fmt4 e +:+
              ")  (SUID " +:+ fmt4 s +:+ ")" +:+ nl)
  | Expr x v =>
      Stdout (sgr 97 +:+ " * " +:+ sgr 0 +:+ sgr 92 +:+ x +:+ sgr 0 +:+ " = " +:+ sgr 97 +:+ dec (s32 v) +:+ sgr 0 +:+ nl)
  | Call x v =>
      Stdout (sgr 97 +:+ " * " +:+ sgr 0 +:+ sgr 92 +:+ x +:+ sgr 0 +:+ " (" +:+
              (if v =? 0 then sgr 92 else sgr 91) +:+ dec v +:+ " " +:+
              (if v =? 0 then "success" else "error") +:+ sgr 0 +:+ ")" +:+ nl)
  | Warn s => Stderr (error_line argv0 (sgr 93 +:+ s +:+ sgr 0) (Some eperm))
  | Die s => Stderr (error_line argv0 (sgr 91 +:+ s +:+ sgr 0) None)
  | Success s => Stdout (sgr 92 +:+ " * " +:+ s +:+ nl)
  | Blank => Stdout nl
  | Help => Stdout help
  | Usage => Stdout (usage argv0)
  end.

(* ------------------------------------------------------------------ *)
(** ** What the calls do *)

(** Going down to the real user and back up to the saved one always works. *)
Lemma seteuid_real c : seteuid (ruid c) c = (0, Creds (ruid c) (ruid c) (suid c)).
Proof. unfold seteuid. by rewrite Z.eqb_refl, orb_true_r. Qed.

Lemma seteuid_saved c : seteuid (suid c) c = (0, Creds (ruid c) (suid c) (suid c)).
Proof. unfold seteuid. by rewrite Z.eqb_refl, !orb_true_r. Qed.

Lemma setuid_root u r s : setuid u (Creds r 0 s) = (0, Creds u u u).
Proof. done. Qed.

Lemma setuid_real r e s : e <> 0 -> setuid r (Creds r e s) = (0, Creds r r s).
Proof. intros He. unfold setuid. simpl. by rewrite (proj2 (Z.eqb_neq e 0)), Z.eqb_refl. Qed.

(** The saved user id is the way back up. *)
Lemma setuid_saved r e s : setuid s (Creds r e s) = (0, Creds (if e =? 0 then s else r) s s).
Proof. unfold setuid. simpl. by destruct (e =? 0); rewrite ?Z.eqb_refl, ?orb_true_r. Qed.

Lemma setuid_dropped u r : r <> 0 -> u <> r -> setuid u (Creds r r r) = (-1, Creds r r r).
Proof. intros. unfold setuid. simpl. by rewrite !(proj2 (Z.eqb_neq _ _)). Qed.

Lemma seteuid_dropped u r : r <> 0 -> u <> r -> seteuid u (Creds r r r) = (-1, Creds r r r).
Proof. intros. unfold seteuid. simpl. by rewrite !(proj2 (Z.eqb_neq _ _)). Qed.

#[local] Arguments setuid : simpl never.
#[local] Arguments seteuid : simpl never.

(** The credentials at the final check. *)
Definition dropped (correct : bool) (c : creds) : creds :=
  snd (setuid (ruid c) (if correct then c else Creds (ruid c) (ruid c) (suid c))).

Lemma main_dropped (correct : bool) (c : creds) :
  suid c = euid c -> ruid c <> euid c ->
  let '(status, p) := main [if correct then "c" else "w"]%char false c in
  let '(r, c') := setuid (euid c) (dropped correct c) in
  cr p = c' /\ status = if r =? -1 then EXIT_SUCCESS else EXIT_FAILURE.
Proof.
  intros Hs Hd. destruct c as [r e s]; simpl in Hs, Hd; subst s.
  pose proof (seteuid_real (Creds r e e)) as Hreal.
  pose proof (seteuid_saved (Creds r r e)) as Hsaved. simpl in Hreal, Hsaved.
  unfold main, dropped. simpl. destruct correct; simpl;
    unfold check_privileges, drop_privileges, print_privileges, call_or_warn, LOGEXPR, LOGCALL,
      _logexpr, syscall, emit, getresuid, die, mbind, prog_bind, mret, prog_ret; simpl.
  - rewrite (proj2 (Z.eqb_neq r e) Hd). simpl. rewrite Hreal. simpl. rewrite Hsaved. simpl.
    destruct (setuid r (Creds r e e)) as [v c1]; simpl.
    destruct (v =? 0); simpl; destruct (setuid e c1) as [v' c2]; simpl; by destruct (v' =? -1).
  - rewrite (proj2 (Z.eqb_neq r e) Hd). simpl. rewrite Hreal. simpl.
    destruct (setuid r (Creds r r e)) as [v c1]; simpl.
    destruct (v =? 0); simpl; destruct (setuid e c1) as [v' c2]; simpl; by destruct (v' =? -1).
Qed.

(** C28: run as a set-uid program, [drop -c] gives up the privileges for good
    exactly when the privileged user is root: then the three user ids are the real
    one, and no later [setuid] or [seteuid] changes that. In every other case,
    that is [drop -w], and also [drop -c] set-uid to another user, the program
    finds that it can take its privileges back, and ends with them. *)
Theorem drop_outcome (correct : bool) (c : creds)
    (Hexec : suid c = euid c) (Hsetuid : ruid c <> euid c) :
  let '(status, p) := main [if correct then "c" else "w"]%char false c in
  if correct && (euid c =? 0) then
    status = EXIT_SUCCESS /\ cr p = Creds (ruid c) (ruid c) (ruid c) /\
    forall u, u <> ruid c -> fst (setuid u (cr p)) = -1 /\ fst (seteuid u (cr p)) = -1
  else status = EXIT_FAILURE /\ euid (cr p) = euid c.
Proof.
  pose proof (main_dropped correct c Hexec Hsetuid) as Hm.
  destruct (main _ false c) as [status p]. destruct c as [r e s]; simpl in *; subst s.
  unfold dropped in Hm. simpl in Hm. destruct correct; simpl in *.
  - destruct (Z.eqb_spec e 0) as [->|He].
    + rewrite setuid_root in Hm. simpl in Hm. rewrite setuid_dropped in Hm by congruence.
      destruct Hm as [-> ->]. split_and!; [done..|]. intros u Hu.
      by rewrite setuid_dropped, seteuid_dropped by done.
    + rewrite (setuid_real r e e He) in Hm. simpl in Hm. rewrite setuid_saved in Hm.
      by destruct Hm as [-> ->].
  - destruct (Z.eqb_spec r 0) as [->|Hr].
    + rewrite setuid_root in Hm. simpl in Hm. by destruct Hm as [-> ->].
    + rewrite (setuid_real r r e Hr) in Hm. simpl in Hm. rewrite setuid_saved in Hm.
      by destruct Hm as [-> ->].
Qed.

Theorem drop_outcome_witness :
  (suid (Creds 1000 0 0) = euid (Creds 1000 0 0) /\ ruid (Creds 1000 0 0) <> euid (Creds 1000 0 0)) /\
  fst (main ["c"%char] false (Creds 1000 0 0)) = EXIT_SUCCESS /\
  let '(status, p) := main ["c"%char] false (Creds 1000 0 0) in
  status = EXIT_SUCCESS /\ cr p = Creds 1000 1000 1000 /\
  forall u, u <> 1000 -> fst (setuid u (cr p)) = -1 /\ fst (seteuid u (cr p)) = -1.
Proof.
  split; [done|]. split; [vm_compute; reflexivity|].
  apply (drop_outcome true (Creds 1000 0 0)); [reflexivity|done].
Defined.

(** Set-uid to user 500, the "right way" leaves the saved user id behind. *)
Example not_root :
  let '(status, p) := main ["c"%char] false (Creds 1000 500 500) in
  status = EXIT_FAILURE /\ cr p = Creds 1000 500 500.
Proof. vm_compute. done. Qed.

(** Both commands at once, or an operand, only print the usage line. *)
Example both_commands : main ["c"; "w"]%char false (Creds 1000 0 0) = (EXIT_FAILURE, Proc (Creds 1000 0 0) [Usage]).
Proof. reflexivity. Qed.

(** The line of a success leaves its colour switched on. *)
Example success_keeps_colour argv0 e : log_text argv0 e (Success "done") = Stdout (sgr 92 +:+ " * done" +:+ nl).
Proof. reflexivity. Qed.
