(* ===== verification/Getent.v ===== *)
(** [ex05/getent/getent.c]: the users and the groups of the system. *)

From S2P Require Import Prelude.
From S2P Require Import CLib.
From S2P Require Import Getopt.
From Stdlib Require Import Ascii.

Open Scope string_scope.
Open Scope list_scope.
Open Scope Z_scope.

Definition optstring : string := "ugm".

(** [struct passwd] and [struct group], the fields that are used. *)
Record passwd := Passwd { pw_uid : Z; pw_name : string }.
Record group := Group { gr_gid : Z; gr_name : string }.

(** [%4d]; the identifiers are unsigned, and printed as signed numbers. *)
Definition fmt_id (id : Z) : string := pad 4 (dec (s32 id)).

Definition print_line (mark : bool) (id : Z) (name : string) : string :=
  (if mark then "*" else "") +:+ tab +:+ fmt_id id +:+ " " +:+ name +:+ nl.

Section getent.
(** The results of the successive calls of [getpwent] and of [getgrent]; the real user and
    group, or what the variables contain when [getresuid] or [getresgid] fails, which is
    reported with this text. *)
Context (users : list passwd) (groups : list group) (ruid rgid : Z).
Context (argv0 : string) (getresuid getresgid : option string).

Definition warning (call : string) (failure : option string) : list output :=
  match failure with Some e => [Stderr (error_line argv0 call (Some e))] | None => [] end.

Definition print_users (highlight : bool) : list output :=
  warning "getresuid" getresuid ++
  [Stdout ("Users:" +:+
     foldr (fun u out => print_line (highlight && (pw_uid u =? ruid)) (pw_uid u) (pw_name u) +:+ out) nl users)].

Definition print_groups (highlight : bool) : list output :=
  warning "getresgid" getresgid ++
  [Stdout ("Groups:" +:+
     foldr (fun g out => print_line (highlight && (gr_gid g =? rgid)) (gr_gid g) (gr_name g) +:+ out) nl groups)].

(** The three flags of [main], and its loop over the options. *)
Record modes := Modes { m_users : bool; m_groups : bool; m_highlight : bool }.

Fixpoint mode_loop (os : list opt) (m : modes) : option modes :=
  match os with
  | [] => Some m
  | (c, _) :: os =>
      if bool_decide (c = "u"%char) then mode_loop os (Modes true (m_groups m) (m_highlight m))
      else if bool_decide (c = "g"%char) then mode_loop os (Modes (m_users m) true (m_highlight m))
      else if bool_decide (c = "m"%char) then mode_loop os (Modes (m_users m) (m_groups m) true)
      else None
  end.

Definition main (args : list string) : Z * list output :=
  match mode_loop (getopt optstring None None args).1 (Modes false false false) with
  | None => (EXIT_FAILURE, [])
  | Some m =>
      if negb (m_users m) && negb (m_groups m) then (EXIT_FAILURE, [Stderr ("No modes set." +:+ nl)])
      else
        (EXIT_SUCCESS,
         (if m_users m then print_users (m_highlight m) else []) ++
         (if m_groups m then print_groups (m_highlight m) else []))
  end.

(* ------------------------------------------------------------------ *)
(** ** Properties *)

Definition known (o : opt) : Prop := o = ("u"%char, None) \/ o = ("g"%char, None) \/ o = ("m"%char, None).

Lemma mode_loop_given os : forall m, Forall known os ->
  mode_loop os m =
  Some (Modes (m_users m || given "u" os) (m_groups m || given "g" os) (m_highlight m || given "m" os)).
Proof.
  induction os as [|o os IH]; intros m Hk.
  - destruct m. unfold given. simpl. by rewrite !orb_false_r.
  - apply Forall_cons in Hk as [[-> |[-> | ->]] Hk]; cbn [mode_loop]; pick_option; rewrite IH by done;
      destruct m; unfold given; cbn -[bool_decide]; pick_option; by rewrite ?orb_true_r.
Qed.

Lemma mode_loop_unknown os : forall m, ~ Forall (fun o => o.1 ∈ ["u"; "g"; "m"]%char) os -> mode_loop os m = None.
Proof.
  induction os as [|[c v] os IH]; intros m Hn; [by destruct Hn|]. simpl.
  repeat case_bool_decide; try done; apply IH; intros Hf; apply Hn; constructor; try done; simpl; set_solver.
Qed.

(** However the flags are given, users come before groups, the same marks apply to both,
    and operands are ignored; without [-u] and [-g] the program fails. *)
Theorem getent_prints (items : list item) :
  let os := concat (map (opts_of None) items) in
  Forall (allowed optstring None) items -> Forall known os ->
  main (render items) =
  if given "u" os || given "g" os then
    (EXIT_SUCCESS,
     (if given "u" os then print_users (given "m" os) else []) ++
     (if given "g" os then print_groups (given "m" os) else []))
  else (EXIT_FAILURE, [Stderr ("No modes set." +:+ nl)]).
Proof.
  intros os Hi Hk. unfold main. destruct (getopt_render optstring None items [] Hi) as [-> _]. cbn [fst]. fold os.
  rewrite mode_loop_given by done. cbn [m_users m_groups m_highlight]. rewrite <- negb_orb.
  rewrite !orb_false_l. by destruct (given "u" os), (given "g" os).
Qed.

(** One unknown option is enough to fail, and then nothing is printed. *)
Lemma getent_unknown args :
  ~ Forall (fun o => o.1 ∈ ["u"; "g"; "m"]%char) (getopt optstring None None args).1 -> main args = (EXIT_FAILURE, []).
Proof. intros Hn. unfold main. by rewrite mode_loop_unknown. Qed.
End getent.

(** A user with a large identifier is printed with a negative one; the star of the real
    user stands before the tabulator. *)
Example large_uid :
  main [Passwd 4294967294 "nobody"; Passwd 7 "me"] [] 7 0 "getent" None None ["-mu"] =
  (EXIT_SUCCESS, [Stdout ("Users:" +:+ tab +:+ "  -2 nobody" +:+ nl +:+ "*" +:+ tab +:+ "   7 me" +:+ nl +:+ nl)]).
Proof. vm_compute. reflexivity. Qed.

(** Without the real user the marks depend on what the variable contains. *)
Example no_real_user ruid :
  main [] [] ruid 0 "getent" (Some "error") None ["-u"] =
  (EXIT_SUCCESS, [Stderr ("getent: getresuid: error" +:+ nl); Stdout ("Users:" +:+ nl)]).
Proof. reflexivity. Qed.
