(* ===== verification/Copy.v ===== *)
(** The copying programs of [ex10]: the read and write loop shared by
    [copy/slow.c] ([copy_fd]) and [cat/cat.c] ([write_to_stdout]), the [sendfile]
    loop of [copy/fast.c], and the three [main]s. *)

From S2P Require Import Prelude.
From S2P Require Import Posix.
From Stdlib Require Import Strings.Byte.

(** The result of one [write(2)]: how many bytes the kernel takes, at most those
    offered, or an error. *)
Inductive write_result := Wrote (n : nat) | WriteError (errno : Z).

(** The results of the successive [write]s; when the list is exhausted every
    further call takes all it is offered. *)
Abbreviation writes := (list write_result).

Definition bytes := list byte.

(** [while (rd > 0 && (wt = write(outfd, ptr, rd)) > 0) { rd -= wt; ptr += wt; }]:
    the bytes left, [wt], the results not consumed, and what was written. *)
Fixpoint write_loop (ws : writes) (buf : bytes) (wt : Z) (out : bytes) {struct ws} :
    bytes * Z * writes * bytes :=
  match buf with
  | [] => ([], wt, ws, out)
  | _ =>
      match ws with
      | [] => ([], Z.of_nat (length buf), [], out ++ buf)
      | WriteError _ :: ws => (buf, -1, ws, out)
      | Wrote n :: ws =>
          let n := Nat.min n (length buf) in
          if (0 <? n)%nat then write_loop ws (drop n buf) (Z.of_nat n) (out ++ take n buf)
          else (buf, 0, ws, out)
      end
  end.

(** How a copy ends: the value of the function, with its message. *)
Inductive copied := Copied | ReadFailed | WriteFailed.

Definition copied_value (c : copied) : Z := match c with Copied => 1 | _ => 0 end.

(** The outer loop and the two tests after it: on leaving the loop because of a
    failed [write], [rd] is what was left of the buffer. *)
Fixpoint copy_loop (rs : reads) (ws : writes) (wt : Z) (out : bytes) : copied * writes * bytes :=
  if 0 <=? wt then
    match rs with
    | Data (b :: bs) :: rs =>
        let '(rest, wt, ws, out) := write_loop ws (b :: bs) wt out in
        copy_loop rs ws wt out
    | ReadError _ :: _ => (ReadFailed, ws, out)
    | _ => (Copied, ws, out)
    end
  else (WriteFailed, ws, out).

(** [copy_fd] of [slow.c], [write_to_stdout] of [cat.c]. *)
Definition copy_fd (rs : reads) (ws : writes) : copied * writes * bytes := copy_loop rs ws 0 [].

(* ------------------------------------------------------------------ *)
(** ** [sendfile] *)

Inductive send_result := Sent (n : nat) | SendError (errno : Z).

(** [copy_fd] of [fast.c] on a file with these bytes left from [offset];
    [sendfile] sends at most [size] of them, 0 at the end of the file; the results
    exhausted, it sends all it can. *)
Fixpoint send_loop (ss : list send_result) (content : bytes) (size : Z) (out : bytes) :
    copied * bytes :=
  match ss with
  | SendError _ :: _ => (ReadFailed, out)
  | Sent n :: ss =>
      let n := Nat.min n (Nat.min (length content) (Z.to_nat size)) in
      if (0 <? n)%nat then
        send_loop ss (drop n content) (size - Z.of_nat n)%C (out ++ take n content)
      else (Copied, out)
  | [] => (Copied, out ++ take (Z.to_nat size) content)
  end.

(** The size is the one [fstat] gave, [None] being its failure. *)
Definition copy_fd_fast (fstat : option Z) (content : bytes) (ss : list send_result) : copied * bytes :=
  match fstat with
  | None => (ReadFailed, [])
  | Some st_size => send_loop ss content st_size []
  end.

(* ------------------------------------------------------------------ *)
(** ** The programs *)

(** A file named on the command line, as the calls on it turn out. *)
Record file := File { open_ok : bool; contents : reads; close_ok : bool }.

(** [cat]: exit status, what is written to standard output, and whether a message
    is printed. *)
Fixpoint cat_files (fs : list file) (ws : writes) (out : bytes) : Z * bytes :=
  match fs with
  | [] => (EXIT_SUCCESS, out)
  | f :: fs =>
      if negb (open_ok f) then (EXIT_FAILURE, out) else
      let '(c, ws, o) := copy_fd (contents f) ws in
      if copied_value c =? 0 then (EXIT_FAILURE, out ++ o)
      else if negb (close_ok f) then (EXIT_FAILURE, out ++ o)
      else cat_files fs ws (out ++ o)
  end.

Definition cat_main (stdin : reads) (fs : list file) (ws : writes) : Z * bytes :=
  match fs with
  | [] =>
      let '(c, _, o) := copy_fd stdin ws in
      (if copied_value c =? 0 then EXIT_FAILURE else EXIT_SUCCESS, o)
  | _ => cat_files fs ws []
  end.

(** Events of the copying programs on their two descriptors. *)
Inductive fd_event := OpenSrc | OpenDst | CloseDst | CloseSrc.

(** [main] of [slow.c] and [fast.c], given whether the two files open and how the
    copy ends; the calls made on the descriptors are listed. A [close] that fails
    only prints a message. *)
Definition copy_main (argc : Z) (src_ok dst_ok : bool) (copy : copied) : Z * list fd_event :=
  if negb (argc =? 3) then (EXIT_FAILURE, [])
  else if negb src_ok then (EXIT_FAILURE, [OpenSrc])
  else if negb dst_ok then (EXIT_FAILURE, [OpenSrc; OpenDst; CloseSrc])
  else (if copied_value copy =? 0 then EXIT_FAILURE else EXIT_SUCCESS,
        [OpenSrc; OpenDst; CloseDst; CloseSrc]).

Definition slow_main (argc : Z) (src_ok dst_ok : bool) (rs : reads) (ws : writes) : Z * list fd_event * bytes :=
  let '(c, _, o) := copy_fd rs ws in
  (copy_main argc src_ok dst_ok c, if (argc =? 3) && src_ok && dst_ok then o else []).

Definition fast_main (argc : Z) (src_ok dst_ok : bool) (fstat : option Z) (content : bytes)
    (ss : list send_result) : Z * list fd_event * bytes :=
  let '(c, o) := copy_fd_fast fstat content ss in
  (copy_main argc src_ok dst_ok c, if (argc =? 3) && src_ok && dst_ok then o else []).

(* ------------------------------------------------------------------ *)
(** ** The copy loop *)

(** [write] takes at least one byte, or fails. *)
Definition progress (w : write_result) : Prop := match w with Wrote n => (0 < n)%nat | _ => True end.

(** Whether one of the [write]s fails. *)
Definition write_fails (w : write_result) : bool := match w with WriteError _ => true | _ => false end.

Lemma write_loop_spec ws : forall buf wt out,
  Forall progress ws -> 0 <= wt ->
  exists sent rest wt' ws',
    write_loop ws buf wt out = (rest, wt', ws', out ++ sent) /\ buf = sent ++ rest /\
    Forall progress ws' /\ (0 <= wt' /\ rest = [] \/ wt' = -1) /\
    (existsb write_fails ws = false -> wt' <> -1 /\ existsb write_fails ws' = false).
Proof.
  induction ws as [|w ws IH]; intros [|b buf] wt out Hp Hwt; cbn [write_loop].
  - exists [], [], wt, []. rewrite app_nil_r. naive_solver lia.
  - exists (b :: buf), [], (Z.of_nat (length (b :: buf))), []. rewrite app_nil_r.
    split_and!; [done..|left; split; [lia|done]|]. intros _. split; [lia|done].
  - exists [], [], wt, (w :: ws). rewrite app_nil_r. naive_solver lia.
  - apply Forall_cons in Hp as [Hw Hp]. destruct w as [n|e]; simpl in Hw.
    + set (m := Nat.min n (length (b :: buf))). assert (0 < m)%nat as Hm by (subst m; simpl; lia).
      rewrite (proj2 (Nat.ltb_lt _ _) Hm).
      destruct (IH (drop m (b :: buf)) (Z.of_nat m) (out ++ take m (b :: buf)) Hp ltac:(lia))
        as (sent & rest & wt' & ws' & -> & Hb & Hp' & Hc & Hf).
      exists (take m (b :: buf) ++ sent), rest, wt', ws'. rewrite <- !app_assoc.
      split_and!; [done| |done|done|done]. by rewrite <- Hb, take_drop.
    + exists [], (b :: buf), (-1), ws. rewrite app_nil_r. split_and!; auto. done.
Qed.

Lemma copy_loop_spec rs : forall ws wt out,
  Forall progress ws -> 0 <= wt ->
  exists c ws' sent left_, copy_loop rs ws wt out = (c, ws', out ++ sent) /\
    delivered rs = sent ++ left_ /\ Forall progress ws' /\
    (c = Copied -> left_ = [] /\ read_fails rs = false) /\
    (c = ReadFailed -> left_ = [] /\ read_fails rs = true) /\
    (existsb write_fails ws = false -> c <> WriteFailed /\ existsb write_fails ws' = false).
Proof.
  induction rs as [|[[|b bs]|e] rs IH]; intros ws wt out Hp Hwt; cbn [copy_loop];
    rewrite (proj2 (Z.leb_le _ _) Hwt).
  - exists Copied, ws, [], []. by rewrite app_nil_r.
  - exists Copied, ws, [], []. by rewrite app_nil_r.
  - destruct (write_loop_spec ws (b :: bs) wt out Hp Hwt)
      as (sent & rest & wt' & ws' & -> & Hb & Hp' & [[Hwt' ->] | ->] & Hf).
    + rewrite app_nil_r in Hb. subst sent.
      destruct (IH ws' wt' (out ++ b :: bs) Hp' Hwt') as (c & ws2 & sent & lft & -> & Hd & Hp2 & Hc & Hr & Hf2).
      exists c, ws2, ((b :: bs) ++ sent), lft. rewrite app_assoc.
      split_and!; [done| |done|done|done|naive_solver].
      cbn [delivered]. by rewrite Hd, app_assoc.
    + exists WriteFailed, ws', sent, (rest ++ delivered rs).
      split_and!; [by destruct rs|cbn [delivered]; by rewrite Hb, app_assoc|done..|naive_solver].
  - exists ReadFailed, ws, [], []. by rewrite app_nil_r.
Qed.

(** C29: provided [write] never takes zero bytes, the copy loop of [slow.c] and
    [cat.c], however the reads and the writes are cut, writes a prefix of what its
    input delivers; it returns 1 exactly when no call fails, having then written
    everything, and a failing read loses nothing that was read before. *)
Theorem copy_fd_result (rs : reads) (ws : writes) (Hp : Forall progress ws) :
  exists c ws' sent left_, copy_fd rs ws = (c, ws', sent) /\ delivered rs = sent ++ left_ /\
    (copied_value c = 1 <-> c = Copied) /\
    (c = Copied -> sent = delivered rs /\ read_fails rs = false) /\
    (c = ReadFailed -> sent = delivered rs /\ read_fails rs = true) /\
    (existsb write_fails ws = false -> c = if read_fails rs then ReadFailed else Copied).
Proof.
  destruct (copy_loop_spec rs ws 0 [] Hp) as (c & ws' & sent & lft & Hc & Hd & _ & H1 & H2 & H3); [done|].
  exists c, ws', sent, lft. split_and!; [done|done|by destruct c| | |].
  - intros ->. destruct (H1 eq_refl) as [-> ?]. by rewrite Hd, app_nil_r.
  - intros ->. destruct (H2 eq_refl) as [-> ?]. by rewrite Hd, app_nil_r.
  - intros Hf. destruct (H3 Hf) as [Hw _]. destruct c; [|destruct (H2 eq_refl) as [_ ->]|]; try done.
    by destruct (H1 eq_refl) as [_ ->].
Qed.

(** [cat] of files that open, read and close without error. *)
Lemma cat_files_ok fs : forall ws out,
  Forall progress ws -> existsb write_fails ws = false ->
  Forall (fun f => open_ok f = true /\ close_ok f = true /\ read_fails (contents f) = false) fs ->
  cat_files fs ws out = (EXIT_SUCCESS, out ++ concat ((fun f => delivered (contents f)) <$> fs)).
Proof.
  induction fs as [|f fs IH]; intros ws out Hp Hw Hf; [simpl; by rewrite app_nil_r|].
  apply Forall_cons in Hf as [(Ho & Hc & Hr) Hf]. cbn [cat_files]. rewrite Ho. simpl negb. cbv iota.
  unfold copy_fd.
  destruct (copy_loop_spec (contents f) ws 0 [] Hp) as (c & ws' & sent & lft & -> & Hd & Hp' & H1 & H2 & H3); [done|].
  destruct (H3 Hw) as [Hnw Hw']. destruct c; [|destruct (H2 eq_refl); congruence|done].
  destruct (H1 eq_refl) as [-> _]. rewrite app_nil_r in Hd. subst sent. simpl. rewrite Hc. simpl.
  rewrite IH by done. by rewrite <- app_assoc.
Qed.

(** [cat] with arguments writes the contents of its files one after the other
    and succeeds, when every file opens, reads and closes and no write fails; the
    first file that does not open stops it after the files before it. *)
Theorem cat_concatenates (stdin : reads) (f : file) (fs bad : list file) (ws : writes)
    (Hp : Forall progress ws) (Hw : existsb write_fails ws = false)
    (Hf : Forall (fun f => open_ok f = true /\ close_ok f = true /\ read_fails (contents f) = false) (f :: fs)) :
  let expected := concat ((fun f => delivered (contents f)) <$> f :: fs) in
  cat_main stdin (f :: fs) ws = (EXIT_SUCCESS, expected) /\
  (forall g, open_ok g = false -> cat_main stdin (f :: fs ++ g :: bad) ws = (EXIT_FAILURE, expected)).
Proof.
  intros expected. split; [apply (cat_files_ok (f :: fs) ws []); done|].
  intros g Hg. change (cat_files ((f :: fs) ++ g :: bad) ws [] = (EXIT_FAILURE, [] ++ expected)).
  subst expected. generalize (@nil byte). revert ws Hp Hw Hf. generalize (f :: fs).
  induction l as [|x l IH]; intros ws Hp Hw Hf out.
  { simpl. rewrite Hg. simpl. by rewrite app_nil_r. }
  apply Forall_cons in Hf as [(Ho & Hc & Hr) Hf]. cbn [cat_files app]. rewrite Ho. simpl negb. cbv iota.
  unfold copy_fd.
  destruct (copy_loop_spec (contents x) ws 0 [] Hp) as (c & ws' & sent & lft & -> & Hd & Hp' & H1 & H2 & H3); [done|].
  destruct (H3 Hw) as [Hnw Hw']. destruct c; [|destruct (H2 eq_refl); congruence|done].
  destruct (H1 eq_refl) as [-> _]. rewrite app_nil_r in Hd. subst sent. simpl. rewrite Hc. simpl.
  rewrite IH by done. by rewrite <- app_assoc.
Qed.

(** [sendfile] sends at least one byte while there are any, or fails. *)
Definition sends (x : send_result) : Prop := match x with Sent n => (0 < n)%nat | _ => True end.
Definition send_fails (x : send_result) : bool := match x with SendError _ => true | _ => false end.

(** [fast.c] copies a file that keeps the size [fstat] gave, however the
    [sendfile] calls are cut, as [slow.c] does. *)
Lemma copy_fd_fast_result (ss : list send_result) : forall content out,
  Forall sends ss -> existsb send_fails ss = false -> Z.of_nat (length content) < 2 ^ 64 ->
  send_loop ss content (Z.of_nat (length content)) out = (Copied, out ++ content).
Proof.
  induction ss as [|[n|e] ss IH]; intros content out Hs Hf Hl; cbn [send_loop]; [| |done].
  - by rewrite take_ge by lia.
  - apply Forall_cons in Hs as [Hn Hs]. simpl in Hn. rewrite Nat2Z.id, Nat.min_id.
    destruct content as [|b content]; [simpl; rewrite Nat.min_0_r; simpl; by rewrite app_nil_r|].
    set (m := Nat.min n (length (b :: content))). assert (0 < m)%nat as Hm by (subst m; simpl; lia).
    assert (m <= length (b :: content))%nat as Hm' by (subst m; lia).
    rewrite (proj2 (Nat.ltb_lt _ _) Hm), u64_small by lia.
    replace (Z.of_nat (length (b :: content)) - Z.of_nat m)
      with (Z.of_nat (length (drop m (b :: content)))) by (rewrite length_drop; lia).
    rewrite IH; [by rewrite <- app_assoc, take_drop|done|done|rewrite length_drop; lia].
Qed.

(** The two [copy] programs leave the same bytes and status for a file that opens. *)
Lemma fast_like_slow content (cs : list bytes) ws ss :
  Forall (.≠ []) cs -> concat cs = content -> Z.of_nat (length content) < 2 ^ 64 ->
  Forall progress ws -> existsb write_fails ws = false ->
  Forall sends ss -> existsb send_fails ss = false ->
  fast_main 3 true true (Some (Z.of_nat (length content))) content ss =
  slow_main 3 true true (map Data cs) ws.
Proof.
  intros Hcs Hc Hl Hp Hw Hs Hf. unfold fast_main, copy_fd_fast.
  rewrite copy_fd_fast_result by done. unfold slow_main, copy_fd.
  destruct (copy_loop_spec (map Data cs) ws 0 [] Hp) as (c & ws' & sent & lft & -> & Hd & _ & H1 & H2 & H3);
    [done|].
  rewrite delivered_chunks, Hc in Hd by done. rewrite read_fails_chunks in H2 by done.
  destruct c; [|by destruct (H2 eq_refl)|by destruct (H3 Hw)].
  destruct (H1 eq_refl) as [-> _]. by rewrite Hd, app_nil_r.
Qed.

(* ------------------------------------------------------------------ *)
(** ** Runs *)

Definition demo_reads : reads := [Data [x61; x62; x63]; Data [x64]; Data []].

Theorem copy_fd_result_witness :
  Forall progress [Wrote 2; Wrote 1; WriteError 28] /\
  exists c ws' sent left_, copy_fd demo_reads [Wrote 2; Wrote 1; WriteError 28] = (c, ws', sent) /\
    delivered demo_reads = sent ++ left_ /\
    (copied_value c = 1 <-> c = Copied) /\
    (c = Copied -> sent = delivered demo_reads /\ read_fails demo_reads = false) /\
    (c = ReadFailed -> sent = delivered demo_reads /\ read_fails demo_reads = true) /\
    (existsb write_fails [Wrote 2; Wrote 1; WriteError 28] = false ->
       c = if read_fails demo_reads then ReadFailed else Copied).
Proof.
  assert (Forall progress [Wrote 2; Wrote 1; WriteError 28]) as Hp by (repeat constructor).
  split; [exact Hp|]. apply (copy_fd_result demo_reads [Wrote 2; Wrote 1; WriteError 28] Hp).
Defined.

Theorem cat_concatenates_witness :
  let f := File true demo_reads true in
  cat_main [] [f; f] [Wrote 1] = (EXIT_SUCCESS, [x61; x62; x63; x64; x61; x62; x63; x64]) /\
  cat_main [] [f; f; File false [] true; f] [Wrote 1] =
    (EXIT_FAILURE, [x61; x62; x63; x64; x61; x62; x63; x64]).
Proof.
  intros f.
  assert (Forall progress [Wrote 1]) as Hp by (repeat constructor).
  assert (Forall (fun f => open_ok f = true /\ close_ok f = true /\ read_fails (contents f) = false) [f; f])
    as Hf by (repeat constructor).
  split.
  - exact (proj1 (cat_concatenates [] f [f] [] [Wrote 1] Hp eq_refl Hf)).
  - exact (proj2 (cat_concatenates [] f [f] [f] [Wrote 1] Hp eq_refl Hf) (File false [] true) eq_refl).
Defined.

(** A [write] that takes nothing ends the inner loop but not the outer one: the
    rest of the buffer is lost, and the copy counts as complete. *)
Example zero_write_loses_data :
  copy_fd demo_reads [Wrote 1; Wrote 0] = (Copied, [], [x61; x64]).
Proof. reflexivity. Qed.

(** A failed [open] of the destination closes the source and fails. *)
Example no_destination :
  slow_main 3 true false demo_reads [] = (EXIT_FAILURE, [OpenSrc; OpenDst; CloseSrc], []).
Proof. reflexivity. Qed.
