(* ===== verification/Nftw.v ===== *)
(** [ex10/size/size.c] and [ex10/ftw/ftw.c]: the size of a directory tree, and its listing.
    Both visit the tree with [nftw] and the flags [FTW_CHDIR], [FTW_MOUNT] and
    [FTW_PHYS], so that links are reported and not followed, a directory comes before
    its entries, and other file systems are left out; and each directory is made the
    current one for the visit of its entries, which ends the walk where that fails. *)

From S2P Require Import Prelude.
From S2P Require Import CLib.
From Stdlib Require Import Ascii.

Open Scope string_scope.
Open Scope list_scope.
Open Scope Z_scope.

Record stat := Stat { st_size : Z; st_blocks : Z }.

(** A tree of files: a directory that cannot be read has no list of entries, and one that
    can be read but not searched cannot be made the current one; of some files not even
    [stat] is possible, because the path is not allowed or gone, or for another reason; some
    are on another file system. *)
Inductive tree :=
| File (name : string) (st : stat)
| Link (name : string) (st : stat)
| Dir (name : string) (st : stat) (entries : option (list tree))
| Unsearchable (name : string) (st : stat)
| NoStat (name : string)
| Broken (name : string)
| Mounted (name : string).

(** The type flag of a call of the callback; [FTW_DP] and [FTW_SLN] do not occur with these
    flags. *)
Inductive typeflag := FTW_F | FTW_D | FTW_DNR | FTW_NS | FTW_SL | FTW_DP | FTW_SLN.

(** The arguments of a call: the last part of the path, [sb] where it is defined, the flag,
    and the level. *)
Record visit := Visit { v_name : string; sb : option stat; tf : typeflag; level : nat }.

(** One walk after another, unless the first one has failed. *)
Definition andthen (r k : list visit * bool) : list visit * bool :=
  if r.2 then (r.1 ++ k.1, k.2) else r.

(** The calls of the callback, which returns 0, and whether the walk comes to its end: it
    fails in a directory that cannot be made the current one, after the call for it, and on a
    [stat] that fails for another reason than [EACCES] and [ENOENT]. *)
Fixpoint visits (l : nat) (t : tree) : list visit * bool :=
  match t with
  | File n st => ([Visit n (Some st) FTW_F l], true)
  | Link n st => ([Visit n (Some st) FTW_SL l], true)
  | Dir n st (Some ts) =>
      andthen ([Visit n (Some st) FTW_D l], true) (foldr (fun t => andthen (visits (S l) t)) ([], true) ts)
  | Dir n st None => ([Visit n (Some st) FTW_DNR l], true)
  | Unsearchable n st => ([Visit n (Some st) FTW_D l], false)
  | NoStat n => ([Visit n None FTW_NS l], true)
  | Broken _ => ([], false)
  | Mounted _ => ([], true)
  end.

(** [nftw]: it fails at once on a path without [stat]. *)
Definition nftw (t : tree) : list visit * bool :=
  match t with NoStat _ => ([], false) | _ => visits 0 t end.

(* ------------------------------------------------------------------ *)
(** ** [size.c] *)

(** [object_size] and [block_num]. *)
Record totals := Totals { object_size : Z; block_num : Z }.

(** [callback]; [None] is an access to [sb] where it is not defined. *)
Definition size_callback (v : visit) (s : totals) : option totals :=
  match tf v with
  | FTW_NS => Some s
  | FTW_F | FTW_DP | FTW_D | FTW_DNR | FTW_SL | FTW_SLN =>
      st ← sb v; Some (Totals (object_size s + st_size st)%C (block_num s + st_blocks st)%C)
  end.

Fixpoint size_loop (vs : list visit) (s : totals) : option totals :=
  match vs with [] => Some s | v :: vs => s ← size_callback v s; size_loop vs s end.

(** [main] on the tree at its argument: the status, and the two numbers printed with [%ld]. *)
Definition size_main (args : list tree) : option (Z * option (Z * Z)) :=
  match args with
  | [t] =>
      let '(vs, ok) := nftw t in
      s ← size_loop vs (Totals 0 0);
      Some (if ok then (EXIT_SUCCESS, Some (s64 (object_size s), s64 (block_num s))) else (EXIT_FAILURE, None))
  | _ => Some (EXIT_FAILURE, None)
  end.

(* ------------------------------------------------------------------ *)
(** ** [ftw.c] *)

(** The letter and the colour of a line: for a regular file the colour is the code of the
    character ['0']. *)
Definition look (f : typeflag) : ascii * Z :=
  match f with
  | FTW_F => ("f"%char, 48)
  | FTW_DP | FTW_D => ("d"%char, 34)
  | FTW_DNR => ("D"%char, 33)
  | FTW_SL => ("l"%char, 36)
  | FTW_SLN => ("L"%char, 31)
  | FTW_NS => ("?"%char, 33)
  end.

Fixpoint spaces (n : nat) : string := match n with O => "" | S n => String space (spaces n) end.

Definition escape : ascii := "027"%char.

(** The line that [callback] prints. *)
Definition ftw_callback (v : visit) : string :=
  let '(type, color) := look (tf v) in
  spaces (level v * 2) +:+ String type " " +:+ String escape ("[" +:+ dec color +:+ "m") +:+ v_name v +:+
  String escape ("[0m" +:+ nl).

Definition ftw_main (args : list tree) : Z * list string :=
  match args with
  | [t] => let '(vs, ok) := nftw t in (if ok then EXIT_SUCCESS else EXIT_FAILURE, map ftw_callback vs)
  | _ => (EXIT_FAILURE, [])
  end.

(* ------------------------------------------------------------------ *)
(** ** Properties *)

(** An induction principle for trees: a directory with its entries, or anything else. *)
Definition leaf (t : tree) : bool := match t with Dir _ _ (Some _) => false | _ => true end.

Lemma tree_ind' (P : tree -> Prop) :
  (forall n st ts, Forall P ts -> P (Dir n st (Some ts))) ->
  (forall t, leaf t = true -> P t) -> forall t, P t.
Proof.
  intros H1 H2. fix IH 1. intros t. pose proof (H2 t) as Ht.
  destruct t as [n st|n st|n st [ts|]|n st|n|n|n]; try exact (Ht eq_refl). clear Ht.
  apply H1. induction ts as [|t ts IHts]; constructor; [apply IH|exact IHts].
Qed.

(** The sum of a field over the files of a tree that have it. *)
Fixpoint total (f : stat -> Z) (t : tree) : Z :=
  match t with
  | File _ st | Link _ st | Dir _ st None | Unsearchable _ st => f st
  | Dir _ st (Some ts) => f st + zsum (total f) ts
  | NoStat _ | Broken _ | Mounted _ => 0
  end.

(** The number of files that are listed. *)
Fixpoint listed (t : tree) : nat :=
  match t with
  | Dir _ _ (Some ts) => S (list_sum (map listed ts))
  | Mounted _ | Broken _ => 0
  | _ => 1
  end.

(** Nothing in the tree ends the walk. *)
Fixpoint complete (t : tree) : bool :=
  match t with
  | Dir _ _ (Some ts) => forallb complete ts
  | Unsearchable _ _ | Broken _ => false
  | _ => true
  end.

(** The walk from the argument comes to its end. *)
Definition walkable (t : tree) : bool :=
  match t with NoStat _ => false | _ => complete t end.

Lemma visits_complete t : forall l, (visits l t).2 = complete t.
Proof.
  induction t as [n st ts Hts|t Hleaf] using tree_ind'; [|by destruct t as [| |? ? []| | | |]].
  intros l. simpl. induction Hts as [|t ts Ht _ IH]; simpl in *; [done|].
  unfold andthen at 1. rewrite Ht. destruct (complete t) eqn:E; simpl; [exact IH|by rewrite Ht].
Qed.

(** [sb] is defined in every call but that for a file without [stat]. *)
Definition sb_defined (v : visit) : Prop := is_Some (sb v) \/ tf v = FTW_NS.

Lemma visits_defined t : forall l, Forall sb_defined (visits l t).1.
Proof.
  assert (forall r k, Forall sb_defined r.1 -> Forall sb_defined k.1 -> Forall sb_defined (andthen r k).1) as Ha.
  { intros [r []] k H1 H2; [|done]. by apply Forall_app. }
  unfold sb_defined in *.
  induction t as [n st ts Hts|t Hleaf] using tree_ind';
    [|destruct t as [| |? ? []| | | |]; try done; intros l; apply Forall_forall;
     intros v; simpl; rewrite ?list_elem_of_singleton; intros Hv; try (by apply not_elem_of_nil in Hv); subst v; simpl; eauto].
  intros l. cbn [visits]. apply Ha; [by apply Forall_singleton; left; eexists|].
  induction Hts as [|t ts Ht _ IH]; simpl; [constructor|]. by apply Ha.
Qed.

Lemma size_loop_defined vs : Forall sb_defined vs -> forall s, is_Some (size_loop vs s).
Proof.
  induction 1 as [|[n b f l] vs Hv _ IH]; intros s; [by eexists|]. simpl.
  destruct Hv as [[st Hst]|Hf]; simpl in *; subst; [|apply IH].
  unfold size_callback. simpl. destruct f; apply IH.
Qed.

Lemma size_loop_app vs ws s : size_loop (vs ++ ws) s = (s' ← size_loop vs s; size_loop ws s').
Proof.
  revert s. induction vs as [|v vs IH]; intros s; [done|]. simpl.
  destruct (size_callback v s); [apply IH|done].
Qed.

Lemma totals_eq a b a' b' : eq64 a a' -> eq64 b b' -> Totals (u64 a) (u64 b) = Totals (u64 a') (u64 b').
Proof. unfold eq64. congruence. Qed.

Lemma u64_assoc a b c : u64 (u64 (a + b) + c) = u64 (a + (b + c)).
Proof. unfold u64. rewrite wrap_add_l. f_equal. lia. Qed.

Definition add_totals (x y : Z) (s : totals) : totals := Totals (object_size s + x)%C (block_num s + y)%C.

Lemma add_totals_add x y x' y' s : add_totals x' y' (add_totals x y s) = add_totals (x + x') (y + y') s.
Proof. unfold add_totals. simpl. by rewrite !u64_assoc. Qed.

Lemma size_visits t : complete t = true -> forall l s, 0 <= object_size s < 2 ^ 64 -> 0 <= block_num s < 2 ^ 64 ->
  size_loop (visits l t).1 s = Some (add_totals (total st_size t) (total st_blocks t) s).
Proof.
  assert (forall s, 0 <= object_size s < 2 ^ 64 -> 0 <= block_num s < 2 ^ 64 -> add_totals 0 0 s = s) as H0.
  { intros [a b] Ha Hb. unfold add_totals. simpl in *. by rewrite !Z.add_0_r, !u64_small. }
  induction t as [n st ts Hts|t Hleaf] using tree_ind';
    [|destruct t as [| |? ? []| | | |]; try done; intros _ l s H1 H2; simpl; by rewrite ?H0].
  intros Hc l s H1 H2. simpl in Hc |- *.
  fold (add_totals (st_size st) (st_blocks st) s).
  assert (forall x y s', 0 <= object_size (add_totals x y s') < 2 ^ 64 /\ 0 <= block_num (add_totals x y s') < 2 ^ 64) as Hr
    by (intros; split; apply u64_range).
  rewrite <- add_totals_add. generalize (Hr (st_size st) (st_blocks st) s).
  generalize (add_totals (st_size st) (st_blocks st) s). clear H1 H2 s.
  induction Hts as [|t ts Ht _ IH]; intros s [H1 H2]; simpl in *; [by rewrite H0|].
  apply andb_true_iff in Hc as [Hct Hc]. unfold andthen at 1. rewrite visits_complete, Hct. cbn [fst].
  rewrite size_loop_app, Ht by done. simpl. rewrite IH by (done || apply Hr). by rewrite add_totals_add.
Qed.

(** C35: if the argument has [stat], every directory below it that can be read can be made the
    current one, and [stat] fails for none of the files in them but for want of permission or
    because they are gone, then the program prints the total size and the total number of
    blocks of the files below its argument, links and directories included, each as often as
    it has a name in the tree; files without [stat] count nothing, and [sb] is not read for
    them; files on other file systems than the argument's count nothing. The sums wrap around at 2^64 and are
    printed as signed numbers. Otherwise the program fails and prints no total. *)
Theorem size_total (t : tree) (Ht : forall n, t <> Mounted n) :
  size_main [t] =
  Some (if walkable t then (EXIT_SUCCESS, Some (s64 (total st_size t), s64 (total st_blocks t)))
        else (EXIT_FAILURE, None)).
Proof.
  unfold size_main. assert ((nftw t).2 = walkable t) as Hw by (destruct t; try done; apply visits_complete).
  assert (is_Some (size_loop (nftw t).1 (Totals 0 0))) as [s' Hs']
    by (apply size_loop_defined; destruct t; (apply visits_defined || constructor)).
  destruct (nftw t) as [vs ok] eqn:En. simpl in Hw, Hs'. subst ok. destruct (walkable t) eqn:Ew; [|by rewrite Hs'].
  assert (nftw t = visits 0 t /\ complete t = true) as [Hn Hc] by (by destruct t).
  rewrite En in Hn. pose proof (size_visits t Hc 0 (Totals 0 0)) as Hs. rewrite <- Hn in Hs. simpl in Hs.
  rewrite Hs by done. simpl. unfold s64, u64. by rewrite !swrap_wrap.
Qed.

Definition demo_tree : tree :=
  Dir "d" (Stat 4096 8) (Some [File "a" (Stat 10 1); NoStat "b"; Dir "e" (Stat 4096 8) None;
                               Dir "g" (Stat 4096 8) (Some [Link "l" (Stat 3 0)])]).

(** The same tree with a directory that can be read but not searched. *)
Definition closed_tree : tree := Dir "d" (Stat 4096 8) (Some [Unsearchable "e" (Stat 4096 8); demo_tree]).

Lemma size_total_witness :
  size_main [demo_tree] = Some (EXIT_SUCCESS, Some (12301, 25)) /\
  size_main [closed_tree] = Some (EXIT_FAILURE, None).
Proof.
  split.
  - exact (size_total demo_tree ltac:(discriminate)).
  - exact (size_total closed_tree ltac:(discriminate)).
Defined.

(** The listing has the lines of what was visited before the walk failed. *)
Example closed_listing :
  (ftw_main [closed_tree]).1 = EXIT_FAILURE /\ length (ftw_main [closed_tree]).2 = 2%nat.
Proof. by split. Qed.

(** A file with two names in the tree counts twice. *)
Example hard_link st :
  total st_size (Dir "d" (Stat 0 0) (Some [File "a" st; File "b" st])) = 2 * st_size st.
Proof. simpl. lia. Qed.

(** One line for every file that is not on another file system. *)
Lemma length_visits t : complete t = true -> forall l, length (visits l t).1 = listed t.
Proof.
  induction t as [n st ts Hts|t Hleaf] using tree_ind'; [|by destruct t as [| |? ? []| | | |]].
  intros Hc l. simpl in *. f_equal. induction Hts as [|t ts Ht _ IH]; simpl in *; [done|].
  apply andb_true_iff in Hc as [Hct Hc]. unfold andthen at 1. rewrite visits_complete, Hct. cbn [fst].
  by rewrite length_app, Ht, IH.
Qed.

(** The listing of a tree: one line per file, in the order of the tree, each directory
    before its entries and these two columns further right. *)
Example demo_listing :
  map (fun v => (level v, fst (look (tf v)), v_name v)) (nftw demo_tree).1 =
  [(0, "d"%char, "d"); (1, "f"%char, "a"); (1, "?"%char, "b"); (1, "D"%char, "e"); (1, "d"%char, "g"); (2, "l"%char, "l")]%nat.
Proof. reflexivity. Qed.

(** The colour of a regular file is the number 48, which is no colour. *)
Example file_colour : ftw_callback (Visit "a" None FTW_F 1) =
  "  f " +:+ String escape "[48ma" +:+ String escape ("[0m" +:+ nl).
Proof. reflexivity. Qed.
