(* ===== verification/Tasks.v ===== *)
(** [ex05/tasks]: the growing array of [dynarray.c] and the program of [tasks.c],
    which forks a child per input line and waits for all of them. *)

From S2P Require Import Prelude.
From S2P Require Import CLib.
From Stdlib Require Import Ascii.

(* ------------------------------------------------------------------ *)
(** ** The array *)

Definition START_CAPACITY : Z := 16.

(** [sizeof(ARRAY_TYPE)], an [int]. *)
Definition SIZEOF_ELEM : Z := 4.

(** [struct dynarray], with the cells of the block [array] points to ([[]] when
    it is [NULL]); their number is not stored in the program. *)
Record dynarray := Dynarray { capacity : Z; size : Z; array : list Z }.

Definition array_state : dynarray := Dynarray 0 0 [].

(** The results of the successive [realloc]s; the list exhausted, they succeed. *)
Abbreviation reallocs := (list bool).

Definition next_realloc (rs : reallocs) : bool * reallocs :=
  match rs with [] => (true, []) | r :: rs => (r, rs) end.

Open Scope string_scope.
Open Scope list_scope.
Open Scope Z_scope.

Section array.
(** What new cells hold. *)
Context (junk : Z).

(** [expand]: its value, whether it succeeded or not [capacity] has changed. *)
Definition expand (rs : reallocs) (a : dynarray) : Z * reallocs * dynarray :=
  let capacity := if capacity a =? 0 then START_CAPACITY else (capacity a * 2)%C in
  let bytes := (capacity * SIZEOF_ELEM)%C in
  let '(ok, rs) := next_realloc rs in
  if ok then (0, rs, Dynarray capacity (size a) (resize (Z.to_nat (bytes / SIZEOF_ELEM)) junk (array a)))
  else (1, rs, Dynarray capacity (size a) (array a)).

(** [if (guard && expand() != 0)]: whether the branch is taken. *)
Definition failed_expand (guard : bool) (rs : reallocs) (a : dynarray) : bool * reallocs * dynarray :=
  if guard then let '(r, rs, a) := expand rs a in (negb (r =? 0), rs, a) else (false, rs, a).

(** [push_loc]; the boolean tells whether "Can't expand the array!" is printed,
    [None] is a write outside the block. *)
Definition push_loc (rs : reallocs) (value position : Z) (a : dynarray) :
    option (bool * reallocs * dynarray) :=
  let '(failed, rs, a) := failed_expand (capacity a =? 0) rs a in
  if failed then Some (true, rs, a) else
  let '(failed, rs, a) := failed_expand (position =? capacity a) rs a in
  if failed then Some (true, rs, a) else
  if position <? Z.of_nat (length (array a)) then
    Some (false, rs,
          Dynarray (capacity a) (size a + 1)%C (<[Z.to_nat position := value]> (array a)))
  else None.

Definition add (rs : reallocs) (value : Z) (a : dynarray) := push_loc rs value (size a) a.

Definition get_length (a : dynarray) : Z := size a.

(** The elements a caller of [get_array] may read. *)
Definition elements (a : dynarray) : list Z := take (Z.to_nat (size a)) (array a).

Fixpoint add_all (rs : reallocs) (vs : list Z) (a : dynarray) : option (nat * reallocs * dynarray) :=
  match vs with
  | [] => Some (0%nat, rs, a)
  | v :: vs =>
      '(msg, rs, a) ← add rs v a;
      '(n, rs, a) ← add_all rs vs a;
      Some ((b2n msg + n)%nat, rs, a)
  end.

(* ------------------------------------------------------------------ *)
(** ** The parent process *)

(** The loop of [main] over the lines of its input: the result of each [fork] as
    the parent sees it. [inl] is the [error] exit; then the children, and [pid],
    which nothing initialises before the first line. *)
Fixpoint fork_loop (forks : list Z) (rs : reallocs) (pid : option Z) (a : dynarray) :
    option (Z + (option Z * dynarray)) :=
  match forks with
  | [] => Some (inr (pid, a))
  | f :: forks =>
      if f =? -1 then Some (inl EXIT_FAILURE) else
      '(_, rs, a) ← add rs f a;
      fork_loop forks rs (Some f) a
  end.

(** [main] of the parent: the exit status and the children it waits for, in
    order; reading [pid] uninitialised is undefined. [forks] has one result per
    line that [getline] returns. *)
Definition parent_main (forks : list Z) (rs : reallocs) : option (Z * list Z) :=
  r ← fork_loop forks rs None array_state;
  match r with
  | inl status => Some (status, [])
  | inr (pid, a) =>
      pid ← pid;
      Some (EXIT_SUCCESS, if 0 <? pid then elements a else [])
  end.

(* ------------------------------------------------------------------ *)
(** ** The child processes *)

(** How a child ends: it becomes a program with these words from [argv[0]] on, or returns. *)
Inductive child_end := Executed (path : list ascii) (argv : list (list ascii)) | Returned (status : Z).

(** [char *loc = strchr(line, '\n'); *loc = 0;]: [None] when there is no newline
    and a null pointer is written through. *)
Fixpoint cut_newline (line : list ascii) : option (list ascii) :=
  match line with
  | [] => None
  | c :: line => if bool_decide (c = "010"%char) then Some [] else cons c <$> cut_newline line
  end.

(** The branch of the child: the line is only cut; [operands] are the words from [optind]
    on, the first of which names the program, and the others are its words. Without a
    program [execv] fails. *)
Definition child_main (delete_new_line exec_ok : bool) (operands : list (list ascii)) (line : list ascii) :
    option child_end :=
  _ ← (if delete_new_line then cut_newline line else Some line);
  Some match operands with
       | path :: argv => if exec_ok then Executed path argv else Returned EXIT_SUCCESS
       | [] => Returned EXIT_SUCCESS
       end.

(* ------------------------------------------------------------------ *)
(** ** The whole program *)

(** [delete_new_line] and [read_from]: the lines of the stream, [None] when [fopen]
    has returned a null pointer. *)
Record task_options := TaskOptions {
  delete_new_line : bool;
  read_from : option (list (list ascii))
}.

(** The loop over what [getopt] returns for ["f:n"], each option with its argument;
    [None] is the exit on an option it does not know. *)
Fixpoint parse_task_options (fopen : list ascii -> option (list (list ascii)))
    (opts : list (ascii * list ascii)) (o : task_options) : option task_options :=
  match opts with
  | [] => Some o
  | (c, optarg) :: opts =>
      if bool_decide (c = "f"%char) then
        parse_task_options fopen opts (TaskOptions (delete_new_line o) (fopen optarg))
      else if bool_decide (c = "n"%char) then
        parse_task_options fopen opts (TaskOptions false (read_from o))
      else None
  end.

(** [main] as the first process sees it: its status and the children it waits for;
    [fork] gives the results of the successive calls. [None] is undefined
    behaviour: reading from a null stream, or that of [parent_main]. *)
Definition tasks_main (fopen : list ascii -> option (list (list ascii)))
    (stdin : list (list ascii)) (opts : list (ascii * list ascii)) (fork : nat -> Z)
    (rs : reallocs) : option (Z * list Z) :=
  match parse_task_options fopen opts (TaskOptions true (Some stdin)) with
  | None => Some (EXIT_FAILURE, [])
  | Some o => lines ← read_from o; parent_main (map fork (seq 0 (length lines))) rs
  end.

(** What it prints behind [waitpid] for each child. *)
Definition killed_line (pid : Z) : string := "killed child " +:+ dec pid +:+ nl.
Definition tasks_screen (r : Z * list Z) : Z * list output := (r.1, map (fun pid => Stdout (killed_line pid)) r.2).

(** The message for an addition that fails. *)
Definition expand_message : output := Stderr "Can't expand the array!".

(* ------------------------------------------------------------------ *)
(** ** Proofs *)

(** The capacity after [n] additions that succeed: the first power of two from
    [START_CAPACITY] on that is not below [n]. *)
Definition grown (n : Z) : Z := if n =? 0 then 0 else 2 ^ Z.max 4 (Z.log2_up n).

Lemma grown_room n : 0 <= n -> n <= grown n.
Proof.
  intros Hn. unfold grown. destruct (Z.eqb_spec n 0); [lia|].
  apply Z.log2_up_le_pow2; lia.
Qed.

Lemma grown_succ n : 0 <= n ->
  grown (n + 1) = if grown n =? 0 then START_CAPACITY else if n =? grown n then grown n * 2 else grown n.
Proof.
  intros Hn. pose proof (grown_room n Hn) as Hr. unfold grown in *.
  rewrite (proj2 (Z.eqb_neq (n + 1) 0)) by lia. destruct (Z.eqb_spec n 0) as [->|Hz]; [done|].
  set (k := Z.max 4 (Z.log2_up n)) in *. assert (4 <= k) as Hk by lia.
  pose proof (Z.pow_pos_nonneg 2 k ltac:(lia) ltac:(lia)).
  rewrite (proj2 (Z.eqb_neq (2 ^ k) 0)) by lia. destruct (Z.eqb_spec n (2 ^ k)) as [E|E].
  - replace (n + 1) with (Z.succ (2 ^ k)) by lia. rewrite Z.log2_up_succ_pow2 by lia.
    rewrite Z.max_r by lia. rewrite Z.pow_succ_r; lia.
  - f_equal. pose proof (proj1 (Z.log2_up_le_pow2 (n + 1) k ltac:(lia)) ltac:(lia)).
    pose proof (Z.log2_up_le_mono n (n + 1) ltac:(lia)). lia.
Qed.

(** The array holds [vs], and [capacity] is the size of its block. *)
Record holds (a : dynarray) (vs : list Z) : Prop := {
  holds_elements : elements a = vs;
  holds_size : size a = Z.of_nat (length vs);
  holds_capacity : capacity a = Z.of_nat (length (array a));
  holds_room : size a <= capacity a;
  holds_grown : capacity a = grown (size a);
}.

(** The next [add] has to grow the block. *)
Definition full (a : dynarray) : bool := (capacity a =? 0) || (size a =? capacity a).

Lemma full_iff a : size a <= capacity a -> 0 <= size a -> full a = (size a =? capacity a).
Proof. unfold full. intros. destruct (Z.eqb_spec (capacity a) 0); [|done]. symmetry. simpl. apply Z.eqb_eq. lia. Qed.

Lemma holds_start : holds array_state [].
Proof. split; simpl; try done; lia. Qed.

(** Writing behind the last element. *)
Lemma elements_insert a v (cells : list Z) :
  (Z.to_nat (size a) < length cells)%nat -> 0 <= size a ->
  take (Z.to_nat (size a + 1)) (<[Z.to_nat (size a) := v]> cells) =
  take (Z.to_nat (size a)) cells ++ [v].
Proof.
  intros Hl Hs. replace (Z.to_nat (size a + 1)) with (S (Z.to_nat (size a))) by lia.
  rewrite (take_S_r _ _ v) by (by apply list_lookup_insert_eq).
  by rewrite take_insert_ge by lia.
Qed.

(** An [add] with room behind the last element. *)
Lemma push_into a vs v cap (cells : list Z) :
  holds a vs -> Z.of_nat (length vs) < 2 ^ 60 -> cap = Z.of_nat (length cells) -> size a < cap ->
  take (Z.to_nat (size a)) cells = vs -> cap = grown (size a + 1) ->
  holds (Dynarray cap (size a + 1)%C (<[Z.to_nat (size a) := v]> cells)) (vs ++ [v]).
Proof.
  intros [He Hs Hc Hr Hb] Hl Hcap Hlt Ht Hb'. rewrite u64_small by lia.
  split; simpl; rewrite ?length_insert; try lia.
  - unfold elements. simpl. rewrite elements_insert by lia. by rewrite Ht.
  - rewrite length_app. simpl. lia.
Qed.

Lemma add_room rs v a vs :
  holds a vs -> Z.of_nat (length vs) < 2 ^ 60 -> full a = false ->
  exists a', add rs v a = Some (false, rs, a') /\ holds a' (vs ++ [v]).
Proof.
  intros Hh Hl [Hc Hs]%orb_false_iff. pose proof Hh as [He Hsz Hcap Hr Hb].
  unfold add, push_loc, failed_expand. rewrite Hc, Hs.
  apply Z.eqb_neq in Hs. rewrite (proj2 (Z.ltb_lt _ _)) by lia. eexists. split; [done|].
  apply push_into; [done|done|done|lia|done|]. rewrite grown_succ, <- Hb, Hc by lia.
  by rewrite (proj2 (Z.eqb_neq _ _)).
Qed.

Lemma add_keeps rs rs' v a a' : full a = false -> add rs v a = Some (false, rs', a') -> capacity a' = capacity a.
Proof.
  intros [Hc Hs]%orb_false_iff. unfold add, push_loc, failed_expand. rewrite Hc, Hs.
  case_match; [|done]. by intros [= <- <-].
Qed.

(** The array grows: the new block has the new capacity. *)
Lemma expand_ok a vs rs :
  holds a vs -> Z.of_nat (length vs) < 2 ^ 60 -> full a = true -> fst (next_realloc rs) = true ->
  exists cap cells, expand rs a = (0, snd (next_realloc rs), Dynarray cap (size a) cells) /\
    cap = Z.of_nat (length cells) /\ size a < cap /\ cap <> 0 /\
    take (Z.to_nat (size a)) cells = vs /\ cap = grown (size a + 1).
Proof.
  intros [He Hs Hc Hr Hb] Hl Hf Hok. unfold expand.
  set (cap := if capacity a =? 0 then START_CAPACITY else (capacity a * 2)%C).
  assert ((capacity a = 0 /\ cap = 16) \/ (size a = capacity a /\ 0 < capacity a /\ cap = 2 * capacity a)) as Hcap.
  { unfold full in Hf. subst cap. destruct (Z.eqb_spec (capacity a) 0); [by left|right].
    apply Z.eqb_eq in Hf. rewrite u64_small by lia. lia. }
  destruct (next_realloc rs) as [ok rs']. simpl in Hok. subst ok.
  rewrite (u64_small (cap * SIZEOF_ELEM)) by (unfold SIZEOF_ELEM; lia). unfold SIZEOF_ELEM. rewrite Z.div_mul by lia.
  do 2 eexists. split; [reflexivity|]. rewrite length_resize.
  split_and!; [lia|lia|lia| |].
  - rewrite take_resize_le by lia. rewrite resize_le by lia. exact He.
  - rewrite grown_succ, <- Hb by lia. destruct Hcap as [[-> ->]|(Hs' & ? & ->)]; [done|].
    rewrite (proj2 (Z.eqb_neq _ _)), Hs', Z.eqb_refl by lia. lia.
Qed.

Lemma add_grow rs v a vs :
  holds a vs -> Z.of_nat (length vs) < 2 ^ 60 -> full a = true -> fst (next_realloc rs) = true ->
  exists a', add rs v a = Some (false, snd (next_realloc rs), a') /\ holds a' (vs ++ [v]).
Proof.
  intros Hh Hl Hf Hok. destruct (expand_ok a vs rs Hh Hl Hf Hok) as (cap & cells & Hx & Hcap & Hlt & Hz & Ht & Hb').
  pose proof Hh as [He Hs Hc Hr Hb].
  assert (holds (Dynarray cap (size a + 1)%C (<[Z.to_nat (size a) := v]> cells)) (vs ++ [v])) as Hh'
    by (by apply push_into).
  unfold add, push_loc, failed_expand. unfold full in Hf.
  destruct (Z.eqb_spec (capacity a) 0) as [E|E].
  - rewrite Hx. simpl. rewrite (proj2 (Z.eqb_neq (size a) cap)) by lia.
    simpl. rewrite (proj2 (Z.ltb_lt _ _)) by lia. by eexists.
  - simpl in Hf |- *. rewrite Hf, Hx. simpl. rewrite (proj2 (Z.ltb_lt _ _)) by lia. by eexists.
Qed.

(** After a failed growth [capacity] is larger than the block. *)
Lemma add_fail rs v a vs :
  holds a vs -> Z.of_nat (length vs) < 2 ^ 60 -> full a = true -> fst (next_realloc rs) = false ->
  exists a', add rs v a = Some (true, snd (next_realloc rs), a') /\ elements a' = vs /\
    size a' = size a /\ capacity a' = grown (size a + 1) /\ array a' = array a /\
    forall rs' w, add rs' w a' = None.
Proof.
  intros [He Hs Hc Hr Hb] Hl Hf Hok. unfold add, push_loc, failed_expand, expand, full in *.
  destruct (next_realloc rs) as [ok rs1] eqn:En. simpl in Hok. subst ok.
  destruct (Z.eqb_spec (capacity a) 0) as [E|E]; simpl in Hf |- *.
  - eexists. split; [done|]. split_and!; [done|done|by rewrite grown_succ, <- Hb, E by lia|done|]. intros rs' w. simpl. rewrite (proj2 (Z.eqb_neq _ _)) by (unfold START_CAPACITY; lia).
    simpl. by rewrite (proj2 (Z.ltb_ge _ _)) by lia.
  - rewrite Hf. simpl. rewrite En, (proj2 (Z.eqb_neq (capacity a) 0) E). simpl. eexists. split; [done|].
    split_and!; [done|done|rewrite grown_succ, <- Hb, Hf, (proj2 (Z.eqb_neq _ _) E) by lia|done|]; apply Z.eqb_eq in Hf;
      [simpl; rewrite u64_small; lia|].
    intros rs' w. simpl. rewrite u64_small by lia. rewrite (proj2 (Z.eqb_neq _ 0)) by lia.
    simpl. rewrite (proj2 (Z.eqb_neq _ _)) by lia. simpl. by rewrite (proj2 (Z.ltb_ge _ _)) by lia.
Qed.

Lemma add_ok rs v a vs :
  holds a vs -> Z.of_nat (length vs) < 2 ^ 60 -> Forall (.= true) rs ->
  exists rs' a', add rs v a = Some (false, rs', a') /\ holds a' (vs ++ [v]) /\ Forall (.= true) rs'.
Proof.
  intros Hh Hl Hrs. destruct (full a) eqn:Hf.
  - destruct (add_grow rs v a vs Hh Hl Hf) as (a' & Ha & Hh').
    { by destruct Hrs as [|r rs ->]. }
    do 2 eexists. split_and!; [done|done|]. by destruct Hrs.
  - destruct (add_room rs v a vs Hh Hl Hf) as (a' & Ha & Hh'). eauto.
Qed.

Lemma add_all_ok vs : forall rs a pre,
  holds a pre -> Z.of_nat (length pre) + Z.of_nat (length vs) < 2 ^ 60 -> Forall (.= true) rs ->
  exists a' rs', add_all rs vs a = Some (0%nat, rs', a') /\ holds a' (pre ++ vs).
Proof.
  induction vs as [|v vs IH]; intros rs a pre Hh Hl Hrs; simpl in *.
  { exists a, rs. by rewrite app_nil_r. }
  destruct (add_ok rs v a pre Hh ltac:(lia) Hrs) as (rs1 & a1 & -> & Hh1 & Hrs1). simpl.
  destruct (IH rs1 a1 (pre ++ [v]) Hh1) as (a' & rs' & -> & Hh'); [rewrite length_app; simpl; lia|done|].
  exists a', rs'. rewrite <- app_assoc in Hh'. done.
Qed.

Lemma fork_loop_ok forks : forall rs pid a vs,
  holds a vs -> Z.of_nat (length vs) + Z.of_nat (length forks) < 2 ^ 60 ->
  Forall (.= true) rs -> Forall (fun f => 0 < f) forks ->
  exists a', fork_loop forks rs pid a = Some (inr (if forks is [] then pid else last forks, a')) /\
    holds a' (vs ++ forks).
Proof.
  induction forks as [|f forks IH]; intros rs pid a vs Hh Hl Hrs Hf.
  { exists a. rewrite app_nil_r. done. }
  apply Forall_cons in Hf as [Hf0 Hf]. cbn [length] in Hl. cbn [fork_loop].
  rewrite (proj2 (Z.eqb_neq f (-1))) by lia.
  destruct (add_ok rs f a vs Hh ltac:(lia) Hrs) as (rs' & a1 & -> & Hh1 & Hrs'). cbn [mbind option_bind].
  destruct (IH rs' (Some f) a1 (vs ++ [f]) Hh1) as (a' & -> & Hh'); [rewrite length_app; simpl; lia|done|done|].
  exists a'. rewrite <- app_assoc in Hh'. split; [|done]. by destruct forks.
Qed.

Lemma fork_loop_fails forks later : forall rs pid a vs,
  holds a vs -> Z.of_nat (length vs) + Z.of_nat (length forks) < 2 ^ 60 ->
  Forall (.= true) rs -> Forall (fun f => 0 < f) forks ->
  fork_loop (forks ++ -1 :: later) rs pid a = Some (inl EXIT_FAILURE).
Proof.
  induction forks as [|f forks IH]; intros rs pid a vs Hh Hl Hrs Hf; [done|].
  apply Forall_cons in Hf as [Hf0 Hf]. cbn [length] in Hl. cbn [fork_loop app].
  rewrite (proj2 (Z.eqb_neq f (-1))) by lia.
  destruct (add_ok rs f a vs Hh ltac:(lia) Hrs) as (rs' & a1 & -> & Hh1 & Hrs'). cbn [mbind option_bind].
  apply (IH _ _ _ (vs ++ [f]) Hh1); [rewrite length_app; simpl; lia|done|done].
Qed.

End array.

(** C31: the array of [dynarray.c] keeps every element in order while the
    allocator answers, and its block grows by doubling: from the first element on it has
    the first power of two from 16 on that is not below their number. An addition that needs a larger
    block and does not get it reports the failure and loses only its own element, but
    leaves [capacity] at the doubled size next to the old block, so that whatever is added
    next is written outside it. *)
Theorem dynarray_result (junk : Z) (vs : list Z) (rs : reallocs)
    (Hl : Z.of_nat (length vs) < 2 ^ 60) (Hrs : Forall (.= true) rs) :
  let n := Z.of_nat (length vs) in
  exists a rs', add_all junk rs vs array_state = Some (0%nat, rs', a) /\
    get_length a = n /\ elements a = vs /\
    capacity a = grown n /\ Z.of_nat (length (array a)) = grown n /\
    forall v, if n =? grown n then
      exists a', add junk [false] v a = Some (true, [], a') /\ elements a' = vs /\ get_length a' = n /\
        capacity a' = (if n =? 0 then START_CAPACITY else 2 * capacity a) /\ array a' = array a /\
        forall rs'' w, add junk rs'' w a' = None
    else exists a', add junk [false] v a = Some (false, [false], a') /\ elements a' = vs ++ [v] /\
        capacity a' = capacity a.
Proof.
  intros n. destruct (add_all_ok junk vs rs array_state [] holds_start Hl Hrs) as (a & rs' & Ha & Hh).
  pose proof Hh as [He Hs Hc Hr Hg]. simpl in Hs. fold n in Hs. rewrite Hs in Hg.
  exists a, rs'. split_and!; [done|done|done|done|by rewrite <- Hc|]. intros v.
  pose proof (full_iff a Hr) as Hf. rewrite Hs, Hg in Hf. rewrite <- Hf by lia. destruct (full a) eqn:Hfull.
  - destruct (add_fail junk [false] v a vs Hh Hl Hfull eq_refl) as (a' & H1 & H2 & H3 & H4 & H5 & H6).
    exists a'. split_and!; [done|done|unfold get_length; lia| |done|done]. rewrite H4, grown_succ, Hs, <- Hg by lia.
    symmetry in Hf. apply Z.eqb_eq in Hf; [|lia]. destruct (Z.eqb_spec n 0) as [E|E].
    + rewrite Hg, <- Hf, E. done.
    + rewrite Hg, <- Hf, (proj2 (Z.eqb_neq _ _) E), Z.eqb_refl. lia.
  - destruct (add_room junk [false] v a vs Hh Hl Hfull) as (a' & Hadd & Hh'). exists a'.
    split_and!; [done|apply Hh'|]. by apply (add_keeps junk [false] [false] v a).
Qed.

(** The parent when every allocation succeeds. *)
Lemma parent_waits (junk : Z) (forks : list Z) (rs : reallocs)
    (Hne : forks <> []) (Hf : Forall (fun f => 0 < f) forks)
    (Hl : Z.of_nat (length forks) < 2 ^ 60) (Hrs : Forall (.= true) rs) :
  parent_main junk forks rs = Some (EXIT_SUCCESS, forks) /\
  forall later, parent_main junk (forks ++ -1 :: later) rs = Some (EXIT_FAILURE, []).
Proof.
  unfold parent_main. split.
  - destruct (fork_loop_ok junk forks rs None array_state [] holds_start) as (a & -> & Hh); [done..|].
    simpl. destruct forks as [|f forks]; [done|]. destruct (last (f :: forks)) as [p|] eqn:Ep.
    + simpl. rewrite Forall_forall in Hf.
      assert (0 < p) as Hp by (apply Hf, list_elem_of_lookup; rewrite last_lookup in Ep; eauto).
      rewrite (proj2 (Z.ltb_lt _ _) Hp). by rewrite (holds_elements _ _ Hh).
    + by apply last_None in Ep.
  - intros later. by rewrite (fork_loop_fails junk forks later rs None array_state [] holds_start).
Qed.

Lemma cut_newline_spec (text rest : list ascii) :
  Forall (.≠ "010"%char) text -> cut_newline (text ++ "010"%char :: rest) = Some text.
Proof.
  induction 1 as [|c text Hc _ IH]; simpl; [done|]. by rewrite bool_decide_eq_false_2, IH.
Qed.

(** With options that are accepted and an input of at least one line, when every
    [fork] and every allocation succeeds the first process waits for all its
    children, one for each line of the stream chosen by the options, each once and
    in order, and exits successfully. A child whose line ends in a newline (any
    child with [-n]) becomes the program of the command line if [execv] succeeds. *)
Theorem tasks_waits (junk : Z) (fopen : list ascii -> option (list (list ascii)))
    (stdin lines : list (list ascii)) (opts : list (ascii * list ascii)) (cut : bool)
    (fork : nat -> Z) (rs : reallocs)
    (Ho : parse_task_options fopen opts (TaskOptions true (Some stdin)) = Some (TaskOptions cut (Some lines)))
    (Hne : lines <> []) (Hf : forall i, 0 < fork i)
    (Hl : Z.of_nat (length lines) < 2 ^ 60) (Hrs : Forall (.= true) rs) :
  tasks_main junk fopen stdin opts fork rs =
    Some (EXIT_SUCCESS, map fork (seq 0 (length lines))) /\
  forall line text, line ∈ lines -> Forall (.≠ "010"%char) text ->
    line = text ++ ["010"%char] \/ cut = false ->
    forall path argv, child_main cut true (path :: argv) line = Some (Executed path argv).
Proof.
  unfold tasks_main. rewrite Ho. simpl. split.
  - apply (parent_waits junk); [by destruct lines| |by rewrite length_map, length_seq|done].
    apply Forall_map, Forall_true. intros i. apply Hf.
  - intros line text _ Ht [-> | ->] path argv; [|done]. unfold child_main.
    destruct cut; [|done]. by rewrite cut_newline_spec.
Qed.

(* ------------------------------------------------------------------ *)
(** ** Runs *)

Theorem dynarray_result_witness :
  let vs := Z.of_nat <$> seq 0 16 in
  exists a rs', add_all 0 [true] vs array_state = Some (0%nat, rs', a) /\ elements a = vs /\ capacity a = 16 /\
    exists a', add 0 [false] 16 a = Some (true, [], a') /\ capacity a' = 32 /\ add 0 [] 17 a' = None.
Proof.
  destruct (dynarray_result 0 (Z.of_nat <$> seq 0 16) [true]) as (a & rs' & H1 & _ & H3 & H4 & _ & H6);
    [by vm_compute|by repeat constructor|].
  exists a, rs'. change (capacity a = 16) in H4. split_and!; [exact H1|exact H3|exact H4|].
  destruct (H6 16) as (a' & Ha & _ & _ & Hc & _ & Hn). exists a'. split_and!; [exact Ha| |apply Hn].
  rewrite Hc, H4. reflexivity.
Defined.

Theorem tasks_waits_witness :
  tasks_main 0 (fun _ => None) [["a"; "010"]; ["b"; "010"]]%char [] (fun i => 100 + Z.of_nat i) [] =
    Some (EXIT_SUCCESS, [100; 101]).
Proof.
  refine (proj1 (tasks_waits 0 (fun _ => None) [["a"; "010"]; ["b"; "010"]]%char
    [["a"; "010"]; ["b"; "010"]]%char [] true (fun i => 100 + Z.of_nat i) [] eq_refl _ _ _ _)).
  - done.
  - intros i. lia.
  - by vm_compute.
  - constructor.
Defined.

(** With an empty input [main] reads [pid] before anything is stored there. *)
Example empty_input : parent_main 0 [] [] = None.
Proof. reflexivity. Qed.

(** The seventeenth child is forgotten when the array cannot grow, and the
    eighteenth is written outside it. *)
Example forgotten_child :
  let pids := Z.of_nat <$> seq 1 17 in
  snd <$> parent_main 0 pids [true; false] = Some (take 16 pids) /\
  parent_main 0 (pids ++ [18]) [true; false] = None.
Proof. vm_compute. done. Qed.

(** A last line without a newline kills its child, unless [-n] is given. *)
Lemma child_without_newline (line : list ascii) exec_ok operands :
  Forall (.≠ "010"%char) line ->
  child_main true exec_ok operands line = None /\
  child_main false exec_ok operands line =
    Some match operands with path :: argv => if exec_ok then Executed path argv else Returned EXIT_SUCCESS | [] => Returned EXIT_SUCCESS end.
Proof.
  intros Hl. split; [|done]. unfold child_main.
  assert (cut_newline line = None) as ->; [|done].
  induction Hl as [|c line Hc _ IH]; [done|]. simpl. by rewrite bool_decide_eq_false_2, IH.
Qed.

(** The program started does not find its own name in [argv[0]], but its first argument. *)
Example shifted_words :
  child_main true true [["l"; "s"]; ["-"; "l"]; ["/"]]%char ["x"; "010"]%char =
  Some (Executed ["l"; "s"]%char [["-"; "l"]; ["/"]]%char).
Proof. reflexivity. Qed.

(** A file that cannot be opened is read all the same. *)
Example unreadable_file : tasks_main 0 (fun _ => None) [] [("f", ["x"])]%char (fun _ => 7) [] = None.
Proof. reflexivity. Qed.
