(* ===== verification/Seq.v ===== *)
(** [ex03/seq/seq.c]: printing the numbers from FIRST to LAST in steps of
    INCREMENT. What [printf] makes of the user's format is a parameter. *)

From S2P Require Import Prelude.
From S2P Require Import CLib.
From Stdlib Require Import Ascii.

Open Scope string_scope.
Open Scope Z_scope.

(** [struct options] *)
Record seq_options := SeqOptions { equal_width : bool; separator : string; format : string }.

Definition default_options : seq_options := SeqOptions false nl "%d".

Definition version : string := "Version 6.6.6, Hail Stan!" +:+ nl.

Definition help : string :=
  "Print numbers from FIRST to LAST, in steps of INCREMENT." +:+ nl +:+ nl +:+
  "Mandatory arguments to long options are mandatory for short options too." +:+ nl +:+ nl +:+
  "-f, --format=FORMAT" +:+ nl +:+ "      use printf style floating-point FORMAT" +:+ nl +:+ nl +:+
  "-s, --separator=STRING" +:+ nl +:+ "      use STRING to separate numbers (default: \n)" +:+ nl +:+ nl +:+
  "-w, --equal-width" +:+ nl +:+ "      equalize width by padding with leading zeroes" +:+ nl +:+ nl +:+
  "--help" +:+ nl +:+ "      display this help and exit" +:+ nl +:+ nl +:+
  "--version" +:+ nl +:+ "       output version information and exit" +:+ nl +:+ nl.

(** What ends the program before it prints numbers. *)
Inductive message := Help | Version | NoArgs | TooMany.

Definition message_text (m : message) : output :=
  match m with
  | Help => Stdout help
  | Version => Stdout version
  | NoArgs => Stderr ("No args bro" +:+ nl)
  | TooMany => Stderr ("Too many numbers specified!" +:+ nl)
  end.

(** The options as [getopt_long] returns them, each with its argument. *)
Fixpoint parse_seq_options (opts : list (ascii * string)) (o : seq_options) :
    (Z * list message) + seq_options :=
  match opts with
  | [] => inr o
  | (c, optarg) :: opts =>
      if bool_decide (c = "h"%char) then inl (EXIT_SUCCESS, [Help])
      else if bool_decide (c = "v"%char) then inl (EXIT_SUCCESS, [Version])
      else if bool_decide (c = "w"%char) then
        parse_seq_options opts (SeqOptions true (separator o) (format o))
      else if bool_decide (c = "s"%char) then
        parse_seq_options opts (SeqOptions (equal_width o) optarg (format o))
      else if bool_decide (c = "f"%char) then
        parse_seq_options opts (SeqOptions (equal_width o) (separator o) optarg)
      else inl (EXIT_FAILURE, [Help])
  end.

(** [int x = strtol(arg, NULL, 10)]: what does not convert is 0, and the [long] is
    cut to an [int]. *)
Definition int_arg (arg : string) : Z := s32 (st_value (strtol arg 10)).

(** The [switch] on [argc - optind - 1]: start, increment and last. *)
Definition seq_bounds (args : list string) : option (Z * Z * Z) :=
  match args with
  | [last] => Some (1, 1, int_arg last)
  | [start; last] => Some (int_arg start, 1, int_arg last)
  | [start; incr; last] => Some (int_arg start, int_arg incr, int_arg last)
  | _ => None
  end.

(** How the printing loop goes: the strings it prints, one per call, or an
    [int] that overflows. *)
Inductive printed := Printed (out : list string) | Overflow (out : list string).

Definition before (out : list string) (p : printed) : printed :=
  match p with Printed o => Printed (out ++ o) | Overflow o => Overflow (out ++ o) end.

Section seq.
(** [printf(format, x)] *)
Context (printf : string -> Z -> string).

(** [while (start <= last) ...]; [None] when the fuel runs out. *)
Fixpoint seq_loop (fuel : nat) (o : seq_options) (start incr last : Z) : option printed :=
  if start <=? last then
    match fuel with
    | O => None
    | S fuel =>
        match int_ok (start + incr) with
        | None => Some (Overflow [printf (format o) start])
        | Some next =>
            p ← seq_loop fuel o next incr last;
            Some (before (printf (format o) start :: (if next <=? last then [separator o] else [])) p)
        end
    end
  else Some (Printed []).

(** [main]: the options and the operands; the status (that of a program that an
    overflow did not stop), the messages and the numbers. *)
Definition seq_main (fuel : nat) (argc : Z) (opts : list (ascii * string)) (args : list string) :
    option (Z * list message * printed) :=
  if argc <? 2 then Some (EXIT_FAILURE, [NoArgs], Printed []) else
  match parse_seq_options opts default_options with
  | inl (status, m) => Some (status, m, Printed [])
  | inr o =>
      match seq_bounds args with
      | None => Some (EXIT_FAILURE, [TooMany; Help], Printed [])
      | Some (start, incr, last) =>
          p ← seq_loop fuel o start incr last;
          Some (EXIT_SUCCESS, [], match p with Printed out => Printed (out ++ [nl]) | Overflow out => p end)
      end
  end.

(* ------------------------------------------------------------------ *)
(** ** The loop *)

(** [n] numbers from [start] on. *)
Definition numbers (start incr : Z) (n : nat) : list Z :=
  (fun i => start + Z.of_nat i * incr) <$> seq 0 n.

Fixpoint intersperse (sep : string) (l : list string) : list string :=
  match l with
  | [] => []
  | [x] => [x]
  | x :: l => x :: sep :: intersperse sep l
  end.

(** How many numbers fit between the bounds. *)
Definition how_many (start incr last : Z) : nat := Z.to_nat ((last - start) / incr + 1).

Lemma numbers_S start incr n : numbers start incr (S n) = start :: numbers (start + incr) incr n.
Proof.
  unfold numbers. cbn [seq]. rewrite fmap_cons, <- fmap_S_seq, <- list_fmap_compose. f_equal; [lia|].
  apply list_fmap_ext. intros i x _. simpl. lia.
Qed.

Lemma seq_loop_stop fuel o start incr last :
  last < start -> seq_loop fuel o start incr last = Some (Printed []).
Proof. intros Hl. destruct fuel; simpl; by rewrite (proj2 (Z.leb_gt _ _)). Qed.

Lemma intersperse_cons sep x l :
  l <> [] -> intersperse sep (x :: l) = x :: sep :: intersperse sep l.
Proof. by destruct l. Qed.

(** Upwards: the numbers between the bounds, and then [start] is increased once
    more, beyond [last]. *)
Lemma seq_loop_up n : forall fuel o start incr last,
  0 < incr -> INT_MIN <= start -> last <= INT_MAX ->
  start + Z.of_nat n * incr <= last < start + Z.of_nat (S n) * incr -> (S n <= fuel)%nat ->
  seq_loop fuel o start incr last =
  Some ((if start + Z.of_nat (S n) * incr <=? INT_MAX then Printed else Overflow)
          (intersperse (separator o) (printf (format o) <$> numbers start incr (S n)))).
Proof.
  induction n as [|n IH]; intros fuel o start incr last Hi Hs Hm Hl Hf; (destruct fuel as [|fuel]; [lia|]);
    cbn [seq_loop]; rewrite (proj2 (Z.leb_le start last)) by nia; rewrite numbers_S, fmap_cons.
  - replace (start + Z.of_nat 1 * incr) with (start + incr) in * by lia.
    destruct (Z.leb_spec (start + incr) INT_MAX) as [Hle|Hgt]; [|by rewrite int_ok_above by lia].
    rewrite int_ok_small, seq_loop_stop by lia. cbn [mbind option_bind].
    by rewrite (proj2 (Z.leb_gt _ _)) by lia.
  - rewrite int_ok_small by nia.
    rewrite (IH fuel o (start + incr) incr last) by nia. cbn [mbind option_bind].
    rewrite (proj2 (Z.leb_le _ _)) by nia.
    replace (start + incr + Z.of_nat (S n) * incr) with (start + Z.of_nat (S (S n)) * incr) by lia.
    rewrite intersperse_cons by (by rewrite numbers_S).
    by destruct (_ <=? INT_MAX).
Qed.

Lemma seq_loop_zero fuel : forall o start last,
  INT_MIN <= start <= INT_MAX -> start <= last -> seq_loop fuel o start 0 last = None.
Proof.
  induction fuel as [|fuel IH]; intros o start last Hi Hl; cbn [seq_loop];
    rewrite (proj2 (Z.leb_le _ _)) by done; [done|].
  rewrite Z.add_0_r, int_ok_small by done. by rewrite IH.
Qed.

Lemma seq_loop_down n : forall fuel o start incr last,
  incr < 0 -> start <= last -> INT_MIN <= start <= INT_MAX -> start - INT_MIN < Z.of_nat n ->
  (n <= fuel)%nat ->
  exists out, seq_loop fuel o start incr last = Some (Overflow out).
Proof.
  induction n as [|n IH]; intros fuel o start incr last Hi Hl Hm Hn Hf; [lia|].
  destruct fuel as [|fuel]; [lia|]. cbn [seq_loop]. rewrite (proj2 (Z.leb_le _ _)) by lia.
  destruct (Z.ltb_spec (start + incr) INT_MIN) as [Hlt|Hge]; [rewrite int_ok_below by lia; eauto|].
  rewrite int_ok_small by lia.
  destruct (IH fuel o (start + incr) incr last) as [out ->]; [lia..|]. simpl. eauto.
Qed.

End seq.

(** The loop on operands that are [int]s. *)
Lemma seq_loop_result (printf : string -> Z -> string) (o : seq_options) (start incr last : Z)
    (Hs : INT_MIN <= start <= INT_MAX) (Hl : INT_MIN <= last <= INT_MAX) :
  let n := how_many start incr last in
  let out := intersperse (separator o) (printf (format o) <$> numbers start incr n) in
  (last < start -> forall fuel, seq_loop printf fuel o start incr last = Some (Printed [])) /\
  (start <= last -> incr = 0 -> forall fuel, seq_loop printf fuel o start incr last = None) /\
  (start <= last -> incr < 0 ->
     forall fuel, start - INT_MIN < Z.of_nat fuel ->
     exists out, seq_loop printf fuel o start incr last = Some (Overflow out)) /\
  (start <= last -> 0 < incr ->
     forall fuel, (n <= fuel)%nat ->
     seq_loop printf fuel o start incr last =
     Some ((if start + Z.of_nat n * incr <=? INT_MAX then Printed else Overflow) out)).
Proof.
  intros n out. split_and!.
  - intros Hlt fuel. by apply seq_loop_stop.
  - intros Hle -> fuel. by apply seq_loop_zero.
  - intros Hle Hi fuel Hf. by apply (seq_loop_down printf fuel); [..|lia|].
  - intros Hle Hi fuel Hf. subst out n. unfold how_many in *.
    assert (0 <= (last - start) / incr) as Hq by (apply Z.div_pos; lia).
    pose proof (Z.div_mod (last - start) incr ltac:(lia)) as Hd.
    pose proof (Z.mod_pos_bound (last - start) incr Hi) as Hb.
    replace (Z.to_nat ((last - start) / incr + 1)) with (S (Z.to_nat ((last - start) / incr))) in * by lia.
    apply seq_loop_up; [done|lia|lia| |done]. rewrite Nat2Z.inj_succ, Z2Nat.id by done. nia.
Qed.

Lemma seq_bounds_int args start incr last :
  seq_bounds args = Some (start, incr, last) ->
  INT_MIN <= start <= INT_MAX /\ INT_MIN <= last <= INT_MAX.
Proof.
  assert (forall a, INT_MIN <= int_arg a <= INT_MAX) as Ha by (intros a; apply s32_range).
  assert (INT_MIN <= 1 <= INT_MAX) by done.
  unfold seq_bounds. destruct args as [|a [|b [|c [|]]]]; intros [= <- <- <-]; auto.
Qed.

(** With options that are accepted and one to three operands, [seq] behaves in
    one of four ways: it prints only the newline when FIRST is beyond LAST; it never
    ends for the increment 0; it counts down until the [int] overflows for a
    negative increment; and for a positive one it prints exactly the numbers FIRST,
    FIRST + INCREMENT, ... up to LAST with the separator between them and a newline
    behind, and succeeds, exactly when the number after the last one is still an
    [int]. *)
Theorem seq_result (printf : string -> Z -> string) (argc : Z) (opts : list (ascii * string))
    (args : list string) (o : seq_options) (start incr last : Z)
    (Hargc : 2 <= argc) (Ho : parse_seq_options opts default_options = inr o)
    (Hb : seq_bounds args = Some (start, incr, last)) :
  let n := how_many start incr last in
  let out := intersperse (separator o) (printf (format o) <$> numbers start incr n) in
  (last < start -> forall fuel,
     seq_main printf fuel argc opts args = Some (EXIT_SUCCESS, [], Printed [nl])) /\
  (start <= last -> incr = 0 -> forall fuel, seq_main printf fuel argc opts args = None) /\
  (start <= last -> incr < 0 -> forall fuel, start - INT_MIN < Z.of_nat fuel ->
     exists out, seq_main printf fuel argc opts args = Some (EXIT_SUCCESS, [], Overflow out)) /\
  (start <= last -> 0 < incr -> forall fuel, (n <= fuel)%nat ->
     seq_main printf fuel argc opts args =
     Some (EXIT_SUCCESS, [], if start + Z.of_nat n * incr <=? INT_MAX then Printed (out ++ [nl])%list
                             else Overflow out)).
Proof.
  intros n out. destruct (seq_bounds_int _ _ _ _ Hb) as [Hs Hl].
  pose proof (seq_loop_result printf o start incr last Hs Hl) as (H1 & H2 & H3 & H4). fold n out in H4.
  unfold seq_main. rewrite (proj2 (Z.ltb_ge _ _)) by lia. rewrite Ho, Hb. split_and!.
  - intros Hlt fuel. by rewrite H1.
  - intros Hle Hi fuel. by rewrite H2.
  - intros Hle Hi fuel Hf. destruct (H3 Hle Hi fuel Hf) as [out' ->]. by exists out'.
  - intros Hle Hi fuel Hf. rewrite (H4 Hle Hi fuel Hf). by destruct (_ <=? INT_MAX).
Qed.

(** What [printf] prints for the default format. *)
Definition printf_d (fmt : string) (x : Z) : string := if bool_decide (fmt = "%d") then dec x else fmt.

Theorem seq_result_witness :
  parse_seq_options [("s"%char, ", ")] default_options = inr (SeqOptions false ", " "%d") /\
  seq_main printf_d 10 6 [("s"%char, ", ")] ["1"; "3"; "8"] =
    Some (EXIT_SUCCESS, [], Printed ["1"; ", "; "4"; ", "; "7"; nl]).
Proof.
  split; [reflexivity|].
  etransitivity; [apply (seq_result printf_d 6 [("s"%char, ", ")] ["1"; "3"; "8"]
    (SeqOptions false ", " "%d") 1 3 8); [lia|reflexivity|reflexivity|done|done|vm_compute; lia]|].
  vm_compute. reflexivity.
Defined.

(** An operand that is not a number is 0, and one beyond [int] is cut. *)
Example not_a_number : seq_bounds ["x"; "4294967299"] = Some (0, 1, 3).
Proof. reflexivity. Qed.

(** [seq 2147483647] prints its numbers and then overflows. *)
Example last_int :
  seq_loop printf_d 3 default_options (INT_MAX - 1) 1 INT_MAX =
  Some (Overflow ["2147483646"; nl; "2147483647"]).
Proof. vm_compute. reflexivity. Qed.

(** [-w] changes nothing: the loop never looks at [equal_width]. *)
Definition same_output (o o' : seq_options) : Prop := separator o = separator o' /\ format o = format o'.

Lemma seq_loop_same printf fuel : forall o o' start incr last,
  same_output o o' -> seq_loop printf fuel o start incr last = seq_loop printf fuel o' start incr last.
Proof.
  induction fuel as [|fuel IH]; intros o o' start incr last Hs; cbn [seq_loop]; [done|].
  destruct Hs as [Hsep Hf]. rewrite Hsep, Hf. destruct (start <=? last), (int_ok (start + incr)) as [next|]; try done.
  by rewrite (IH o o' next incr last (conj Hsep Hf)).
Qed.

Lemma parse_seq_options_same opts1 opts2 : forall o o',
  same_output o o' ->
  match parse_seq_options (opts1 ++ ("w"%char, "") :: opts2)%list o,
        parse_seq_options (opts1 ++ opts2)%list o' with
  | inl e, inl e' => e = e'
  | inr o, inr o' => same_output o o'
  | _, _ => False
  end.
Proof.
  assert (forall opts o o', same_output o o' ->
    match parse_seq_options opts o, parse_seq_options opts o' with
    | inl e, inl e' => e = e' | inr o, inr o' => same_output o o' | _, _ => False end) as Hp.
  { induction opts as [|[c a] opts IH]; intros o o' [Hs Hf]; simpl; [done|].
    repeat (case_bool_decide; [by (done || (apply IH; split))|]). done. }
  induction opts1 as [|[c a] opts1 IH]; intros o o' [Hs Hf]; simpl; [by apply Hp|].
  repeat (case_bool_decide; [by (done || (apply IH; split))|]). done.
Qed.

Lemma equal_width_ignored printf fuel argc opts1 opts2 args :
  seq_main printf fuel argc (opts1 ++ ("w"%char, "") :: opts2)%list args =
  seq_main printf fuel argc (opts1 ++ opts2)%list args.
Proof.
  unfold seq_main. pose proof (parse_seq_options_same opts1 opts2 default_options default_options (conj eq_refl eq_refl)) as Hp.
  destruct (argc <? 2); [done|].
  destruct (parse_seq_options (opts1 ++ _ :: opts2)%list _) as [e|o],
    (parse_seq_options (opts1 ++ opts2)%list _) as [e'|o']; [by subst|done..|].
  destruct (seq_bounds args) as [[[start incr] last]|]; [|done].
  by rewrite (seq_loop_same printf fuel o o' start incr last Hp).
Qed.
