(* ===== verification/Sigcalc.v ===== *)
(** [ex06/sigcalc/sigcalc.c]: a server that adds numbers sent to it with signals,
    and its clients. The two signals are standard ones: while one is pending, the
    next of the same kind is discarded, value and all. *)

From S2P Require Import Prelude.
From S2P Require Import CLib.

Open Scope string_scope.
Open Scope Z_scope.

(** [USRSIGADD] and [USRSIGGET] *)
Inductive usrsig := ADD | GET.

#[export] Instance usrsig_eq : EqDecision usrsig.
Proof. solve_decision. Defined.

(* ------------------------------------------------------------------ *)
(** ** The server *)

(** The process after [server] has set its handlers: both signals are blocked
    outside [sigsuspend]. [None] as pending is no signal, otherwise the
    [si_value] it carries. *)
Record server := Server {
  counter : Z;
  pending_add : option Z;
  pending_get : option Z;
  out : string;
}.

(** What [server] prints and does before its loop. *)
Definition server_start (pid : Z) : server :=
  Server 0 None None ("Server pid: " +:+ dec pid +:+ nl).

(** The handlers; the addition is one of [int]s. *)
Definition usrsigadd (sival_int : Z) (s : server) : option server :=
  c ← int_ok (counter s + sival_int);
  Some (Server c (pending_add s) (pending_get s) (out s +:+ "add: " +:+ dec sival_int +:+ nl)).

Definition usrsigget (sival_int : Z) (s : server) : option server :=
  Some (Server (counter s) (pending_add s) (pending_get s)
          (out s +:+ dec sival_int +:+ nl +:+ "get: " +:+ dec (counter s) +:+ nl)).

(** [sigqueue] reaches the server: a signal already pending is kept. *)
Definition receive (sig : usrsig) (value : Z) (s : server) : server :=
  match sig with
  | ADD => Server (counter s) (Some (default value (pending_add s))) (pending_get s) (out s)
  | GET => Server (counter s) (pending_add s) (Some (default value (pending_get s))) (out s)
  end.

(** One iteration of [while (1) sigsuspend(&sig_oldset);]: one pending signal is
    delivered; the other one, in [sa_mask], waits for the next iteration. [None]:
    nothing of that kind is pending. *)
Definition suspend (sig : usrsig) (s : server) : option (option server) :=
  match sig with
  | ADD => v ← pending_add s; Some (usrsigadd v (Server (counter s) None (pending_get s) (out s)))
  | GET => v ← pending_get s; Some (usrsigget v (Server (counter s) (pending_add s) None (out s)))
  end.

(** [server] up to its loop: before the signals are blocked; behind that, with the number of
    handlers that are set and the pending signals; in the loop; or the process has ended, with
    a message, or by a signal that nobody blocks or handles. *)
Inductive boot :=
| Unblocked
| Blocked (handlers : nat) (pending_add pending_get : option Z)
| Serving (s : server)
| Failed (message : string)
| Killed (sig : usrsig).

(** A signal arrives, or [server] makes its next call, which succeeds or fails. *)
Inductive boot_event := Arrives (sig : usrsig) (value : Z) | Proceeds (ok : bool).

Section booting.
Context (argv0 strerror : string) (pid : Z).

Definition boot_step (b : boot) (e : boot_event) : boot :=
  let fails msg := Failed (error_line argv0 msg (Some strerror)) in
  match b, e with
  | Unblocked, Arrives sig _ => Killed sig
  | Unblocked, Proceeds ok => if ok then Blocked 0 None None else fails "sigprocmask"
  | Blocked n a g, Arrives ADD v => Blocked n (Some (default v a)) g
  | Blocked n a g, Arrives GET v => Blocked n a (Some (default v g))
  | Blocked 0 a g, Proceeds ok => if ok then Blocked 1 a g else fails "cannot setup handler for GET"
  | Blocked 1 a g, Proceeds ok => if ok then Blocked 2 a g else fails "cannot setup handler for ADD"
  | Blocked _ a g, Proceeds _ => Serving (Server 0 a g (out (server_start pid)))
  | Serving s, Arrives sig v => Serving (receive sig v s)
  | _, _ => b
  end.

Definition boot_run (es : list boot_event) : boot := fold_left boot_step es Unblocked.
End booting.

(* ------------------------------------------------------------------ *)
(** ** The clients *)

(** What a run of the program does: it is the server, or it sends a signal. *)
Inductive role := Serve | Send (pid : Z) (sig : usrsig) (value : Z) (printed : string).

(** [get] and [add] *)
Definition get (pid : Z) : role :=
  Send pid GET 100 ("Calling get: PID = " +:+ dec pid +:+ nl).
Definition add (pid number : Z) : role :=
  Send pid ADD number ("Calling get: PID = " +:+ dec pid +:+ ", number = " +:+ dec number +:+ nl).

(** The end of a client: what it has printed, and its status. *)
Definition client_end (argv0 strerror : string) (sigqueue : bool) (printed : string) : Z * list output :=
  if sigqueue then (EXIT_SUCCESS, [Stdout printed])
  else (EXIT_FAILURE, [Stdout printed; Stderr (error_line argv0 "sigqueue" (Some strerror))]).

(** An [int] from [strtol], without any check. *)
Definition int_of (arg : string) : Z := s32 (st_value (strtol arg 10)).

(** [main]: the arguments after the program name; only their number counts, not
    the first one. *)
Definition main (args : list string) : Z + role :=
  match args with
  | [_] => inr Serve
  | [_; pid] => inr (get (int_of pid))
  | [_; pid; number] => inr (add (int_of pid) (int_of number))
  | _ => inl EXIT_FAILURE
  end.

(* ------------------------------------------------------------------ *)
(** ** Histories *)

Inductive event := Sent (sig : usrsig) (value : Z) | Wake (sig : usrsig).

(** [None] is a wake-up with nothing pending, [Some None] an overflow. *)
Definition step (e : event) (s : server) : option (option server) :=
  match e with
  | Sent sig v => Some (Some (receive sig v s))
  | Wake sig => suspend sig s
  end.

Fixpoint run (es : list event) (s : server) : option (option server) :=
  match es with
  | [] => Some (Some s)
  | e :: es => r ← step e s; match r with None => Some None | Some s => run es s end
  end.

(** The numbers sent while no other was pending: [busy] tells whether one is. *)
Fixpoint accepted (busy : bool) (es : list event) : list Z :=
  match es with
  | [] => []
  | Sent ADD v :: es => (if busy then [] else [v]) ++ accepted true es
  | Wake ADD :: es => accepted false es
  | _ :: es => accepted busy es
  end.

(** All the numbers sent. *)
Fixpoint sent (es : list event) : list Z :=
  match es with
  | [] => []
  | Sent ADD v :: es => v :: sent es
  | _ :: es => sent es
  end.

Definition is_pending (s : server) : bool := match pending_add s with Some _ => true | None => false end.

(** The counter once the pending number is added. *)
Definition total (s : server) : Z := counter s + default 0 (pending_add s).

Lemma run_total es : forall s s',
  run es s = Some (Some s') -> total s' = total s + zsum id (accepted (is_pending s) es).
Proof.
  induction es as [|e es IH]; intros s s' Hr; cbn [run] in Hr.
  { injection Hr as <-. simpl. lia. }
  destruct (step e s) as [[s1|]|] eqn:Es; [|done..]. cbn [mbind option_bind] in Hr.
  rewrite (IH _ _ Hr). destruct e as [[] v|[]]; simpl in Es.
  - injection Es as <-. unfold total, is_pending. simpl. destruct (pending_add s); simpl; lia.
  - injection Es as <-. done.
  - destruct (pending_add s) as [w|] eqn:Ep; [|done]. injection Es as Es. unfold usrsigadd in Es.
    simpl in Es. destruct (int_ok _) as [c|] eqn:Ec; [|done]. injection Es as <-.
    unfold int_ok in Ec. destruct (_ && _); [|done]. injection Ec as <-.
    unfold total, is_pending. simpl. rewrite Ep. simpl. lia.
  - destruct (pending_get s) as [w|]; [|done]. by injection Es as <-.
Qed.

(** No number is sent while another one is pending. *)
Fixpoint one_at_a_time (busy : bool) (es : list event) : bool :=
  match es with
  | [] => true
  | Sent ADD _ :: es => negb busy && one_at_a_time true es
  | Wake ADD :: es => one_at_a_time false es
  | _ :: es => one_at_a_time busy es
  end.

Lemma accepted_sent es : forall busy, one_at_a_time busy es = true -> accepted busy es = sent es.
Proof.
  induction es as [|[[] v|[]] es IH]; intros busy H1; simpl in *; auto.
  destruct busy; [done|]. simpl. by rewrite IH.
Qed.

(** C32: the counter of the server, with the number still pending, is the sum of
    the numbers that arrived while none was pending: every number sent when each
    is handled before the next, while the others are lost without a trace; and
    what [get] prints is the sum of the additions handled before it. *)
Theorem sigcalc_total (pid : Z) (es : list event) (s : server)
    (Hr : run es (server_start pid) = Some (Some s)) :
  total s = zsum id (accepted false es) /\
  (one_at_a_time false es = true -> total s = zsum id (sent es)) /\
  (forall v, pending_get s = Some v -> exists s', suspend GET s = Some (Some s') /\
     out s' = out s +:+ dec v +:+ nl +:+ "get: " +:+
              dec (zsum id (accepted false es) - default 0 (pending_add s)) +:+ nl).
Proof.
  pose proof (run_total _ _ _ Hr) as Ht. unfold is_pending, total in Ht. simpl in Ht.
  split_and!.
  - unfold total. lia.
  - intros H1. rewrite <- (accepted_sent _ _ H1). unfold total. lia.
  - intros v Hv. simpl. rewrite Hv. simpl. eexists. split; [reflexivity|]. simpl.
    by replace (zsum id (accepted false es) - default 0 (pending_add s)) with (counter s) by lia.
Qed.

(** Two numbers in a row, handled one after the other or not. *)
Theorem sigcalc_total_witness :
  exists s, run [Sent ADD 5; Wake ADD; Sent ADD 7; Sent ADD 9; Wake ADD; Sent GET 100] (server_start 42) = Some (Some s) /\
    counter s = 12 /\ total s = zsum id [5; 7].
Proof.
  eexists. split; [vm_compute; reflexivity|]. split; [reflexivity|].
  refine (proj1 (sigcalc_total 42 [Sent ADD 5; Wake ADD; Sent ADD 7; Sent ADD 9; Wake ADD; Sent GET 100] _ _)).
  vm_compute. reflexivity.
Defined.

(** The sum of two large numbers is undefined. *)
Example counter_overflow :
  run [Sent ADD INT_MAX; Wake ADD; Sent ADD 1; Wake ADD] (server_start 42) = Some None.
Proof. reflexivity. Qed.

(** Any first argument starts the server. *)
Example any_command : main ["get"] = inr Serve.
Proof. reflexivity. Qed.

(* ------------------------------------------------------------------ *)
(** ** Starting up *)

(** The signals among the events of the start. *)
Definition arrivals (es : list boot_event) : list event :=
  omap (fun e => match e with Arrives sig v => Some (Sent sig v) | Proceeds _ => None end) es.

(** A server that is still starting, as one that has started. *)
Definition as_server (pid : Z) (b : boot) : option server :=
  match b with
  | Unblocked => Some (server_start pid)
  | Blocked _ a g => Some (Server 0 a g (out (server_start pid)))
  | Serving s => Some s
  | Failed _ | Killed _ => None
  end.

Lemma boot_step_server argv0 strerror pid b e s' :
  as_server pid (boot_step argv0 strerror pid b e) = Some s' ->
  exists s, as_server pid b = Some s /\ s' = match e with Arrives sig v => receive sig v s | Proceeds _ => s end.
Proof.
  destruct b as [|[|[|n]] a g|s|m|sig], e as [[] v|[]]; intros [= <-]; by eexists.
Qed.

(** Nothing that arrives once the signals are blocked is lost on the way to the loop: the
    server that serves is the one that is sent the same signals when it has started. *)
Theorem server_boot argv0 strerror pid es es' s
  (Hb : boot_run argv0 strerror pid es = Serving s) :
  run (arrivals es ++ es') (server_start pid) = run es' s.
Proof.
  assert (forall es b s, as_server pid (fold_left (boot_step argv0 strerror pid) es b) = Some s ->
    exists s0, as_server pid b = Some s0 /\ run (arrivals es ++ es') s0 = run es' s) as H.
  { clear. induction es as [|e es IH]; intros b s H; [by exists s|]. apply IH in H as (s1 & H & Hr).
    apply boot_step_server in H as (s0 & H0 & ->). exists s0. split; [done|]. by destruct e. }
  destruct (H es Unblocked s) as (s0 & [= <-] & Hr); [|done]. unfold boot_run in Hb. by rewrite Hb.
Qed.

Lemma server_boot_witness :
  run [Sent ADD 5; Sent GET 100; Sent ADD 6; Wake ADD] (server_start 42) =
  run [Wake ADD] (Server 0 (Some 5) (Some 100) ("Server pid: 42" +:+ nl)).
Proof.
  exact (server_boot "sigcalc" "" 42
    [Proceeds true; Arrives ADD 5; Proceeds true; Arrives GET 100; Proceeds true; Arrives ADD 6; Proceeds true] [Wake ADD] _ eq_refl).
Defined.

(** A number that arrives too early kills the server. *)
Example too_early argv0 strerror pid : boot_run argv0 strerror pid [Arrives ADD 5; Proceeds true] = Killed ADD.
Proof. reflexivity. Qed.
