(* ===== verification/Signals.v ===== *)
(** [ex06/signals]: three ways to wait for [SIGINT]. [await.c] waits with [pause],
    [suspend.c] blocks the signal and waits with [sigsuspend], [syncsig.c] blocks it and
    fetches it with [sigwaitinfo]. *)

From S2P Require Import Prelude.
From S2P Require Import CLib.

Open Scope string_scope.
Open Scope list_scope.
Open Scope Z_scope.

(** Where the loop is: in [pause] or [sigsuspend], before the test, in [sleep], before
    [sig_received = 0]. *)
Inductive pc := Pause | Check | Sleep | Clear.

(** The loop; [sig_received]; whether the signal is pending; how often the handler has run
    and how often the signal has been reported. *)
Record state := State { at_ : pc; sig_received : bool; pending : bool; handled : nat; reported : nat }.

Definition start : state := State Pause false false 0 0.

(** [SIGINT] is sent, or the program goes on; [None] is a program that waits. *)
Inductive event := Sigint | Tick.

(** The body of the loop behind the wait, the same in both programs. *)
Definition loop_step (s : state) : option state :=
  match at_ s with
  | Pause => None
  | Check => Some (State Sleep (sig_received s) (pending s) (handled s) (reported s + b2n (sig_received s)))
  | Sleep => Some (State Clear (sig_received s) (pending s) (handled s) (reported s))
  | Clear => Some (State Pause false (pending s) (handled s) (reported s))
  end.

(** [await.c]: the handler runs whenever the signal arrives; it ends [pause] and [sleep]. *)
Definition await_step (e : event) (s : state) : option state :=
  match e with
  | Sigint =>
      Some (State (match at_ s with Pause => Check | Sleep => Clear | p => p end) true (pending s)
              (S (handled s)) (reported s))
  | Tick => loop_step s
  end.

Section suspend.
(** Whether the program is started with the signal blocked: [sig_oldset] has it then. *)
Context (inherited : bool).

(** [suspend.c]: the handler runs inside [sigsuspend] only. *)
Definition suspend_step (e : event) (s : state) : option state :=
  match e with
  | Sigint =>
      Some match at_ s with
           | Pause => if inherited || pending s then State Pause (sig_received s) true (handled s) (reported s)
                      else State Check true (pending s) (S (handled s)) (reported s)
           | p => State p (sig_received s) true (handled s) (reported s)
           end
  | Tick =>
      match at_ s with
      | Pause =>
          if pending s && negb inherited then Some (State Check true false (S (handled s)) (reported s)) else None
      | _ => loop_step s
      end
  end.
End suspend.

(** The programs up to their loops: the calls that are done, and whether the signal is
    pending; in the loop; or ended, with a message, or by the signal. *)
Inductive boot := Boot (calls : nat) (pending : bool) | Up (s : state) | Failed (message : string) | Killed.

(** [SIGINT] is sent, or the program makes its next call, which succeeds or fails. *)
Inductive boot_event := Arrives | Proceeds (ok : bool).

Section boot.
Context (argv0 strerror : string).

(** [sigaction] in [await.c]. *)
Definition await_boot (b : boot) (e : boot_event) : boot :=
  match b, e with
  | Boot _ _, Arrives => Killed
  | Boot _ _, Proceeds ok => if ok then Up start else Failed (error_line argv0 "sigaction(SIGINT)" (Some strerror))
  | _, _ => b
  end.

(** [sigprocmask] and [sigaction] in [suspend.c]. *)
Definition suspend_boot (b : boot) (e : boot_event) : boot :=
  match b, e with
  | Boot 0 _, Arrives => Killed
  | Boot 0 p, Proceeds ok => if ok then Boot 1 p else Failed (error_line argv0 "sigprocmask" (Some strerror))
  | Boot n _, Arrives => Boot n true
  | Boot _ p, Proceeds ok =>
      if ok then Up (State Pause false p 0 0) else Failed (error_line argv0 "sigaction(SIGINT)" (Some strerror))
  | _, _ => b
  end.
End boot.

(** The lines of their logs. *)
Definition start_line (pid : Z) : string := "START " +:+ dec pid.
Definition received_line : string := "SIGINT received".

Fixpoint run (step : event -> state -> option state) (es : list event) (s : state) : option state :=
  match es with [] => Some s | e :: es => s' ← step e s; run step es s' end.

(* ------------------------------------------------------------------ *)
(** ** [syncsig.c] *)

(** What [sigwaitinfo] delivers. *)
Inductive si_code := SI_USER | SI_QUEUE | SI_KERNEL | SI_OTHER.
Record siginfo := Siginfo { code : si_code; si_pid : Z; si_uid : Z; si_int : Z }.

(** The lines of the log. *)
Inductive line := Received | Kill (pid uid : Z) | Sigqueue (pid uid value : Z) | Kernel | OtherSource.

Definition describe (i : siginfo) : line :=
  match code i with
  | SI_USER => Kill (si_pid i) (si_uid i)
  | SI_QUEUE => Sigqueue (si_pid i) (si_uid i) (u32 (si_int i))
  | SI_KERNEL => Kernel
  | SI_OTHER => OtherSource
  end.

(** Their text. *)
Definition line_text (l : line) : string :=
  match l with
  | Received => received_line
  | Kill pid uid => "kill: pid=" +:+ dec pid +:+ " uid=" +:+ dec uid
  | Sigqueue pid uid value =>
      "sigqueue: pid=" +:+ dec pid +:+ " uid=" +:+ dec uid +:+ " value=0x" +:+ hex_short 7 value
  | Kernel => "kernel"
  | OtherSource => "other source"
  end.

(** The pending signal, the variable [siginfo], and the log. *)
Record sync := Sync { waiting : option siginfo; info : siginfo; log : list line }.

(** [SIGINT] is sent: a standard signal that is already pending is not queued. The program
    goes on with it. [sigwaitinfo] is interrupted, as a stop and a continuation of the
    process do it: its result is ignored. *)
Inductive sync_event := Sent (i : siginfo) | Fetch | Interrupted.

Definition sync_step (e : sync_event) (s : sync) : option sync :=
  match e with
  | Sent i => Some (Sync (match waiting s with Some j => Some j | None => Some i end) (info s) (log s))
  | Fetch => i ← waiting s; Some (Sync None i (log s ++ [Received; describe i]))
  | Interrupted =>
      match waiting s with
      | None => Some (Sync None (info s) (log s ++ [Received; describe (info s)]))
      | Some _ => None
      end
  end.

Fixpoint sync_run (es : list sync_event) (s : sync) : option sync :=
  match es with [] => Some s | e :: es => s' ← sync_step e s; sync_run es s' end.

(* ------------------------------------------------------------------ *)
(** ** Properties *)

Definition at_check (s : state) : nat := match at_ s with Check => 1 | _ => 0 end.

(** Each run of the handler of [suspend.c] is followed by its own report. *)
Record inv (s : state) : Prop := {
  inv_count : handled s = (reported s + at_check s)%nat;
  inv_flag : sig_received s = match at_ s with Pause => false | _ => true end
}.

Lemma suspend_inv b e s s' : inv s -> suspend_step b e s = Some s' -> inv s'.
Proof.
  intros [Hc Hf] H. destruct s as [p f q h r]. unfold at_check in *. simpl in *. subst f.
  destruct e; simpl in H.
  - destruct p, b, q; injection H as <-; split; unfold at_check; simpl; done || lia.
  - destruct p, q, b; simpl in H; try done; injection H as <-; split; unfold at_check; simpl; done || lia.
Qed.

Lemma suspend_run_inv b es : forall s s', inv s -> run (suspend_step b) es s = Some s' -> inv s'.
Proof.
  induction es as [|e es IH]; intros s s' Hi H; simpl in H; [by injection H as <-|].
  destruct (suspend_step b e s) as [s1|] eqn:E; [|done]. eapply IH; [by eapply suspend_inv|exact H].
Qed.

(** How many steps of the program it takes until a pending signal is handled. *)
Definition distance (s : state) : nat :=
  match at_ s with Check => 4 | Sleep => 3 | Clear => 2 | Pause => 1 end.

Definition ticks (es : list event) : nat := count_if (fun e => match e with Tick => true | Sigint => false end) es.

Lemma handled_mono b es : forall s s', run (suspend_step b) es s = Some s' -> (handled s <= handled s')%nat.
Proof.
  induction es as [|e es IH]; intros s s' H; simpl in H; [injection H as <-; lia|].
  destruct (suspend_step b e s) as [s1|] eqn:E; [|done]. specialize (IH _ _ H).
  destruct s as [p f q h r]. destruct e, p, q, b; simpl in E; try done; injection E as <-; simpl in *; lia.
Qed.

Lemma pending_handled es : forall s s',
  pending s = true -> run (suspend_step false) es s = Some s' ->
  (handled s <= handled s')%nat /\ (ticks es < distance s \/ handled s < handled s')%nat.
Proof.
  induction es as [|e es IH]; intros [p f q h r] s' Hp H; simpl in Hp; subst q; unfold ticks in *; cbn [run count_if] in *.
  - injection H as <-. split; [lia|left]. unfold distance. destruct p; simpl; lia.
  - destruct (suspend_step false e (State p f true h r)) as [s1|] eqn:E; [|done]. simpl in H.
    destruct e, p; simpl in E; injection E as <-;
      try (pose proof (fun Hq => IH _ s' Hq H) as H1; specialize (H1 eq_refl) as [H1 H2]; unfold distance in *; simpl in *; lia).
    apply handled_mono in H. simpl in *. lia.
Qed.

(** Started with the signal blocked, [suspend.c] never handles one. *)
Lemma inherited_mask es s : run (suspend_step true) es start = Some s -> reported s = 0%nat /\ at_ s = Pause.
Proof.
  assert (forall es s s', at_ s = Pause -> run (suspend_step true) es s = Some s' -> reported s' = reported s /\ at_ s' = Pause) as H.
  { clear. induction es as [|e es IH]; intros s s' Hp H; simpl in H; [by injection H as <-|].
    destruct s as [p f q h r]. simpl in Hp. subst p.
    destruct e; simpl in H; [|by rewrite andb_false_r in H]. exact (IH (State Pause f true h r) s' eq_refl H). }
  intros Hr. by destruct (H es start s eq_refl Hr).
Qed.

(** A signal that is sent is either handled at once, kept until it can be, or the same as the
    one that is kept. *)
Lemma suspend_sent s :
  exists s1, suspend_step false Sigint s = Some s1 /\
    if pending s then s1 = s else (handled s1 + b2n (pending s1))%nat = S (handled s).
Proof.
  destruct s as [p f [] h r]; destruct p; simpl; eexists; (split; [reflexivity|]); simpl; done || lia.
Qed.

(** C34: in [suspend.c], started with [SIGINT] unblocked, a signal is lost only in one that
    is pending already: any other one is handled at once or becomes pending, and a pending
    one is handled in its turn when the program has made four more steps; every run of the
    handler is reported once, with at most the last one still to come. Started with the
    signal blocked the program handles and reports none. *)
Theorem suspend_reports es s :
  (run (suspend_step false) es start = Some s ->
   (handled s = (reported s + at_check s)%nat /\ (at_check s <= 1)%nat) /\
   (exists s1, suspend_step false Sigint s = Some s1 /\
      if pending s then s1 = s else (handled s1 + b2n (pending s1))%nat = S (handled s)) /\
   (pending s = true -> forall es' s', run (suspend_step false) es' s = Some s' ->
      (4 <= ticks es')%nat -> (handled s < handled s')%nat)) /\
  (run (suspend_step true) es start = Some s -> handled s = 0%nat /\ reported s = 0%nat).
Proof.
  assert (inv start) as H0 by (by split). split; intros Hrun.
  - pose proof (suspend_run_inv false es start s H0 Hrun) as [Hc Hf]. split_and!; [done| |apply suspend_sent|].
    + unfold at_check. destruct (at_ s); lia.
    + intros Hp es' s' Hrun' Ht. destruct (pending_handled es' s s' Hp Hrun') as [_ [H|H]]; [|done].
      unfold distance in H. destruct (at_ s); lia.
  - pose proof (suspend_run_inv true es start s H0 Hrun) as [Hc _]. destruct (inherited_mask es s Hrun) as [Hr Hp].
    unfold at_check in Hc. rewrite Hp, Hr in Hc. done.
Qed.

(** Two signals, the second of which is sent while the first is being dealt with. *)
Definition demo1 : state := State Sleep true true 1 1.

Theorem suspend_reports_witness :
  run (suspend_step false) [Sigint; Tick; Sigint] start = Some demo1 /\
  run (suspend_step false) [Tick; Tick; Tick; Tick] demo1 = Some (State Sleep true false 2 2) /\
  (handled demo1 < 2)%nat /\
  suspend_step false Sigint demo1 = Some demo1.
Proof.
  assert (run (suspend_step false) [Sigint; Tick; Sigint] start = Some demo1) as H1 by reflexivity.
  assert (run (suspend_step false) [Tick; Tick; Tick; Tick] demo1 = Some (State Sleep true false 2 2)) as H2
    by reflexivity.
  destruct (proj1 (suspend_reports _ _) H1) as (_ & (s1 & Hs & E) & Hh).
  split; [exact H1|]. split; [exact H2|]. split.
  - refine (Hh eq_refl _ _ H2 _). vm_compute. lia.
  - rewrite Hs, E. reflexivity.
Defined.

(** In [await.c] a signal that arrives in [sleep], or before the flag is cleared, is never
    reported: the program waits again and knows nothing of it. *)
Example await_loses :
  run await_step [Sigint; Tick; Sigint; Tick] start = Some (State Pause false false 2 1).
Proof. reflexivity. Qed.

(** A flag that is set before [pause] does not end it: the report waits for the next
    signal. *)
Example await_late :
  run await_step [Sigint; Tick; Tick; Tick; Sigint; Tick; Tick; Tick; Tick] start = None.
Proof. reflexivity. Qed.

(** An interrupted [sigwaitinfo] is logged as a signal, with the data of the last one. *)
Example interrupted_wait (i j : siginfo) :
  log <$> sync_run [Sent i; Fetch; Interrupted] (Sync None j []) = Some [Received; describe i; Received; describe i].
Proof. reflexivity. Qed.

(** Signals sent before the program fetches them count as one, and the sender of the first
    is reported. *)
Example merged (i j k : siginfo) :
  log <$> sync_run [Sent i; Sent j; Fetch] (Sync None k []) = Some [Received; describe i].
Proof. reflexivity. Qed.

(** A negative value is shown as its 32 bits. *)
Example value_text :
  line_text (describe (Siginfo SI_QUEUE 7 1000 (-1))) = "sigqueue: pid=7 uid=1000 value=0xffffffff" /\
  line_text (describe (Siginfo SI_QUEUE 7 1000 26)) = "sigqueue: pid=7 uid=1000 value=0x1a".
Proof. split; reflexivity. Qed.

(** A signal that arrives while [suspend.c] starts is either deadly or dealt with first in
    the loop, as one that arrives there. *)
Lemma suspend_boot_up argv0 strerror es s :
  fold_left (suspend_boot argv0 strerror) es (Boot 0 false) = Up s ->
  s = start \/ suspend_step false Tick s = suspend_step false Sigint start.
Proof.
  assert (forall es b, (forall n p, b = Boot n p -> n = 0%nat -> p = false) ->
    (forall s, b = Up s -> s = start \/ suspend_step false Tick s = suspend_step false Sigint start) ->
    fold_left (suspend_boot argv0 strerror) es b = Up s ->
    s = start \/ suspend_step false Tick s = suspend_step false Sigint start) as H; [|apply H; naive_solver].
  clear. induction es as [|e es IH]; intros b Hb Hu H; [by apply Hu|].
  apply (IH (suspend_boot argv0 strerror b e)); [| |exact H]; clear IH H.
  - destruct b as [[|n] p|s'|m|], e as [|[]]; simpl; intros n' p' [= <- <-]; try done.
  - destruct b as [[|n] p|s'|m|], e as [|[]]; simpl; intros s1 [= <-]; auto. destruct p; [by right|by left].
Qed.

(** [await.c] is open to the signal until the handler is set. *)
Example await_killed argv0 strerror : fold_left (await_boot argv0 strerror) [Arrives; Proceeds true] (Boot 0 false) = Killed.
Proof. reflexivity. Qed.
