(* ===== verification/Alarm.v ===== *)
(** [ex06/alarm/alarm.c], [ex06/alarm/troll.c], [ex06/abort/abort.c]: a program that starts
    another with an alarm, one that escapes it in three ways, and one that cannot escape
    [abort]. *)

From S2P Require Import Prelude.
From S2P Require Import CLib.
From S2P Require Import Getopt.
From Stdlib Require Import Ascii.

Open Scope string_scope.
Open Scope list_scope.
Open Scope Z_scope.

(* ------------------------------------------------------------------ *)
(** ** [alarm.c] *)

(** The process becomes another program with an alarm of so many seconds (0 is none), or
    it returns. *)
Inductive alarm_end := Exec (seconds : Z) (path : string) (argv : list string) | Returns (status : Z).

(** [main] on the words behind [argv[0]]; [execv] fails or does not return. *)
Definition alarm_main (execv : string -> bool) (args : list string) : alarm_end :=
  match args with
  | seconds :: path :: rest =>
      let s := st_value (strtol seconds 10) in
      if execv path then Exec (u32 s) path (path :: rest) else Returns EXIT_SUCCESS
  | _ => Returns EXIT_FAILURE
  end.

(** A number of seconds that fits is the alarm; one that is a multiple of 2^32, or no
    number at all, leaves the program without one. *)
Lemma alarm_set (execv : string -> bool) z path rest :
  0 <= z < 2 ^ 32 -> execv path = true ->
  alarm_main execv (dec z :: path :: rest) = Exec z path (path :: rest).
Proof.
  intros Hz Hx. unfold alarm_main. rewrite strtol_dec by (unfold LONG_MIN, LONG_MAX; lia). simpl.
  by rewrite Hx, u32_small.
Qed.

Example no_alarm execv :
  execv "prog" = true ->
  alarm_main execv ["4294967296"; "prog"] = Exec 0 "prog" ["prog"] /\
  alarm_main execv ["soon"; "prog"] = Exec 0 "prog" ["prog"].
Proof. intros H. unfold alarm_main. by rewrite H. Qed.

(* ------------------------------------------------------------------ *)
(** ** [troll.c] *)

Definition troll_optstring : string := "abs".

(** What the program does that can be seen. *)
Inductive action :=
| Remaining (seconds : Z)        (* the line printed *)
| Sleeps (seconds : Z)           (* [sleep] *)
| Blocks (signal : Z)            (* [sigprocmask] *)
| Waits                          (* [pause], with no signal that is not blocked: for ever *)
| Handles (signal : Z)           (* [sigaction] *)
| Echo (line : string)
| Caught (message : string)      (* the handler, on the standard error *)
| Error (message : string)
| Exits (status : Z).

Definition SIGALRM : Z := 14.

(** The handler that [part_s] sets. *)
Definition sigalrm_ignore : action := Caught ("SIGALRM caught" +:+ nl).

Definition part_b : list action := [Blocks SIGALRM; Waits].

(** What happens while [part_s] reads: a line arrives, or the alarm goes off. *)
Inductive input := Line (l : string) | Ring.

(** The alarms before the next line: the handler runs, and [read] starts again. *)
Fixpoint rings (ins : list input) : list action * list input :=
  match ins with
  | Ring :: ins => let '(out, ins) := rings ins in (sigalrm_ignore :: out, ins)
  | _ => ([], ins)
  end.

(** The loop of [part_s] over what is still to come; [errs k] is [errno] behind the
    [k]-th round, and at the end of the input [getline] fails without setting it. [None]
    is a loop that has not ended within [fuel] rounds. *)
Fixpoint echo_loop (fuel : nat) (k : nat) (errs : nat -> Z) (ins : list input) : option (list action * list input * nat) :=
  match fuel with
  | O => None
  | S fuel =>
      let '(caught, ins) := rings ins in
      let '(out, ins) := match ins with Line l :: ins => (caught ++ [Echo l], ins) | _ => (caught, ins) end in
      if errs k =? 0 then
        '(more, ins, k) ← echo_loop fuel (S k) errs ins; Some (out ++ more, ins, k)
      else Some (out, ins, S k)
  end.

(** [part_s]: whether it returns, or the program exits. *)
Definition part_s (fuel : nat) (k : nat) (errs : nat -> Z) (argv0 strerror : string) (sigaction : bool) (ins : list input) :
    option (list action * list input * nat * bool) :=
  if sigaction then
    '(out, ins, k) ← echo_loop fuel k errs ins; Some (Handles SIGALRM :: out, ins, k, true)
  else
    Some ([Error (error_line argv0 "cannot setup handler for ABRT" (Some strerror)); Exits EXIT_FAILURE], ins, k, false).

Section troll.
Context (errs : nat -> Z) (argv0 strerror : string) (sigaction : bool).

(** The loop over the options: [left] is what is left of the alarm. *)
Fixpoint troll_loop (fuel : nat) (k : nat) (left : Z) (ins : list input) (os : list opt) : option (list action) :=
  match os with
  | [] => Some [Exits EXIT_SUCCESS]
  | (c, _) :: os =>
      if bool_decide (c = "a"%char) then
        more ← troll_loop fuel k 0 ins os;
        Some (Remaining (s32 left) :: Sleeps (u32 (10 * left)) :: more)
      else if bool_decide (c = "b"%char) then Some part_b
      else if bool_decide (c = "s"%char) then
        match part_s fuel k errs argv0 strerror sigaction ins with
        | Some (out, ins, k, true) => more ← troll_loop fuel k left ins os; Some (out ++ more)
        | Some (out, _, _, false) => Some out
        | None => None
        end
      else Some [Exits EXIT_FAILURE]
  end.

Definition troll_main (fuel : nat) (left : Z) (ins : list input) (args : list string) : option (list action) :=
  troll_loop fuel 0 left ins (getopt troll_optstring None None args).1.
End troll.

(** Without an error [part_s] never ends, whatever the input: the end of the file does not
    set [errno], and an alarm does not interrupt the loop. *)
Lemma echo_loop_spins fuel : forall k errs ins, (forall j, errs j = 0) -> echo_loop fuel k errs ins = None.
Proof.
  induction fuel as [|fuel IH]; intros k errs ins He; [done|]. simpl. destruct (rings ins) as [c ins'].
  rewrite He. simpl. destruct ins' as [|[]]; by rewrite IH.
Qed.

Theorem troll_spins fuel errs argv0 strerror left ins args :
  (forall j, errs j = 0) -> troll_main errs argv0 strerror true fuel left ins ("-s" :: args) = None.
Proof.
  intros He. unfold troll_main.
  assert (exists os rest, getopt troll_optstring None None ("-s" :: args) = (("s"%char, None) :: os, rest)) as (os & rest & ->).
  { cbn [getopt]. change (word troll_optstring None "-s") with (Some ([("s"%char, @None string)], @None ascii)).
    simpl. destruct (getopt troll_optstring None None args) as [os rest]. by exists os, rest. }
  cbn [fst troll_loop]. pick_option. unfold part_s. by rewrite echo_loop_spins.
Qed.

Lemma echo_loop_round fuel k errs l ins :
  errs k = 0 ->
  echo_loop (S fuel) k errs (Line l :: ins) = '(more, ins, k) ← echo_loop fuel (S k) errs ins; Some ([Echo l] ++ more, ins, k).
Proof. intros He. cbn [echo_loop rings]. by rewrite He. Qed.

(** It prints each line once before that: with an error behind the last round it has echoed
    the lines up to there. *)
Lemma echo_loop_echoes lines : forall n k errs,
  (n < length lines)%nat -> (forall j, (j < k + n)%nat -> errs j = 0) -> errs (k + n)%nat <> 0 ->
  echo_loop (S n) k errs (map Line lines) = Some (map Echo (take (S n) lines), map Line (drop (S n) lines), S (k + n)).
Proof.
  induction lines as [|l lines IH]; intros n k errs Hn Hz He; simpl in Hn; [lia|].
  destruct n as [|n].
  - rewrite Nat.add_0_r in *. cbn [echo_loop map rings]. by rewrite (proj2 (Z.eqb_neq _ _) He).
  - cbn [map]. rewrite echo_loop_round by (apply Hz; lia). rewrite (IH n (S k) errs); [|lia| |].
    + simpl. by rewrite <- plus_n_Sm.
    + intros j Hj. apply Hz. lia.
    + by replace (S k + n)%nat with (k + S n)%nat by lia.
Qed.

(** An alarm between two lines. *)
Example alarm_between :
  troll_main (fun k => if (k =? 1)%nat then 4 else 0) "troll" "" true 2 7 [Line "a"; Ring; Line "b"; Line "c"] ["-s"] =
  Some [Handles SIGALRM; Echo "a"; sigalrm_ignore; Echo "b"; Exits EXIT_SUCCESS].
Proof. reflexivity. Qed.

(** [-a] twice: the second one finds no alarm any more. *)
Example twice : troll_main (fun _ => 0) "troll" "" true 0 7 [] ["-aa"] =
  Some [Remaining 7; Sleeps 70; Remaining 0; Sleeps 0; Exits EXIT_SUCCESS].
Proof. reflexivity. Qed.

(** Nothing behind [-b] is reached. *)
Example waits_for_ever : troll_main (fun _ => 0) "troll" "" true 0 7 [] ["-bx"] = Some [Blocks SIGALRM; Waits].
Proof. reflexivity. Qed.

(* ------------------------------------------------------------------ *)
(** ** [abort.c] *)

Inductive ending := Exited (status : Z) | Killed (signal : Z).
Definition SIGABRT : Z := 6.

Definition caught : string := "SIGABRT caught, ignoring" +:+ nl.

(** [main]: what appears on the standard output and on the standard error, and how the
    process ends. [raise] and [abort] run the handler, but [abort] then raises the signal
    again with its default action; what is still in the buffer of [stdout], which is
    line-buffered on a terminal only, is lost with the process. *)
Definition abort_main (sigaction tty : bool) : string * string * ending :=
  if sigaction then
    let text := "1: raise(SIGABRT)" +:+ nl +:+ "2: abort()" +:+ nl in
    (if tty then text else "", caught +:+ caught, Killed SIGABRT)
  else ("", "", Exited EXIT_FAILURE).
