(* ===== verification/Seccomp.v ===== *)
(** [ex06/seccomp/seccomp.c] and [ex10/fsfence/fsfence.c]: programs that start another one
    under a filter of system calls. They differ in the calls that are forbidden. *)

From S2P Require Import Prelude.
From S2P Require Import CLib.
From Stdlib Require Import Ascii.

Open Scope string_scope.
Open Scope list_scope.
Open Scope Z_scope.

(** A system call that fails with [EPERM] under the filter. *)
Definition rule := string.

Definition seccomp_rules : list rule :=
  ["chmod"; "unlink"; "unlinkat"; "rmdir"; "truncate"; "bind"; "connect"; "sendto"; "socket"].
Definition fsfence_rules : list rule := ["chmod"; "unlink"; "unlinkat"].

(** The filter context: its rules, and whether it is in force for the process; how often
    contexts have been created and released. *)
Record state := State { ctx : list rule; in_force : option (list rule); inits : nat; releases : nat }.

Definition start : state := State [] None 0 0.

(** What the library answers: [seccomp_init], [seccomp_rule_add] for each rule,
    [seccomp_load]. *)
Record answers := Answers { init : bool; add : rule -> bool; load : bool }.

Definition seccomp_init (a : answers) (s : state) : option state :=
  if init a then Some (State [] (in_force s) (S (inits s)) (releases s)) else None.
Definition seccomp_release (s : state) : state := State [] (in_force s) (inits s) (S (releases s)).

(** The macro [SECCOMP_ADD] for each rule: the first failure jumps to the error label. *)
Fixpoint add_rules (a : answers) (rules : list rule) (s : state) : state * bool :=
  match rules with
  | [] => (s, true)
  | r :: rules =>
      if add a r then add_rules a rules (State (ctx s ++ [r]) (in_force s) (inits s) (releases s)) else (s, false)
  end.

(** [setup_seccomp]: it returns, or the program exits with a failure and this message (the
    text of [errno] is left out). *)
Definition setup_seccomp (rules : list rule) (a : answers) (s : state) : state * option string :=
  match seccomp_init a s with
  | None => (s, Some "seccomp_init")
  | Some s =>
      let '(s, added) := add_rules a rules s in
      if added && load a then (seccomp_release (State (ctx s) (Some (ctx s)) (inits s) (releases s)), None)
      else (seccomp_release s, Some "failed to set up seccomp")
  end.

Definition seccomp_setup : answers -> state -> state * option string := setup_seccomp seccomp_rules.
Definition fsfence_setup : answers -> state -> state * option string := setup_seccomp fsfence_rules.

Definition usage (argv0 : string) : string := "usage: " +:+ basename argv0 +:+ " PROGRAM [PARAMETERS]" +:+ nl.

(** How the program goes on: it becomes another one, under this filter, or it ends. *)
Inductive ending := Exec (filter : option (list rule)) (argv : list string) | Exited (status : Z) (err : string).

(** [main]; [execvp] returns only when it fails. *)
Definition main (rules : list rule) (a : answers) (execvp : string -> bool) (argv0 : string) (args : list string) :
    state * ending :=
  match args with
  | [] => (start, Exited EXIT_FAILURE (usage argv0))
  | prog :: _ =>
      match setup_seccomp rules a start with
      | (s, None) =>
          if execvp prog then (s, Exec (in_force s) args) else (s, Exited EXIT_FAILURE ("failed to exec " +:+ prog))
      | (s, Some err) => (s, Exited EXIT_FAILURE err)
      end
  end.

Definition seccomp_main : answers -> (string -> bool) -> string -> list string -> state * ending := main seccomp_rules.
Definition fsfence_main : answers -> (string -> bool) -> string -> list string -> state * ending := main fsfence_rules.

(* ------------------------------------------------------------------ *)
(** ** Properties *)

Lemma add_rules_result a rules : forall s,
  let '(s', ok) := add_rules a rules s in
  in_force s' = in_force s /\ inits s' = inits s /\ releases s' = releases s /\
  ok = forallb (add a) rules /\ (ok = true -> ctx s' = ctx s ++ rules).
Proof.
  induction rules as [|r rules IH]; intros s; simpl; [by rewrite app_nil_r|].
  destruct (add a r); simpl; [|done].
  specialize (IH (State (ctx s ++ [r]) (in_force s) (inits s) (releases s))).
  destruct (add_rules a rules _) as [s' ok]. simpl in IH. destruct IH as (-> & -> & -> & H1 & H2).
  split_and!; try done. intros E. by rewrite H2, <- app_assoc.
Qed.

(** The other program only runs under the complete filter, whatever fails before; and a
    context that has been created is released once on every path. *)
Theorem fence_complete rules a execvp argv0 args :
  let '(s, e) := main rules a execvp argv0 args in
  (forall f argv, e = Exec f argv -> f = Some rules /\ argv = args) /\
  releases s = inits s /\
  (forall st err, e = Exited st err -> st = EXIT_FAILURE) /\
  ((exists argv, e = Exec (Some rules) argv) <->
   args <> [] /\ init a = true /\ forallb (add a) rules = true /\ load a = true /\ execvp (hd "" args) = true).
Proof.
  unfold main. destruct args as [|prog args]; [by split_and!; [|done|intros ? ? [= <- _]|naive_solver]|].
  unfold setup_seccomp, seccomp_init. destruct (init a) eqn:Ei; [|by split_and!; [|done|intros ? ? [= <- _]|naive_solver]].
  pose proof (add_rules_result a rules (State [] (in_force start) (S (inits start)) (releases start))) as H.
  destruct (add_rules a rules _) as [s ok]. simpl in H. destruct H as (Hf & Hi & Hr & -> & Hc).
  destruct (forallb (add a) rules) eqn:Ea; simpl.
  - destruct (load a) eqn:El; simpl.
    + rewrite Hc by done. destruct (execvp prog) eqn:Ex; simpl; rewrite ?Hi, ?Hr; split_and!; try done.
      * by intros f argv [= <- <-].
      * split; [done|]. intros _. by eexists.
      * by intros st err [= <- _].
      * split; [by intros [argv ?]|naive_solver].
    + rewrite Hi, Hr. split_and!; try done; [by intros st err [= <- _]|]. split; [by intros [argv ?]|naive_solver].
  - rewrite Hi, Hr. split_and!; try done; [by intros st err [= <- _]|]. split; [by intros [argv ?]|naive_solver].
Qed.

Example fence_usage : main fsfence_rules (Answers true (fun _ => true) true) (fun _ => true) "./bin/fence" [] =
  (start, Exited EXIT_FAILURE ("usage: fence PROGRAM [PARAMETERS]" +:+ nl)).
Proof. reflexivity. Qed.

(** [fsfence.c] leaves [rmdir] and [truncate] open, which its companion forbids. *)
Example fsfence_weaker : "rmdir" ∈ seccomp_rules /\ ~ "rmdir" ∈ fsfence_rules.
Proof. unfold fsfence_rules, seccomp_rules. split; set_solver. Qed.
