(* ===== verification/Syscount.v ===== *)
(** [ex06/syscount/syscount.c]: counting the system calls of a child with
    [ptrace]. What the kernel reports of the child is a list of events. *)

From S2P Require Import Prelude.
From S2P Require Import CLib.

Open Scope string_scope.
Open Scope list_scope.
Open Scope Z_scope.

(** A status from [waitpid]. *)
Inductive wait_status :=
| WaitFails
| Exited (status : Z)
| Killed (signal : Z)                      (* not looked at by the program *)
| Stopped (signal : Z).

Definition SIGTRAP : Z := 5.
Definition SIGSTOP : Z := 19.

(** [WIFSTOPPED(wstatus) && WSTOPSIG(wstatus) == SIGTRAP] *)
Definition is_trap (w : wait_status) : bool :=
  match w with Stopped signal => signal =? SIGTRAP | _ => false end.

(** [struct user_regs_struct], the two registers the program reads. *)
Record regs := Regs { orig_rax : Z; rax : Z }.

(** One round of the loop as the kernel answers it: [waitpid], [PTRACE_GETREGS]
    (when it is asked for) and the final [PTRACE_SYSCALL]. *)
Record answer := Answer { waited : wait_status; getregs : option regs; resumed : bool }.

(** The lines printed, without the process id. *)
Inductive line :=
| ChildExited (status : Z)
| Enters (nr : Z)
| Leaves (result : Z)
| Error (msg : nat).        (* 0 waitpid, 1 registers, 2 invalid call, 3 resume *)

(** [SYS_clone], [SYS_fork], [SYS_vfork] on x86-64. *)
Definition forbidden (nr : Z) : bool := (nr =? 56) || (nr =? 57) || (nr =? 58).

(** The two static variables of [count_syscalls] and its counter. *)
Record counting := Counting { syscall_enter : bool; last_regs : regs; counter : Z; printed : list line }.

Definition print (l : line) (c : counting) : counting :=
  Counting (syscall_enter c) (last_regs c) (counter c) (printed c ++ [l]).

(** The body of the [SIGTRAP] branch: whether the function returns, and the new
    state. When the registers cannot be read the old ones are used. *)
Definition at_trap (g : option regs) (c : counting) : bool * counting :=
  let c := match g with
           | Some r => Counting (syscall_enter c) r (counter c) (printed c)
           | None => print (Error 1) c
           end in
  if syscall_enter c then
    if forbidden (orig_rax (last_regs c)) then (true, print (Error 2) c)
    else
      let c := print (Enters (orig_rax (last_regs c))) c in
      (false, Counting false (last_regs c) (counter c + 1)%C (printed c))
  else
    let c := print (Leaves (rax (last_regs c))) c in
    (false, Counting true (last_regs c) (counter c) (printed c)).

(** [count_syscalls]; [None] when the child reports nothing more. *)
Fixpoint count_syscalls (answers : list answer) (c : counting) : option counting :=
  match answers with
  | [] => None
  | a :: answers =>
      match waited a with
      | WaitFails => Some (print (Error 0) c)
      | Exited status => Some (print (ChildExited status) c)
      | w =>
          let '(return_, c) :=
            if is_trap w then at_trap (getregs a) c else (false, c) in
          if return_ then Some c
          else if resumed a then count_syscalls answers c
          else Some (print (Error 3) c)
      end
  end.

(** [run_tracer]: the first stop, the set-up, and the count; [inl] is an exit, with
    whether the child is killed before it; [None] inside is a child that never ends. *)
Definition run_tracer (first : wait_status) (set_options resume : bool) (answers : list answer) :
    (Z * bool) + option counting :=
  match first with
  | WaitFails => inl (EXIT_FAILURE, false)
  | Stopped _ =>
      if negb set_options then inl (EXIT_FAILURE, true)
      else if negb resume then inl (EXIT_FAILURE, true)
      else inr (count_syscalls answers (Counting true (Regs 0 0) 0 []))
  | _ => inl (EXIT_FAILURE, true)
  end.

(** The texts, with the name and the number of the tracer, and those of errors. *)
Definition usage (argv0 : string) : output := Stderr ("usage: " +:+ basename argv0 +:+ " PROGRAM [ARGS...]" +:+ nl).
Definition child_line (me child : Z) : output := Stdout (dec me +:+ ": child PID is " +:+ dec child +:+ nl).
Definition calls_line (calls : Z) : output :=
  Stdout ("child performed " +:+ dec calls +:+ " calls before it died" +:+ nl).

Definition line_text (argv0 : string) (me : Z) (strerror : string) (l : line) : output :=
  let says s := Stdout (dec me +:+ ": " +:+ s +:+ nl) in
  let warns s e := Stderr (error_line argv0 (dec me +:+ ": " +:+ s) e) in
  match l with
  | ChildExited status => says ("child exited with status " +:+ dec status)
  | Enters nr => says ("child enters syscall " +:+ dec (u64 nr))
  | Leaves result => says ("child leaves syscall with result 0x" +:+ hex_short 15 (u64 result))
  | Error msg =>
      match msg with
      | O => warns "waitpid failed" (Some strerror)
      | 1%nat => warns "cannot read registers" (Some strerror)
      | 2%nat => warns "child performed an invalid syscall" None
      | _ => warns "failed to resume child" None
      end
  end.

(** [run_tracee], by what [PTRACE_TRACEME], [raise] and [execvp] answer: the program that
    runs, or the status and what is reported about it, without the process id. *)
Inductive tracee :=
| Runs (path : string) (argv : list string)
| SetupFails (status : Z)
| StopFails (status : Z)
| ExecFails (status : Z) (name : option string).        (* [None] is a null pointer *)

Definition run_tracee (traceme raised : bool) (execvp : string -> list string -> bool)
    (path : string) (argv : list string) : tracee :=
  if negb traceme then SetupFails EXIT_FAILURE
  else if negb raised then StopFails EXIT_FAILURE
  else if execvp path argv then Runs path argv
  else ExecFails EXIT_FAILURE (argv !! 1%nat).

(** What each process does after [main] has begun with the arguments after [argv[0]]. *)
Inductive process :=
| Usage (status : Z)
| ForkFails (status : Z)
| Child (t : tracee)
| ParentExits (status : Z) (killed : bool)
| ParentReports (status : Z) (calls : Z) (printed : list line)
| ParentWaits.

(** [main]; [fork] is [-1], 0 in the child, and the child's number in the parent. *)
Definition syscount_main (args : list string) (fork : Z) (traceme raised : bool)
    (execvp : string -> list string -> bool) (first : wait_status) (set_options resume : bool)
    (answers : list answer) : process :=
  match args with
  | [] => Usage EXIT_FAILURE
  | path :: _ =>
      if fork =? -1 then ForkFails EXIT_FAILURE
      else if fork =? 0 then Child (run_tracee traceme raised execvp path args)
      else match run_tracer first set_options resume answers with
           | inl (status, killed) => ParentExits status killed
           | inr (Some c) => ParentReports EXIT_SUCCESS (counter c) (printed c)
           | inr None => ParentWaits
           end
  end.

(* ------------------------------------------------------------------ *)
(** ** The count *)

(** An answer that keeps the loop going: the child stops, its registers are read,
    no call it enters is forbidden, and it is resumed. *)
Definition harmless (a : answer) : bool :=
  match waited a with
  | WaitFails | Exited _ => false
  | _ => resumed a && match getregs a with Some r => negb (forbidden (orig_rax r)) | None => false end
  end.

Definition traps (answers : list answer) : Z := Z.of_nat (count_if (fun a => is_trap (waited a)) answers).

(** The [SIGTRAP]s count as one call every other time, beginning with an entry. *)
Lemma count_harmless answers : forall c rest,
  Forall (fun a => harmless a = true) answers -> 0 <= counter c -> counter c + traps answers < 2 ^ 64 ->
  exists r out, count_syscalls (answers ++ rest) c =
    count_syscalls rest
      (Counting (xorb (syscall_enter c) (Z.odd (traps answers))) r
         (counter c + (traps answers + (if syscall_enter c then 1 else 0)) / 2) (printed c ++ out)) /\
    Z.of_nat (count_if (fun l => match l with Enters _ => true | _ => false end) out) =
      (traps answers + (if syscall_enter c then 1 else 0)) / 2.
Proof.
  induction answers as [|a answers IH]; intros c rest Hh H0 Hc.
  { exists (last_regs c), []. destruct c as [[] r n p]; simpl; by rewrite Z.add_0_r, app_nil_r. }
  apply Forall_cons in Hh as [Ha Hh]. cbn [app count_syscalls]. unfold harmless in Ha.
  assert (waited a <> WaitFails /\ (forall st, waited a <> Exited st) /\ resumed a = true /\
          exists r, getregs a = Some r /\ forbidden (orig_rax r) = false) as (Hw & He & Hres & r & Hg & Hf).
  { destruct (waited a); try done; apply andb_true_iff in Ha as [-> Ha]; destruct (getregs a) as [r|]; try done;
      apply negb_true_iff in Ha; split_and!; eauto. }
  assert (traps (a :: answers) = (if is_trap (waited a) then 1 else 0) + traps answers) as Ht.
  { unfold traps. cbn [count_if]. destruct (is_trap (waited a)); simpl b2n; lia. }
  assert (0 <= traps answers) as Htp by (unfold traps; lia).
  rewrite Ht in *. destruct (is_trap (waited a)) eqn:Htr.
  - set (c1 := snd (at_trap (getregs a) c)).
    assert (exists l, at_trap (getregs a) c = (false, c1) /\ syscall_enter c1 = negb (syscall_enter c) /\
              counter c1 = counter c + (if syscall_enter c then 1 else 0) /\ printed c1 = printed c ++ [l] /\
              (if syscall_enter c then exists nr, l = Enters nr else exists v, l = Leaves v))
      as (l & Hat & Hse & Hcn & Hpr & Hl).
    { subst c1. unfold at_trap. rewrite Hg. simpl. destruct c as [[] r0 k p]; simpl in *.
      - rewrite Hf. simpl. rewrite u64_small by lia. eauto 10.
      - rewrite Z.add_0_r. eauto 10. }
    replace (match waited a with WaitFails => _ | _ => _ end) with (count_syscalls (answers ++ rest) c1).
    2:{ destruct (waited a); try done. by rewrite Htr, Hat, Hres. }
    destruct (IH c1 rest Hh) as (r2 & out & -> & Hout); [rewrite Hcn; destruct (syscall_enter c); lia..|].
    exists r2, (l :: out). rewrite Hse, Hcn, Hpr, <- app_assoc in *.
    cbn [count_if]. split.
    + do 2 f_equal; [|destruct (syscall_enter c); simpl; dlia].
      rewrite Z.add_1_l, Z.odd_succ, <- Z.negb_odd. by destruct (syscall_enter c), (Z.odd (traps answers)).
    + rewrite Nat2Z.inj_add, Hout. destruct (syscall_enter c); destruct Hl as [? ->]; simpl; dlia.
  - replace (match waited a with WaitFails => _ | _ => _ end) with (count_syscalls (answers ++ rest) c).
    2:{ destruct (waited a) as [|st|sg|sg]; [done|by destruct (He st)|..]; by rewrite Htr, Hres. }
    rewrite Z.add_0_l. apply IH; [done|done|lia].
Qed.

(** When the child is stopped [k] times by [SIGTRAP] before it exits, and no
    register read, resumption or forbidden call interrupts the count, the tracer
    counts [k] divided by 2, rounded up: one call per entry, other signals
    notwithstanding; it prints one line per counted call, and the exit. *)
Theorem syscount_counts (answers rest : list answer) (last : answer) (status : Z)
    (Hh : Forall (fun a => harmless a = true) answers) (Hl : waited last = Exited status)
    (Hk : traps answers < 2 ^ 64) :
  exists c out, run_tracer (Stopped SIGSTOP) true true (answers ++ last :: rest) = inr (Some c) /\
    counter c = (traps answers + 1) / 2 /\ printed c = out ++ [ChildExited status] /\
    Z.of_nat (count_if (fun l => match l with Enters _ => true | _ => false end) out) = counter c.
Proof.
  destruct (count_harmless answers (Counting true (Regs 0 0) 0 []) (last :: rest) Hh) as (r & out & Hc & Hout);
    [done|done|].
  simpl. rewrite Hc. cbn [count_syscalls]. rewrite Hl. do 2 eexists. split; [reflexivity|]. simpl.
  split_and!; [done|done|exact Hout].
Qed.

Theorem syscount_counts_witness :
  let trap nr := Answer (Stopped SIGTRAP) (Some (Regs nr 0)) true in
  let answers := [trap 12; trap 12; Answer (Stopped 28) (Some (Regs 0 0)) true; trap 231] in
  (Forall (fun a => harmless a = true) answers /\ traps answers < 2 ^ 64) /\
  exists c out, run_tracer (Stopped SIGSTOP) true true (answers ++ [Answer (Exited 0) None true]) = inr (Some c) /\
    counter c = 2 /\ printed c = out ++ [ChildExited 0] /\
    Z.of_nat (count_if (fun l => match l with Enters _ => true | _ => false end) out) = counter c.
Proof.
  intros trap answers.
  assert (Forall (fun a => harmless a = true) answers) as Hh by (repeat constructor).
  assert (traps answers < 2 ^ 64) as Hk by done.
  split; [done|].
  exact (syscount_counts answers [] (Answer (Exited 0) None true) 0 Hh eq_refl Hk).
Defined.

(** A child killed by a signal is neither exited nor stopped: the tracer tries to
    resume it, fails, and reports an error. *)
Example killed_child :
  run_tracer (Stopped SIGSTOP) true true [Answer (Killed 9) None false] =
  inr (Some (Counting true (Regs 0 0) 0 [Error 3])).
Proof. reflexivity. Qed.

(** A failed call shows as the two's complement of its error. *)
Example error_result argv0 strerror :
  line_text argv0 42 strerror (Leaves (-2)) = Stdout ("42: child leaves syscall with result 0xfffffffffffffffe" +:+ nl).
Proof. reflexivity. Qed.

(** When the registers cannot be read, the call before is counted again. *)
Example unreadable_registers :
  printed <$> count_syscalls
    [Answer (Stopped SIGTRAP) (Some (Regs 12 0)) true; Answer (Stopped SIGTRAP) (Some (Regs 12 7)) true;
     Answer (Stopped SIGTRAP) None true; Answer (Exited 0) None true]
    (Counting true (Regs 0 0) 0 []) =
  Some [Enters 12; Leaves 7; Error 1; Enters 12; ChildExited 0].
Proof. reflexivity. Qed.

(** A failed [execvp] is reported with the first argument of the program in place of its
    name, as [argv] begins with the program here. *)
Example exec_wrong_name :
  syscount_main ["prog"; "-x"] 0 true true (fun _ _ => false) WaitFails true true [] =
    Child (ExecFails EXIT_FAILURE (Some "-x")) /\
  syscount_main ["prog"] 0 true true (fun _ _ => false) WaitFails true true [] =
    Child (ExecFails EXIT_FAILURE None).
Proof. done. Qed.

(** A count that has ended with an error is still reported with success, also when the child
    has not died: here it enters [fork]. *)
Example fork_is_success :
  syscount_main ["prog"] 7 true true (fun _ _ => true) (Stopped SIGSTOP) true true
    [Answer (Stopped SIGTRAP) (Some (Regs 57 0)) true] =
  ParentReports EXIT_SUCCESS 0 [Error 2].
Proof. done. Qed.

(** Without [PTRACE_O_TRACEEXEC] a successful [execve] stops the child with one more
    [SIGTRAP]. It is taken for the entry of a call, and from there on entries and exits are
    confused: [write] is reported to return [-ENOSYS], and [fork] is noticed when it has
    already been performed. *)
Example exec_trap :
  syscount_main ["prog"] 7 true true (fun _ _ => true) (Stopped SIGSTOP) true true
    [Answer (Stopped SIGTRAP) (Some (Regs 59 (-38))) true; Answer (Stopped SIGTRAP) (Some (Regs 59 0)) true;
     Answer (Stopped SIGTRAP) (Some (Regs 59 0)) true;
     Answer (Stopped SIGTRAP) (Some (Regs 1 (-38))) true; Answer (Stopped SIGTRAP) (Some (Regs 1 5)) true;
     Answer (Stopped SIGTRAP) (Some (Regs 57 (-38))) true; Answer (Stopped SIGTRAP) (Some (Regs 57 800)) true] =
  ParentReports EXIT_SUCCESS 3
    [Enters 59; Leaves 0; Enters 59; Leaves (-38); Enters 1; Leaves (-38); Error 2].
Proof. reflexivity. Qed.
