(* ===== verification/Eject.v ===== *)
(** [ex11/eject/eject.c]: opening and closing the tray of a CD-ROM drive. The
    answers of the device are parameters. *)

From S2P Require Import Prelude.
From S2P Require Import CLib.
From Stdlib Require Import Ascii.

Open Scope string_scope.
Open Scope list_scope.
Open Scope Z_scope.

Inductive action := ACTION_CLOSE | ACTION_OPEN | ACTION_TOGGLE.

#[export] Instance action_eq : EqDecision action.
Proof. solve_decision. Defined.

(** Constants of [linux/cdrom.h]. *)
Definition CDS_TRAY_OPEN : Z := 2.
Definition CDS_DRIVE_NOT_READY : Z := 3.
Definition CDC_CLOSE_TRAY : Z := 1.
Definition CDC_OPEN_TRAY : Z := 2.

Inductive request := DRIVE_STATUS | GET_CAPABILITY | LOCKDOOR | EJECT | CLOSETRAY.

(** A device: whether it opens, and what each [ioctl] returns ([-1] is failure). *)
Record device := Device { opens : bool; ioctl : request -> Z }.

Definition default_device : string := "/dev/cdrom".

(** How [eject] ends: it returns; [error] ends the program with a message, to which the text
    of [errno] is added where the call asks for it; or [abort]. *)
Inductive ending := Done | Dies (with_errno : bool) (msg : string) | Bug (msg : string).

(** [eject] on the device [file]: how it ends, and the requests made. The text of [errno] for
    [CDC_CLOSE_TRAY] is that of an earlier call. *)
Definition eject (file : string) (d : device) (act : action) : ending * list request :=
  let fails s := Dies true (file +:+ s) in
  if negb (opens d) then (Dies true file, []) else
  let status := ioctl d DRIVE_STATUS in
  if status =? -1 then (fails ": CDROM_DRIVE_STATUS", [DRIVE_STATUS]) else
  let is_closed := Z.land status CDS_TRAY_OPEN =? 0 in
  let capability := ioctl d GET_CAPABILITY in
  if capability =? -1 then (fails ": CDROM_GET_CAPABILITY", [DRIVE_STATUS; GET_CAPABILITY]) else
  let act := if decide (act = ACTION_TOGGLE) then (if is_closed then ACTION_OPEN else ACTION_CLOSE) else act in
  match act with
  | ACTION_OPEN =>
      if Z.land capability CDC_OPEN_TRAY =? 0
      then (Dies false (file +:+ ": missing CDC_OPEN_TRAY"), [DRIVE_STATUS; GET_CAPABILITY])
      else if ioctl d LOCKDOOR =? -1 then (fails ": CDROM_LOCKDOOR", [DRIVE_STATUS; GET_CAPABILITY; LOCKDOOR])
      else if ioctl d EJECT =? -1 then
        (fails ": CDROMEJECT", [DRIVE_STATUS; GET_CAPABILITY; LOCKDOOR; EJECT])
      else (Done, [DRIVE_STATUS; GET_CAPABILITY; LOCKDOOR; EJECT])
  | ACTION_CLOSE =>
      if Z.land capability CDC_CLOSE_TRAY =? 0
      then (fails ": missing CDC_CLOSE_TRAY", [DRIVE_STATUS; GET_CAPABILITY])
      else if ioctl d CLOSETRAY =? -1 then (fails ": CDROMCLOSETRAY", [DRIVE_STATUS; GET_CAPABILITY; CLOSETRAY])
      else (Done, [DRIVE_STATUS; GET_CAPABILITY; CLOSETRAY])
  | ACTION_TOGGLE => (Bug "eject: BUG: value of act = 2 not expected", [DRIVE_STATUS; GET_CAPABILITY])
  end.

Definition help (argv0 : string) : string :=
  "USAGE" +:+ nl +:+ "    " +:+ argv0 +:+ " [OPTIONS] [DEVICE]" +:+ nl +:+
  "    default device: '" +:+ default_device +:+ "'" +:+ nl +:+ nl +:+
  "OPTIONS" +:+ nl +:+ "    -t     close tray" +:+ nl +:+ "    -T     toggle tray state" +:+ nl +:+
  "    -h     show this help" +:+ nl.

(** What ends the program in [main] itself. *)
Definition try_help (argv0 : string) : string := "try '" +:+ argv0 +:+ " -h' for help" +:+ nl.

(** The options of [main], as [getopt] returns them for ["tTh"]. *)
Fixpoint parse_eject_options (argv0 : string) (opts : list ascii) (act : action) : (Z * output) + action :=
  match opts with
  | [] => inr act
  | c :: opts =>
      if bool_decide (c = "t"%char) then parse_eject_options argv0 opts ACTION_CLOSE
      else if bool_decide (c = "T"%char) then parse_eject_options argv0 opts ACTION_TOGGLE
      else if bool_decide (c = "h"%char) then inl (EXIT_SUCCESS, Stdout (help argv0))
      else inl (EXIT_FAILURE, Stderr (try_help argv0))
  end.

(** The status of the program (134 is that of [abort]), what it prints, and the requests to
    the device. *)
Record run := Run { status : Z; printed : list output; calls : list request }.

(** [main]: the options, the operands, the device a name stands for, and the text of
    [errno]. *)
Definition eject_main (argv0 errno : string) (dev : string -> device) (opts : list ascii) (operands : list string) : run :=
  match parse_eject_options argv0 opts ACTION_OPEN with
  | inl (status, out) => Run status [out] []
  | inr act =>
      match operands with
      | _ :: _ :: _ => Run EXIT_FAILURE [Stderr ("too many devices, " +:+ try_help argv0)] []
      | _ =>
          let device := default default_device (head operands) in
          let '(e, calls) := eject device (dev device) act in
          match e with
          | Done => Run EXIT_SUCCESS [] calls
          | Dies with_errno msg =>
              Run EXIT_FAILURE [Stderr (error_line argv0 msg (if with_errno then Some errno else None))] calls
          | Bug msg => Run 134 [Stderr (error_line argv0 msg None)] calls
          end
      end
  end.

(* ------------------------------------------------------------------ *)
(** ** Properties *)

(** What the tray is asked to do in the end. *)
Definition resolved (d : device) (act : action) : action :=
  match act with
  | ACTION_TOGGLE => if Z.testbit (ioctl d DRIVE_STATUS) 1 then ACTION_CLOSE else ACTION_OPEN
  | _ => act
  end.

Lemma land_bit x i : 0 <= i -> (Z.land x (2 ^ i) =? 0) = negb (Z.testbit x i).
Proof.
  intros Hi. destruct (Z.testbit x i) eqn:Eb; simpl.
  - apply Z.eqb_neq. intros H0. apply (f_equal (fun y => Z.testbit y i)) in H0.
    rewrite Z.land_spec, Eb, Z.pow2_bits_true, Z.bits_0 in H0 by done. done.
  - apply Z.eqb_eq, Z.bits_inj'. intros j Hj. rewrite Z.land_spec, Z.bits_0.
    destruct (decide (j = i)) as [->|Hne]; [by rewrite Eb|].
    by rewrite Z.pow2_bits_false, andb_false_r by done.
Qed.

(** What the resolved action needs of the drive, and the requests that carry it out. *)
Definition able (d : device) (a : action) : bool :=
  Z.testbit (ioctl d GET_CAPABILITY) (match a with ACTION_OPEN => 1 | _ => 0 end).
Definition moves (a : action) : list request :=
  match a with ACTION_OPEN => [LOCKDOOR; EJECT] | _ => [CLOSETRAY] end.
Definition answers (d : device) (rs : list request) : bool :=
  forallb (fun r => negb (ioctl d r =? -1)) rs.

(** [eject] succeeds exactly when the drive opens, answers, has the capability
    that the action needs and carries it out; the door is unlocked before the
    tray is ejected; otherwise it reports why (the call of [abort] is never
    reached), and without the capability it asks for nothing to move. *)
Theorem eject_result (file : string) (d : device) (act : action) :
  let a := resolved d act in
  let '(r, calls) := eject file d act in
  (if opens d && able d a && answers d ([DRIVE_STATUS; GET_CAPABILITY] ++ moves a)
   then r = Done /\ calls = [DRIVE_STATUS; GET_CAPABILITY] ++ moves a
   else exists with_errno msg, r = Dies with_errno msg) /\
  (able d a = false -> forallb (fun x => match x with DRIVE_STATUS | GET_CAPABILITY => true | _ => false end) calls = true).
Proof.
  unfold eject, resolved, able, answers.
  pose proof (land_bit (ioctl d DRIVE_STATUS) 1 ltac:(done)) as Hs.
  pose proof (land_bit (ioctl d GET_CAPABILITY) 1 ltac:(done)) as H1.
  pose proof (land_bit (ioctl d GET_CAPABILITY) 0 ltac:(done)) as H0.
  change (2 ^ 1) with CDC_OPEN_TRAY in H1. change (2 ^ 0) with CDC_CLOSE_TRAY in H0.
  change (2 ^ 1) with CDS_TRAY_OPEN in Hs.
  rewrite Hs. destruct (opens d); cbn -[Z.testbit]; [|by destruct act; split; eauto].
  destruct act, (Z.testbit (ioctl d DRIVE_STATUS) 1); cbn -[Z.testbit]; rewrite ?H0, ?H1;
    destruct (ioctl d DRIVE_STATUS =? -1), (ioctl d GET_CAPABILITY =? -1), (ioctl d LOCKDOOR =? -1),
      (ioctl d EJECT =? -1), (ioctl d CLOSETRAY =? -1), (Z.testbit (ioctl d GET_CAPABILITY) 0),
      (Z.testbit (ioctl d GET_CAPABILITY) 1); cbn; (split; [by eauto|done]).
Qed.

(** A drive that is not ready counts as open: the status is an enumeration, tested
    as if it were a set of bits. *)
Example not_ready_counts_as_open d :
  ioctl d DRIVE_STATUS = CDS_DRIVE_NOT_READY -> resolved d ACTION_TOGGLE = ACTION_CLOSE.
Proof. unfold resolved. by intros ->. Qed.
