(* ===== verification/Flock.v ===== *)
(** [ex11/flock/flock.c]: a program that locks a file and becomes another program. The
    file does not compile, since the last argument of [open] is broken; it is a parameter
    here. *)

From S2P Require Import Prelude.
From S2P Require Import CLib.
From S2P Require Import Getopt.
From Stdlib Require Import Ascii.

Open Scope string_scope.
Open Scope list_scope.
Open Scope Z_scope.

(* ------------------------------------------------------------------ *)
(** ** Files and their record locks *)

(** Flags of [open], and its access modes. *)
Definition O_RDONLY : Z := 0.
Definition O_WRONLY : Z := 1.
Definition O_RDWR : Z := 2.
Definition O_ACCMODE : Z := 3.
Definition O_CREAT : Z := 64.
Definition O_NONBLOCK : Z := 2048.
Definition O_CLOEXEC : Z := 524288.

Definition has (flags f : Z) : bool := negb (Z.land flags f =? 0).

Inductive errno := ENOENT | EBADF | EAGAIN | EFAULT | Other (e : Z).

(** [enum lock_opt]: the types that [fcntl] knows. *)
Inductive lock_opt := read_lock | write_lock | nonblock_lock.

#[export] Instance lock_opt_eq : EqDecision lock_opt.
Proof. solve_decision. Defined.

(** A file: the permissions it was created with, and which process holds which lock on the
    whole of it. *)
Record file := File { perm : Z; holders : gmap Z lock_opt }.

(** The files by their paths. *)
Abbreviation files := (gmap string file).

(** [fcntl(fd, F_SETLK, ...)] by the process [pid] for a descriptor with these flags: a read
    lock needs one for reading, a write lock one for writing; a lock that conflicts is not
    waited for. *)
Definition fcntl_setlk (pid flags : Z) (l_type : lock_opt) (f : file) : errno + file :=
  let others := delete pid (holders f) in
  let mode := Z.land flags O_ACCMODE in
  match l_type with
  | read_lock =>
      if mode =? O_WRONLY then inl EBADF
      else if bool_decide (map_Forall (fun _ l => l = read_lock) others)
      then inr (File (perm f) (<[pid := read_lock]> (holders f))) else inl EAGAIN
  | write_lock =>
      if mode =? O_RDONLY then inl EBADF
      else if bool_decide (others = ∅) then inr (File (perm f) (<[pid := write_lock]> (holders f))) else inl EAGAIN
  | nonblock_lock => inr (File (perm f) others)
  end.

(** A new program keeps the locks of the process, but a descriptor that is closed takes
    the locks on its file with it. *)
Definition on_exec (pid flags : Z) (f : file) : file :=
  if has flags O_CLOEXEC then File (perm f) (delete pid (holders f)) else f.

(* ------------------------------------------------------------------ *)
(** ** The program *)

Definition optstring : string := "vrwno".

Record options := Options { write_err : bool; unlock_exec : bool; lock_type : lock_opt }.

(** The loop over the options; [None] is a wrong one. *)
Fixpoint flock_options (os : list opt) (o : options) : option options :=
  match os with
  | [] => Some o
  | (c, _) :: os =>
      if bool_decide (c = "v"%char) then flock_options os (Options true (unlock_exec o) (lock_type o))
      else if bool_decide (c = "r"%char) then flock_options os (Options (write_err o) (unlock_exec o) read_lock)
      else if bool_decide (c = "w"%char) then flock_options os (Options (write_err o) (unlock_exec o) write_lock)
      else if bool_decide (c = "n"%char) then flock_options os (Options (write_err o) (unlock_exec o) nonblock_lock)
      else if bool_decide (c = "o"%char) then flock_options os (Options (write_err o) true (lock_type o))
      else None
  end.

Definition initial : options := Options false false write_lock.

(** How the process goes on: it becomes another program, exits with a message, reads behind
    the end of [argv], or gives [execvp] the null pointer at that end for a name, which the
    function follows: the process dies there of a signal. *)
Inductive ending := Execs (argv : list string) | Exits (status : Z) (err : string) | Overrun | NullName.

Definition open_flags (o : options) : Z :=
  let flags := match lock_type o with
    | read_lock => O_RDONLY
    | write_lock => Z.lor O_WRONLY O_CREAT
    | nonblock_lock => Z.lor O_RDWR O_NONBLOCK
    end in
  if unlock_exec o then Z.lor flags O_CLOEXEC else flags.

Section flock.
(** The process; the permissions of a file that is created; what keeps [open] and [execvp]
    from doing their work, apart from what the model has; and the texts of the errors. *)
Context (pid mode : Z) (denied : string -> Z -> option errno) (execvp : list string -> option errno).
Context (strerror : errno -> string).

Definition open_file (path : string) (flags : Z) (fs : files) : errno + files :=
  match denied path flags with
  | Some e => inl e
  | None =>
      match fs !! path with
      | Some _ => inr fs
      | None => if has flags O_CREAT then inr (<[path := File mode ∅]> fs) else inl ENOENT
      end
  end.

(** [error], with the name of the program as it was called; [err] leaves out the directories. *)
Definition fails (argv0 msg : string) (e : errno) : ending := Exits 1 (error_line argv0 msg (Some (strerror e))).

(** [locker] with the words behind the options; [argv] ends with a null pointer, and the
    words behind that are not the program's. *)
Definition locker (argv0 : string) (o : options) (args : list string) (fs : files) : files * ending :=
  let flags := open_flags o in
  match args with
  | [] => (fs, fails argv0 "open((null))" EFAULT)
  | path :: rest =>
      match open_file path flags fs with
      | inl e => (fs, fails argv0 ("open(" +:+ path +:+ ")") e)
      | inr fs1 =>
          match fs1 !! path with
          | None => (fs1, fails argv0 ("open(" +:+ path +:+ ")") ENOENT)
          | Some f =>
              match fcntl_setlk pid flags (lock_type o) f with
              | inl e => (fs1, fails argv0 "fnctl" e)
              | inr f =>
                  let fs2 := <[path := f]> fs1 in
                  let gone := <[path := File (perm f) (delete pid (holders f))]> fs2 in
                  match rest with
                  | [] => (fs2, Overrun)
                  | [_] => (gone, NullName)
                  | _ :: argv =>
                      match execvp argv with
                      | Some e =>
                          (gone, Exits EXIT_FAILURE (error_line (basename argv0) "execvp" (Some (strerror e))))
                      | None => (<[path := on_exec pid flags f]> fs2, Execs argv)
                      end
                  end
              end
          end
      end
  end.

Definition flock_main (argv0 : string) (args : list string) (fs : files) : files * ending :=
  let '(os, rest) := getopt optstring None None args in
  match flock_options os initial with
  | Some o => locker argv0 o rest fs
  | None => (fs, Exits EXIT_FAILURE "Wrong arguments!")
  end.

(* ------------------------------------------------------------------ *)
(** ** Properties *)

Definition lock_of (fs : files) (path : string) (q : Z) : option lock_opt := f ← fs !! path; holders f !! q.

(** A writer excludes everybody else, and nobody holds a lock of the type that unlocks. *)
Definition exclusive (f : file) : Prop := forall p q l, holders f !! p = Some write_lock -> holders f !! q = Some l -> p = q.
Definition real (f : file) : Prop := forall p, holders f !! p <> Some nonblock_lock.
Definition valid (fs : files) : Prop := map_Forall (fun _ f => exclusive f /\ real f) fs.

(** The process has no lock yet. *)
Definition fresh (fs : files) : Prop := forall path, lock_of fs path pid = None.

(** What the process holds on the file after [fcntl]. *)
Definition granted (l : lock_opt) : option lock_opt := if decide (l = nonblock_lock) then None else Some l.

(** The flags suit the type of the lock: [fcntl] only fails when another process holds one
    that conflicts. *)
Lemma setlk_open_flags o f e :
  fcntl_setlk pid (open_flags o) (lock_type o) f = inl e ->
  e = EAGAIN /\ exists q l, q <> pid /\ holders f !! q = Some l /\ (lock_type o = write_lock \/ l <> read_lock).
Proof.
  destruct o as [w u []]; destruct u; unfold fcntl_setlk; simpl; (case_bool_decide as Hc; [done|] || done); intros [= <-]; split; try done.
  1,2: apply map_not_Forall in Hc; [|apply _]; destruct Hc as (q & l & [Hq Hl]%lookup_delete_Some & Hn); by exists q, l; split_and!; [|done|right].
  all: apply map_choose in Hc as (q & l & [Hq Hl]%lookup_delete_Some); by exists q, l; split_and!; [|done|left].
Qed.

Lemma real_insert f p l n : real f -> l <> nonblock_lock -> real (File n (<[p := l]> (holders f))).
Proof.
  intros Hr Hl q H. simpl in H. apply lookup_insert_Some in H as [[_ ?]|[_ Hq]]; [done|by apply (Hr q)].
Qed.

Lemma setlk_result flags l f f' :
  fcntl_setlk pid flags l f = inr f' -> exclusive f -> real f ->
  exclusive f' /\ real f' /\ perm f' = perm f /\ holders f' !! pid = granted l /\
  (forall q, q <> pid -> holders f' !! q = holders f !! q).
Proof.
  unfold fcntl_setlk, granted. intros H He Hr. destruct l.
  - destruct (_ =? _); [done|]. case_bool_decide as Hc; [|done]. injection H as <-.
    split_and!; simpl; [|by apply (real_insert f)|done|by rewrite lookup_insert_eq
      |intros q Hq; by rewrite lookup_insert_ne].
    intros p q l H _. simpl in H. apply lookup_insert_Some in H as [[_ ?]|[Hp Hw]]; [done|].
    assert (delete pid (holders f) !! p = Some write_lock) as Hd by (by rewrite lookup_delete_ne). by specialize (Hc _ _ Hd).
  - destruct (_ =? _); [done|]. case_bool_decide as Hc; [|done]. injection H as <-.
    assert (forall q l, q <> pid -> holders f !! q <> Some l) as Hn.
    { intros q l Hq Hl. assert (delete pid (holders f) !! q = Some l) as Hd by (by rewrite lookup_delete_ne).
      rewrite Hc in Hd. done. }
    split_and!; simpl; [|by apply (real_insert f)|done|by rewrite lookup_insert_eq
      |intros q Hq; by rewrite lookup_insert_ne].
    intros p q l Hp Hq. simpl in *. apply lookup_insert_Some in Hp, Hq. naive_solver.
  - injection H as <-. split_and!; simpl; [| |done|by rewrite lookup_delete_eq|intros q Hq; by rewrite lookup_delete_ne].
    + intros p q l Hp Hq. simpl in *. apply lookup_delete_Some in Hp as [_ Hp], Hq as [_ Hq]. by apply (He p q l).
    + intros p Hp. simpl in Hp. apply lookup_delete_Some in Hp as [_ Hp]. by apply (Hr p).
Qed.

Lemma drop_lock f : exclusive f -> real f ->
  let f' := File (perm f) (delete pid (holders f)) in
  exclusive f' /\ real f' /\ holders f' !! pid = None /\ (forall q, q <> pid -> holders f' !! q = holders f !! q).
Proof.
  intros He Hr. destruct (setlk_result 0 nonblock_lock f (File (perm f) (delete pid (holders f))) eq_refl He Hr)
    as (H1 & H2 & _ & H4 & H5). done.
Qed.

(** A file of a valid table is replaced by one where only the process has other locks. *)
Lemma update_file fs path f f' :
  valid fs -> fresh fs -> fs !! path = Some f ->
  exclusive f' /\ real f' /\ (forall q, q <> pid -> holders f' !! q = holders f !! q) ->
  valid (<[path := f']> fs) /\
  (forall p q, q <> pid -> lock_of (<[path := f']> fs) p q = lock_of fs p q) /\
  (forall p, lock_of (<[path := f']> fs) p pid = if decide (p = path) then holders f' !! pid else None).
Proof.
  intros Hv Hf Hp (He & Hr & Hq). split_and!.
  - by apply map_Forall_insert_2.
  - intros p q Hne. unfold lock_of. destruct (decide (path = p)) as [<-|?].
    + rewrite lookup_insert_eq, Hp. simpl. auto.
    + by rewrite lookup_insert_ne.
  - intros p. unfold lock_of. case_decide as E; [subst; by rewrite lookup_insert_eq|].
    rewrite lookup_insert_ne by done. apply Hf.
Qed.

Lemma open_file_result path flags fs fs1 :
  open_file path flags fs = inr fs1 -> valid fs ->
  valid fs1 /\ (forall p q, lock_of fs1 p q = lock_of fs p q) /\ is_Some (fs1 !! path).
Proof.
  unfold open_file. intros H Hv. destruct (denied _ _); [done|]. destruct (fs !! path) as [f|] eqn:Ep.
  - injection H as <-. by rewrite Ep.
  - destruct (has _ _); [|done]. injection H as <-. split_and!.
    + apply map_Forall_insert_2; [|done]. by split; intros ?.
    + intros p q. unfold lock_of. destruct (decide (path = p)) as [<-|?]; [by rewrite lookup_insert_eq, Ep|by rewrite lookup_insert_ne].
    + rewrite lookup_insert_eq. by eexists.
Qed.

Lemma on_exec_options o f :
  on_exec pid (open_flags o) f = if unlock_exec o then File (perm f) (delete pid (holders f)) else f.
Proof. by destruct o as [w [] []]. Qed.

(** C33: the locks of the files stay consistent and those of other processes stay theirs. When
    another program runs, its process holds the lock that the options ask for on the file
    that the first operand names, and no other; [-o] and [-n] leave it without any. An exit
    leaves none either. Only with a single operand the program reads behind the end of
    [argv], and only with two it dies in [execvp]; its lock goes with it then. *)
Theorem flock_locks argv0 args fs (Hv : valid fs) (Hf : fresh fs) :
  let '(fs', e) := flock_main argv0 args fs in
  valid fs' /\
  (forall p q, q <> pid -> lock_of fs' p q = lock_of fs p q) /\
  match e with
  | Execs argv =>
      exists o path skipped, flock_options (getopt optstring None None args).1 initial = Some o /\
        (getopt optstring None None args).2 = path :: skipped :: argv /\ argv <> [] /\
        forall p, lock_of fs' p pid = if decide (p = path) then if unlock_exec o then None else granted (lock_type o) else None
  | Exits st _ => st = 1 /\ fresh fs'
  | Overrun => exists path, (getopt optstring None None args).2 = [path]
  | NullName => fresh fs' /\ exists path skipped, (getopt optstring None None args).2 = [path; skipped]
  end.
Proof.
  unfold flock_main. destruct (getopt optstring None None args) as [os rest]. simpl.
  destruct (flock_options os initial) as [o|]; [|done]. unfold locker. destruct rest as [|path rest]; [done|].
  destruct (open_file path (open_flags o) fs) as [e|fs1] eqn:Eo; [done|].
  destruct (open_file_result _ _ _ _ Eo Hv) as (Hv1 & Hl1 & [f Ep]). rewrite Ep.
  assert (fresh fs1) as Hf1 by (intros p; rewrite Hl1; apply Hf).
  destruct (fcntl_setlk pid (open_flags o) (lock_type o) f) as [e|f1] eqn:Es; [by split_and!|].
  destruct (Hv1 _ _ Ep) as [He Hr]. destruct (setlk_result _ _ _ _ Es He Hr) as (He1 & Hr1 & _ & Hg & Hq).
  destruct (drop_lock f1 He1 Hr1) as (He2 & Hr2 & Hn & Hq2).
  assert (forall q, q <> pid -> holders (File (perm f1) (delete pid (holders f1))) !! q = holders f !! q) as Hq3.
  { intros q Hne. rewrite Hq2 by done. auto. }
  destruct (update_file fs1 path f f1 Hv1 Hf1 Ep (conj He1 (conj Hr1 Hq))) as (V1 & O1 & M1).
  destruct (update_file fs1 path f _ Hv1 Hf1 Ep (conj He2 (conj Hr2 Hq3))) as (V2 & O2 & M2).
  assert (forall p q, q <> pid -> lock_of (<[path := f1]> fs1) p q = lock_of fs p q) as O1'.
  { intros p q Hne. rewrite O1, Hl1; done. }
  assert (forall p q, q <> pid -> lock_of (<[path := File (perm f1) (delete pid (holders f1))]> fs1) p q = lock_of fs p q) as O2'.
  { intros p q Hne. rewrite O2, Hl1; done. }
  assert (fresh (<[path := File (perm f1) (delete pid (holders f1))]> fs1)) as F2.
  { intros p. rewrite M2. case_decide; [|done]. exact Hn. }
  destruct rest as [|skipped [|prog argv]]; rewrite ?insert_insert_eq.
  - split_and!; [done|done|by eexists].
  - split_and!; [done|done|done|by do 2 eexists].
  - destruct (execvp (prog :: argv)) as [e|]; rewrite ?insert_insert_eq; [by split_and!|].
    rewrite on_exec_options. destruct (unlock_exec o) eqn:Eu; (split_and!; [done|done|]); exists o, path, skipped;
      (split_and!; [done|done|done|]); intros p; rewrite ?M1, ?M2, ?Eu; case_decide; by rewrite ?Hg.
Qed.
End flock.

(** Two readers and a third one that does not keep its lock. *)
Definition two_readers : files := {[ "f" := File 420 {[ 1 := read_lock; 2 := read_lock ]} ]}.

Lemma flock_locks_witness :
  let '(fs', e) := flock_main 7 420 (fun _ _ => None) (fun _ => None) (fun _ => "") "flock" ["-or"; "f"; "-"; "ls"] two_readers in
  valid fs' /\
  (forall p q, q <> 7 -> lock_of fs' p q = lock_of two_readers p q) /\
  match e with
  | Execs argv =>
      exists o path skipped, flock_options (getopt optstring None None ["-or"; "f"; "-"; "ls"]).1 initial = Some o /\
        (getopt optstring None None ["-or"; "f"; "-"; "ls"]).2 = path :: skipped :: argv /\ argv <> [] /\
        forall p, lock_of fs' p 7 = if decide (p = path) then if unlock_exec o then None else granted (lock_type o) else None
  | Exits st _ => st = 1 /\ fresh 7 fs'
  | Overrun => exists path, (getopt optstring None None ["-or"; "f"; "-"; "ls"]).2 = [path]
  | NullName => fresh 7 fs' /\ exists path skipped, (getopt optstring None None ["-or"; "f"; "-"; "ls"]).2 = [path; skipped]
  end.
Proof.
  apply (flock_locks 7 420 (fun _ _ => None) (fun _ => None) (fun _ => "") "flock" ["-or"; "f"; "-"; "ls"] two_readers).
  - apply map_Forall_singleton. split.
    + intros p q l H _. simpl in H. apply lookup_insert_Some in H as [[_ ?]|[_ H]]; [done|].
      by apply lookup_singleton_Some in H as [_ ?].
    + intros p H. simpl in H. apply lookup_insert_Some in H as [[_ ?]|[_ H]]; [done|]. by apply lookup_singleton_Some in H as [_ ?].
  - intros path. unfold lock_of, two_readers. destruct (decide ("f" = path)) as [<-|?]; [reflexivity|by rewrite lookup_singleton_ne].
Defined.

(** The word behind the file is skipped: without another one there is no program to start,
    and the name that [execvp] gets is a null pointer. *)
Example needs_two_words pid mode strerror execvp :
  (flock_main pid mode (fun _ _ => None) execvp strerror "bin/flock" ["f"; "ls"] ∅).2 = NullName.
Proof. reflexivity. Qed.

(** [getopt] takes the options of the other program for those of this one. *)
Example takes_all_options pid mode strerror denied execvp fs :
  flock_main pid mode denied execvp strerror "flock" ["f"; "-"; "sh"; "-c"; "ls"] fs = (fs, Exits 1 "Wrong arguments!").
Proof. reflexivity. Qed.

(** The last of [-r], [-w] and [-n] counts: [-n] is not a way to lock, but the type that
    unlocks. *)
Example nonblocking_unlocks pid mode strerror :
  let '(fs, e) := flock_main pid mode (fun _ _ => None) (fun _ => None) strerror "flock" ["-wn"; "f"; "-"; "ls"] {[ "f" := File 420 ∅ ]} in
  e = Execs ["ls"] /\ lock_of fs "f" pid = None.
Proof. split; [reflexivity|]. unfold lock_of. simpl. rewrite lookup_insert_eq. apply lookup_delete_eq. Qed.
