(* ===== verification/Filters.v ===== *)
(** [ex02/strings]: the filter libraries [liblc.c], [libuc.c] and [libinfo.c], and
    the program [strfilter.c] that applies them to its input in rotation. *)

From S2P Require Import Prelude.
From S2P Require Import CLib.
From Stdlib Require Import Ascii.

Open Scope string_scope.
Open Scope list_scope.
Open Scope Z_scope.

Definition NUL : ascii := "000"%char.

(** A string in memory: its bytes up to the end of the buffer, the null byte
    after the last one. *)
Abbreviation cstring := (list ascii).

Fixpoint strlen (s : cstring) : nat :=
  match s with
  | [] => 0
  | c :: s => if decide (c = NUL) then 0 else S (strlen s)
  end.

(** [tolower] and [toupper] in the C locale. *)
Definition shift_case (lo : nat) (up : bool) (c : ascii) : ascii :=
  let n := nat_of_ascii c in
  if ((lo <=? n) && (n <=? lo + 25))%nat then ascii_of_nat (if up then n - 32 else n + 32) else c.
Definition tolower : ascii -> ascii := shift_case 65 false.
Definition toupper : ascii -> ascii := shift_case 97 true.

(** [for (size_t i = 0; i < strlen(str); i++)], each round replacing character [i]. *)
Fixpoint filter_loop (f : ascii -> ascii) (fuel i : nat) (str : cstring) : option cstring :=
  if (i <? strlen str)%nat then
    match fuel with
    | O => None
    | S fuel => c ← str !! i; filter_loop f fuel (S i) (<[i := f c]> str)
    end
  else Some str.

(** A library: [filter] changes the string in place. *)
Abbreviation filter := (cstring -> option cstring).

Definition liblc : filter := fun s => filter_loop tolower (length s) 0 s.
Definition libuc : filter := fun s => filter_loop toupper (length s) 0 s.
Definition libinfo : filter := Some.

(** The constructor and the destructor of [libinfo]. *)
Definition library_init : cstring :=
  String.list_ascii_of_string ("INFO lib: " +:+ nl +:+ " version: 1  " +:+ nl +:+ " author name: czFIRE " +:+ nl).
Definition library_destroy : cstring := String.list_ascii_of_string ("I am dying" +:+ nl).
Definition libinfo_file : cstring := String.list_ascii_of_string "libinfo.so".

Definition BUFFER_LENGTH : nat := 80.

(** [create_lib_name]; [None] when the name does not fit the buffer. *)
Definition create_lib_name (name : cstring) : option cstring :=
  let lib := ["l"; "i"; "b"]%char ++ name ++ ["."; "s"; "o"]%char in
  if (length lib <? BUFFER_LENGTH)%nat then Some lib else None.

Section strfilter.
(** [dlopen]: a library, if there is one, and the function [filter] that [dlsym] finds in
    it. *)
Context (dl : cstring -> option (option filter)).

(** The loading loop: [inl] is the error exit. *)
Fixpoint load (names : list cstring) : option (Z + list filter) :=
  match names with
  | [] => Some (inr [])
  | name :: names =>
      lib ← create_lib_name name;
      match dl lib with
      | None | Some None => Some (inl EXIT_FAILURE)
      | Some (Some f) =>
          r ← load names;
          Some match r with inl e => inl e | inr fs => inr (f :: fs) end
      end
  end.

(** The loop over the lines; [rotating_counter] is an [int]. *)
Fixpoint rotate (functions : list filter) (rotating_counter : Z) (lines : list cstring) :
    option (list cstring) :=
  match lines with
  | [] => Some []
  | line :: lines =>
      f ← functions !! Z.to_nat (Z.rem rotating_counter (Z.of_nat (length functions)));
      line ← f line;
      next ← int_ok (rotating_counter + 1);
      out ← rotate functions next lines;
      Some (line :: out)
  end.

(** [main]: the arguments after the program name, the lines of standard input. *)
Definition strfilter_main (names lines : list cstring) : option (Z * list cstring) :=
  if (length names =? 0)%nat then Some (EXIT_FAILURE, []) else
  r ← load names;
  match r with
  | inl status => Some (status, [])
  | inr functions => out ← rotate functions 0 lines; Some (EXIT_SUCCESS, out)
  end.

(** The libraries that are opened, up to the one that fails. *)
Fixpoint opened (names : list cstring) : option (list cstring) :=
  match names with
  | [] => Some []
  | name :: names =>
      lib ← create_lib_name name;
      match dl lib with
      | None => Some []
      | Some None => Some [lib]
      | Some (Some _) => cons lib <$> opened names
      end
  end.

(** The text on the standard output: what [libinfo] prints when it is loaded, once, the
    lines, and what it prints when it is unloaded, or the program exits. *)
Definition strfilter_screen (names lines : list cstring) : option (Z * list cstring) :=
  libs ← opened names;
  '(status, out) ← strfilter_main names lines;
  let info := bool_decide (libinfo_file ∈ libs) in
  Some (status, (if info then [library_init] else []) ++ out ++ (if info then [library_destroy] else [])).
End strfilter.

(* ------------------------------------------------------------------ *)
(** ** The libraries *)

Lemma strlen_full (s : cstring) : Forall (.≠ NUL) s -> strlen s = length s.
Proof. induction 1 as [|c s Hc _ IH]; [done|]. simpl. by rewrite decide_False, IH. Qed.

(** [tolower] and [toupper] never make a null byte. *)
Lemma shift_case_not_nul lo up c : (65 <= lo <= 97)%nat -> c <> NUL -> shift_case lo up c <> NUL.
Proof.
  intros Hlo Hc. unfold shift_case. destruct (_ && _)%nat eqn:E; [|done].
  apply andb_true_iff in E as [H1%Nat.leb_le H2%Nat.leb_le]. intros H0.
  apply (f_equal nat_of_ascii) in H0. rewrite nat_ascii_embedding in H0 by (destruct up; lia).
  change (nat_of_ascii NUL) with 0%nat in H0. destruct up; lia.
Qed.

Lemma filter_loop_map f (s : cstring) :
  (forall c, c <> NUL -> f c <> NUL) -> Forall (.≠ NUL) s ->
  filter_loop f (length s) 0 s = Some (f <$> s).
Proof.
  intros Hf Hs.
  assert (forall fuel done_ todo, Forall (.≠ NUL) (done_ ++ todo) -> (length todo <= fuel)%nat ->
            filter_loop f fuel (length done_) (done_ ++ todo) = Some (done_ ++ (f <$> todo))) as Hl.
  { induction fuel as [|fuel IH]; intros done_ todo Hn Hle; simpl; rewrite strlen_full, length_app by done.
    - destruct todo as [|c todo]; [|simpl in Hle; lia]. simpl. by rewrite Nat.add_0_r, Nat.ltb_irrefl.
    - destruct todo as [|c todo]; simpl; [by rewrite Nat.add_0_r, Nat.ltb_irrefl|].
      rewrite (proj2 (Nat.ltb_lt _ _)) by lia. rewrite list_lookup_middle by done. simpl.
      replace (<[length done_ := f c]> (done_ ++ c :: todo)) with ((done_ ++ [f c]) ++ todo).
      2:{ rewrite insert_app_r_alt, Nat.sub_diag by done. by rewrite <- app_assoc. }
      replace (S (length done_)) with (length (done_ ++ [f c])) by (rewrite length_app; simpl; lia).
      rewrite IH; [by rewrite <- app_assoc| |simpl in Hle; lia].
      apply Forall_app in Hn as [Hd Ht]. apply Forall_cons in Ht as [Hc Ht].
      apply Forall_app. split; [apply Forall_app; split; [done|constructor; auto]|done]. }
  apply (Hl (length s) [] s Hs). done.
Qed.

Lemma liblc_spec s : Forall (.≠ NUL) s -> liblc s = Some (tolower <$> s).
Proof. apply filter_loop_map. intros c. apply shift_case_not_nul. lia. Qed.

Lemma libuc_spec s : Forall (.≠ NUL) s -> libuc s = Some (toupper <$> s).
Proof. apply filter_loop_map. intros c. apply shift_case_not_nul. lia. Qed.

(* ------------------------------------------------------------------ *)
(** ** The rotation *)

Lemma rotate_spec (fs : list filter) (gs : list (cstring -> cstring)) lines : forall k,
  fs <> [] -> length gs = length fs ->
  (forall i f g, fs !! i = Some f -> gs !! i = Some g -> forall s, s ∈ lines -> f s = Some (g s)) ->
  0 <= k -> k + Z.of_nat (length lines) <= INT_MAX ->
  rotate fs k lines =
  Some (imap (fun i s => default (fun x => x) (gs !! Z.to_nat ((k + Z.of_nat i) mod Z.of_nat (length fs))) s) lines).
Proof.
  induction lines as [|line lines IH]; intros k Hne Hlen Hfg Hk Hmax; [done|].
  cbn [rotate]. assert (0 < Z.of_nat (length fs)) as Hpos by (destruct fs; simpl; [done|lia]).
  rewrite Z.rem_mod_nonneg by lia.
  assert (Z.to_nat (k mod Z.of_nat (length fs)) < length fs)%nat as Hlt
    by (pose proof (Z.mod_pos_bound k _ Hpos); lia).
  destruct (lookup_lt_is_Some_2 fs _ Hlt) as [f Hf].
  destruct (lookup_lt_is_Some_2 gs (Z.to_nat (k mod Z.of_nat (length fs)))) as [g Hg]; [by rewrite Hlen|].
  rewrite Hf. cbn [mbind option_bind]. rewrite (Hfg _ _ _ Hf Hg line) by set_solver. cbn [mbind option_bind].
  cbn [length] in Hmax. rewrite int_ok_small by (unfold INT_MIN; lia). cbn [mbind option_bind].
  rewrite IH; [|done|done|intros; eapply Hfg; [done..|set_solver]|lia|lia].
  cbn [mbind option_bind imap]. rewrite Z.add_0_r, Hg. do 2 f_equal.
  apply imap_ext. intros i s _. simpl. by replace (k + 1 + Z.of_nat i) with (k + Z.of_nat (S i)) by lia.
Qed.

Lemma load_all dl names fs :
  Forall2 (fun name f => exists lib, create_lib_name name = Some lib /\ dl lib = Some (Some f)) names fs ->
  load dl names = Some (inr fs).
Proof. induction 1 as [|name f names fs (lib & Hn & Hd) _ IH]; [done|]. simpl. by rewrite Hn; simpl; rewrite Hd, IH. Qed.

(** When all the libraries load, [strfilter] prints line [i] (counted from 0) as
    library [i mod n] changes it, [n] being the number of its arguments. *)
Theorem strfilter_rotates (dl : cstring -> option (option filter)) (names lines : list cstring)
    (fs : list filter) (gs : list (cstring -> cstring))
    (Hne : names <> [])
    (Hload : Forall2 (fun name f => exists lib, create_lib_name name = Some lib /\ dl lib = Some (Some f)) names fs)
    (Hgs : length gs = length fs)
    (Hfg : forall i f g, fs !! i = Some f -> gs !! i = Some g -> forall s, s ∈ lines -> f s = Some (g s))
    (Hmax : Z.of_nat (length lines) <= INT_MAX) :
  strfilter_main dl names lines =
  Some (EXIT_SUCCESS,
        imap (fun i s => default (fun x => x) (gs !! Nat.modulo i (length names)) s) lines).
Proof.
  pose proof (Forall2_length _ _ _ Hload) as Hlen. unfold strfilter_main.
  destruct (Nat.eqb_spec (length names) 0); [by destruct names|].
  rewrite (load_all _ _ _ Hload). cbn [mbind option_bind].
  rewrite (rotate_spec fs gs lines 0); [|by destruct fs, names|done|done|done|lia].
  cbn [mbind option_bind]. do 2 f_equal. apply imap_ext. intros i s _. rewrite Hlen.
  do 2 f_equal. rewrite Z.add_0_l, <- Nat2Z.inj_mod by lia. by rewrite Nat2Z.id.
Qed.

(** A name of 74 characters does not fit. *)
Example long_name dl : strfilter_main dl [replicate 74 "x"%char] [] = None.
Proof. reflexivity. Qed.

(** The libraries of the directory. *)
Definition installed (lib : cstring) : option (option filter) :=
  if decide (lib = ["l"; "i"; "b"; "l"; "c"; "."; "s"; "o"]%char) then Some (Some liblc)
  else if decide (lib = ["l"; "i"; "b"; "u"; "c"; "."; "s"; "o"]%char) then Some (Some libuc)
  else if decide (lib = ["l"; "i"; "b"; "i"; "n"; "f"; "o"; "."; "s"; "o"]%char) then Some (Some libinfo)
  else None.

Definition demo_names : list cstring := [["l"; "c"]; ["i"; "n"; "f"; "o"]; ["u"; "c"]]%char.
Definition demo_lines : list cstring := [["A"; "b"]; ["A"; "b"]; ["A"; "b"]; ["C"; "d"]]%char.

Theorem strfilter_rotates_witness :
  strfilter_main installed demo_names demo_lines =
    Some (EXIT_SUCCESS,
          imap (fun i s => default (fun x => x)
                 ([fmap tolower; fun x => x; fmap toupper] !! Nat.modulo i (length demo_names)) s)
               demo_lines) /\
  imap (fun i s => default (fun x => x)
          ([fmap tolower; fun x => x; fmap toupper] !! Nat.modulo i 3%nat) s) demo_lines =
    [["a"; "b"]; ["A"; "b"]; ["A"; "B"]; ["c"; "d"]]%char.
Proof.
  split; [|reflexivity].
  apply (strfilter_rotates installed demo_names demo_lines [liblc; libinfo; libuc]); [done| |done| |by vm_compute].
  - repeat constructor; eexists; split; reflexivity.
  - assert (forall s, s ∈ demo_lines -> Forall (.≠ NUL) s) as Hn.
    { intros s Hs. unfold demo_lines in Hs. set_unfold. destruct_or! Hs; subst; by repeat constructor. }
    intros [|[|[|i]]] f g Hf Hg s Hs; simplify_eq/=.
    + by apply liblc_spec, Hn.
    + done.
    + by apply libuc_spec, Hn.
Defined.

(** [libinfo] given twice is loaded once; it is there too when another library is not. *)
Example info_once :
  strfilter_screen installed [["i"; "n"; "f"; "o"]; ["i"; "n"; "f"; "o"]]%char [["x"]]%char =
    Some (EXIT_SUCCESS, [library_init; ["x"]%char; library_destroy]) /\
  strfilter_screen installed [["i"; "n"; "f"; "o"]; ["x"]]%char [["x"]]%char =
    Some (EXIT_FAILURE, [library_init; library_destroy]).
Proof. split; vm_compute; reflexivity. Qed.
