(* ===== verification/Wwc.v ===== *)
(** [ex04/wwc/wwc.c]: counts the bytes and the characters of files. The encoding is that of
    the locale: [mbrlen] with its state is a parameter. *)

From S2P Require Import Prelude.
From S2P Require Import CLib.
From Stdlib Require Import Ascii.

Open Scope string_scope.
Open Scope list_scope.
Open Scope Z_scope.

(** The bytes of a line up to the first null byte, which [strlen] counts. *)
Fixpoint c_string (s : string) : list ascii :=
  match s with
  | EmptyString => []
  | String c s => if bool_decide (c = "000"%char) then [] else c :: c_string s
  end.

(** What is printed: a line by [puts], the size of a character, the summary of a file. *)
Inductive item := Locale (name : string) | Line (s : list ascii) | ByteSize (n : Z) | Summary (name : string) (bytes chars : Z).

(** Its text; [puts] adds a newline to the one of the line. *)
Definition item_text (i : item) : string :=
  match i with
  | Locale name => name +:+ nl
  | Line s => String.string_of_list_ascii s +:+ nl
  | ByteSize n => "byte_size = " +:+ dec n +:+ nl
  | Summary name bytes chars => name +:+ ": bytes=" +:+ dec bytes +:+ " chars=" +:+ dec chars +:+ nl
  end.

Section wwc.
(** The states of the encoding, [{0}], and [mbrlen] on the bytes up to the end of the line:
    a number of bytes, or a negative one for an error or an incomplete character. *)
Context {mbstate : Type} (initial : mbstate) (mbrlen : mbstate -> list ascii -> Z * mbstate).

(** The inner loop on what is left of the line: the sizes printed, and by how much [chars]
    grows. [byte_size] is a [size_t]; a step takes at least one byte, so that the length
    of the line is enough fuel. *)
Fixpoint char_loop (fuel : nat) (mbs : mbstate) (line : list ascii) : list Z * nat :=
  match fuel, line with
  | S fuel, _ :: _ =>
      let '(r, mbs) := mbrlen mbs line in
      let byte_size := u64 r in
      if (byte_size =? 0) || (Z.of_nat (length line) <? byte_size) then ([s64 byte_size], O)
      else
        let '(sizes, k) := char_loop fuel mbs (drop (Z.to_nat byte_size) line) in
        (s64 byte_size :: sizes, S k)
  | _, _ => ([], O)
  end.

Definition count_line (l : string) : list Z * nat :=
  char_loop (length (c_string l)) initial (c_string l).

(** The loop over the lines of a file, with [bytes] and [chars]. *)
Fixpoint line_loop (ls : list string) (bytes chars : Z) : list item * Z * Z :=
  match ls with
  | [] => ([], bytes, chars)
  | l :: ls =>
      let '(sizes, k) := count_line l in
      let '(out, bytes, chars) :=
        line_loop ls (bytes + Z.of_nat (String.length l))%C (chars + Z.of_nat k)%C in
      (Line (c_string l) :: map ByteSize sizes ++ out, bytes, chars)
  end.

Fixpoint file_loop (files : list (string * string)) : list item :=
  match files with
  | [] => []
  | (name, contents) :: files =>
      let '(out, bytes, chars) := line_loop (getlines contents) 0 0 in
      out ++ Summary name bytes chars :: file_loop files
  end.

(** The loop over [fopen]: the array [files], null behind the first failure, and whether all
    were opened. *)
Fixpoint open_loop (args : list (string * option string)) : list (option (string * string)) * bool :=
  match args with
  | [] => ([], true)
  | (name, Some contents) :: args => let '(fs, ok) := open_loop args in (Some (name, contents) :: fs, ok)
  | (_, None) :: args => (None :: map (fun _ => None) args, false)
  end.

(** [close_files]: the files it closes. *)
Fixpoint close_files (fs : list (option (string * string))) : list (string * string) :=
  match fs with Some f :: fs => f :: close_files fs | _ => [] end.

Inductive ending := Aborted | Exited (status : Z) (closed : list (string * string)).

(** The name of the locale that the environment asks for. *)
Context (locale : string).
Definition C_locale : string := "C".

(** [main] on the names and contents of the files; [None] is one that cannot be opened. *)
Definition main (setlocale calloc : bool) (args : list (string * option string)) : list item * ending :=
  if negb setlocale then ([Locale C_locale], Aborted)
  else if negb calloc then ([Locale C_locale; Locale locale], Exited EXIT_FAILURE [])
  else
    let '(fs, ok) := open_loop args in
    if negb ok then ([Locale C_locale; Locale locale], Exited EXIT_FAILURE (close_files fs))
    else (Locale C_locale :: Locale locale :: file_loop (omap id fs), Exited EXIT_SUCCESS []).

(* ------------------------------------------------------------------ *)
(** ** Properties *)

(** The encoding reads back a character at the beginning of whatever follows, and is then in
    its initial state again. *)
Definition is_char (c : list ascii) : Prop :=
  c <> [] /\ ~ "000"%char ∈ c /\ Z.of_nat (length c) < 2 ^ 63 /\
  forall rest, mbrlen initial (c ++ rest) = (Z.of_nat (length c), initial).

Lemma char_loop_chars cs rest : Forall is_char cs -> forall fuel,
  (length (concat cs ++ rest) <= fuel)%nat ->
  char_loop fuel initial (concat cs ++ rest) =
  let '(sizes, k) := char_loop (fuel - length cs) initial rest in
  (map (fun c => Z.of_nat (length c)) cs ++ sizes, (length cs + k)%nat).
Proof.
  induction 1 as [|c cs (Hne & _ & Hlen & Hm) _ IH]; intros fuel Hf.
  { simpl. rewrite Nat.sub_0_r. by destruct (char_loop fuel initial rest). }
  destruct c as [|a c]; [done|]. destruct fuel as [|fuel]; [simpl in Hf; lia|].
  cbn [concat] in *. rewrite <- app_assoc in *. specialize (Hm (concat cs ++ rest)).
  cbn [char_loop app]. change (a :: c ++ concat cs ++ rest) with ((a :: c) ++ concat cs ++ rest). rewrite Hm.
  assert (u64 (Z.of_nat (length (a :: c))) = Z.of_nat (length (a :: c))) as -> by (apply u64_small; lia).
  assert (s64 (Z.of_nat (length (a :: c))) = Z.of_nat (length (a :: c))) as -> by (apply swrap_small; lia).
  rewrite length_app in Hf.
  destruct (Z.eqb_spec (Z.of_nat (length (a :: c))) 0); [simpl in *; lia|].
  destruct (Z.ltb_spec (Z.of_nat (length ((a :: c) ++ concat cs ++ rest))) (Z.of_nat (length (a :: c))));
    [rewrite length_app in *; lia|].
  cbn [orb]. rewrite Nat2Z.id, drop_app_length, IH by (simpl in Hf; lia). simpl.
  by destruct (char_loop (fuel - length cs) initial rest).
Qed.

(** A line that is made of characters is counted in full. *)
Lemma count_line_chars l cs : c_string l = concat cs -> Forall is_char cs ->
  count_line l = (map (fun c => Z.of_nat (length c)) cs, length cs).
Proof.
  intros Hl Hc. unfold count_line. rewrite Hl.
  pose proof (char_loop_chars cs [] Hc (length (concat cs))) as H. rewrite app_nil_r in H.
  rewrite H by done.
  assert (char_loop (length (concat cs) - length cs) initial [] = ([], O)) as -> by (by destruct (_ - _)%nat).
  by rewrite app_nil_r, Nat.add_0_r.
Qed.

(** A line with something that is no character after some: the count stops there. *)
Lemma count_line_stops l cs rest r mbs :
  c_string l = concat cs ++ rest -> Forall is_char cs -> rest <> [] -> mbrlen initial rest = (r, mbs) -> r < 0 ->
  - 2 ^ 63 <= r -> Z.of_nat (length rest) < 2 ^ 63 -> (count_line l).2 = length cs.
Proof.
  intros Hl Hc Hne Hm Hr Hr2 Hlen. unfold count_line. rewrite Hl.
  rewrite (char_loop_chars cs rest Hc) by done.
  assert ((char_loop (length (concat cs ++ rest) - length cs) initial rest).2 = O) as H.
  { assert (length cs <= length (concat cs))%nat as Hcs.
    { clear -Hc. induction Hc as [|c cs [Hne _] _ IH]; simpl; [lia|]. rewrite length_app.
      destruct c; [done|]. simpl. lia. }
    destruct (length (concat cs ++ rest) - length cs)%nat as [|fuel] eqn:E.
    { rewrite length_app in E. destruct rest; [done|]. simpl in E. lia. }
    destruct rest as [|a rest]; [done|]. cbn [char_loop]. rewrite Hm.
    assert ((Z.of_nat (length (a :: rest)) <? u64 r) = true) as ->; [|by rewrite orb_true_r].
    assert (u64 r = r + 2 ^ 64) as ->.
    { unfold u64, wrap. symmetry. apply (Z.mod_unique_pos _ _ (-1)); lia. }
    apply Z.ltb_lt. lia. }
  destruct (char_loop _ initial rest) as [sizes k]. simpl in *. lia.
Qed.

Lemma line_loop_totals ls : forall bytes chars, 0 <= bytes < 2 ^ 64 -> 0 <= chars < 2 ^ 64 ->
  (line_loop ls bytes chars).1.2 = u64 (bytes + zsum (fun l => Z.of_nat (String.length l)) ls) /\
  (line_loop ls bytes chars).2 = u64 (chars + zsum (fun l => Z.of_nat (count_line l).2) ls).
Proof.
  induction ls as [|l ls IH]; intros bytes chars Hb Hc; simpl.
  - by rewrite !Z.add_0_r, !u64_small.
  - destruct (count_line l) as [sizes k] eqn:E.
    destruct (IH (bytes + Z.of_nat (String.length l))%C (chars + Z.of_nat k)%C (u64_range _) (u64_range _)) as [H1 H2].
    destruct (line_loop ls _ _) as [[out b] c]. simpl in *. rewrite H1, H2.
    unfold u64. rewrite !wrap_add_l. split; f_equal; lia.
Qed.

(** The summary of a file whose lines are made of characters. *)
Theorem wwc_counts (lines : list (list (list ascii))) (ls : list string)
    (Hl : Forall2 (fun l cs => c_string l = concat cs /\ Forall is_char cs) ls lines) :
  (line_loop ls 0 0).1.2 = u64 (zsum (fun l => Z.of_nat (String.length l)) ls) /\
  (line_loop ls 0 0).2 = u64 (zsum (fun cs => Z.of_nat (length cs)) lines).
Proof.
  destruct (line_loop_totals ls 0 0) as [H1 H2]; [lia..|]. rewrite H1, H2. split; [done|]. f_equal. rewrite Z.add_0_l.
  clear H1 H2. induction Hl as [|l cs ls lines [E Hc] _ IH]; [done|]. unfold zsum in *. simpl. rewrite (count_line_chars l cs E Hc). simpl. lia.
Qed.

(** When a file cannot be opened, exactly those before it are closed, and nothing is
    counted. *)
Lemma open_fails before name after : Forall (fun a : string * option string => is_Some a.2) before ->
  main true true (before ++ (name, None) :: after) =
  ([Locale C_locale; Locale locale], Exited EXIT_FAILURE (omap (fun a => c ← a.2; Some (a.1, c)) before)).
Proof.
  intros Hb. unfold main. simpl negb. cbn iota.
  assert ((open_loop (before ++ (name, None) :: after)).2 = false /\
    close_files (open_loop (before ++ (name, None) :: after)).1 = omap (fun a => c ← a.2; Some (a.1, c)) before) as [H1 H2].
  { induction Hb as [|[n o] before [c Hc] _ IH]; [done|]. simpl in Hc. subst o. simpl.
    destruct (open_loop (before ++ (name, None) :: after)) as [fs ok]. simpl in *. destruct IH as [-> ->]. done. }
  destruct (open_loop _) as [fs ok]. simpl in *. by rewrite H1, H2.
Qed.
End wwc.

(** A concrete encoding: one byte below 128, two bytes that begin with 192 to 223 and 128 to
    191, and nothing else. *)
Definition two_bytes (mbs : unit) (s : list ascii) : Z * unit :=
  (match s with
   | [] => -2
   | a :: s =>
       let n := N_of_ascii a in
       if (n <? 128)%N then 1
       else if (192 <=? n)%N && (n <? 224)%N then
         match s with
         | [] => -2
         | b :: _ => let m := N_of_ascii b in if (128 <=? m)%N && (m <? 192)%N then 2 else -1
         end
       else -1
   end, mbs).

(** Three characters in four bytes. *)
Definition demo_chars : list (list ascii) := [["a"%char]; ["195"%char; "169"%char]; ["010"%char]].

Lemma wwc_counts_witness :
  (line_loop tt two_bytes [String "a" (String "195" (String "169" nl))] 0 0).2 = 3.
Proof.
  assert (Forall2 (fun l cs => c_string l = concat cs /\ Forall (is_char tt two_bytes) cs)
    [String "a" (String "195" (String "169" nl))] [demo_chars]) as H.
  { constructor; [|constructor]. split; [vm_compute; reflexivity|]. unfold demo_chars.
    repeat constructor; try done; simpl; set_solver. }
  exact (proj2 (wwc_counts tt two_bytes [demo_chars] _ H)).
Defined.

(** [puts] adds a newline to the one of the line, and a byte that is no character hides the
    rest of its line. *)
Example hidden_rest :
  main tt two_bytes "C.UTF-8" true true [("f", Some (String "a" (String "255" "bc")))] =
  ([Locale "C"; Locale "C.UTF-8"; Line ["a"; "255"; "b"; "c"]%char; ByteSize 1; ByteSize (-1); Summary "f" 4 1],
   Exited EXIT_SUCCESS []).
Proof. vm_compute. reflexivity. Qed.
