(* ===== verification/Mmapfill.v ===== *)
(** [ex13/mmapfill/mmapfill.c]: a file of a number of pages, filled with the
    numbers of its words through a mapping. *)

From S2P Require Import Prelude.
From S2P Require Import CLib.

Open Scope string_scope.
Open Scope Z_scope.

(** The checks of [main] on its arguments, up to the computation of [length]:
    [endp] only has to point at the end, so that an empty argument is 0, and the
    [long] becomes a [size_t]. *)
Definition file_length (pagesize : Z) (args : list string) : option Z :=
  match args with
  | [_; arg] =>
      let p := strtol arg 10 in
      if negb (bool_decide (st_rest p = "")) then None else
      let blocks := u64 (st_value p) in
      if (1024 * (u32 (1024 * 1024) / pagesize))%C <? blocks then None
      else Some (pagesize * blocks)%C
  | _ => None
  end.

(** How the calls on the file turn out. *)
Record calls := Calls { opens : bool; truncates : bool; maps : bool }.

(** The loop [for (size_t ix = 0; ix < length / sizeof(size_t); ++ix)] on the words
    of the mapping; [None] is a write outside it. *)
Fixpoint fill_loop (fuel : nat) (ix length_ : Z) (mem : list Z) : option (list Z) :=
  if ix <? length_ / 8 then
    match fuel with
    | O => None
    | S fuel =>
        if (Z.to_nat ix <? length mem)%nat then
          fill_loop fuel (ix + 1)%C length_ (<[Z.to_nat ix := ix]> mem)
        else None
    end
  else Some mem.

(** [main]: the exit status, and the words of the file when the program changes
    them; a failing [msync], [munmap] or [close] only prints a message. [old] is
    what the file holds, [ftruncate] cuts it or extends it with zeros. *)
Definition mmapfill_main (pagesize : Z) (args : list string) (c : calls) (old : list Z) :
    option (Z * option (list Z)) :=
  match file_length pagesize args with
  | None => Some (EXIT_FAILURE, None)
  | Some length_ =>
      if negb (opens c) then Some (EXIT_FAILURE, None)
      else if negb (truncates c) then Some (EXIT_FAILURE, None)
      else
        let file := resize (Z.to_nat (length_ / 8)) 0 old in
        (* a mapping of length 0 is refused *)
        if negb (maps c) || (length_ =? 0) then Some (EXIT_FAILURE, Some file)
        else
          file ← fill_loop (Z.to_nat (length_ / 8)) 0 length_ file;
          Some (EXIT_SUCCESS, Some file)
  end.

(* ------------------------------------------------------------------ *)
(** ** Properties *)

(** The test before the multiplication is as strong as it claims. *)
Lemma file_length_bound pagesize args length_ :
  0 < pagesize < 2 ^ 64 -> file_length pagesize args = Some length_ ->
  exists blocks, 0 <= blocks /\ length_ = pagesize * blocks /\ length_ <= 2 ^ 30.
Proof.
  intros Hp. unfold file_length. destruct args as [|a [|arg [|]]]; try done.
  destruct (negb _); [done|]. rewrite (u32_small (1024 * 1024)) by lia.
  set (blocks := u64 (st_value (strtol arg 10))).
  assert (0 <= blocks < 2 ^ 64) as Hb by apply u64_range.
  assert (0 <= 1024 * 1024 / pagesize <= 1024 * 1024) as Hq.
  { split; [apply Z.div_pos; lia|]. apply Z.div_le_upper_bound; nia. }
  pose proof (Z.mul_div_le (1024 * 1024) pagesize ltac:(lia)) as Hm.
  rewrite (u64_small (1024 * _)) by lia.
  destruct (Z.ltb_spec (1024 * (1024 * 1024 / pagesize)) blocks); [done|].
  intros [= <-]. exists blocks. assert (pagesize * blocks <= 2 ^ 30) by nia.
  rewrite u64_small by nia. split_and!; [lia|done|lia].
Qed.

Lemma fill_loop_spec n : forall fuel ix length_ pre todo,
  0 <= ix -> length_ <= 2 ^ 30 -> ix = Z.of_nat (length pre) -> length_ / 8 = ix + Z.of_nat n ->
  length todo = n -> (n <= fuel)%nat ->
  fill_loop fuel ix length_ (pre ++ todo)%list = Some (pre ++ seqZ ix (Z.of_nat n))%list.
Proof.
  induction n as [|n IH]; intros fuel ix length_ pre todo H0 Hl Hix Hn Ht Hf.
  - destruct todo; [|done]. rewrite app_nil_r.
    destruct fuel; simpl; rewrite (proj2 (Z.ltb_ge _ _)) by lia; by rewrite app_nil_r.
  - destruct todo as [|w todo]; [done|]. destruct fuel as [|fuel]; [lia|]. cbn [fill_loop].
    assert (length_ / 8 <= 2 ^ 30) by (apply Z.div_le_upper_bound; lia).
    rewrite (proj2 (Z.ltb_lt _ _)) by lia. rewrite (proj2 (Nat.ltb_lt _ _)) by (rewrite length_app; simpl; lia).
    rewrite u64_small by lia.
    replace (<[Z.to_nat ix := ix]> (pre ++ w :: todo)%list) with ((pre ++ [ix]) ++ todo)%list.
    2:{ rewrite insert_app_r_alt by lia. replace (Z.to_nat ix - length pre)%nat with 0%nat by lia.
        by rewrite <- app_assoc. }
    rewrite (IH fuel (ix + 1)); [|lia|lia|rewrite length_app; simpl; lia|lia|by injection Ht|lia].
    rewrite <- app_assoc. do 2 f_equal. simpl. rewrite (seqZ_cons ix) by lia.
    rewrite <- Z.add_1_r. do 2 f_equal. lia.
Qed.

(** Whatever the arguments, the page size and the old file: the length passes the
    check only as [pagesize * blocks] exactly, at most 2^30 (a negative number is
    a huge [size_t], and refused), no word is written outside the mapping, and on
    success the file consists of the numbers of its words. *)
Theorem mmapfill_result (pagesize : Z) (args : list string) (c : calls) (old : list Z)
    (Hp : 0 < pagesize < 2 ^ 64) :
  exists status file, mmapfill_main pagesize args c old = Some (status, file) /\
    (status = EXIT_SUCCESS ->
     exists blocks, 0 < blocks /\ pagesize * blocks <= 2 ^ 30 /\
       file = Some (seqZ 0 (pagesize * blocks / 8))).
Proof.
  unfold mmapfill_main. destruct (file_length pagesize args) as [length_|] eqn:El; [|by do 2 eexists].
  destruct (file_length_bound _ _ _ Hp El) as (blocks & Hb & -> & Hl).
  destruct (opens c); [|by do 2 eexists]. destruct (truncates c); [|by do 2 eexists].
  destruct (maps c); [|by do 2 eexists]. simpl.
  destruct (Z.eqb_spec (pagesize * blocks) 0); [by do 2 eexists|].
  assert (0 <= pagesize * blocks / 8) by (apply Z.div_pos; lia).
  assert (pagesize * blocks / 8 <= 2 ^ 30) by (apply Z.div_le_upper_bound; lia).
  pose proof (fill_loop_spec (Z.to_nat (pagesize * blocks / 8)) (Z.to_nat (pagesize * blocks / 8)) 0
    (pagesize * blocks) [] (resize (Z.to_nat (pagesize * blocks / 8)) 0 old)) as Hfill.
  simpl in Hfill. rewrite Hfill; [|lia|lia|done|lia|apply length_resize|lia].
  cbn [mbind option_bind]. do 2 eexists. split; [done|]. intros _. exists blocks.
  split_and!; [nia|lia|]. by rewrite Z2Nat.id.
Qed.

Theorem mmapfill_result_witness :
  0 < 8 < 2 ^ 64 /\ fst <$> mmapfill_main 8 ["f"; "3"] (Calls true true true) [9] = Some EXIT_SUCCESS /\
  exists status file, mmapfill_main 8 ["f"; "3"] (Calls true true true) [9] = Some (status, file) /\
    (status = EXIT_SUCCESS ->
     exists blocks, 0 < blocks /\ 8 * blocks <= 2 ^ 30 /\ file = Some (seqZ 0 (8 * blocks / 8))).
Proof.
  split; [done|]. split; [vm_compute; reflexivity|].
  apply (mmapfill_result 8 ["f"; "3"] (Calls true true true) [9]). done.
Defined.

(** A negative number of blocks is refused, an empty one is 0. *)
Example negative_blocks : file_length 4096 ["f"; "-1"] = None /\ file_length 4096 ["f"; ""] = Some 0.
Proof. split; reflexivity. Qed.
