(* ===== verification/PipeRun.v ===== *)
(** [ex10/pipe/pipe.c]: running two programs joined by a pipe; the command lines
    are the two halves of [argv] around an argument [":"]. *)

From S2P Require Import Prelude.
From stdpp Require Import gmap.

Open Scope Z_scope.

(** A pointer of an argument vector; [None] is [NULL]. *)
Abbreviation arg := (option string).

(** The search for [":"] in [argv], which a null pointer ends. *)
Fixpoint find_colon (argv : list arg) : nat :=
  match argv with
  | Some a :: argv => if bool_decide (a = ":"%string) then 0 else S (find_colon argv)
  | _ => 0
  end.

(** [memcpy(dst, src, n * sizeof(char * ))] from [src], into a block of [room]
    pointers that [calloc] has cleared; [None] is an access outside either. *)
Definition copy_args (room n : Z) (src : list arg) : option (list arg) :=
  if (n <=? room) && (n <=? Z.of_nat (length src)) then
    Some (take (Z.to_nat n) src ++ replicate (Z.to_nat (room - n)) None)
  else None.

(** What a descriptor stands for: what the program was started with, or an end of the
    pipe; and the descriptors of a process. *)
Inductive stream := Inherited (fd : Z) | PipeRead | PipeWrite.
Abbreviation descriptors := (gmap Z stream).

Definition STDIN_FILENO : Z := 0.
Definition STDOUT_FILENO : Z := 1.

Definition std : descriptors := {[ 0 := Inherited 0; 1 := Inherited 1; 2 := Inherited 2 ]}.

(** [pipe]: the two ends get the lowest free numbers. *)
Definition pipe (fds : descriptors) : Z * Z * descriptors := (3, 4, <[4 := PipeWrite]> (<[3 := PipeRead]> fds)).
Definition close (fd : Z) (fds : descriptors) : descriptors := delete fd fds.
Definition dup2 (old new : Z) (fds : descriptors) : option descriptors :=
  f ← fds !! old; Some (<[new := f]> fds).

(** What becomes of a process: another program, or its end. *)
Inductive process := Execs (argv : list arg) (fds : descriptors) | Exits (status : Z).

(** What may fail: the two [calloc]s, [pipe], [fork], [dup2] in each process, and the
    programs that cannot be executed. *)
Record failures := Failures {
  no_argv1 : bool; no_argv2 : bool; no_pipe : bool; no_fork : bool;
  no_dup_child : bool; no_dup_parent : bool; no_exec : list arg -> bool }.

(** [child]: [argv] with its standard output on the pipe; [parent]: its standard
    input. *)
Definition child (f : failures) (pipefd : Z * Z) (argv : list arg) (fds : descriptors) : process :=
  let fds := close pipefd.1 fds in
  match (if no_dup_child f then None else dup2 pipefd.2 STDOUT_FILENO fds) with
  | None => Exits EXIT_FAILURE
  | Some fds => if no_exec f argv then Exits EXIT_FAILURE else Execs argv fds
  end.

Definition parent (f : failures) (pipefd : Z * Z) (argv : list arg) (fds : descriptors) : process :=
  let fds := close pipefd.2 fds in
  match (if no_dup_parent f then None else dup2 pipefd.1 STDIN_FILENO fds) with
  | None => Exits EXIT_FAILURE
  | Some fds => if no_exec f argv then Exits EXIT_FAILURE else Execs argv fds
  end.

Inductive result :=
| Failed                       (* [err] or [error]: exit status 1 *)
| Running (parent child : process).

(** [main]; [argv] holds its [argc] arguments and the null pointer after them. When [pipe]
    fails, which is not checked, its result is used without a value. *)
Definition pipe_main (f : failures) (argv : list arg) : option result :=
  let argc := Z.of_nat (length argv) - 1 in
  let loc := Z.of_nat (find_colon argv) in
  if loc =? argc then Some Failed
  else if no_argv1 f then Some Failed
  else if no_argv2 f then Some Failed
  else
    argv1 ← copy_args (loc - 1 + 1)%C (loc - 1)%C (drop 1 argv);
    argv2 ← copy_args (argc - loc + 1)%C (argc - loc)%C (drop (Z.to_nat (loc + 1)) argv);
    if no_fork f then Some Failed
    else if no_pipe f then None
    else
      let '(r, w, fds) := pipe std in
      Some (Running (parent f (r, w) argv1 fds) (child f (r, w) argv2 fds)).

(* ------------------------------------------------------------------ *)
(** ** Properties *)

(** The pointers of a command line, with the null pointer after them. *)
Definition vector (args : list string) : list arg := map Some args ++ [None].

Definition no_failure : failures := Failures false false false false false false (fun _ => false).

(** The descriptors with which the two programs run. *)
Definition reader_fds : descriptors := <[0 := PipeRead]> (<[3 := PipeRead]> std).
Definition writer_fds : descriptors := <[1 := PipeWrite]> (<[4 := PipeWrite]> std).

Lemma find_colon_app (a : list string) (rest : list arg) :
  Forall (.≠ ":"%string) a -> find_colon (map Some a ++ rest) = (length a + find_colon rest)%nat.
Proof. induction 1 as [|x a Hx _ IH]; [done|]. simpl. by rewrite bool_decide_eq_false_2, IH. Qed.

Lemma length_vector args : length (vector args) = S (length args).
Proof. unfold vector. rewrite length_app, length_map. simpl. lia. Qed.

Lemma reader_cannot_write fd : reader_fds !! fd <> Some PipeWrite.
Proof.
  unfold reader_fds, std. intros H. repeat (apply lookup_insert_Some in H as [[_ H]|[_ H]]; [done|]).
  by apply lookup_singleton_Some in H as [_ H].
Qed.

(** On the command line [prog a : b] nothing is read or written out of bounds, and
    both halves reach their process complete and terminated: the first, [a], is
    run by the parent, reading from the pipe, and [b] by the child, writing to
    it. The reader has no end to write to: it finds the end of its input when the writer
    is done. *)
Theorem pipe_split (prog : string) (a b : list string)
    (Hp : prog <> ":"%string) (Ha : Forall (.≠ ":"%string) a)
    (Hl : Z.of_nat (length a) + Z.of_nat (length b) + 2 < 2 ^ 63) :
  pipe_main no_failure (vector (prog :: a ++ ":"%string :: b)) =
    Some (Running (Execs (vector a) reader_fds) (Execs (vector b ++ [None]) writer_fds)) /\
  (forall fd, reader_fds !! fd <> Some PipeWrite).
Proof.
  split; [|exact reader_cannot_write].
  unfold pipe_main. cbn [no_failure no_argv1 no_argv2 no_fork no_pipe]. rewrite length_vector.
  assert (vector (prog :: a ++ ":"%string :: b) = map Some (prog :: a) ++ Some ":"%string :: vector b) as ->.
  { unfold vector. rewrite !map_cons, map_app. cbn. by rewrite <- app_assoc. }
  assert (find_colon (map Some (prog :: a) ++ Some ":"%string :: vector b) = S (length a)) as ->.
  { rewrite find_colon_app by (by constructor). simpl. lia. }
  cbn [length]. rewrite length_app. cbn [length].
  set (n := Z.of_nat (length a)) in *. set (m := Z.of_nat (length b)) in *.
  assert (0 <= n /\ 0 <= m) as [Hn Hm] by lia.
  replace (Z.of_nat (S (length a))) with (n + 1) by lia.
  replace (Z.of_nat (S (S (length a + S (length b)))) - 1) with (n + m + 2) by lia.
  rewrite (proj2 (Z.eqb_neq _ _)) by lia.
  replace (n + m + 2 - (n + 1)) with (m + 1) by lia. replace (n + 1 - 1) with n by lia.
  rewrite !u64_small by lia.
  assert (copy_args (n + 1) n (drop 1 (map Some (prog :: a) ++ Some ":"%string :: vector b)) = Some (vector a)) as ->.
  { unfold copy_args. cbn [map app]. rewrite (skipn_cons 0), drop_0, length_app, length_map.
    rewrite (proj2 (Z.leb_le _ _)), (proj2 (Z.leb_le _ _)) by (simpl; lia). simpl.
    replace (Z.to_nat n) with (length (map (@Some string) a)) by (rewrite length_map; lia).
    rewrite take_app_length. by replace (Z.to_nat (n + 1 - n)) with 1%nat by lia. }
  assert (copy_args (m + 1 + 1) (m + 1) (drop (Z.to_nat (n + 1 + 1)) (map Some (prog :: a) ++ Some ":"%string :: vector b))
          = Some (vector b ++ [None])) as ->.
  { unfold copy_args.
    rewrite cons_middle, app_assoc, drop_app_length'
      by (rewrite length_app, length_map; simpl; lia).
    rewrite length_vector.
    rewrite (proj2 (Z.leb_le _ _)), (proj2 (Z.leb_le _ _)) by lia. simpl.
    rewrite take_ge by (rewrite length_vector; lia).
    by replace (Z.to_nat (m + 1 + 1 - (m + 1))) with 1%nat by lia. }
  done.
Qed.

(** Without [":"] the program only fails. *)
Lemma pipe_no_colon f prog a :
  Forall (.≠ ":"%string) (prog :: a) -> pipe_main f (vector (prog :: a)) = Some Failed.
Proof.
  intros Ha. unfold pipe_main. rewrite length_vector.
  assert (find_colon (vector (prog :: a)) = length (prog :: a)) as ->.
  { unfold vector. rewrite find_colon_app by done. simpl. lia. }
  by replace (Z.of_nat (S (length (prog :: a))) - 1) with (Z.of_nat (length (prog :: a))) by lia; rewrite Z.eqb_refl.
Qed.

(** [pipe ls : wc] gives [wc] the writing end and [ls] the reading end. *)
Example halves_swapped :
  pipe_main no_failure (vector ["pipe"; "ls"; ":"; "wc"]%string) =
  Some (Running (Execs [Some "ls"%string; None] reader_fds)
                (Execs [Some "wc"%string; None; None] writer_fds)).
Proof. vm_compute. reflexivity. Qed.

(** When the program itself is called [":"] the size of the first copy wraps
    around. *)
Example colon_program : pipe_main no_failure (vector [":"; "x"]%string) = None.
Proof. reflexivity. Qed.

Lemma pipe_split_witness :
  pipe_main no_failure (vector ["pipe"; "ls"; "-l"; ":"; "wc"]%string) =
  Some (Running (Execs (vector ["ls"; "-l"]%string) reader_fds)
                (Execs (vector ["wc"]%string ++ [None]) writer_fds)).
Proof.
  refine (proj1 (pipe_split "pipe" ["ls"; "-l"]%string ["wc"]%string _ _ _)); [done| |simpl; lia].
  by repeat constructor.
Defined.

(** When [pipe] fails both processes use descriptors that have no value. *)
Example unchecked_pipe :
  pipe_main (Failures false false true false false false (fun _ => false)) (vector ["pipe"; "ls"; ":"; "wc"]%string) = None.
Proof. vm_compute. reflexivity. Qed.

(** A program that cannot be executed is only seen in the status of its own process. *)
Example first_missing :
  pipe_main (Failures false false false false false false (fun a => bool_decide (head a = Some (Some "wc"%string))))
    (vector ["pipe"; "ls"; ":"; "wc"]%string) =
  Some (Running (Execs [Some "ls"%string; None] reader_fds) (Exits EXIT_FAILURE)).
Proof. vm_compute. reflexivity. Qed.
