(* ===== verification/PipeCopy.v ===== *)
(** [ex10/pipes/child.c] and [ex10/pipes/dup.c]: one process writes into a pipe and the
    other copies it to its output until the end of the file, which is there when no
    descriptor for writing is left in either. *)

From S2P Require Import Prelude.
From Stdlib Require Import Ascii.

Open Scope Z_scope.

(** The bytes in the pipe, and the descriptors for writing in both processes. *)
Record pipe := Pipe { bytes : list ascii; ends : nat }.

(** [read] of one byte: [None] waits, [Some None] is the end of the file. *)
Definition read1 (p : pipe) : option (option ascii * pipe) :=
  match bytes p with
  | c :: l => Some (Some c, Pipe l (ends p))
  | [] => if (ends p =? 0)%nat then Some (None, p) else None
  end.

(** [write] of one byte into a pipe of size [cap]; it waits while the pipe is full. *)
Definition write1 (cap : nat) (c : ascii) (p : pipe) : option pipe :=
  if (length (bytes p) <? cap)%nat then Some (Pipe (bytes p ++ [c]) (ends p)) else None.

Definition close_ends (n : nat) (p : pipe) : pipe := Pipe (bytes p) (ends p - n).

(** The writer: before [close(pipefd[0])], [dup2], with these bytes to write, before it
    gives back its descriptors, before [wait], after its end: at the end of its program, or
    in [err] because [dup2] or [execlp] failed. The reader: before [close(pipefd[1])],
    [read], [write] of a byte, of the newline, before [close(pipefd[0])], [wait]. *)
Inductive writer := WClose | WDup | WSend (rest : list ascii) | WEnd | WWait | WDone | WFailed.
Inductive reader := RClose | RRead | RPut (c : ascii) | RNewline | RCloseRead | RWait | RDone.

Record state := State { the_pipe : pipe; wr : writer; rd : reader; out : list ascii }.

Section programs.
(** Which program: in [child.c] the parent writes; in [dup.c] the child does, with its
    output redirected by [dup2], after [exec] has made it a program that writes [data]
    and exits. *)
Context (dup : bool) (data : list ascii) (cap : nat).

(** After [pipe] and [fork]. *)
Definition start : state := State (Pipe [] 2) WClose RClose [].

(** [main] up to there: both processes run; or the program exits with a message of [err]; or,
    as [dup.c] does not look at the result of [pipe], they run with numbers for descriptors
    that nobody has set. *)
Inductive launched := Running (s : state) | Exits (message : string) | Unset.

Definition main (pipe_ok fork_ok : bool) : launched :=
  if negb pipe_ok && negb dup then Exits "pipe"
  else if negb fork_ok then Exits "fork"
  else if pipe_ok then Running start else Unset.

(** The descriptors that the writer gives back at its end. *)
Definition held : nat := if dup then 2 else 1.

(** [parent] of [child.c], [child] of [dup.c]; [ok] tells whether [dup2] or [execlp]
    succeeds: if not the child exits. *)
Definition writer_step (ok : bool) (s : state) : option state :=
  let to w := State (the_pipe s) w (rd s) (out s) in
  match wr s with
  | WClose => Some (if dup then to WDup else to (WSend data))
  | WDup =>
      Some (if ok then State (Pipe (bytes (the_pipe s)) (S (ends (the_pipe s)))) (WSend data) (rd s) (out s)
            else State (close_ends 1 (the_pipe s)) WFailed (rd s) (out s))
  | WSend [] => Some (to WEnd)
  | WSend (c :: rest) => p ← write1 cap c (the_pipe s); Some (State p (WSend rest) (rd s) (out s))
  | WEnd => Some (State (close_ends held (the_pipe s)) (if dup then WDone else WWait) (rd s) (out s))
  | WWait => match rd s with RDone => Some (to WDone) | _ => None end
  | WDone | WFailed => None
  end.

(** [child] of [child.c], [parent] of [dup.c]. *)
Definition reader_step (s : state) : option state :=
  let to r := State (the_pipe s) (wr s) r (out s) in
  match rd s with
  | RClose => Some (State (close_ends 1 (the_pipe s)) (wr s) RRead (out s))
  | RRead =>
      '(c, p) ← read1 (the_pipe s);
      Some (State p (wr s) (match c with Some c => RPut c | None => if dup then RCloseRead else RNewline end) (out s))
  | RPut c => Some (State (the_pipe s) (wr s) RRead (out s ++ [c]))
  | RNewline => Some (State (the_pipe s) (wr s) RCloseRead (out s ++ ["010"%char]))
  | RCloseRead => Some (to (if dup then RWait else RDone))
  | RWait => match wr s with WDone | WFailed => Some (to RDone) | _ => None end
  | RDone => None
  end.

Inductive event := Writer (ok : bool) | Reader.

Definition step (e : event) (s : state) : option state :=
  match e with Writer ok => writer_step ok s | Reader => reader_step s end.

Fixpoint run (es : list event) (s : state) : option state :=
  match es with [] => Some s | e :: es => s' ← step e s; run es s' end.

(* ------------------------------------------------------------------ *)
(** ** Properties *)

(** The descriptors for writing that each process has. *)
Definition writer_ends (w : writer) : nat :=
  match w with WClose | WDup => 1 | WSend _ | WEnd => held | WWait | WDone | WFailed => 0 end.
Definition reader_ends (r : reader) : nat := match r with RClose => 1 | _ => 0 end.

(** What the writer has still to write, and the reader in its hands. *)
Definition unsent (w : writer) : list ascii :=
  match w with WClose | WDup => data | WSend rest => rest | _ => [] end.
Definition pending (r : reader) : list ascii := match r with RPut c => [c] | _ => [] end.
Definition ended (r : reader) : bool := match r with RNewline | RCloseRead | RWait | RDone => true | _ => false end.
Definition newline_of (r : reader) : list ascii :=
  match r with RCloseRead | RWait | RDone => if dup then [] else ["010"%char] | _ => [] end.

(** The places that occur in one of the programs only. *)
Definition valid (w : writer) (r : reader) : bool :=
  match w with WDup => dup | WWait => negb dup | _ => true end &&
  match r with RWait => dup | RNewline => negb dup | _ => true end.

(** Nothing is lost on the way, and nothing is sent by a writer that has failed. *)
Definition whole (s : state) : Prop :=
  wr s <> WFailed ->
  out s ++ pending (rd s) ++ bytes (the_pipe s) ++ unsent (wr s) = data ++ newline_of (rd s).
Definition nothing (s : state) : Prop :=
  wr s = WFailed -> dup = true /\ out s = [] /\ pending (rd s) = [] /\ bytes (the_pipe s) = [].

Record inv (s : state) : Prop := {
  inv_ends : ends (the_pipe s) = (writer_ends (wr s) + reader_ends (rd s))%nat;
  inv_valid : valid (wr s) (rd s) = true;
  inv_ended : ended (rd s) = true -> bytes (the_pipe s) = [] /\ writer_ends (wr s) = 0%nat;
  inv_whole : whole s;
  inv_nothing : nothing s
}.

Lemma held_pos : (1 <= held)%nat.
Proof. unfold held. destruct dup; lia. Qed.

Lemma pipe_start_inv : inv start.
Proof. split; try done. intros _. simpl. by rewrite app_nil_r. Qed.

(** While the writer has descriptors, the reader has not seen the end. *)
Lemma not_ended s : inv s -> (0 < writer_ends (wr s))%nat -> ended (rd s) = false /\ newline_of (rd s) = [].
Proof.
  intros Hi Hw. pose proof (inv_ended s Hi) as He. destruct (rd s); try done; destruct (He eq_refl); lia.
Qed.

(** The definitions that depend on the program. *)
Local Ltac program := unfold whole, valid, writer_ends, newline_of, held in *; destruct dup eqn:?.
Local Ltac split_inv := split; program; simpl in *; try done; try lia.

Lemma writer_inv ok s s' : inv s -> writer_step ok s = Some s' -> inv s'.
Proof.
  intros Hi H. pose proof Hi as [He Hv Hn Hb Hz]. pose proof (not_ended s Hi) as Hne. pose proof held_pos as Hh.
  unfold writer_step in H. destruct s as [[b n] w r o]. unfold whole in Hb. simpl in *.
  destruct w as [| |[|c rest]| | | |]; simpl in *; try (specialize (Hne ltac:(lia)) as [Hr Hnl]);
    try specialize (Hb ltac:(done)); clear Hz.
  - destruct dup eqn:Hd; injection H as <-; split_inv; by rewrite ?Hr.
  - destruct ok; injection H as <-; unfold close_ends; split_inv; rewrite ?Hr; try done.
    intros _. simpl. rewrite Hnl, app_nil_r in Hb. rewrite !app_assoc in Hb. apply (app_inv_tail _ _ []) in Hb.
    apply app_nil in Hb as [Hb ->]. by apply app_nil in Hb as [-> ->].
  - injection H as <-. split_inv; by rewrite ?Hr.
  - unfold write1 in H. simpl in H. destruct (_ <? _)%nat; [|done]. injection H as <-.
    split_inv; rewrite ?Hr; try done; intros _; by rewrite <- app_assoc.
  - injection H as <-. unfold close_ends. split_inv; by rewrite ?Hr.
  - destruct r; try done. injection H as <-. by split_inv.
  - done.
  - done.
Qed.

Lemma no_ends w : writer_ends w = 0%nat -> unsent w = [].
Proof. pose proof held_pos. destruct w; simpl; done || lia. Qed.

(** The reader hands on what it holds. *)
Lemma reader_keeps b n w r o b' n' r' o' :
  whole (State (Pipe b n) w r o) -> nothing (State (Pipe b n) w r o) ->
  newline_of r' = newline_of r -> o' ++ pending r' ++ b' = o ++ pending r ++ b ->
  whole (State (Pipe b' n') w r' o') /\ nothing (State (Pipe b' n') w r' o').
Proof.
  unfold whole, nothing. simpl. intros Hb Hz E1 E2. split.
  - intros Hw. rewrite E1, <- (Hb Hw). rewrite !app_assoc in *. by rewrite E2.
  - intros Hw. destruct (Hz Hw) as (H1 & H3 & H4 & H5). rewrite H3, H4, H5 in E2.
    apply app_nil in E2 as [-> [? ->]%app_nil]. done.
Qed.

Lemma reader_inv s s' : inv s -> reader_step s = Some s' -> inv s'.
Proof.
  intros Hi H. pose proof Hi as [He Hv Hn Hb Hz]. unfold reader_step in H. destruct s as [[b n] w r o].
  assert (ended r = true -> b = [] /\ unsent w = []) as He'.
  { intros E. destruct (Hn E) as [? ?%no_ends]. done. }
  assert (forall b' n' r' o', newline_of r' = newline_of r -> o' ++ pending r' ++ b' = o ++ pending r ++ b ->
    whole (State (Pipe b' n') w r' o') /\ nothing (State (Pipe b' n') w r' o')) as Hsame.
  { intros. by eapply reader_keeps. }
  simpl in *. destruct r as [| |c| | | |]; simpl in *.
  - injection H as <-. unfold close_ends. destruct (Hsame b (n - 1)%nat RRead o); try done.
    split; simpl; [lia|done|done|done|done].
  - unfold read1 in H. simpl in H. destruct b as [|c b].
    + destruct (Nat.eqb_spec n 0) as [E|]; [|done]. simpl in H. injection H as <-.
      assert (writer_ends w = 0%nat) as Hw by lia. unfold valid in Hv. rewrite andb_true_r in Hv.
      edestruct (Hsame [] n (if dup then RCloseRead else RNewline) o) as [W1 W2];
        [by destruct dup eqn:E'; simpl; rewrite ?E'|by destruct dup|].
      destruct dup eqn:Hd; (split; simpl; [lia|by unfold valid; rewrite ?Hd, ?andb_true_r|done|done|done]).
    + simpl in H. injection H as <-. destruct (Hsame b n (RPut c) o); [done|done|]. by split.
  - injection H as <-. destruct (Hsame b n RRead (o ++ [c])); [done|by simpl; rewrite <- app_assoc|]. by split.
  - injection H as <-. destruct (He' eq_refl) as [-> Hu]. unfold valid in Hv. apply andb_true_iff in Hv as [Hv Hd].
    apply negb_true_iff in Hd. split; simpl; [done|unfold valid; by rewrite Hv|exact Hn| |].
    + unfold whole in *. simpl in *. intros Hw. specialize (Hb Hw). rewrite Hu, Hd, !app_nil_r in *. by rewrite Hb.
    + intros Hw. destruct (Hz Hw). congruence.
  - injection H as <-. destruct (He' eq_refl) as [-> Hu]. unfold valid in Hv. rewrite andb_true_r in Hv.
    destruct (Hsame [] n (if dup then RWait else RDone) o) as [W1 W2];
      [by destruct dup eqn:E'; simpl; rewrite ?E'|by destruct dup|].
    destruct dup eqn:Hd; (split; simpl; [done|by unfold valid; rewrite ?Hd, ?andb_true_r|exact Hn|done|done]).
  - destruct (Hsame b n RDone o) as [W1 W2]; [done|done|].
    destruct w; try done; injection H as <-;
      (split; simpl; [done|by unfold valid; rewrite andb_true_r|exact Hn|done|done]).
  - done.
Qed.

Lemma pipe_run_inv es : forall s s', inv s -> run es s = Some s' -> inv s'.
Proof.
  induction es as [|e es IH]; intros s s' Hi H; simpl in H; [by injection H as <-|].
  destruct (step e s) as [s1|] eqn:E; [|done]. eapply IH; [|exact H].
  destruct e; [by eapply writer_inv|by eapply reader_inv].
Qed.

(** A step brings the processes nearer to their ends. *)
Definition writer_rank (w : writer) : nat :=
  match w with
  | WClose => 3 * length data + 5 | WDup => 3 * length data + 4 | WSend rest => 3 * length rest + 3
  | WEnd => 2 | WWait => 1 | WDone | WFailed => 0
  end.
Definition reader_rank (r : reader) : nat :=
  match r with RClose => 6 | RRead => 4 | RPut _ => 5 | RNewline => 3 | RCloseRead => 2 | RWait => 1 | RDone => 0 end.
Definition rank (s : state) : nat :=
  (writer_rank (wr s) + 2 * length (bytes (the_pipe s)) + reader_rank (rd s))%nat.

Lemma pipe_step_rank e s s' : step e s = Some s' -> (rank s' < rank s)%nat.
Proof.
  destruct s as [[b n] w r o]. destruct e as [ok|]; simpl; intros H.
  - unfold writer_step, write1, close_ends in H. simpl in H.
    repeat (case_match; simplify_eq/=); unfold rank; simpl; rewrite ?length_app; simpl; lia.
  - unfold reader_step, read1, close_ends in H. simpl in H.
    repeat (case_match; simplify_eq/=); unfold rank; simpl; lia.
Qed.

Lemma pipe_run_rank es : forall s s', run es s = Some s' -> (length es + rank s' <= rank s)%nat.
Proof.
  induction es as [|e es IH]; intros s s' H; simpl in H; [injection H as <-; simpl; lia|].
  destruct (step e s) as [s1|] eqn:E; [|done]. apply pipe_step_rank in E. specialize (IH _ _ H). simpl. lia.
Qed.

(** Both processes are over. *)
Definition over (s : state) : bool :=
  match wr s, rd s with (WDone | WFailed), RDone => true | _, _ => false end.

(** While one of the processes has not ended, one of them can go on. *)
Lemma pipe_progress s : inv s -> (0 < cap)%nat -> over s = false -> exists e s', step e s = Some s'.
Proof.
  intros [He Hv Hn Hb _] Hc Hne. destruct s as [[b n] w r o]. simpl in *.
  assert (reader_step (State (Pipe b n) w r o) = None ->
    (r = RRead /\ b = [] /\ n <> 0%nat) \/ (r = RWait /\ w <> WDone /\ w <> WFailed) \/ r = RDone) as Hr.
  { unfold reader_step, read1. simpl. destruct r; simpl; try done; [destruct b; [|done]|destruct w; auto|auto].
    destruct (Nat.eqb_spec n 0); [done|auto]. }
  destruct (reader_step (State (Pipe b n) w r o)) as [s'|] eqn:E; [by exists Reader, s'|].
  exists (Writer true). simpl. unfold writer_step, write1. simpl.
  destruct (Hr eq_refl) as [(-> & -> & Hn0) | [(-> & Hw & Hf) | ->]]; simpl in *.
  - destruct w as [| |[|c rest]| | | |]; simpl in *; try lia; try (by eexists).
    destruct (Nat.ltb_spec 0 cap); [by eexists|lia].
  - destruct (Hn eq_refl) as [-> Hw0]. pose proof held_pos. destruct w as [| |[|c rest]| | | |]; try done; simpl in *; try lia.
    unfold valid in Hv. simpl in Hv. by destruct dup.
  - destruct (Hn eq_refl) as [-> Hw0]. pose proof held_pos. destruct w as [| |[|c rest]| | | |]; simpl in *; try lia; [by eexists|done|done].
Qed.

(** What [dup2] and [execlp] answer in a run: the second step of the writer. *)
Definition answers (es : list event) : list bool :=
  omap (fun e => match e with Writer ok => Some ok | Reader => None end) es.
Definition fails (w : writer) (es : list event) : bool :=
  match w with
  | WClose => dup && bool_decide (answers es !! 1%nat = Some false)
  | WDup => bool_decide (answers es !! 0%nat = Some false)
  | WFailed => true
  | _ => false
  end.

Lemma fails_step e es s s' : step e s = Some s' -> fails (wr s) (e :: es) = fails (wr s') es.
Proof.
  destruct s as [[b n] w r o]. destruct e as [ok|]; simpl; intros H.
  - destruct w as [| |[|c rest]| | | |], ok; unfold writer_step, write1 in H; simpl in H; simplify_eq/=;
      repeat (case_match; simplify_eq/=); done.
  - unfold reader_step, read1 in H. simpl in H. destruct w; simplify_eq/=; repeat (case_match; simplify_eq/=); done.
Qed.

(** The writer has failed exactly when that answer was a failure. *)
Lemma run_fails es : forall s s', run es s = Some s' -> wr s' = WFailed <-> fails (wr s) es = true.
Proof.
  induction es as [|e es IH]; intros s s' H; simpl in H.
  - injection H as <-. destruct (wr s); simpl; rewrite ?andb_false_r; split; done.
  - destruct (step e s) as [s1|] eqn:E; [|done]. rewrite (fails_step e es s s1 E). by apply IH.
Qed.

(** C38: whatever is written, whatever the size of the pipe and however the two processes
    are scheduled, both end: while one has not, one of them can go on, and no run has
    more than [3 * length data + 11] steps. When both have ended, the reader has written
    all of [data], in order and once, and in [child.c] a newline; only if the second step
    of the child of [dup.c], that of [dup2] and [execlp], was a failure it has written
    nothing. *)
Theorem pipe_copies es s (Hcap : (0 < cap)%nat) (Hrun : run es start = Some s) :
  (length es <= 3 * length data + 11)%nat /\
  (over s = false -> exists e s', step e s = Some s') /\
  (over s = true ->
     out s = if dup && bool_decide (answers es !! 1%nat = Some false) then []
             else data ++ (if dup then [] else ["010"%char])).
Proof.
  pose proof (pipe_run_inv es _ _ pipe_start_inv Hrun) as Hi. pose proof (run_fails es _ _ Hrun) as Hf.
  simpl in Hf. split_and!.
  - apply pipe_run_rank in Hrun. unfold rank in Hrun. simpl in Hrun. lia.
  - by apply pipe_progress.
  - intros Ho. unfold over in Ho. destruct (rd s) eqn:Hr; try (by destruct (wr s)).
    destruct (inv_ended s Hi) as [Hb _]; [by rewrite Hr|].
    pose proof (inv_whole s Hi) as Hwh. pose proof (inv_nothing s Hi) as Hz. unfold whole, nothing in *.
    rewrite Hr, Hb in *. destruct (dup && _).
    + rewrite (proj2 Hf) in Hz by done. by destruct Hz as (_ & -> & _).
    + assert (wr s <> WFailed) as Hne by (intros ?; by apply Hf in H).
      specialize (Hwh Hne). simpl in Hwh. destruct (wr s); try done; simpl in Hwh; by rewrite <- Hwh, app_nil_r.
Qed.
End programs.

Definition hello : list ascii := String.list_ascii_of_string "Hello!".

(** [child.c]: both processes in turn, until they can no longer go on. *)
Fixpoint in_turn (n : nat) (dup : bool) (data : list ascii) (s : state) : list event :=
  match n with
  | O => []
  | S n =>
      match reader_step dup s, writer_step dup data 4 true s with
      | Some s', _ => Reader :: in_turn n dup data s'
      | None, Some s' => Writer true :: in_turn n dup data s'
      | None, None => []
      end
  end.
Definition child_run : list event := in_turn 40 false hello start.
Definition child_end : state := default start (run false hello 4 child_run start).

Definition failed_run : list event := [Writer true; Writer false; Reader; Reader; Reader; Reader].
Definition failed_end : state := default start (run true hello 4 failed_run start).

Theorem pipe_copies_witness :
  (run false hello 4 child_run start = Some child_end /\ out child_end = hello ++ ["010"%char]) /\
  run true hello 4 failed_run start = Some failed_end /\ out failed_end = [].
Proof.
  assert (run false hello 4 child_run start = Some child_end) as Hr by (vm_compute; reflexivity).
  assert (run true hello 4 failed_run start = Some failed_end) as Hf by (vm_compute; reflexivity).
  split; (split; [assumption|]).
  - exact (proj2 (proj2 (pipe_copies false hello 4 child_run child_end ltac:(lia) Hr)) ltac:(vm_compute; reflexivity)).
  - exact (proj2 (proj2 (pipe_copies true hello 4 failed_run failed_end ltac:(lia) Hf)) ltac:(vm_compute; reflexivity)).
Defined.
