(* ===== verification/Fork.v ===== *)
(** [ex13/mmap0/mmap0.c] and [ex05/vidlicky/vidlicky.c]: a parent and its child. A child
    inherits what is in the buffer of [stdout], and writes it when it exits. *)

From S2P Require Import Prelude.
From S2P Require Import CLib.

Open Scope string_scope.
Open Scope list_scope.
Open Scope Z_scope.

Definition SIGSEGV : Z := 11.

(** A status from [waitpid]. *)
Inductive wait_status := Exited (status : Z) | Killed (signal : Z).

(* ------------------------------------------------------------------ *)
(** ** [mmap0.c], built without [SILENT] *)

(** The lines in the buffer, and those that have reached the output. *)
Record stdio := Stdio { buffer : list string; written : list string }.

Definition flush (s : stdio) : stdio := Stdio [] (written s ++ buffer s).

Section mmap0.
(** Whether the output is a terminal, which has each line written at once. *)
Context (tty : bool).

Definition print (l : string) (s : stdio) : stdio :=
  let s := Stdio (buffer s ++ [l]) (written s) in if tty then flush s else s.

Definition dog : string := "Where is your dog now?" +:+ nl.
Definition died : string := "child process died with SIGSEGV" +:+ nl.
Definition fine : string := "child process finished successfully" +:+ nl.
Definition terminated (s : string) : string := "child process terminated with error status " +:+ s +:+ nl.

(** The child: it writes to address 0, which kills it unless that page is mapped; if it is
    killed its copy of the buffer is lost. It prints with [puts], into which compilers turn
    [printf] of this format. The result is its status and the output. *)
Definition child (mapped : bool) (s : stdio) : wait_status * list string :=
  if mapped then (Exited EXIT_SUCCESS, written (flush (print dog s)))
  else (Killed SIGSEGV, written s).

(** [test_null]; [None] is the exit when [fork] or [waitpid] fails. *)
Definition test_null (fork waitpid mapped : bool) (raw : wait_status -> string) (s : stdio) : option stdio :=
  if negb fork then None
  else
    let '(status, w) := child mapped s in
    let s := Stdio (buffer s) w in
    if negb waitpid then None
    else
      Some (print (match status with
                   | Killed sig => if sig =? SIGSEGV then died else terminated (raw status)
                   | Exited st => if st =? 0 then fine else terminated (raw status)
                   end) s).

(** [main], when [fork] and [waitpid] succeed: the status and the output. [mmap] tells whether
    page 0 can be mapped; [raw] is the number of a status. *)
Definition mmap0_main (mmap : bool) (raw : wait_status -> string) : option (Z * list string) :=
  s ← test_null true true false raw (Stdio [] []);
  if negb mmap then Some (EXIT_FAILURE, written (flush s))
  else s ← test_null true true true raw s; Some (EXIT_SUCCESS, written (flush s)).

(** Without a mapping the child dies, and with one it writes and reads through the null
    pointer. When the output is not a terminal, the line about the first child is in the
    buffer that the second inherits and appears twice. *)
Theorem mmap0_output raw :
  mmap0_main false raw = Some (EXIT_FAILURE, [died]) /\
  mmap0_main true raw =
    Some (EXIT_SUCCESS, if tty then [died; dog; fine] else [died; dog; died; fine]).
Proof. unfold mmap0_main, test_null, child, print. by destruct tty. Qed.
End mmap0.

(* ------------------------------------------------------------------ *)
(** ** [vidlicky.c] *)

(** A line: the process that printed it is the parent, with its child; or the child, with
    what [getppid] returned. *)
Inductive line := ParentLine (own pid : Z) | ChildLine (ppid own : Z).

Record processes := Processes { parent_done : bool; child_done : bool; lines : list line }.

Section vidlicky.
(** [ENABLE_WAIT]; the two processes, and the one that adopts orphans. *)
Context (enable_wait : bool) (parent_pid child_pid reaper : Z).

Inductive turn := Parent | Child.

Definition step (t : turn) (s : processes) : option processes :=
  match t with
  | Parent =>
      if parent_done s || (enable_wait && negb (child_done s)) then None
      else Some (Processes true (child_done s) (lines s ++ [ParentLine parent_pid child_pid]))
  | Child =>
      if child_done s then None
      else Some (Processes (parent_done s) true
                   (lines s ++ [ChildLine (if parent_done s then reaper else parent_pid) child_pid]))
  end.

Fixpoint run (ts : list turn) (s : processes) : option processes :=
  match ts with [] => Some s | t :: ts => s' ← step t s; run ts s' end.

(** [main]: [fork] may fail. *)
Definition vidlicky_main (fork : bool) (ts : list turn) : option (Z * list line) :=
  if fork then s ← run ts (Processes false false []); Some (EXIT_SUCCESS, lines s)
  else Some (EXIT_FAILURE, []).

(** When both have ended each has printed its line once. With [ENABLE_WAIT] the child comes
    first and still sees its parent; without, it may have been adopted. *)
Theorem vidlicky_lines ts s :
  run ts (Processes false false []) = Some s -> parent_done s = true -> child_done s = true ->
  lines s = [ChildLine parent_pid child_pid; ParentLine parent_pid child_pid] \/
  (enable_wait = false /\ lines s = [ParentLine parent_pid child_pid; ChildLine reaper child_pid]).
Proof.
  destruct ts as [|[] [|[] [|[] ?]]]; simpl; destruct enable_wait; simpl; try done;
    intros [= <-] ??; simpl in *; (done || auto).
Qed.
End vidlicky.
