(* ===== verification/Log.v ===== *)
(** [ex03/log/log.c]: sending a message to the system log. *)

From S2P Require Import Prelude.
From S2P Require Import CLib.
From Stdlib Require Import Ascii.

Open Scope string_scope.
Open Scope Z_scope.

(** The levels, facilities and options of [syslog.h]. *)
Definition LOG_EMERG : Z := 0.
Definition LOG_ALERT : Z := 1.
Definition LOG_CRIT : Z := 2.
Definition LOG_ERR : Z := 3.
Definition LOG_WARNING : Z := 4.
Definition LOG_NOTICE : Z := 5.
Definition LOG_INFO : Z := 6.
Definition LOG_DEBUG : Z := 7.
Definition LOG_USER : Z := Z.shiftl 1 3.
Definition LOG_CONS : Z := 2.
Definition LOG_PERROR : Z := 32.

(** [get_log_level]: each test replaces the result of those before it. *)
Definition get_log_level (level : string) : Z :=
  let result := -1 in
  let result := if bool_decide (level = "LOG_EMERG") then LOG_EMERG else result in
  let result := if bool_decide (level = "LOG_ALERT") then LOG_ALERT else result in
  let result := if bool_decide (level = "LOG_CRIT") then LOG_CRIT else result in
  let result := if bool_decide (level = "LOG_ERR") then LOG_ERR else result in
  let result := if bool_decide (level = "LOG_WARNING") then LOG_WARNING else result in
  let result := if bool_decide (level = "LOG_NOTICE") then LOG_NOTICE else result in
  let result := if bool_decide (level = "LOG_INFO") then LOG_INFO else result in
  let result := if bool_decide (level = "LOG_DEBUG") then LOG_DEBUG else result in
  result.

(** [struct options], with [open_log_opt] of [main]. *)
Record log_options := LogOptions { level : Z; ident : option string; open_log_opt : Z }.

Definition initial_options : log_options := LogOptions LOG_INFO None LOG_CONS.

(** What the program prints itself. *)
Inductive log_output := HelpText | VersionText | WrongLevel.

Definition help (argv0 : string) : string := "Was too lazy to write help, sucks eh" +:+ nl +:+ argv0 +:+ nl.
Definition version : string := "log 1.0" +:+ nl.

Definition log_output_text (argv0 : string) (o : log_output) : output :=
  match o with
  | HelpText => Stdout (help argv0)
  | VersionText => Stdout version
  | WrongLevel => Stderr "Wrong level argument"
  end.

(** The calls to the system log. *)
Inductive log_call :=
| Openlog (id : option string) (opt facility : Z)
| Syslog (priority : Z) (message : option string)
| Closelog.

(** The loop over what [getopt_long] returns, each option with its argument. *)
Fixpoint parse_log_options (opts : list (ascii * string)) (o : log_options) :
    (Z * log_output) + log_options :=
  match opts with
  | [] => inr o
  | (c, optarg) :: opts =>
      if bool_decide (c = "h"%char) then inl (EXIT_SUCCESS, HelpText)
      else if bool_decide (c = "v"%char) then inl (EXIT_SUCCESS, VersionText)
      else if bool_decide (c = "e"%char) then
        parse_log_options opts (LogOptions (level o) (ident o) LOG_PERROR)
      else if bool_decide (c = "l"%char) then
        let l := get_log_level optarg in
        if l =? -1 then inl (EXIT_FAILURE, WrongLevel)
        else parse_log_options opts (LogOptions l (ident o) (open_log_opt o))
      else if bool_decide (c = "i"%char) then
        parse_log_options opts (LogOptions (level o) (Some optarg) (open_log_opt o))
      else inl (EXIT_FAILURE, HelpText)
  end.

(** [main]: the status, what is printed and the calls to the log; [rest] are the
    arguments from [optind] on. *)
Definition log_main (opts : list (ascii * string)) (rest : list string) :
    Z * list log_output * list log_call :=
  match parse_log_options opts initial_options with
  | inl (status, out) => (status, [out], [])
  | inr o =>
      (EXIT_SUCCESS, [],
       [Openlog (ident o) (open_log_opt o) LOG_USER; Syslog (level o) (head rest); Closelog])
  end.

(* ------------------------------------------------------------------ *)
(** ** Properties *)

(** The name of a level. *)
Definition level_name (l : Z) : string :=
  if l =? 0 then "LOG_EMERG" else if l =? 1 then "LOG_ALERT" else if l =? 2 then "LOG_CRIT"
  else if l =? 3 then "LOG_ERR" else if l =? 4 then "LOG_WARNING" else if l =? 5 then "LOG_NOTICE"
  else if l =? 6 then "LOG_INFO" else "LOG_DEBUG".

(** [get_log_level] is the inverse of the names of the eight levels, and -1 on
    every other string. *)
Theorem get_log_level_names (s : string) (l : Z) (Hl : 0 <= l < 8) :
  get_log_level (level_name l) = l /\
  (get_log_level s = l <-> s = level_name l) /\
  (get_log_level s = -1 <-> forall k, 0 <= k < 8 -> s <> level_name k).
Proof.
  assert (forall P : Z -> Prop, (forall k, 0 <= k < 8 -> P k) <->
    P 0 /\ P 1 /\ P 2 /\ P 3 /\ P 4 /\ P 5 /\ P 6 /\ P 7) as Hall.
  { intros P. split; [intros HP; repeat split; apply HP; lia|].
    intros HP k Hk. assert (k = 0 \/ k = 1 \/ k = 2 \/ k = 3 \/ k = 4 \/ k = 5 \/ k = 6 \/ k = 7) by lia.
    naive_solver. }
  split; [|split].
  - revert l Hl. by apply Hall.
  - revert l Hl. apply Hall. unfold get_log_level. cbv [level_name Z.eqb Pos.eqb].
    repeat case_bool_decide; subst; by repeat split.
  - rewrite (Hall (fun k => s <> level_name k)). unfold get_log_level. cbv [level_name Z.eqb Pos.eqb].
    repeat case_bool_decide; subst; split; naive_solver.
Qed.

Lemma get_log_level_names_witness :
  get_log_level "LOG_ERR" = 3 /\ (get_log_level "err" = 3 <-> "err" = "LOG_ERR").
Proof.
  split.
  - apply (get_log_level_names "err" 3). lia.
  - apply (get_log_level_names "err" 3). lia.
Defined.

(** The argument of the last option [c]. *)
Definition last_arg (c : ascii) (opts : list (ascii * string)) : option string :=
  snd <$> last (filter (fun o => o.1 = c) opts).

Lemma last_arg_cons c d a opts :
  last_arg c ((d, a) :: opts) =
  match last_arg c opts with Some b => Some b | None => if decide (d = c) then Some a else None end.
Proof.
  unfold last_arg. rewrite filter_cons. simpl. destruct (decide (d = c)) as [->|].
  - rewrite last_cons. by destruct (last _) as [[]|].
  - by destruct (last _) as [[]|].
Qed.

(** A command line that is accepted: only options that do not end the program, and
    levels that exist. *)
Definition accepted (o : ascii * string) : Prop :=
  o.1 = "e"%char \/ o.1 = "i"%char \/ o.1 = "l"%char /\ get_log_level o.2 <> -1.

(** A single call logs the first operand with the last level, name and output
    chosen, provided every option is accepted; the first option that is not ends
    the program before anything is logged. *)
Lemma parse_log_options_ok opts : forall o,
  Forall accepted opts ->
  parse_log_options opts o =
  inr (LogOptions (match last_arg "l" opts with Some s => get_log_level s | None => level o end)
         (match last_arg "i" opts with Some s => Some s | None => ident o end)
         (match last_arg "e" opts with Some _ => LOG_PERROR | None => open_log_opt o end)).
Proof.
  induction opts as [|[c a] opts IH]; intros o Ha; [by destruct o|].
  apply Forall_cons in Ha as [Hc Ha]. rewrite !last_arg_cons.
  destruct Hc as [Hc|[Hc|[Hc Hl]]]; simpl in *; subst c; cbn [parse_log_options]; pick_option;
    repeat case_decide; try done.
  - rewrite IH by done. simpl. by repeat destruct (last_arg _ _).
  - rewrite IH by done. simpl. by repeat destruct (last_arg _ _).
  - rewrite (proj2 (Z.eqb_neq _ _) Hl), IH by done. simpl. by repeat destruct (last_arg _ _).
Qed.

Lemma parse_log_options_stop ok o' rest : forall o,
  Forall accepted ok -> ~ accepted o' ->
  parse_log_options (ok ++ o' :: rest) o =
  inl (if decide (o'.1 = "h"%char) then (EXIT_SUCCESS, HelpText)
       else if decide (o'.1 = "v"%char) then (EXIT_SUCCESS, VersionText)
       else if decide (o'.1 = "l"%char) then (EXIT_FAILURE, WrongLevel)
       else (EXIT_FAILURE, HelpText)).
Proof.
  intros o Hok Hn. revert o. induction Hok as [|[c a] ok Hc _ IH]; intros o.
  - destruct o' as [c a]. unfold accepted in Hn. simpl in *.
    repeat case_bool_decide; repeat case_decide; subst; try done; try tauto.
    destruct (Z.eqb_spec (get_log_level a) (-1)); [done|tauto].
  - destruct Hc as [Hc|[Hc|[Hc Hl]]]; simpl in *; subst c; cbn [app parse_log_options]; pick_option.
    + apply IH.
    + apply IH.
    + rewrite (proj2 (Z.eqb_neq _ _) Hl). apply IH.
Qed.

(** With accepted options the program makes one entry, at the last level chosen
    ([LOG_INFO] by default), under the last name, and succeeds; the first option
    that is not accepted ends it with nothing logged, successfully only for [-h]
    and [-v]. *)
Theorem log_result (ok : list (ascii * string)) (stop : option (ascii * string))
    (more : list (ascii * string)) (args : list string)
    (Hok : Forall accepted ok) (Hstop : forall o, stop = Some o -> ~ accepted o) :
  log_main (ok ++ match stop with Some o => o :: more | None => [] end) args =
  match stop with
  | None =>
      (EXIT_SUCCESS, [],
       [Openlog (last_arg "i" ok) (if last_arg "e" ok then LOG_PERROR else LOG_CONS) LOG_USER;
        Syslog (match last_arg "l" ok with Some s => get_log_level s | None => LOG_INFO end) (head args);
        Closelog])
  | Some (c, _) =>
      if decide (c = "h"%char) then (EXIT_SUCCESS, [HelpText], [])
      else if decide (c = "v"%char) then (EXIT_SUCCESS, [VersionText], [])
      else (EXIT_FAILURE, [if decide (c = "l"%char) then WrongLevel else HelpText], [])
  end.
Proof.
  unfold log_main. destruct stop as [o|].
  - rewrite parse_log_options_stop by eauto. destruct o as [c a]. simpl. by repeat case_decide.
  - rewrite app_nil_r, parse_log_options_ok by done. simpl.
    by destruct (last_arg "i" ok), (last_arg "e" ok).
Qed.

Lemma log_result_witness :
  log_main [("l"%char, "LOG_ERR"); ("e"%char, ""); ("l"%char, "loud")] ["disk full"] =
  (EXIT_FAILURE, [WrongLevel], []).
Proof.
  apply (log_result [("l"%char, "LOG_ERR"); ("e"%char, "")] (Some ("l"%char, "loud")) []).
  - constructor; [right; right; by vm_compute|]. constructor; [by left|constructor].
  - intros o [= <-] [H|[H|[_ H]]]; [done|done|]. by apply H.
Defined.

(** [-e] replaces the request to log to the console when the log cannot be
    reached. *)
Example stderr_drops_console :
  log_main [("e"%char, "")] ["x"] =
  (EXIT_SUCCESS, [], [Openlog None LOG_PERROR LOG_USER; Syslog LOG_INFO (Some "x"); Closelog]).
Proof. reflexivity. Qed.

(** Without a message the null pointer at the end of [argv] is printed with [%s]. *)
Example no_message : exists i o f l, log_main [] [] = (EXIT_SUCCESS, [], [Openlog i o f; Syslog l None; Closelog]).
Proof. by repeat eexists. Qed.

(** ['a'] is in [optstring] only. *)
Example option_a_fails rest : log_main [("a"%char, "")] rest = (EXIT_FAILURE, [HelpText], []).
Proof. reflexivity. Qed.
