(* ===== verification/Env.v ===== *)
(** [ex03/env/putenv.c], [ex03/env/setenv.c] and [ex03/printenv/printenv.c]: the environment
    as an array of pointers to strings in memory. [putenv] keeps the pointer it is given,
    [setenv] makes a copy, and [getenv] returns a pointer into a string. *)

From S2P Require Import Prelude.
From S2P Require Import CLib.
From Stdlib Require Import Ascii.

Open Scope string_scope.
Open Scope list_scope.
Open Scope Z_scope.

(** The strings in memory by their addresses, the next free address, and [environ]. *)
Record world := World { mem : gmap nat string; next : nat; environ : list nat }.

(** A pointer into a string, and what it points to. *)
Definition pointer := (nat * nat)%type.
Definition deref (p : pointer) (w : world) : option string :=
  s ← mem w !! p.1; Some (String.substring p.2 (String.length s - p.2) s).

Definition clearenv (w : world) : world := World (mem w) (next w) [].

(** [malloc], and [snprintf(p, 1024, "%s=%s", name, value)] for a text that fits. *)
Definition malloc (w : world) : nat * world := (next w, World (<[next w := ""]> (mem w)) (S (next w)) (environ w)).
Definition assign (a : nat) (name value : string) (w : world) : world :=
  World (<[a := name +:+ "=" +:+ value]> (mem w)) (next w) (environ w).

(** Whether the string at address [a] defines [name]. *)
Definition defines (name : string) (w : world) (a : nat) : bool :=
  match mem w !! a with Some s => String.prefix (name +:+ "=") s | None => false end.

Fixpoint find (name : string) (w : world) (l : list nat) : option nat :=
  match l with [] => None | a :: l => if defines name w a then Some a else find name w l end.

Definition getenv (name : string) (w : world) : option pointer :=
  a ← find name w (environ w); Some (a, S (String.length name)).

(** The first entry for [name] becomes [a]; without one [a] is added. *)
Fixpoint put (name : string) (w : world) (a : nat) (l : list nat) : list nat :=
  match l with
  | [] => [a]
  | b :: l => if defines name w b then a :: l else b :: put name w a l
  end.

Definition putenv (name : string) (a : nat) (w : world) : world :=
  World (mem w) (next w) (put name w a (environ w)).

(** The C library keeps the string that is replaced. *)
Definition setenv (name value : string) (overwrite : bool) (w : world) : world :=
  if negb overwrite && bool_decide (is_Some (find name w (environ w))) then w
  else
    let '(a, w) := malloc w in
    putenv name a (assign a name value w).

Definition ENV_VAR : string := "KEYSER_SOZE".
Definition dean : string := "Dean Keaton".
(** The quotation marks of this name are three bytes each. *)
Definition roger : string :=
  "Roger " +:+ String "226" (String "128" (String "156" "Verbal")) +:+ String "226" (String "128" (String "157" " Kint")).

Definition show (value : string) : string := ENV_VAR +:+ " = " +:+ value +:+ nl.

(** The status and the lines; [None] is an access to memory that is not there. *)
Definition result := option (Z * list string).
Definition failed (out : list string) : result := Some (EXIT_FAILURE, out).

(** [main] of [putenv.c]; the arguments tell which calls succeed. *)
Definition putenv_main (clear alloc put : bool) (w : world) : result :=
  if negb clear then failed [] else
  let w := clearenv w in
  if negb alloc then failed [] else
  let '(env_entry, w) := malloc w in
  let w := assign env_entry ENV_VAR dean w in
  if negb put then failed [] else
  let w := putenv ENV_VAR env_entry w in
  match getenv ENV_VAR w with
  | None => failed []
  | Some value =>
      v1 ← deref value w;
      let out := ["after initial setup:" +:+ nl; show v1] in
      let w := assign env_entry ENV_VAR roger w in
      match getenv ENV_VAR w with
      | None => failed out
      | Some value => v2 ← deref value w; Some (EXIT_SUCCESS, out ++ ["after modifying the string in memory:" +:+ nl; show v2])
      end
  end.

(** [main] of [setenv.c]: [set1], [set2], [set3] tell which calls of [setenv] succeed; a failure
    of the second is only reported. *)
Definition setenv_main (clear set1 set2 set3 : bool) (w : world) : result :=
  if negb clear then failed [] else
  let w := clearenv w in
  if negb set1 then failed [] else
  let w := setenv ENV_VAR dean true w in
  match getenv ENV_VAR w with
  | None => failed []
  | Some value =>
      v1 ← deref value w;
      let out := ["initial setup:" +:+ nl; show v1] in
      let w := if set2 then setenv ENV_VAR roger false w else w in
      match getenv ENV_VAR w with
      | None => failed out
      | Some value =>
          if negb set3 then failed out else
          let w := setenv ENV_VAR roger true w in
          v2 ← deref value w;
          let out := out ++ ["after setenv() without overwrite:" +:+ nl; show v2] in
          match getenv ENV_VAR w with
          | None => failed out
          | Some value => v3 ← deref value w; Some (EXIT_SUCCESS, out ++ ["after setenv() with overwrite:" +:+ nl; show v3])
          end
      end
  end.

(** [main] of [printenv.c]: the array [env] of its third parameter is not the one that
    [clearenv] drops. *)
Definition printenv_main (clear : bool) (env : list string) : Z * list string :=
  if clear then (EXIT_SUCCESS, map (fun s => s +:+ nl) env) else (EXIT_FAILURE, []).

(* ------------------------------------------------------------------ *)
(** ** Properties *)

(** The environment is one string, at address [a], that gives the variable this value. *)
Definition entry (value : string) : string := ENV_VAR +:+ "=" +:+ value.
Definition holds (w : world) (a : nat) (value : string) : Prop :=
  environ w = [a] /\ mem w !! a = Some (entry value).

Lemma defines_entry w a value : mem w !! a = Some (entry value) -> defines ENV_VAR w a = true.
Proof. intros Hm. unfold defines. rewrite Hm. by destruct value. Qed.

Lemma getenv_holds w a value : holds w a value -> getenv ENV_VAR w = Some (a, 12%nat).
Proof. intros [He Hm]. unfold getenv. rewrite He. simpl. by rewrite (defines_entry w a value Hm). Qed.

(** A pointer behind the equals sign shows the value, as long as the string is there. *)
Lemma substring_all s : String.substring 0 (String.length s) s = s.
Proof. induction s as [|c s IH]; simpl; [done|]. by rewrite IH. Qed.

Lemma deref_entry w a value : mem w !! a = Some (entry value) -> deref (a, 12%nat) w = Some value.
Proof.
  intros Hm. unfold deref. simpl. rewrite Hm. simpl. f_equal. rewrite <- (substring_all value) at 3. f_equal. lia.
Qed.

Lemma setenv_first w value :
  environ w = [] -> holds (setenv ENV_VAR value true w) (next w) value /\ next (setenv ENV_VAR value true w) = S (next w).
Proof. intros He. unfold setenv, holds. simpl. rewrite He. simpl. by rewrite lookup_insert_eq. Qed.

Lemma setenv_keeps w a v value : holds w a v -> setenv ENV_VAR value false w = w.
Proof.
  intros [He Hm]. unfold setenv. rewrite He. simpl. rewrite (defines_entry w a v Hm).
  by rewrite bool_decide_eq_true_2 by by eexists.
Qed.

Lemma setenv_replaces w a v value : holds w a v -> a <> next w ->
  holds (setenv ENV_VAR value true w) (next w) value /\ mem (setenv ENV_VAR value true w) !! a = Some (entry v).
Proof.
  intros [He Hm] Hne. unfold setenv, holds, putenv, assign, malloc. simpl. rewrite He. unfold put.
  rewrite (defines_entry _ a v) by (simpl; by rewrite !lookup_insert_ne by done).
  rewrite lookup_insert_eq, !lookup_insert_ne by done. done.
Qed.

(** The environment shares the block with the program: writing to it changes the variable,
    without another [putenv]. *)
Theorem putenv_shares w :
  putenv_main true true true w =
  Some (EXIT_SUCCESS, ["after initial setup:" +:+ nl; show dean; "after modifying the string in memory:" +:+ nl; show roger]).
Proof.
  unfold putenv_main. cbn -[putenv assign getenv deref show dean roger ENV_VAR].
  set (w1 := putenv ENV_VAR (next w) _).
  assert (holds w1 (next w) dean) as H1.
  { split; [reflexivity|]. apply (lookup_insert_eq (<[next w := ""]> (mem w))). }
  rewrite (getenv_holds w1 _ _ H1), (deref_entry w1 _ dean) by apply H1. cbn [mbind option_bind].
  set (w2 := assign (next w) ENV_VAR roger w1).
  assert (holds w2 (next w) roger) as H2.
  { split; [apply H1|]. apply (lookup_insert_eq (mem w1)). }
  by rewrite (getenv_holds w2 _ _ H2), (deref_entry w2 _ roger) by apply H2.
Qed.

(** [setenv] makes copies: without [overwrite] the value stays, and the pointer that [getenv]
    returned before the last call still shows the old value behind it. *)
Theorem setenv_copies set2 w :
  setenv_main true true set2 true w =
  Some (EXIT_SUCCESS, ["initial setup:" +:+ nl; show dean; "after setenv() without overwrite:" +:+ nl; show dean;
                       "after setenv() with overwrite:" +:+ nl; show roger]).
Proof.
  unfold setenv_main. cbn -[setenv getenv deref show dean roger ENV_VAR].
  destruct (setenv_first (clearenv w) dean eq_refl) as [H1 Hn].
  set (w1 := setenv ENV_VAR dean true (clearenv w)) in *. change (next (clearenv w)) with (next w) in *.
  rewrite (getenv_holds w1 _ _ H1), (deref_entry w1 _ dean) by apply H1. cbn [mbind option_bind].
  assert ((if set2 then setenv ENV_VAR roger false w1 else w1) = w1) as ->
    by (destruct set2; [by eapply setenv_keeps|done]).
  rewrite (getenv_holds w1 _ _ H1). cbn [negb].
  destruct (setenv_replaces w1 (next w) dean roger H1) as [H2 H3]; [lia|].
  set (w2 := setenv ENV_VAR roger true w1) in *.
  by rewrite (deref_entry w2 _ dean H3), (getenv_holds w2 _ _ H2), (deref_entry w2 _ roger) by apply H2.
Qed.

(** A call that fails ends the program with what it has printed so far. *)
Lemma putenv_fails clear alloc put w : clear && alloc && put = false -> putenv_main clear alloc put w = failed [].
Proof. by destruct clear, alloc, put. Qed.

(** The environment that is printed is the one that has been cleared. *)
Example printenv_ignores_clearenv : printenv_main true ["A=1"; "B=2"] = (EXIT_SUCCESS, ["A=1" +:+ nl; "B=2" +:+ nl]).
Proof. reflexivity. Qed.
