(* ===== verification/Exercises.v ===== *)
(** Four small programs: [ex04/argsort/argsort.c], [ex04/hello/hello.c],
    [ex05/spooky/spooky.c] and [ex03/assert/assert.c]. *)

From S2P Require Import Prelude.
From S2P Require Import CLib.

Open Scope string_scope.
Open Scope list_scope.
Open Scope Z_scope.

(* ------------------------------------------------------------------ *)
(** ** [argsort.c] *)

Section argsort.
(** The text at an address; [strcoll] on strings given by their bytes; [qsort]. *)
Context (text : Z -> string) (strcoll : list Z -> list Z -> Z).
Context (qsort : (Z -> Z -> Z) -> list Z -> list Z).

(** The bytes of a pointer in memory, lowest first, and the string that starts there. An
    address has a zero byte at its top, so the string ends inside the pointer. *)
Definition pointer_bytes (p : Z) : list Z := map (fun k => Z.shiftr p (8 * Z.of_nat k) `mod` 256) (seq 0 8).

Fixpoint until_zero (l : list Z) : list Z :=
  match l with x :: l => if x =? 0 then [] else x :: until_zero l | [] => [] end.

(** [compare] is given the addresses of two elements of [argv] and reads the elements as
    strings. *)
Definition compare (e1 e2 : Z) : Z := strcoll (until_zero (pointer_bytes e2)) (until_zero (pointer_bytes e1)).

Definition print_argv (argv : list Z) : string :=
  String.concat "" (map (fun p => text p +:+ " ") argv) +:+ nl.

(** [main], for the pointers after [argv[0]]. *)
Definition argsort_main (argv : list Z) : Z * list string :=
  (EXIT_SUCCESS, [print_argv argv; print_argv (qsort compare argv)]).

(** The second line has the same words as the first. *)
Theorem argsort_permutes (Hq : forall cmp l, qsort cmp l ≡ₚ l) (argv : list Z) :
  exists argv', argv' ≡ₚ argv /\ argsort_main argv = (EXIT_SUCCESS, [print_argv argv; print_argv argv']).
Proof. exists (qsort compare argv). split; [apply Hq|done]. Qed.
End argsort.

(** Sorting by insertion, and the comparison of bytes of the C locale. *)
Fixpoint insert (cmp : Z -> Z -> Z) (x : Z) (l : list Z) : list Z :=
  match l with y :: l => if cmp x y <=? 0 then x :: y :: l else y :: insert cmp x l | [] => [x] end.
Definition insertion_sort (cmp : Z -> Z -> Z) (l : list Z) : list Z := foldr (insert cmp) [] l.

Fixpoint strcmp (s t : list Z) : Z :=
  match s, t with
  | x :: s, y :: t => if x =? y then strcmp s t else x - y
  | x :: _, [] => x
  | [], y :: _ => - y
  | [], [] => 0
  end.

Lemma insert_permutes cmp x l : insert cmp x l ≡ₚ x :: l.
Proof. induction l as [|y l IH]; simpl; [done|]. case_match; [done|]. rewrite IH. apply Permutation_swap. Qed.

Lemma insertion_sort_permutes cmp l : insertion_sort cmp l ≡ₚ l.
Proof. induction l as [|x l IH]; simpl; [done|]. by rewrite insert_permutes, IH. Qed.

Lemma argsort_permutes_witness :
  exists argv', argv' ≡ₚ [4096; 4098] /\
    argsort_main dec strcmp insertion_sort [4096; 4098] =
    (EXIT_SUCCESS, [print_argv dec [4096; 4098]; print_argv dec argv']).
Proof. exact (argsort_permutes dec strcmp insertion_sort insertion_sort_permutes [4096; 4098]). Defined.

(** The order is that of the addresses, whatever the words are: two arguments that follow
    each other in memory change places, also when they are already in order. *)
Example argsort_by_address :
  let memory a b p := if p =? 0x7ffd00001011 then a else b in
  let sort a b := (argsort_main (memory a b) strcmp insertion_sort [0x7ffd00001011; 0x7ffd00001013]).2 in
  sort "a" "b" = ["a b " +:+ nl; "b a " +:+ nl] /\ sort "b" "a" = ["b a " +:+ nl; "a b " +:+ nl].
Proof. vm_compute. done. Qed.

(* ------------------------------------------------------------------ *)
(** ** [hello.c] *)

(** [main], for what the three calls answer and the translation of the text. *)
Definition hello_main (setlocale bindtextdomain textdomain : bool) (gettext : string -> string) : Z * list output :=
  if negb setlocale then (EXIT_FAILURE, [Stderr "cannot set locale"])
  else if negb bindtextdomain || negb textdomain then (EXIT_FAILURE, [Stderr "locale domain setup failed"])
  else (EXIT_SUCCESS, [Stdout (gettext "Hello, world." +:+ nl)]).

(* ------------------------------------------------------------------ *)
(** ** [spooky.c] *)

Definition buffer_size : nat := 1024.

(** [scanf] of a line into a buffer: [None] is a write past its end. When nothing can be
    read the buffer has no value. *)
Definition scan_line (line : option string) : option string :=
  s ← line;
  if bool_decide (s = "") then None else if (String.length s <? buffer_size)%nat then Some s else None.

(** [sprintf] into a buffer. *)
Definition print_to_buffer (s : string) : option string :=
  if (String.length s <? buffer_size)%nat then Some s else None.

(** [main]: what is printed, the command for the shell, and the status; [None] is undefined
    behaviour. *)
Definition spooky_main (line : option string) : option (string * string * Z) :=
  date ← scan_line line;
  cmd ← print_to_buffer ("date -d '" +:+ date +:+ "'");
  Some ("> ", cmd, EXIT_SUCCESS).

(** The program is defined for lines of 1 to 1013 characters. *)
Theorem spooky_defined (line : option string) :
  is_Some (spooky_main line) <-> exists s, line = Some s /\ (1 <= String.length s <= 1013)%nat.
Proof.
  unfold spooky_main, scan_line, print_to_buffer, buffer_size. destruct line as [s|]; cbn [mbind option_bind]; [|by split; [intros []|intros (? & ? & _)]].
  case_bool_decide as Hs.
  { subst s. simpl. split; [by intros []|]. intros (s & [= <-] & H). simpl in H. lia. }
  assert (0 < String.length s)%nat as H0 by (destruct s; simpl; [done|lia]).
  assert (String.length ("date -d '" +:+ s +:+ "'") = String.length s + 10)%nat as Hl.
  { assert (forall a b, String.length (a +:+ b) = String.length a + String.length b)%nat as Happ.
    { induction a; simpl; intros; [done|]. by f_equal. }
    rewrite !Happ. simpl. lia. }
  destruct (Nat.ltb_spec (String.length s) 1024); cbn [mbind option_bind].
  - rewrite Hl. destruct (Nat.ltb_spec (String.length s + 10) 1024); cbn [mbind option_bind].
    + split; [intros _; exists s; split; [done|lia]|intros _; by eexists].
    + split; [by intros []|]. intros (t & [= <-] & Ht). lia.
  - split; [by intros []|]. intros (t & [= <-] & Ht). lia.
Qed.

(** A quote in the line ends the argument of [date]: the rest is run by the shell. *)
Example injection : spooky_main (Some "'; ls '") = Some ("> ", "date -d ''; ls ''", EXIT_SUCCESS).
Proof. reflexivity. Qed.

(* ------------------------------------------------------------------ *)
(** ** [assert.c] *)

(** How the program ends: [assert] aborts it unless it is switched off, and then the
    division by zero is undefined. *)
Inductive ending := Aborted | Undefined | Prints (s : string).

Definition assert_main (ndebug : bool) : ending :=
  let i := 2 in
  let j := 0 in
  if negb ndebug && (j =? 0) then Aborted
  else if j =? 0 then Undefined
  else Prints (dec i +:+ " / " +:+ dec j +:+ " = " +:+ dec (Z.quot i j) +:+ nl).

(* ------------------------------------------------------------------ *)
(** ** [ex02/datetime] *)

(** [loctime.c] stands in for two functions of the C library: the first returns a number where
    a pointer to the broken-down time belongs, the second a null pointer. *)
Definition BIG_NUM : Z := 1000000.
Definition localtime (now : Z) : Z := u64 (now - BIG_NUM).
Definition localtime_r : option Z := None.

(** [date.c] calls neither. *)
Definition date_main : Z := EXIT_SUCCESS.

(** The pointer has nothing to do with the time asked for, and is null once. *)
Example null_once : localtime BIG_NUM = 0.
Proof. reflexivity. Qed.
