(* ===== verification/OptionDemo.v ===== *)
(** [ex03/getopt/short.c] and [ex03/getopt/long.c]: programs that print the options
    and the operands of their command line. They differ in the names of the options
    and in the call of [getopt] or [getopt_long]. *)

From S2P Require Import Prelude.
From S2P Require Import CLib.
From S2P Require Import Getopt.
From Stdlib Require Import Ascii.

Open Scope string_scope.
Open Scope list_scope.
Open Scope Z_scope.

(** [struct options] *)
Record options := Options { alpha : bool; beta : bool; gamma : option string }.

(** [memset(&options, 0, sizeof(struct options))] *)
Definition cleared : options := Options false false None.

Definition optstring : string := "hvabc:".

(** [longopts] of [long.c]. *)
Definition longopts : list long_option :=
  [LongOption "version" "h" false; LongOption "help" "v" false; LongOption "alpha" "a" false;
   LongOption "beta" "b" false; LongOption "gamma" "c" true].

Definition short_help (argv0 : string) : string :=
  "usage: " +:+ argv0 +:+ " [OPTIONS] ARGUMENTS..." +:+ nl +:+ nl +:+
  "OPTIONS AND ARGUMENTS" +:+ nl +:+
  "  -h       show this message and exit" +:+ nl +:+
  "  -v       show program version and exit" +:+ nl +:+ nl +:+
  "  -a       turn on option a" +:+ nl +:+
  "  -b       turn on option b" +:+ nl +:+
  "  -c ARG   set ARG as a value for option c" +:+ nl.

Definition long_help (argv0 : string) : string :=
  "usage: " +:+ argv0 +:+ " [OPTIONS] ARGUMENTS..." +:+ nl +:+ nl +:+
  "OPTIONS AND ARGUMENTS" +:+ nl +:+
  "  -h,--help        show this message and exit" +:+ nl +:+
  "  -v,--version     show program version and exit" +:+ nl +:+ nl +:+
  "  -a,--alpha       turn on option a" +:+ nl +:+
  "  -b,--beta        turn on option b" +:+ nl +:+
  "  -g,--gamma ARG   set ARG as a value for option gamma" +:+ nl.

Definition version : string := "short 1.0" +:+ nl.

(** The loop over the results of [getopt]: the end of the program with its status
    and what it prints, or the options. *)
Fixpoint option_loop (help : string) (os : list opt) (o : options) : (Z * string) + options :=
  match os with
  | [] => inr o
  | (c, optarg) :: os =>
      if bool_decide (c = "h"%char) then inl (EXIT_SUCCESS, help)
      else if bool_decide (c = "v"%char) then inl (EXIT_SUCCESS, version)
      else if bool_decide (c = "a"%char) then option_loop help os (Options true (beta o) (gamma o))
      else if bool_decide (c = "b"%char) then option_loop help os (Options (alpha o) true (gamma o))
      else if bool_decide (c = "c"%char) then option_loop help os (Options (alpha o) (beta o) optarg)
      else inl (EXIT_FAILURE, help)
  end.

(** ["\x1b[<n>m"] *)
Definition sgr (n : string) : string := String "027" ("[" +:+ n +:+ "m").

Definition mark (on : bool) : string := sgr (if on then "32" else "31") +:+ " * " +:+ sgr "0".

Definition print_flag (name : string) (on : bool) : string :=
  mark on +:+ "option " +:+ name +:+ (if on then " is set" else " is not set") +:+ nl.

Definition print_value (name : string) (v : option string) : string :=
  match v with
  | Some v => mark true +:+ "option " +:+ name +:+ " is set to value " +:+ sgr "33" +:+ v +:+ sgr "0" +:+ nl
  | None => mark false +:+ "option " +:+ name +:+ " is not set" +:+ nl
  end.

(** The loop over the operands, from [argv[i]] on. *)
Fixpoint print_arguments (i : Z) (args : list string) : string :=
  match args with
  | [] => ""
  | a :: args =>
      "argv[" +:+ dec i +:+ "] = " +:+ sgr "33" +:+ a +:+ sgr "0" +:+ nl +:+ print_arguments (i + 1) args
  end.

(** The part of [main] behind the loop; the operands are the last words. *)
Definition report (na nb nc : string) (argc : Z) (o : options) (rest : list string) : string :=
  "OPTIONS:" +:+ nl +:+ print_flag na (alpha o) +:+ print_flag nb (beta o) +:+
  print_value nc (gamma o) +:+ "ARGUMENTS:" +:+ nl +:+
  print_arguments (argc - Z.of_nat (length rest)) rest.

(** [main] of [short.c] and of [long.c]: [args] are the words behind [argv[0]]. *)
Definition short_main (argv0 : string) (args : list string) : Z * string :=
  let '(os, rest) := getopt optstring None None args in
  match option_loop (short_help argv0) os cleared with
  | inl e => e
  | inr o => (EXIT_SUCCESS, report "a" "b" "c" (Z.of_nat (length args) + 1) o rest)
  end.

Definition long_main (argv0 : string) (args : list string) : Z * string :=
  let '(os, rest) := getopt optstring (Some longopts) None args in
  match option_loop (long_help argv0) os cleared with
  | inl e => e
  | inr o => (EXIT_SUCCESS, report "alpha" "beta" "gamma" (Z.of_nat (length args) + 1) o rest)
  end.

(* ------------------------------------------------------------------ *)
(** ** Properties *)

(** Options that do not end the program. *)
Definition setting (o : opt) : Prop :=
  o = ("a"%char, None) \/ o = ("b"%char, None) \/ exists v, o = ("c"%char, Some v).

Lemma option_loop_settings help os : forall o,
  Forall setting os ->
  option_loop help os o =
  inr (Options (alpha o || given "a" os) (beta o || given "b" os)
         (fold_left (fun v o => if bool_decide (o.1 = "c"%char) then o.2 else v) os (gamma o))).
Proof.
  induction os as [|p os IH]; intros o Hs; [destruct o; unfold given; simpl; by rewrite ?orb_false_r|].
  apply Forall_cons in Hs as [[-> |[-> |[v ->]]] Hs]; cbn [option_loop]; pick_option;
    rewrite IH by done; destruct o as [a b c]; unfold given; cbn -[bool_decide]; pick_option;
    by rewrite ?orb_true_r.
Qed.

(** With options that do not end them the two programs succeed, and report whether
    each flag occurs, the last value of the third option, and the operands with
    their places at the end of the permuted [argv]; the command line may be written
    in any of the ways [getopt] understands. *)
Theorem demos_report (argv0 : string) (items : list item) :
  let os := concat (map (opts_of None) items) in
  let rest := concat (map operands_of items) in
  let argc := Z.of_nat (length (render items)) + 1 in
  Forall (allowed optstring None) items -> Forall setting os ->
  short_main argv0 (render items) =
  (EXIT_SUCCESS, report "a" "b" "c" argc (Options (given "a" os) (given "b" os) (last_value "c" os)) rest).
Proof.
  intros os rest argc Hi Hs. unfold short_main.
  destruct (getopt_render optstring None items [] Hi) as [-> _].
  fold os rest. by rewrite option_loop_settings.
Qed.

(** The same of [long.c]: from a command line in any of the ways [getopt_long]
    understands (clusters, arguments attached or separate, long options with their
    abbreviations, operands between them) with options that do not end the program it
    succeeds and prints whether each flag occurs, the last value of the third option,
    and the operands in order with their places at the end of the permuted [argv]. *)
Theorem long_report (argv0 : string) (items : list item) :
  let os := concat (map (opts_of (Some longopts)) items) in
  let rest := concat (map operands_of items) in
  let argc := Z.of_nat (length (render items)) + 1 in
  Forall (allowed optstring (Some longopts)) items -> Forall setting os ->
  long_main argv0 (render items) =
  (EXIT_SUCCESS,
   report "alpha" "beta" "gamma" argc (Options (given "a" os) (given "b" os) (last_value "c" os)) rest).
Proof.
  intros os rest argc Hi Hs. unfold long_main.
  destruct (getopt_render optstring (Some longopts) items [] Hi) as [-> _].
  fold os rest. by rewrite option_loop_settings.
Qed.

Theorem long_report_witness :
  let items := [Flags ["a"]; Operand "x"; LongEquals "gam" "1"; Attached "c" "2"]%char in
  long_main "prog" ["-a"; "x"; "--gam=1"; "-c2"] =
  (EXIT_SUCCESS, report "alpha" "beta" "gamma" 5 (Options true false (Some "2")) ["x"]).
Proof.
  intros items.
  assert (Forall (allowed optstring (Some longopts)) items) as Hi.
  { repeat (constructor; [try (split; [done|]; repeat constructor; done);
      try (split; [done|]; split; [done|]; by eexists); done|]); constructor. }
  assert (Forall setting (concat (map (opts_of (Some longopts)) items))) as Hs.
  { constructor; [by left|]. constructor; [right; right; by eexists|]. constructor; [right; right; by eexists|done]. }
  exact (long_report "prog" items Hi Hs).
Defined.

(** [--version] prints the help and [--help] the version. *)
Example long_names_swapped argv0 :
  long_main argv0 ["--version"] = (EXIT_SUCCESS, long_help argv0) /\
  long_main argv0 ["--help"] = (EXIT_SUCCESS, version).
Proof. done. Qed.

(** The help announces [-g]; the table has [-c]. *)
Example option_g_fails argv0 : long_main argv0 ["-g"; "1"] = (EXIT_FAILURE, long_help argv0).
Proof. reflexivity. Qed.
