(* ===== verification/Resolvip.v ===== *)
(** [ex12/resolvip/resolvip.c]: the addresses of a host with their names. What the resolver
    answers is a parameter. *)

From S2P Require Import Prelude.
From S2P Require Import CLib.

Open Scope string_scope.
Open Scope list_scope.
Open Scope Z_scope.

Section resolvip.
Context {sockaddr : Type}.

(** An element of the list that [getaddrinfo] returns. *)
Record addrinfo := Addrinfo { ai_addr : sockaddr; ai_canonname : option string }.

(** [getaddrinfo] with [AI_CANONNAME] returns an error, or a list whose first element has
    the name; [getnameinfo] with numbers, and with [NI_NAMEREQD]; [gai_strerror]. *)
Context (getaddrinfo : string -> Z + list addrinfo).
Context (numeric_host named_host : sockaddr -> Z + string) (gai_strerror : Z -> string).

(** The body of the loop for one address. *)
Definition resolve (a : addrinfo) : output :=
  match numeric_host (ai_addr a) with
  | inl e => Stderr ("getnameinfo: " +:+ gai_strerror e +:+ nl)
  | inr host =>
      match named_host (ai_addr a) with
      | inl e => Stderr ("Couldn't resolve hostname getnameinfo: " +:+ gai_strerror e +:+ nl)
      | inr name_host => Stdout (name_host +:+ ": " +:+ host +:+ nl)
      end
  end.

(** [main]: the status, the output, and whether a list is still allocated at the end; [None] is
    an access to a null pointer. *)
Definition resolvip_main (args : list string) : option (Z * list output * bool) :=
  match args with
  | [name] =>
      match getaddrinfo name with
      | inl e => Some (EXIT_FAILURE, [Stderr ("getaddrinfo: " +:+ gai_strerror e +:+ nl)], false)
      | inr result =>
          first ← head result;
          host_name ← ai_canonname first;
          Some (EXIT_SUCCESS, Stdout (host_name +:+ nl) :: map resolve result, false)
      end
  | _ => Some (EXIT_FAILURE, [Stderr ("Wrong amount of args" +:+ nl)], false)
  end.

(** What the C library documents: a successful result is not empty, and its first element
    has a name. *)
Definition canonical : Prop :=
  forall name l, getaddrinfo name = inr l -> exists a l' n, l = a :: l' /\ ai_canonname a = Some n.

(** One line for each address in its order; an address without a name does not stop the
    loop, nor does it show in the status. *)
Theorem resolvip_lines (Hc : canonical) (name : string) (l : list addrinfo) (Hl : getaddrinfo name = inr l) :
  exists n, resolvip_main [name] = Some (EXIT_SUCCESS, Stdout (n +:+ nl) :: map resolve l, false).
Proof.
  unfold resolvip_main. rewrite Hl. destruct (Hc name l Hl) as (a & l' & n & -> & Hn). simpl. rewrite Hn. by exists n.
Qed.
End resolvip.

Lemma resolvip_lines_witness :
  exists n, resolvip_main (fun _ => inr [Addrinfo 1 (Some "host"); Addrinfo 2 None]) (fun a => inr (dec a))
    (fun a => if a =? 1 then inr "host" else inl (-2)) (fun _ => "Name or service not known") ["host"] =
  Some (EXIT_SUCCESS, [Stdout (n +:+ nl); Stdout ("host: 1" +:+ nl);
    Stderr ("Couldn't resolve hostname getnameinfo: Name or service not known" +:+ nl)], false).
Proof.
  refine (resolvip_lines (fun _ => inr [Addrinfo 1 (Some "host"); Addrinfo 2 None]) (fun a => inr (dec a))
    (fun a => if a =? 1 then inr "host" else inl (-2)) (fun _ => "Name or service not known") _ "host" _ eq_refl).
  intros name l [= <-]. by do 3 eexists.
Defined.
