(* ===== verification/Roftpd.v ===== *)
(** [ex12/tcp_server/roftpd.c]: the sockets of a server on every address of a
    port. What [getaddrinfo], [socket], [bind], [listen] and [poll] return are
    arguments. *)

From S2P Require Import Prelude.

Open Scope Z_scope.

Definition MAX_DESC : nat := 16.
Definition POLLIN : Z := 1.
Definition POLLHUP : Z := 16.

(** An address of [getaddrinfo], with what the calls on it return. *)
Record address := Address { socket : option Z; binds : bool; listens : bool }.

(** The variables of the loop, and the sockets that are open, each with whether it
    listens. *)
Record sockets := Sockets { free_addr : Z; list_addr : list Z; opened : list (Z * bool) }.

(** Before the loop: [free_addr] is 4 and every descriptor is -1. *)
Definition no_sockets : sockets := Sockets 4 (replicate MAX_DESC (-1)) [].

(** The system calls that succeed. *)
Definition do_socket (sfd : Z) (s : sockets) : sockets :=
  Sockets (free_addr s) (list_addr s) ((sfd, false) :: opened s).
Definition do_listen (sfd : Z) (s : sockets) : sockets :=
  Sockets (free_addr s) (list_addr s)
    (map (fun o => (o.1, (o.1 =? sfd) || o.2)) (opened s)).
Definition do_close (sfd : Z) (s : sockets) : sockets :=
  Sockets (free_addr s) (list_addr s) (filter (fun o => o.1 <> sfd) (opened s)).

(** [free_addr--; list_addr[free_addr].fd = sfd;] *)
Definition store (sfd : Z) (s : sockets) : sockets :=
  let f := (free_addr s - 1)%Z in
  Sockets f (<[Z.to_nat f := sfd]> (list_addr s)) (opened s).

(** The loop over the addresses; the boolean tells that it ended with [break], so
    that [rp] is not null after it. *)
Fixpoint bind_loop (rps : list address) (s : sockets) : bool * sockets :=
  match rps with
  | [] => (false, s)
  | rp :: rps =>
      match socket rp with
      | None => bind_loop rps s
      | Some sfd =>
          let s := do_socket sfd s in
          if binds rp then
            if 0 <? free_addr s then
              if listens rp then
                bind_loop rps (do_close sfd (store sfd (do_listen sfd s)))
              else bind_loop rps (do_close sfd s)
            else (true, s)
          else bind_loop rps (do_close sfd s)
      end
  end.

(** How the scan of the descriptors ends. *)
Inductive scanned := NextPoll | Full | OutOfBounds.

(** [while (list_addr[curr_desc].fd != -1) ...]; [None] when the fuel runs out. *)
Fixpoint scan (fuel : nat) (fds : list Z) (revents : nat -> Z) (curr_desc : nat) : option scanned :=
  match fds !! curr_desc with
  | None => Some OutOfBounds
  | Some fd =>
      if fd =? -1 then Some NextPoll
      else if (MAX_DESC <=? curr_desc)%nat then Some Full
      else
        match fuel with
        | O => None
        | S fuel =>
            if negb (Z.land (revents curr_desc) POLLIN =? 0) then scan fuel fds revents curr_desc
            else if negb (Z.land (revents curr_desc) POLLHUP =? 0) then scan fuel fds revents curr_desc
            else scan fuel fds revents curr_desc
        end
  end.

(** What the program is doing after the given results of [poll]. *)
Inductive serving :=
| Exited (status : Z)
| Polling (s : sockets)        (* the results have been used up *)
| Scanning (s : sockets)       (* the fuel has: still in the scan *)
| Undefined.

(** [while (1)] around [poll]: each result is its return code with [revents]. *)
Fixpoint serve (fuel : nat) (polls : list (Z * (nat -> Z))) (s : sockets) : serving :=
  match polls with
  | [] => Polling s
  | (ret_code, revents) :: polls =>
      if 0 <? ret_code then
        match scan fuel (list_addr s) revents 0 with
        | None => Scanning s
        | Some OutOfBounds => Undefined
        | Some Full => Exited 1
        | Some NextPoll => serve fuel polls s
        end
      else serve fuel polls s
  end.

(** [main]; [result] is what [getaddrinfo] finds, [None] when it fails. *)
Definition roftpd_main (fuel : nat) (argc : Z) (result : option (list address))
    (polls : list (Z * (nat -> Z))) : serving :=
  if negb (argc =? 2) then Exited EXIT_FAILURE else
  match result with
  | None => Exited EXIT_FAILURE
  | Some rps =>
      let (found, s) := bind_loop rps no_sockets in
      if found then serve fuel polls s else Exited EXIT_FAILURE
  end.

(* ------------------------------------------------------------------ *)
(** ** Properties *)

Definition bindable (rp : address) : bool := bool_decide (is_Some (socket rp)) && binds rp.
Definition usable (rp : address) : bool := bindable rp && listens rp.

(** The number of addresses on which [socket], [bind] and [listen] succeed. *)
Definition n_usable (rps : list address) : Z := Z.of_nat (length (filter usable rps)).

Lemma n_usable_cons rp rps : n_usable (rp :: rps) = (if usable rp then 1 else 0) + n_usable rps.
Proof. unfold n_usable. rewrite filter_cons. destruct (usable rp); simpl; lia. Qed.

Lemma n_usable_pos rps : 0 <= n_usable rps.
Proof. unfold n_usable. lia. Qed.

Lemma close_socket sfd s : opened s = [] -> do_close sfd (do_socket sfd s) = s.
Proof. destruct s as [f l o]. simpl. intros ->. unfold do_close. simpl. by rewrite filter_cons_False, filter_nil by (simpl; tauto). Qed.

Lemma close_stored sfd s :
  opened s = [] -> do_close sfd (store sfd (do_listen sfd (do_socket sfd s))) = store sfd s.
Proof.
  destruct s as [f l o]. simpl. intros ->. unfold do_close, store. simpl.
  by rewrite filter_cons_False, filter_nil by (simpl; tauto).
Qed.

(** What an iteration does, from a state with no open socket. *)
Lemma bind_loop_cons rp rps s :
  opened s = [] ->
  bind_loop (rp :: rps) s =
  if bindable rp then
    let sfd := default 0 (socket rp) in
    if 0 <? free_addr s then bind_loop rps (if listens rp then store sfd s else s)
    else (true, do_socket sfd s)
  else bind_loop rps s.
Proof.
  intros Ho. unfold bindable. simpl. destruct (socket rp) as [sfd|]; [|done]. simpl.
  destruct (binds rp); [|by rewrite close_socket]. destruct (0 <? free_addr s); [|done].
  destruct (listens rp); [by rewrite close_stored|by rewrite close_socket].
Qed.

(** The loop ends with [break] at the first address that binds after as many
    usable ones as there were free places; the socket it then holds is open and not
    listening, and it is the only one. *)
Definition loop_result (rps : list address) (s : sockets) (r : bool * sockets) : Prop :=
  length (list_addr r.2) = 16%nat /\
  (forall i, (Z.to_nat (free_addr s) <= i)%nat -> list_addr r.2 !! i = list_addr s !! i) /\
  if r.1 then
    exists pre rp post sfd, rps = pre ++ rp :: post /\ n_usable pre = free_addr s /\
      socket rp = Some sfd /\ binds rp = true /\ opened r.2 = [(sfd, false)] /\
      (forall i fd, (i < Z.to_nat (free_addr s))%nat -> list_addr r.2 !! i = Some fd ->
         exists rp', rp' ∈ pre /\ usable rp' /\ socket rp' = Some fd)
  else
    opened r.2 = [] /\
    forall pre rp post, rps = pre ++ rp :: post -> bindable rp -> n_usable pre < free_addr s.

(** An address that leaves the state as it is. *)
Lemma loop_result_skip rp rps s r :
  usable rp = false -> (bindable rp -> 0 < free_addr s) ->
  loop_result rps s r -> loop_result (rp :: rps) s r.
Proof.
  intros Hu Hb (Hl & Hk & Hr). split_and!; [done|done|]. destruct (r.1).
  - destruct Hr as (pre & a & post & sfd & -> & Hn & Hs & Hbi & Ho & Hf).
    exists (rp :: pre), a, post, sfd. rewrite n_usable_cons, Hu. split_and!; try done.
    intros i fd Hi Hfd. destruct (Hf i fd Hi Hfd) as (rp' & Hin & ?). exists rp'. split; [by right|done].
  - destruct Hr as [Ho Hf]. split; [done|]. intros [|b pre] a post [= <- ->] Ha; [by apply Hb|].
    rewrite n_usable_cons, Hu. by apply (Hf pre a post).
Qed.

(** A usable address takes a place. *)
Lemma loop_result_store rp rps s sfd r :
  usable rp = true -> socket rp = Some sfd -> 0 < free_addr s <= 16 ->
  length (list_addr s) = 16%nat ->
  loop_result rps (store sfd s) r -> loop_result (rp :: rps) s r.
Proof.
  intros Hu Hsfd Hf Hlen (Hl & Hk & Hr). simpl in Hk, Hr.
  assert (forall i, (Z.to_nat (free_addr s) <= i)%nat -> list_addr r.2 !! i = list_addr s !! i) as Hk'.
  { intros i Hi. rewrite Hk by lia. apply list_lookup_insert_ne. lia. }
  split_and!; [done|done|]. destruct (r.1).
  - destruct Hr as (pre & a & post & sfd' & -> & Hn & Hs & Hbi & Ho & Hg).
    exists (rp :: pre), a, post, sfd'. rewrite n_usable_cons, Hu. split_and!; try done; [lia|].
    intros i fd Hi Hfd. destruct (decide (i = Z.to_nat (free_addr s - 1))) as [->|Hne].
    + rewrite Hk, list_lookup_insert_eq in Hfd by lia. injection Hfd as <-. exists rp.
      split_and!; [by left|by rewrite Hu|done].
    + destruct (Hg i fd ltac:(lia) Hfd) as (rp' & Hin & ?). exists rp'. split; [by right|done].
  - destruct Hr as [Ho Hg]. split; [done|]. intros [|b pre] a post [= <- ->] Ha; [unfold n_usable; simpl; lia|].
    rewrite n_usable_cons, Hu. specialize (Hg pre a post eq_refl Ha). simpl in Hg. lia.
Qed.

Lemma bind_loop_spec rps : forall s,
  opened s = [] -> 0 <= free_addr s <= 16 -> length (list_addr s) = 16%nat ->
  loop_result rps s (bind_loop rps s).
Proof.
  induction rps as [|rp rps IH]; intros s Ho Hf Hl.
  { split_and!; [done|done|]. split; [done|]. by intros [|]. }
  rewrite bind_loop_cons by done. destruct (bindable rp) eqn:Hb.
  2: { apply loop_result_skip; [unfold usable; by rewrite Hb|by rewrite Hb|by apply IH]. }
  assert (exists sfd, socket rp = Some sfd /\ binds rp = true) as (sfd & Hs & Hbi).
  { unfold bindable in Hb. destruct (socket rp) as [sfd|]; [|done]. by exists sfd. }
  rewrite Hs. cbn [default]. destruct (Z.ltb_spec 0 (free_addr s)) as [Hpos|Hzero].
  - destruct (listens rp) eqn:Hli.
    + apply (loop_result_store _ _ _ sfd); [by unfold usable; rewrite Hb, Hli|done|lia|done|].
      apply IH; [done|simpl; lia|]. simpl. by rewrite length_insert.
    + apply loop_result_skip; [by unfold usable; rewrite Hb, Hli|done|by apply IH].
  - split_and!; [done|done|]. simpl. exists [], rp, rps, sfd. rewrite Ho. split_and!; try done; [unfold n_usable; simpl; lia|]. lia.
Qed.

(** With a descriptor in the first place the scan never gets past it. *)
Lemma scan_spins fuel fds fd revents :
  fds !! 0%nat = Some fd -> fd <> -1 -> scan fuel fds revents 0 = None.
Proof.
  intros Hfd Hne. induction fuel as [|fuel IH]; cbn [scan]; rewrite Hfd;
    rewrite (proj2 (Z.eqb_neq _ _) Hne); [done|]. cbn. rewrite IH. by repeat case_match.
Qed.

(** An address with a fifth bindable one behind four usable ones. *)
Definition five (rps : list address) : Prop :=
  exists pre rp post, rps = pre ++ rp :: post /\ n_usable pre = 4 /\ bindable rp.

(** Whatever the network offers, the server serves no one: with fewer addresses
    than [five] asks for it exits, although it has listened on each usable one; with
    more it gets as far as [poll], but every socket it listened on has been closed,
    the only open one does not listen, and the first positive result of [poll] puts
    it into an endless scan. *)
Theorem roftpd_never_serves (fuel : nat) (rps : list address) (polls : list (Z * (nat -> Z)))
    (Hfds : forall rp fd, rp ∈ rps -> socket rp = Some fd -> 0 <= fd) :
  (exists s sfd, five rps /\ opened s = [(sfd, false)] /\
     roftpd_main fuel 2 (Some rps) polls =
     if existsb (fun p => 0 <? p.1) polls then Scanning s else Polling s) \/
  (~ five rps /\ roftpd_main fuel 2 (Some rps) polls = Exited EXIT_FAILURE).
Proof.
  unfold roftpd_main. simpl.
  pose proof (bind_loop_spec rps no_sockets eq_refl ltac:(simpl; lia) eq_refl) as (Hl & _ & Hr).
  destruct (bind_loop rps no_sockets) as [[] s]; simpl in Hl, Hr.
  - left. destruct Hr as (pre & rp & post & sfd & -> & Hn & Hs & Hb & Ho & Hg).
    exists s, sfd. split_and!; [|done|].
    { exists pre, rp, post. split_and!; [done|done|]. unfold bindable. rewrite Hs, Hb. done. }
    destruct (lookup_lt_is_Some_2 (list_addr s) 0) as [fd Hfd]; [lia|].
    destruct (Hg 0%nat fd ltac:(lia) Hfd) as (rp' & Hin & _ & Hs').
    assert (fd <> -1) as Hne.
    { specialize (Hfds rp' fd ltac:(set_solver) Hs'). lia. }
    induction polls as [|[c ev] polls IH]; [done|]. simpl.
    destruct (0 <? c); [|done]. by rewrite (scan_spins _ _ fd).
  - right. destruct Hr as [_ Hr]. split; [|done]. intros (pre & rp & post & -> & Hn & Hb).
    specialize (Hr pre rp post eq_refl Hb). lia.
Qed.

(** Two addresses, as a machine with both IP versions has them. *)
Example both_versions :
  roftpd_main 10 2 (Some [Address (Some 3) true true; Address (Some 3) true true]) [] = Exited EXIT_FAILURE.
Proof. reflexivity. Qed.

Lemma roftpd_never_serves_witness :
  (exists s sfd, five (replicate 5 (Address (Some 3) true true)) /\ opened s = [(sfd, false)] /\
     roftpd_main 10 2 (Some (replicate 5 (Address (Some 3) true true))) [(1, fun _ => POLLIN)] = Scanning s).
Proof.
  destruct (roftpd_never_serves 10 (replicate 5 (Address (Some 3) true true)) [(1, fun _ => POLLIN)])
    as [(s & sfd & H5 & Ho & Hm)|[Hn _]].
  - intros rp fd Hin. apply elem_of_replicate_inv in Hin as ->. intros [= <-]. lia.
  - by exists s, sfd.
  - exfalso. apply Hn. by exists (replicate 4 (Address (Some 3) true true)), (Address (Some 3) true true), [].
Defined.
