(* ===== verification/NetTime.v ===== *)
(** [ex12/nettime/nettime.c]: a client of the time service. The file does not compile, since
    the expression for the type of the sockets is broken; it is a parameter here. The calls
    return: that the alarm may end the process while it waits is left out. *)

From S2P Require Import Prelude.
From S2P Require Import CLib.

Open Scope string_scope.
Open Scope list_scope.
Open Scope Z_scope.

(** The calls that the client makes, in their order. [Address] is an access to the element
    of the list that [rp] points to. *)
Inductive call :=
| Getaddrinfo (socktype : Z) | Socket (address : nat) | Connect (fd : Z) | Freeaddrinfo
| Address (address : nat) | Sendto (fd size : Z) | Alarm (seconds : Z) | Recvfrom (fd size : Z) | Close (fd : Z)
| Print (o : output).

(** [time_t] has this size. *)
Definition time_size : Z := 8.

Section nettime.
(** The expression of line 46; the answers: an error of [getaddrinfo] or the length of its
    list, a socket for an address ([-1] is failure), whether it connects, the results of
    [sendto] and [recvfrom], a call each, the bytes received last; and what [ctime] makes of
    the bytes of a [time_t]. *)
Context (socktype : bool -> Z).
Context (getaddrinfo : string -> Z -> Z + nat) (socket : nat -> Z) (connect : nat -> bool).
Context (null_sent null_received time_sent time_received : Z) (bytes : list Z).
Context (gai_strerror : Z -> string) (ctime : list Z -> string).

(** What [recv_time] contains before anything is received. *)
Context (garbage : list Z).

(** The loop over the list, whose elements have the numbers from [k] on: the one that has
    been connected with its socket. *)
Fixpoint connect_loop (n k : nat) : list call * option (nat * Z) :=
  match n with
  | O => ([], None)
  | S n =>
      let sfd := socket k in
      if sfd =? -1 then let '(t, r) := connect_loop n (S k) in (Socket k :: t, r)
      else if connect k then ([Socket k; Connect sfd], Some (k, sfd))
      else let '(t, r) := connect_loop n (S k) in (Socket k :: Connect sfd :: t, r)
  end.

Definition received : list Z := firstn (Z.to_nat time_size) (firstn (Z.to_nat time_received) bytes ++ skipn (Z.to_nat time_received) garbage).

(** From the first [sendto] on. *)
Definition talk (tcp_mode : bool) (rp : nat) (sfd : Z) : list call * Z :=
  let say s := Print (Stderr (s +:+ nl)) in
  let finish t :=
    (t ++ [Address rp; Sendto sfd time_size] ++
     (if time_sent =? time_size then
        [Address rp; Recvfrom sfd time_size] ++
        (if time_received =? -1 then [say "Error receiving time packet"]
         else [Print (Stdout ("Time: " +:+ ctime received)); Close sfd])
      else [say "Error sending time packet"]),
     if (time_sent =? time_size) && negb (time_received =? -1) then 0 else 1) in
  let receive t :=
    let t := t ++ [Address rp; Recvfrom sfd 0] in
    if null_received =? -1 then (t ++ [say "Error receiving null packet"], 1) else finish t in
  if tcp_mode then receive [Address rp]
  else if null_sent =? 0 then receive [Address rp; Sendto sfd 0; Alarm 5]
  else ([Address rp; Sendto sfd 0; say "Error sending null packet"], 1).

Definition big_ugly_blob (server_name : string) (tcp_mode : bool) : list call * Z :=
  let st := socktype tcp_mode in
  match getaddrinfo server_name st with
  | inl e => ([Getaddrinfo st; Print (Stderr ("getaddrinfo: " +:+ gai_strerror e +:+ nl))], 1)
  | inr n =>
      match connect_loop n 0 with
      | (t, None) => (Getaddrinfo st :: t ++ [Print (Stderr ("Wasn't able to bind" +:+ nl))], 1)
      | (t, Some (rp, sfd)) =>
          let '(t', r) := talk tcp_mode rp sfd in (Getaddrinfo st :: t ++ Freeaddrinfo :: t', r)
      end
  end.

(** [main] on the words behind [argv[0]]. *)
Definition nettime_main (args : list string) : list call * Z :=
  match args with
  | [flag; server] =>
      let tcp_mode := bool_decide (flag = "-t") in
      ((if tcp_mode then [Print (Stdout ("got tcp" +:+ nl))] else []) ++ (big_ugly_blob server tcp_mode).1, EXIT_SUCCESS)
  | _ => ([Print (Stderr ("Wrong amount of args" +:+ nl))], EXIT_FAILURE)
  end.

(* ------------------------------------------------------------------ *)
(** ** Properties *)

(** The loop connects the first address that has a socket and accepts it. *)
Lemma connect_loop_first n : forall k,
  match (connect_loop n k).2 with
  | Some (rp, sfd) => (k <= rp < k + n)%nat /\ sfd = socket rp /\ sfd <> -1 /\ connect rp = true /\
      forall j, (k <= j < rp)%nat -> socket j = -1 \/ connect j = false
  | None => forall j, (k <= j < k + n)%nat -> socket j = -1 \/ connect j = false
  end.
Proof.
  induction n as [|n IH]; intros k; simpl; [lia|]. specialize (IH (S k)).
  assert (forall m, (socket k = -1 \/ connect k = false) -> (forall j, (S k <= j < m)%nat -> socket j = -1 \/ connect j = false) ->
    forall j, (k <= j < m)%nat -> socket j = -1 \/ connect j = false) as Hs.
  { intros m Hk Hj j Hr. destruct (decide (j = k)) as [->|?]; [done|]. apply Hj. lia. }
  destruct (Z.eqb_spec (socket k) (-1)) as [E|E]; [|destruct (connect k) eqn:Ec].
  - destruct (connect_loop n (S k)) as [t [[rp sfd]|]]; simpl in *.
    + destruct IH as (? & ? & ? & ? & ?). split_and!; [lia|lia|done..|]. apply Hs; auto.
    + replace (k + S n)%nat with (S k + n)%nat by lia. apply Hs; auto.
  - simpl. split_and!; [lia|lia|done..|]. intros j Hj. lia.
  - destruct (connect_loop n (S k)) as [t [[rp sfd]|]]; simpl in *.
    + destruct IH as (? & ? & ? & ? & ?). split_and!; [lia|lia|done..|]. apply Hs; auto.
    + replace (k + S n)%nat with (S k + n)%nat by lia. apply Hs; auto.
Qed.

Lemma talk_result tcp_mode rp sfd :
  ((talk tcp_mode rp sfd).2 = 0 <->
   (tcp_mode = false -> null_sent = 0) /\ null_received <> -1 /\ time_sent = time_size /\ time_received <> -1) /\
  ((talk tcp_mode rp sfd).2 = 0 ->
   exists t, (talk tcp_mode rp sfd).1 = t ++ [Print (Stdout ("Time: " +:+ ctime received)); Close sfd]).
Proof.
  unfold talk. destruct tcp_mode; [|destruct (Z.eqb_spec null_sent 0)];
    try destruct (Z.eqb_spec null_received (-1));
    try (destruct (Z.eqb_spec time_sent time_size), (Z.eqb_spec time_received (-1))); simpl;
    (split; [naive_solver lia|]); try done; intros _.
  - by eexists [_; _; _; _; _; _; _].
  - by eexists [_; _; _; _; _; _; _; _; _].
Qed.

(** Once it is connected, the client uses the address after the list has been freed. *)
Theorem nettime_uses_freed server tcp_mode n rp sfd
  (Hg : getaddrinfo server (socktype tcp_mode) = inr n) (Hc : (connect_loop n 0).2 = Some (rp, sfd)) :
  exists t1 t2 t3, (big_ugly_blob server tcp_mode).1 = t1 ++ Freeaddrinfo :: t2 ++ Address rp :: t3 /\ ~ Freeaddrinfo ∈ t2.
Proof.
  unfold big_ugly_blob. rewrite Hg. destruct (connect_loop n 0) as [t [[rp' sfd']|]] eqn:E; [|done]. injection Hc as -> ->.
  assert (exists t', (talk tcp_mode rp sfd).1 = Address rp :: t') as [t' Ht].
  { unfold talk. destruct tcp_mode; repeat case_match; simplify_eq/=; by eexists. }
  destruct (talk tcp_mode rp sfd) as [t0 r]. simpl in *. subst t0. exists (Getaddrinfo (socktype tcp_mode) :: t), [], t'.
  split; [done|]. set_solver.
Qed.

(** The client only succeeds when every call does, and shows the time then; its result is
    not looked at. *)
Theorem nettime_result server flag n (tcp_mode := bool_decide (flag = "-t"))
  (Hg : getaddrinfo server (socktype tcp_mode) = inr n) :
  ((big_ugly_blob server tcp_mode).2 = 0 <->
   is_Some (connect_loop n 0).2 /\ (tcp_mode = false -> null_sent = 0) /\ null_received <> -1 /\
   time_sent = time_size /\ time_received <> -1) /\
  ((big_ugly_blob server tcp_mode).2 = 0 ->
   exists t rp sfd, (connect_loop n 0).2 = Some (rp, sfd) /\
     (nettime_main [flag; server]).1 = t ++ [Print (Stdout ("Time: " +:+ ctime received)); Close sfd]) /\
  (nettime_main [flag; server]).2 = EXIT_SUCCESS.
Proof.
  unfold nettime_main. fold tcp_mode. unfold big_ugly_blob. rewrite Hg. clear Hg. generalize tcp_mode. clear tcp_mode.
  intros tcp_mode. destruct (connect_loop n 0) as [t [[rp sfd]|]]; [|split_and!; [|done..]; split; [done|]; by intros [[? ?] _]].
  split_and!; [| |done].
  - destruct (talk_result tcp_mode rp sfd) as [H _]. destruct (talk tcp_mode rp sfd) as [t' r]. simpl in *.
    rewrite H. split; [|tauto]. intros ?. split; [by eexists|done].
  - destruct (talk_result tcp_mode rp sfd) as [_ H]. destruct (talk tcp_mode rp sfd) as [t' r]. simpl in *.
    intros E. destruct (H E) as [t0 ->].
    eexists ((if tcp_mode then _ else _) ++ Getaddrinfo _ :: t ++ Freeaddrinfo :: t0), rp, sfd. split; [done|].
    rewrite <- !app_assoc. simpl. by rewrite <- !app_assoc.
Qed.
End nettime.

(** A server with two addresses, the first of which refuses. *)
Definition second_only (a : nat) : bool := (a =? 1)%nat.

Lemma nettime_uses_freed_witness :
  exists t1 t2 t3,
    (big_ugly_blob (fun _ => 1) (fun _ _ => inr 2%nat) (fun a => 3 + Z.of_nat a) second_only 0 0 8 4 [1; 2; 3; 4] (fun _ => "") (fun _ => "")
       [0; 0; 0; 0; 0; 0; 0; 0] "host" true).1 = t1 ++ Freeaddrinfo :: t2 ++ Address 1 :: t3 /\ ~ Freeaddrinfo ∈ t2.
Proof.
  exact (nettime_uses_freed (fun _ => 1) (fun _ _ => inr 2%nat) (fun a => 3 + Z.of_nat a) second_only 0 0 8 4 [1; 2; 3; 4] (fun _ => "")
    (fun _ => "") [0; 0; 0; 0; 0; 0; 0; 0] "host" true 2 1 4 eq_refl eq_refl).
Defined.

(** The socket that was refused stays open, and four of the eight bytes shown have never
    been received. *)
Example refused_socket ctime :
  big_ugly_blob (fun _ => 2) (fun _ _ => inr 2%nat) (fun a => 3 + Z.of_nat a) second_only 0 0 8 4 [1; 2; 3; 4] (fun _ => "") ctime
    [9; 9; 9; 9; 9; 9; 9; 9] "host" false =
  ([Getaddrinfo 2; Socket 0; Connect 3; Socket 1; Connect 4; Freeaddrinfo; Address 1; Sendto 4 0; Alarm 5; Address 1; Recvfrom 4 0;
    Address 1; Sendto 4 8; Address 1; Recvfrom 4 8; Print (Stdout ("Time: " +:+ ctime [1; 2; 3; 4; 9; 9; 9; 9])); Close 4], 0).
Proof. reflexivity. Qed.

(** No failure shows in the status of the program. *)
Example nettime_failure_succeeds gai_strerror ctime :
  (nettime_main (fun _ => 2) (fun _ _ => inl (-2)) (fun _ => -1) (fun _ => false) 0 0 0 0 [] gai_strerror ctime [] ["-u"; "host"]).2 = EXIT_SUCCESS.
Proof. reflexivity. Qed.

(** Anything but [-t] is the other mode. *)
Example no_flag gai_strerror ctime :
  (nettime_main (fun t => if t then 1 else 2) (fun _ _ => inr 0%nat) (fun _ => -1) (fun _ => false) 0 0 0 0 [] gai_strerror ctime []
    ["tcp"; "host"]).1 = [Getaddrinfo 2; Print (Stderr ("Wasn't able to bind" +:+ nl))].
Proof. reflexivity. Qed.
