(* ===== verification/Werecat.v ===== *)
(** [ex11/werecat/werecat.c]: copying several descriptors to the standard output
    as [poll] reports them readable. *)

From S2P Require Import Prelude.
From S2P Require Import Posix.
From S2P Require Import Copy.
From Stdlib Require Import Strings.Byte.

Open Scope Z_scope.

Definition POLLIN : Z := 1.
Definition POLLOUT : Z := 4.
Definition POLLERR : Z := 8.
Definition POLLHUP : Z := 16.
Definition POLLNVAL : Z := 32.

Definition has (revents flag : Z) : bool := negb (Z.land revents flag =? 0).

(** The variables of [main]: the descriptors with the results of the [read]s to
    come on each, [wt] with the results of the [write]s to come, and what has been
    written, with the index of the descriptor it comes from. *)
Record state := State {
  fds : list (Z * reads);
  wt : Z;
  results : writes;
  out : list (nat * bytes)
}.

(** [while (wt >= 0 && (rd = read(...)) > 0) ...] for descriptor [i]. A [read] that
    gives nothing, at the end of the file or because it would block, ends it. *)
Fixpoint drain (i : nat) (rs : reads) (ws : writes) (wt : Z) (out : list (nat * bytes)) :
    reads * writes * Z * list (nat * bytes) :=
  if 0 <=? wt then
    match rs with
    | Data (b :: bs) :: rs =>
        let '(_, wt, ws, sent) := write_loop ws (b :: bs) wt [] in
        drain i rs ws wt (out ++ [(i, sent)])
    | _ :: rs => (rs, ws, wt, out)
    | [] => ([], ws, wt, out)
    end
  else (rs, ws, wt, out).

(** The body of the [for] loop for descriptor [i]; [poll] reports no event for a
    negative descriptor. *)
Definition serve_fd (s : state) (i : nat) (ev : Z) : state :=
  match fds s !! i with
  | None => s
  | Some (fd, rs) =>
      let ev := if fd <? 0 then 0 else ev in
      let '(rs, ws, wt, out) :=
        if has ev POLLIN then drain i rs (results s) (wt s) (out s)
        else (rs, results s, wt s, out s) in
      let fd := if has ev POLLERR then -1 else fd in
      let fd := if has ev POLLHUP then -1 else fd in
      let fd := if has ev POLLNVAL then -1 else fd in
      State (<[i := (fd, rs)]> (fds s)) wt ws out
  end.

(** A pass over all the descriptors. *)
Definition serve_all (revents : nat -> Z) (s : state) : state :=
  fold_left (fun s i => serve_fd s i (revents i)) (seq 0 (length (fds s))) s.

(** How far the program gets: it ends when [poll] returns 0 or less. *)
Inductive outcome := Exited (status : Z) (out : list (nat * bytes)) | Polling (s : state).

(** [while (poll(fds, argc - 1, -1) > 0)]; [polls] are the return codes with the
    events. *)
Fixpoint poll_loop (polls : list (Z * (nat -> Z))) (s : state) : outcome :=
  match polls with
  | [] => Polling s
  | (ret, revents) :: polls =>
      if 0 <? ret then poll_loop polls (serve_all revents s) else Exited EXIT_SUCCESS (out s)
  end.

(** [main]; [files] are the results of [open] on the arguments: a descriptor with
    what [read] will return on it, or an error. *)
Definition werecat_main (files : list (option (Z * reads))) (ws : writes)
    (polls : list (Z * (nat -> Z))) : outcome :=
  let argc := Z.of_nat (length files) + 1 in
  if argc <? 2 then Exited EXIT_FAILURE []
  else if 10 <? argc then Exited EXIT_FAILURE []
  else
    match mapM id files with
    | None => Exited EXIT_FAILURE []
    | Some fds => poll_loop polls (State fds 0 ws [])
    end.

(* ------------------------------------------------------------------ *)
(** ** Properties *)

(** The bytes that results of [read] carry. *)
Definition data_of (rs : reads) : bytes :=
  concat (map (fun r => match r with Data b => b | ReadError _ => [] end) rs).

(** What was written of descriptor [i]. *)
Definition bytes_from (i : nat) (out : list (nat * bytes)) : bytes :=
  concat (map snd (filter (fun o => o.1 = i) out)).

Lemma bytes_from_snoc i out j b :
  bytes_from i (out ++ [(j, b)]) = bytes_from i out ++ (if decide (j = i) then b else []).
Proof.
  unfold bytes_from. rewrite filter_app, map_app, concat_app. f_equal.
  destruct (decide (j = i)).
  - rewrite filter_cons_True, filter_nil by done. simpl. by rewrite app_nil_r.
  - by rewrite filter_cons_False, filter_nil by done.
Qed.

Lemma data_of_app a b : data_of (a ++ b) = data_of a ++ data_of b.
Proof. unfold data_of. by rewrite map_app, concat_app. Qed.

(** The standard output works. *)
Definition sound (ws : writes) : Prop := Forall progress ws /\ existsb write_fails ws = false.

Lemma drain_spec i rs : forall ws wt out,
  sound ws -> 0 <= wt ->
  exists pre rs' ws' wt' out',
    drain i rs ws wt out = (rs', ws', wt', out') /\ rs = pre ++ rs' /\ sound ws' /\ 0 <= wt' /\
    (forall j, bytes_from j out' = bytes_from j out ++ (if decide (j = i) then data_of pre else [])).
Proof.
  induction rs as [|r rs IH]; intros ws wt out Hs Hwt; simpl; rewrite (proj2 (Z.leb_le _ _)) by done.
  - exists [], [], ws, wt, out. split_and!; try done. intros j. by case_decide; rewrite app_nil_r.
  - assert (r = ReadError (match r with ReadError e => e | _ => 0 end) \/ r = Data [] \/ exists b bs, r = Data (b :: bs)) as Hr.
    { destruct r as [[|b bs]|e]; eauto. }
    destruct Hr as [Hr|[Hr|(b & bs & Hr)]].
    1,2: exists [r], rs, ws, wt, out; rewrite Hr; split_and!; try done;
      intros j; case_decide; unfold data_of; simpl; by rewrite ?app_nil_r.
    rewrite Hr. destruct Hs as [Hp Hf].
    destruct (write_loop_spec ws (b :: bs) wt [] Hp Hwt) as (sent & rest & wt1 & ws1 & Heq & Hb & Hp1 & Hd & Hok).
    rewrite Heq. destruct (Hok Hf) as [Hne Hf1].
    destruct Hd as [[Hwt1 ->]|?]; [|done]. rewrite app_nil_r in Hb. subst sent.
    destruct (IH ws1 wt1 (out ++ [(i, [] ++ b :: bs)]) (conj Hp1 Hf1) Hwt1)
      as (pre & rs' & ws' & wt' & out' & Hdr & -> & Hs' & Hwt' & Ho).
    exists (Data (b :: bs) :: pre), rs', ws', wt', out'. split_and!; try done.
    intros j. rewrite Ho, bytes_from_snoc, <- app_assoc. f_equal. simpl.
    by repeat case_decide; subst.
Qed.

(** Each descriptor of [s] has been read up to where the [read]s of [files] got,
    and what they carried is what was written of it, in order. *)
Definition copied (files : list (Z * reads)) (s : state) : Prop :=
  sound (results s) /\ 0 <= wt s /\ length (fds s) = length files /\
  (forall j, (length files <= j)%nat -> bytes_from j (out s) = []) /\
  forall j fd rs, fds s !! j = Some (fd, rs) ->
    exists fd0 pre, files !! j = Some (fd0, pre ++ rs) /\ bytes_from j (out s) = data_of pre.

Lemma serve_fd_copied files s i ev : copied files s -> copied files (serve_fd s i ev).
Proof.
  intros Hc. pose proof Hc as (Hs & Hw & Hl & Hout & Hin). unfold serve_fd.
  destruct (fds s !! i) as [[fd rs]|] eqn:Hi; [|done].
  destruct (Hin i fd rs Hi) as (fd0 & pre & Hf & Hb).
  assert (i < length files)%nat as Hlt by (by eapply lookup_lt_Some).
  set (b := has _ POLLIN). set (fd' := if has _ POLLNVAL then _ else _). clearbody b fd'.
  assert (exists pre' rs' ws' wt' out',
    (if b then drain i rs (results s) (wt s) (out s) else (rs, results s, wt s, out s)) =
      (rs', ws', wt', out') /\ rs = pre' ++ rs' /\ sound ws' /\ 0 <= wt' /\
    (forall j, bytes_from j out' = bytes_from j (out s) ++ (if decide (j = i) then data_of pre' else [])))
    as (pre' & rs' & ws' & wt' & out' & -> & -> & Hs' & Hw' & Ho).
  { destruct b; [by apply drain_spec|]. exists [], rs, (results s), (wt s), (out s). split_and!; try done.
    intros j. by case_decide; rewrite app_nil_r. }
  split_and!; simpl; [done|done|by rewrite length_insert| |].
  - intros j Hj. rewrite Ho, Hout by done. by rewrite decide_False by lia.
  - intros j fdj rsj Hj. destruct (decide (j = i)) as [->|Hne].
    + rewrite list_lookup_insert_eq in Hj by lia. injection Hj as <- <-.
      exists fd0, (pre ++ pre'). rewrite Ho, decide_True, Hb, data_of_app, <- app_assoc by done. done.
    + rewrite list_lookup_insert_ne in Hj by done. destruct (Hin j fdj rsj Hj) as (g & pre2 & Hg & Hb2).
      exists g, pre2. by rewrite Ho, decide_False, app_nil_r by done.
Qed.

Lemma serve_all_copied files revents s : copied files s -> copied files (serve_all revents s).
Proof.
  unfold serve_all. generalize (seq 0 (length (fds s))). intros l. revert s.
  induction l as [|i l IH]; intros s Hc; [done|]. simpl. by apply IH, serve_fd_copied.
Qed.

(** What has been written, however far the program is. *)
Definition written (o : outcome) : list (nat * bytes) :=
  match o with Exited _ out => out | Polling s => out s end.

Lemma poll_loop_copied files polls : forall s,
  copied files s -> exists s', copied files s' /\ written (poll_loop polls s) = out s'.
Proof.
  induction polls as [|[ret revents] polls IH]; intros s Hc; simpl; [by exists s|].
  destruct (0 <? ret); [|by exists s]. by apply IH, serve_all_copied.
Qed.

(** C30: while the standard output works, whatever order [poll] reports the descriptors
    in, the output is an interleaving in which what comes from each descriptor is
    exactly what a prefix of its [read]s delivered: nothing is lost, repeated or
    reordered. *)
Theorem werecat_interleaves (files : list (Z * reads)) (ws : writes)
    (polls : list (Z * (nat -> Z)))
    (Hn : (1 <= length files <= 9)%nat) (Hws : sound ws) :
  exists rest : list reads, length rest = length files /\
    forall j fd rs, files !! j = Some (fd, rs) ->
      exists pre rs', rest !! j = Some rs' /\ rs = pre ++ rs' /\
        bytes_from j (written (werecat_main (map Some files) ws polls)) = data_of pre.
Proof.
  unfold werecat_main. rewrite length_map.
  destruct (Z.ltb_spec (Z.of_nat (length files) + 1) 2); [lia|].
  destruct (Z.ltb_spec 10 (Z.of_nat (length files) + 1)); [lia|].
  assert (mapM id (map Some files) = Some files) as ->.
  { clear. induction files as [|f files IH]; [done|]. simpl. by rewrite IH. }
  destruct (poll_loop_copied files polls (State files 0 ws [])) as (s' & Hc & ->).
  { split_and!; simpl; [done|lia|done|done|]. intros j fd rs Hj. by exists fd, []. }
  destruct Hc as (_ & _ & Hl & _ & Hin). exists (map snd (fds s')). split; [by rewrite length_map|].
  intros j fd rs Hj.
  destruct (lookup_lt_is_Some_2 (fds s') j) as [[fd' rs'] Hj'].
  { rewrite Hl. by eapply lookup_lt_Some. }
  destruct (Hin j fd' rs' Hj') as (fd0 & pre & Hf & Hb). rewrite Hj in Hf. injection Hf as <- ->.
  exists pre, rs'. by rewrite list_lookup_fmap, Hj'.
Qed.

(** Once a [write] has failed, nothing more is read or written. *)
Lemma no_output_after_error polls : forall s,
  wt s < 0 -> written (poll_loop polls s) = out s.
Proof.
  assert (forall i ev s, wt s < 0 -> wt (serve_fd s i ev) = wt s /\ out (serve_fd s i ev) = out s) as Hone.
  { intros i ev s Hw. unfold serve_fd. destruct (fds s !! i) as [[fd rs]|]; [|done].
    assert (drain i rs (results s) (wt s) (out s) = (rs, results s, wt s, out s)) as ->.
    { destruct rs; simpl; by rewrite (proj2 (Z.leb_gt _ _)) by lia. }
    by case_match; case_match; simplify_eq. }
  assert (forall revents l s, wt s < 0 ->
    let s' := fold_left (fun s i => serve_fd s i (revents i)) l s in wt s' < 0 /\ out s' = out s) as Hall.
  { intros revents l. induction l as [|i l IH]; intros s Hw; [done|]. simpl.
    destruct (Hone i (revents i) s Hw) as [H1 H2]. rewrite <- H2. apply IH. lia. }
  induction polls as [|[ret revents] polls IH]; intros s Hw; [done|]. simpl.
  destruct (0 <? ret); [|done].
  destruct (Hall revents (seq 0 (length (fds s))) s Hw) as [H1 H2]. by rewrite IH.
Qed.

(** A regular file is readable at its end too, and is never dropped: the program
    keeps polling it. *)
Example regular_file_polled_for_ever n :
  exists s, werecat_main [Some (3, [Data [x61]])] [] (replicate n (1, fun _ => POLLIN)) = Polling s.
Proof.
  unfold werecat_main. cbn -[poll_loop]. generalize (State [(3, [Data [x61]])] 0 [] []).
  induction n as [|n IH]; intros s; [by exists s|]. apply IH.
Qed.

Lemma werecat_interleaves_witness :
  exists pre rs',
    [Data [x61]; Data []] = pre ++ rs' /\
    bytes_from 0 (written (werecat_main (map Some [(3, [Data [x61]; Data []]); (4, [Data [x62]])]) []
      [(1, fun _ => POLLIN); (0, fun _ => 0)])) = data_of pre.
Proof.
  destruct (werecat_interleaves [(3, [Data [x61]; Data []]); (4, [Data [x62]])] []
      [(1, fun _ => POLLIN); (0, fun _ => 0)]) as (rest & _ & Hj).
  - simpl. lia.
  - split; [constructor|done].
  - destruct (Hj 0%nat 3 _ eq_refl) as (pre & rs' & _ & Hp & Hb). by exists pre, rs'.
Defined.
