(* ===== verification/Numbers.v ===== *)
(** The number exercises: the factorials of [ex01/fact] and [ex02/dynamic+static],
    the binomial coefficient built from them, the Fibonacci numbers of [ex03/perf]
    and the bytes of a [long] of [ex01/bytes]. *)

From S2P Require Import Prelude.
From S2P Require Import CLib.
From Stdlib Require Import Ascii.

Open Scope string_scope.
Open Scope Z_scope.

(* ------------------------------------------------------------------ *)
(** ** Factorial and binomial *)

(** [int fact(int number)]; the depth is bounded by [number]. [None] is an [int]
    overflow. *)
Fixpoint fact_depth (fuel : nat) (number : Z) : option Z :=
  if number <=? 1 then Some 1
  else
    match fuel with
    | O => None
    | S fuel => r ← fact_depth fuel (number - 1)%Z; int_ok (number * r)
    end.

Definition fact (number : Z) : option Z := fact_depth (Z.to_nat number) number.

(** [int comb(int upper, int lower)] *)
Definition comb (upper lower : Z) : option Z :=
  fu ← fact upper;
  d ← int_ok (upper - lower);
  fd ← fact d;
  fl ← fact lower;
  p ← int_ok (fd * fl);
  if p =? 0 then None else int_ok (Z.quot fu p).

(** How a program ends: [Crash] is undefined behaviour. *)
Inductive outcome := Exited (status : Z) (out : list output) | Crash.

Definition print_int (r : option Z) : outcome :=
  match r with Some x => Exited 0 [Stdout (dec x ++ nl)] | None => Crash end.

Definition int_of (arg : string) : Z := s32 (st_value (strtol arg 10)).

(** [main] of [fact.c]; the one of the static library has the same text. *)
Definition fact_main (args : list string) : outcome :=
  match args with
  | [_; arg] =>
      let input_number := int_of arg in
      if input_number <? 0 then Exited 1 [Stderr ("Negative number on input" ++ nl)]
      else print_int (fact input_number)
  | _ => Exited 1 [Stderr ("Wrong amount of arguments" ++ nl)]
  end.

Definition static_fact_main (args : list string) : outcome := fact_main args.

(** [main] of [comb.c]. *)
Definition comb_main (args : list string) : outcome :=
  match args with
  | [_; arg1; arg2] =>
      let upper := int_of arg1 in
      let lower := int_of arg2 in
      if (upper <? 0) || (lower <? 0) then Exited 1 [Stderr ("Negative number on input" ++ nl)]
      else print_int (comb upper lower)
  | _ => Exited 1 [Stderr ("Wrong amount of arguments" ++ nl)]
  end.

(* ------------------------------------------------------------------ *)
(** ** Fibonacci numbers *)

Definition long_ok (x : Z) : option Z :=
  if (LONG_MIN <=? x) && (x <=? LONG_MAX) then Some x else None.

(** [long fib(long n)] *)
Fixpoint fib_depth (fuel : nat) (n : Z) : option Z :=
  if n <=? 1 then Some 1
  else
    match fuel with
    | O => None
    | S fuel =>
        a ← fib_depth fuel (n - 1)%Z;
        b ← fib_depth fuel (n - 2)%Z;
        long_ok (a + b)
    end.

Definition fib (n : Z) : option Z := fib_depth (Z.to_nat n) n.

(** The checks of [main] of [fib.c] on its argument: the number, unless it is
    rejected ([strtoll] and [strtol] agree on a 64-bit [long]). *)
Definition fib_arg (args : list string) : option Z :=
  match args with
  | [_; arg] =>
      let p := strtol arg 10 in
      if negb (st_conv p) || negb (bool_decide (st_rest p = "")) || st_range p || (st_value p <? 0)
      then None else Some (st_value p)
  | _ => None
  end.

(** [main] of [fib.c], without the texts of its messages. *)
Definition fib_main (args : list string) : outcome :=
  match fib_arg args with
  | None => Exited EXIT_FAILURE []
  | Some n => match fib n with Some x => Exited EXIT_SUCCESS [Stdout (dec x ++ nl)] | None => Crash end
  end.

(* ------------------------------------------------------------------ *)
(** ** Bytes *)

(** The loop of [bytes.c] on one number: the values given to [%02lx], as [unsigned
    long]; [>>] on a [long] keeps the sign. *)
Fixpoint byte_loop (n : nat) (input : Z) : list Z :=
  match n with
  | O => []
  | S n => u64 input :: byte_loop n (Z.shiftr input 8)
  end.

Definition byte_values (input : Z) : list Z := byte_loop 8 input.

(** What [scanf("%ld")] gives: a number, no match, or the end of the input. *)
Inductive scanned := Number (n : Z) | NoMatch | Eof.

(** [main] of [bytes.c]: the values printed on each line, and the status; the end
    of the list of results is the end of the input. *)
Fixpoint bytes_main (input : list scanned) : list (list Z) * Z :=
  match input with
  | Number n :: input => let '(lines, st) := bytes_main input in (byte_values n :: lines, st)
  | NoMatch :: _ => ([], EXIT_FAILURE)
  | Eof :: _ | [] => ([], EXIT_SUCCESS)
  end.

(* ------------------------------------------------------------------ *)
(** ** Properties *)

Fixpoint zfact (n : nat) : Z := match n with O => 1 | S n => (Z.of_nat n + 1) * zfact n end.

Lemma zfact_S n : zfact (S n) = (Z.of_nat n + 1) * zfact n.
Proof. done. Qed.

Lemma zfact_pos n : 1 <= zfact n.
Proof. induction n as [|n IH]; [done|]. cbn [zfact]. nia. Qed.

Lemma fact_depth_spec n : forall fuel, (n <= fuel)%nat ->
  fact_depth fuel (Z.of_nat n) = int_ok (zfact n).
Proof.
  induction n as [|n IH]; intros fuel Hf; [by destruct fuel|].
  destruct (decide (n = 0%nat)) as [->|Hn]; [by destruct fuel|].
  destruct fuel as [|fuel]; [lia|]. cbn [fact_depth].
  rewrite (proj2 (Z.leb_gt _ _)) by lia. replace (Z.of_nat (S n) - 1) with (Z.of_nat n) by lia.
  rewrite IH by lia. pose proof (zfact_pos n). pose proof (zfact_S n) as HS.
  destruct (Z.le_gt_cases (zfact n) INT_MAX).
  - rewrite int_ok_nonneg by lia. cbn [mbind option_bind]. rewrite HS. f_equal. lia.
  - rewrite int_ok_above by lia. cbn [mbind option_bind]. rewrite int_ok_above; [done|]. rewrite HS. nia.
Qed.

Lemma fact_spec n : fact (Z.of_nat n) = int_ok (zfact n).
Proof. unfold fact. apply fact_depth_spec. lia. Qed.

Lemma zfact_mono n m : (n <= m)%nat -> zfact n <= zfact m.
Proof.
  induction 1 as [|m _ IH]; [done|]. cbn [zfact]. pose proof (zfact_pos m). nia.
Qed.

(** 12! is the last factorial an [int] holds. *)
Lemma fact_range n : fact (Z.of_nat n) = if (n <=? 12)%nat then Some (zfact n) else None.
Proof.
  rewrite fact_spec. destruct (Nat.leb_spec n 12) as [Hn|Hn].
  - apply int_ok_nonneg. pose proof (zfact_pos n). pose proof (zfact_mono n 12 Hn) as Hm.
    assert (zfact 12 <= INT_MAX) by (by vm_compute). lia.
  - apply int_ok_above. pose proof (zfact_mono 13 n ltac:(lia)) as Hm.
    assert (INT_MAX < zfact 13) by (by vm_compute). lia.
Qed.

(** Pascal's triangle. *)
Fixpoint binomial (n k : nat) : Z :=
  match k, n with
  | O, _ => 1
  | S _, O => 0
  | S k, S n => binomial n k + binomial n (S k)
  end.

Lemma comb_table :
  forallb (fun u => forallb (fun l =>
    bool_decide (comb (Z.of_nat u) (Z.of_nat l) =
      Some (if bool_decide ((u, l) = (0, 1)%nat) then 1 else binomial u l))) (seq 0 13)) (seq 0 13) = true.
Proof. vm_compute. reflexivity. Qed.

(** On operands whose factorials an [int] holds, [comb] is the binomial coefficient,
    which is 0 when [lower] exceeds [upper], except that it takes "0 over 1" for 1;
    on any other operands an [int] overflows, however small the coefficient. *)
Theorem comb_binomial (upper lower : nat)
    (Hu : Z.of_nat upper <= INT_MAX) (Hl : Z.of_nat lower <= INT_MAX) :
  comb (Z.of_nat upper) (Z.of_nat lower) =
  if (upper <=? 12)%nat && (lower <=? 12)%nat then
    Some (if bool_decide ((upper, lower) = (0, 1)%nat) then 1 else binomial upper lower)
  else None.
Proof.
  destruct (Nat.leb_spec upper 12) as [Hu'|Hu'].
  2: { unfold comb. by rewrite (fact_range upper), (proj2 (Nat.leb_gt upper _)) by lia. }
  destruct (Nat.leb_spec lower 12) as [Hl'|Hl']; cbn [andb].
  - pose proof comb_table as Ht. rewrite forallb_forall in Ht.
    specialize (Ht upper ltac:(apply in_seq; lia)). rewrite forallb_forall in Ht.
    specialize (Ht lower ltac:(apply in_seq; lia)). by apply bool_decide_eq_true in Ht.
  - unfold comb. rewrite (fact_range upper), (proj2 (Nat.leb_le upper _)) by lia. cbn [mbind option_bind].
    assert (int_ok (Z.of_nat upper - Z.of_nat lower) = Some (Z.of_nat upper - Z.of_nat lower)) as ->.
    { unfold int_ok, INT_MIN, INT_MAX in *.
      by rewrite (proj2 (Z.leb_le (-2147483648) _)), (proj2 (Z.leb_le _ 2147483647)) by lia. }
    cbn [mbind option_bind]. rewrite (fact_range lower), (proj2 (Nat.leb_gt lower _)) by lia.
    by destruct (fact _).
Qed.

Lemma comb_binomial_witness : comb (Z.of_nat 13) (Z.of_nat 1) = None.
Proof. apply (comb_binomial 13 1); unfold INT_MAX; lia. Defined.

(** The Fibonacci numbers from 1, 1. *)
Fixpoint fib_pair (n : nat) : Z * Z :=
  match n with O => (1, 1) | S n => let (a, b) := fib_pair n in (b, a + b) end.
Definition fib_ref (n : nat) : Z := (fib_pair n).1.

Lemma fib_ref_SS n : fib_ref (S (S n)) = fib_ref n + fib_ref (S n).
Proof. unfold fib_ref. simpl. by destruct (fib_pair n). Qed.

Lemma fib_ref_pos n : 1 <= fib_ref n <= fib_ref (S n).
Proof.
  induction n as [|n IH]; [by vm_compute|]. rewrite fib_ref_SS. lia.
Qed.

Lemma fib_ref_mono n m : (n <= m)%nat -> fib_ref n <= fib_ref m.
Proof. induction 1 as [|m _ IH]; [done|]. pose proof (fib_ref_pos m). lia. Qed.

Lemma long_ok_fib n : long_ok (fib_ref n) = if (n <=? 91)%nat then Some (fib_ref n) else None.
Proof.
  unfold long_ok. pose proof (fib_ref_pos n). rewrite (proj2 (Z.leb_le _ _)) by (unfold LONG_MIN; lia).
  destruct (Nat.leb_spec n 91) as [Hn|Hn].
  - pose proof (fib_ref_mono n 91 Hn). assert (fib_ref 91 <= LONG_MAX) by (by vm_compute).
    by rewrite (proj2 (Z.leb_le _ _)) by lia.
  - pose proof (fib_ref_mono 92 n ltac:(lia)). assert (LONG_MAX < fib_ref 92) by (by vm_compute).
    by rewrite (proj2 (Z.leb_gt _ _)) by lia.
Qed.

Lemma fib_depth_spec fuel : forall n, (n <= fuel)%nat ->
  fib_depth fuel (Z.of_nat n) = if (n <=? 91)%nat then Some (fib_ref n) else None.
Proof.
  induction fuel as [|fuel IH]; intros n Hn; [by replace n with 0%nat by lia|].
  destruct n as [|[|n]]; [done..|]. cbn [fib_depth]. rewrite (proj2 (Z.leb_gt _ _)) by lia.
  replace (Z.of_nat (S (S n)) - 1) with (Z.of_nat (S n)) by lia.
  replace (Z.of_nat (S (S n)) - 2) with (Z.of_nat n) by lia.
  rewrite !IH by lia. pose proof (long_ok_fib (S (S n))) as Hok. rewrite fib_ref_SS, Z.add_comm in Hok.
  destruct (Nat.leb_spec (S n) 91), (Nat.leb_spec n 91); try lia; cbn [mbind option_bind]; try by
    rewrite (proj2 (Nat.leb_gt _ _)) by lia.
  by rewrite Hok, fib_ref_SS, Z.add_comm.
Qed.

(** [fib] is the Fibonacci sequence up to its 92nd number, and no [long] holds the
    next one. *)
Theorem fib_result (n : nat) :
  fib (Z.of_nat n) = if (n <=? 91)%nat then Some (fib_ref n) else None.
Proof. unfold fib. apply fib_depth_spec. lia. Qed.

Lemma byte_loop_lookup n : forall input i, (i < n)%nat ->
  byte_loop n input !! i = Some (u64 (Z.shiftr input (8 * Z.of_nat i))).
Proof.
  induction n as [|n IH]; intros input i Hi; [lia|]. destruct i as [|i]; [done|].
  simpl. rewrite IH, Z.shiftr_shiftr by lia. do 3 f_equal. lia.
Qed.

(** The value printed at place [i] ends in byte [i] of the number, but it carries
    all the higher bytes with it: it is that byte alone only when they are all
    zero. *)
Theorem bytes_values (input : Z) (i : nat)
    (Hin : LONG_MIN <= input <= LONG_MAX) (Hi : (i < 8)%nat) :
  exists v, byte_values input !! i = Some v /\
    v mod 256 = (u64 input / 2 ^ (8 * Z.of_nat i)) mod 256 /\
    (v < 256 <-> 0 <= input < 2 ^ (8 * Z.of_nat i + 8)).
Proof.
  exists (u64 (Z.shiftr input (8 * Z.of_nat i))). split; [by apply byte_loop_lookup|].
  set (k := 8 * Z.of_nat i). assert (0 <= k <= 56) as Hk by lia.
  rewrite Z.shiftr_div_pow2 by lia. unfold LONG_MIN, LONG_MAX in Hin.
  assert (exists q, u64 input = input + q * 2 ^ 64) as [q Hq].
  { exists (- (input / 2 ^ 64)). unfold u64, wrap. rewrite Z.mod_eq by lia. lia. }
  assert (2 ^ 64 = 2 ^ k * (256 * 2 ^ (56 - k))) as Hp.
  { change 256 with (2 ^ 8). rewrite <- !Z.pow_add_r by lia. f_equal. lia. }
  assert (0 < 2 ^ k) as Hpk by lia. assert (0 < 2 ^ (56 - k)) as Hpr by lia.
  set (x := input / 2 ^ k). split.
  - rewrite Hq, Hp. replace (input + q * (2 ^ k * (256 * 2 ^ (56 - k))))
      with (input + q * 256 * 2 ^ (56 - k) * 2 ^ k) by ring.
    rewrite Z.div_add by lia. fold x. unfold u64, wrap.
    rewrite Z.mod_mod_divide by (exists (2 ^ 56); done).
    replace (x + q * 256 * 2 ^ (56 - k)) with (x + (q * 2 ^ (56 - k)) * 256) by ring.
    by rewrite Z.mod_add by lia.
  - pose proof (Z.mul_div_le input (2 ^ k) Hpk) as Hlo.
    pose proof (Z.mul_succ_div_gt input (2 ^ k) Hpk) as Hhi. fold x in Hlo, Hhi.
    rewrite Z.pow_add_r by lia. change (2 ^ 8) with 256.
    destruct (Z.lt_ge_cases input 0) as [Hneg|Hpos].
    + assert (- 2 ^ 63 <= x < 0) as Hx by (split; nia). unfold u64, wrap.
      rewrite <- (Z.mod_add x 1), Z.mod_small by lia. lia.
    + assert (0 <= x < 2 ^ 64) as Hx by (split; nia). rewrite u64_small by lia. split; nia.
Qed.

Lemma bytes_values_witness :
  exists v, byte_values 258 !! 0%nat = Some v /\ v mod 256 = (u64 258 / 2 ^ (8 * Z.of_nat 0)) mod 256.
Proof.
  destruct (bytes_values 258 0) as (v & H1 & H2 & _); [unfold LONG_MIN, LONG_MAX; lia|lia|by exists v].
Defined.

(** 258 is printed as [102 01 00 ...], not [02 01 00 ...]. *)
Example bytes_of_258 : byte_values 258 = [258; 1; 0; 0; 0; 0; 0; 0].
Proof. reflexivity. Qed.
