(* ===== verification/Dynlink.v ===== *)
(** [ex02/rtmath/rtmath.c]: a function of a library that is loaded at run time; and
    [ex02/dynlink]: a function of a library that is linked at run time. *)

From S2P Require Import Prelude.
From S2P Require Import CLib.
From S2P Require Import Numbers.
From Stdlib Require Import Ascii.

Open Scope string_scope.
Open Scope list_scope.
Open Scope Z_scope.

(* ------------------------------------------------------------------ *)
(** ** [rtmath.c] *)

Definition help (argv0 : string) : string :=
  "usage: " +:+ argv0 +:+ " LIBRARY [FUNCTION]" +:+ nl +:+ nl +:+
  "Opens the given math library and symbol (log10 by default)" +:+ nl +:+
  "then asks for a number and returns the output." +:+ nl +:+ nl +:+
  "You can locate math libraries on your system by running" +:+ nl +:+
  "    locate libm.so" +:+ nl.

Section rtmath.
(** The numbers and their [%lf]; handles; [dlopen] and [dlsym], null when they fail; the
    number read by [scanf]. *)
Context {double handle : Type} (fmt : double -> string).
Context (dlopen : string -> option handle) (dlsym : handle -> string -> option (double -> double)).
Context (scanf : option double).

(** The status, the output, and how often the library has been opened and closed. *)
Record run := Run { status : Z; output : list CLib.output; opens : nat; closes : nat }.

Definition rtmath_main (argv0 : string) (args : list string) : run :=
  match args with
  | [libname] | [libname; _] =>
      let symbol := match args with [_; s] => s | _ => "log10" end in
      match dlopen libname with
      | None => Run EXIT_FAILURE [Stderr "dlopen"] 0 0
      | Some libhndl =>
          match dlsym libhndl symbol with
          | None => Run EXIT_FAILURE [Stderr "dlsym"] 1 1
          | Some f =>
              let prompt := Stdout (symbol +:+ "> ") in
              match scanf with
              | None => Run EXIT_FAILURE [prompt; Stderr ("invalid input" +:+ nl)] 1 1
              | Some input =>
                  Run EXIT_SUCCESS
                    [prompt; Stdout (symbol +:+ "(" +:+ fmt input +:+ ") = " +:+ fmt (f input) +:+ nl)] 1 1
              end
          end
      end
  | _ => Run EXIT_FAILURE [Stdout (help argv0)] 0 0
  end.

(** The library is closed on every path on which it has been opened, and the program
    succeeds exactly when it has printed a value of the function. *)
Theorem rtmath_closes argv0 args :
  let r := rtmath_main argv0 args in
  closes r = opens r /\
  (status r = EXIT_SUCCESS <->
   exists libname l symbol f x, (args = [libname] /\ symbol = "log10" \/ args = [libname; symbol]) /\
     dlopen libname = Some l /\ dlsym l symbol = Some f /\ scanf = Some x /\
     output r = [Stdout (symbol +:+ "> "); Stdout (symbol +:+ "(" +:+ fmt x +:+ ") = " +:+ fmt (f x) +:+ nl)]).
Proof.
  unfold rtmath_main. destruct args as [|libname [|s [|? ?]]]; simpl;
    [split; [done|]; split; [done|naive_solver]| | |split; [done|]; split; [done|naive_solver]].
  all: destruct (dlopen libname) as [l|] eqn:El; simpl; [|split; [done|]; split; [done|naive_solver]].
  all: match goal with |- context [dlsym ?h ?x] => destruct (dlsym h x) as [f|] eqn:Ef end; simpl;
    [|split; [done|]; split; [done|naive_solver]].
  all: destruct scanf as [x|] eqn:Ex; simpl; split; try done; split; try done; intros; naive_solver.
Qed.
End rtmath.

(* ------------------------------------------------------------------ *)
(** ** [factorial.c] and [fact.c] *)

(** [number] *)
Definition u8 (x : Z) : Z := wrap 8 x.

(** What stands behind [exit] in [factorial]: the loop over [i]. *)
Fixpoint product_loop (fuel : nat) (i n result : Z) : Z :=
  match fuel with
  | O => result
  | S fuel => if i <? n then product_loop fuel (u8 (i + 1)) n (u8 (result * i)) else result
  end.

Definition product (n : Z) : Z := product_loop 256 2 n 1.

(** [factorial] exits before it computes anything. *)
Inductive call := Returns (result : Z) | Exits (status : Z).
Definition factorial (n : Z) : call := Exits EXIT_FAILURE.

(** The loop of [main] over its arguments. *)
Fixpoint argument_loop (args : list string) : Z * list CLib.output :=
  match args with
  | [] => (EXIT_SUCCESS, [])
  | a :: args =>
      let r := strtol a 10 in
      if st_range r || negb (bool_decide (st_rest r = "")) || (st_value r <? 0)
      then (EXIT_FAILURE, [Stderr (a +:+ ": not a positive integer")])
      else
        match factorial (u8 (st_value r)) with
        | Exits st => (st, [])
        | Returns result =>
            let '(st, out) := argument_loop args in
            (st, Stdout (dec (st_value r) +:+ "! = " +:+ dec result +:+ nl) :: out)
        end
  end.

Definition factorial_main (argv0 : string) (args : list string) : Z * list CLib.output :=
  match args with
  | [] => (EXIT_FAILURE, [Stderr ("usage: " +:+ argv0 +:+ " NUMBER [NUMBER...]" +:+ nl)])
  | _ => argument_loop args
  end.

(** The program never prints a factorial: it fails for every command line. *)
Theorem factorial_fails argv0 args :
  (factorial_main argv0 args).1 = EXIT_FAILURE /\ Forall (fun o => exists s, o = Stderr s) (factorial_main argv0 args).2.
Proof.
  destruct args as [|a args]; [split; [done|]; repeat constructor; by eexists|]. simpl.
  destruct (_ || _); simpl; split; try done; repeat constructor. by eexists.
Qed.

Lemma wrap_mul_l w x y : wrap w (wrap w x * y) = wrap w (x * y).
Proof. apply Zmult_mod_idemp_l. Qed.

Lemma product_loop_fact k : forall fuel i r, (k < fuel)%nat -> 2 <= i -> i + Z.of_nat k <= 255 ->
  product_loop fuel i (i + Z.of_nat k) (u8 (r * Numbers.zfact (Z.to_nat (i - 1)))) =
  u8 (r * Numbers.zfact (Z.to_nat (i - 1 + Z.of_nat k))).
Proof.
  induction k as [|k IH]; intros fuel i r Hk Hi Hb; (destruct fuel as [|fuel]; [lia|]); simpl.
  - rewrite !Z.add_0_r. by rewrite Z.ltb_irrefl.
  - destruct (Z.ltb_spec i (i + Z.of_nat (S k))); [|lia]. unfold u8 at 1. rewrite wrap_small by lia.
    replace (u8 (u8 (r * Numbers.zfact (Z.to_nat (i - 1))) * i)) with (u8 (r * Numbers.zfact (Z.to_nat (i + 1 - 1)))).
    + replace (i + Z.of_nat (S k)) with (i + 1 + Z.of_nat k) by lia. rewrite IH by lia.
      do 2 f_equal. f_equal. lia.
    + unfold u8. rewrite wrap_mul_l. f_equal. replace (Z.to_nat (i + 1 - 1)) with (S (Z.to_nat (i - 1))) by lia.
      cbn [Numbers.zfact]. replace (Z.of_nat (Z.to_nat (i - 1)) + 1) with i by lia. lia.
Qed.

(** The loop behind [exit] computes the factorial of [n - 1] in eight bits: its bound should
    be [i <= n]. *)
Theorem product_is_fact (n : Z) (Hn : 2 <= n <= 255) : product n = u8 (Numbers.zfact (Z.to_nat (n - 1))).
Proof.
  unfold product. pose proof (product_loop_fact (Z.to_nat (n - 2)) 256 2 1 ltac:(lia) ltac:(lia) ltac:(lia)) as H.
  replace (2 + Z.of_nat (Z.to_nat (n - 2))) with n in H by lia.
  replace (2 - 1 + Z.of_nat (Z.to_nat (n - 2))) with (n - 1) in H by lia.
  rewrite !Z.mul_1_l in H. exact H.
Qed.

(** The empty string is accepted as 0. *)
Example empty_argument : factorial_main "factorial" [""] = (EXIT_FAILURE, []).
Proof. reflexivity. Qed.
