(* ===== verification/Digest.v ===== *)
(** [ex11/shattr/sha_utils.c]: the checksum of what a descriptor delivers. The
    digest of OpenSSL is an interface; [DIGEST] chooses its instance. *)

From S2P Require Import Prelude.
From S2P Require Import Posix.
From S2P Require Import CLib.
From Stdlib Require Import Strings.Byte.

Open Scope Z_scope.

(** The calls of a digest: [None] is a call that returns 0. *)
Class Digest (ctx : Type) := {
  digest_init : option ctx;
  digest_update : ctx -> list byte -> option ctx;
  digest_final : ctx -> option (list byte);
  digest_length : Z
}.

(** The documentation of [*_Update]: it can be called repeatedly with chunks of the
    message. *)
Class DigestLaws (ctx : Type) `{Digest ctx} := {
  update_app (c : ctx) (a b : list byte) :
    digest_update c (a ++ b) = (c' ← digest_update c a; digest_update c' b);
  update_nil (c : ctx) : digest_update c [] = Some c
}.

(** The message printed on an error. *)
Inductive message := Errno (e : Z) | Openssl.

(** What the caller finds: the value, [*size] and [*digest] when they have been
    assigned (the block is [None] while it has no content), and the message. *)
Record found := Found {
  value : bool;
  size : option Z;
  digest : option (option (list byte));
  printed : option message
}.

(** The macros that name the functions of the digest chosen. *)
Definition CONCAT (a b : string) : string := (a +:+ b)%string.
Definition DSYMBOL (DIGEST SYMBOL : string) : string := CONCAT (CONCAT DIGEST "_") SYMBOL.

Example context_type : DSYMBOL "SHA512" "CTX" = "SHA512_CTX"%string.
Proof. reflexivity. Qed.

(** Whether the error strings of OpenSSL are loaded: the constructor and the destructor of
    the library. *)
Definition initialize (strings : bool) : bool := true.
Definition finalize (strings : bool) : bool := false.

(** What [error] prints. Without its strings OpenSSL has no reason, and [printf] is given a
    null pointer. *)
Definition message_line (argv0 : string) (strerror : Z -> string) (reason : string) (strings : bool) (m : message) : string :=
  match m with
  | Errno e => error_line argv0 "failed to compute checksum" (Some (strerror e))
  | Openssl => error_line argv0 (CONCAT "openssl error: " (if strings then reason else "(null)")) None
  end.

(** The program uses the library between its constructor and its destructor. *)
Example reason_shown argv0 strerror reason :
  message_line argv0 strerror reason (initialize false) Openssl =
    (argv0 +:+ ": openssl error: " +:+ reason +:+ nl)%string /\
  message_line argv0 strerror reason (finalize (initialize false)) Openssl =
    (argv0 +:+ ": openssl error: (null)" +:+ nl)%string.
Proof. split; reflexivity. Qed.

Section get_digest.
Context `{Digest ctx}.

(** [while ((rd = read(fd, buffer, sizeof(buffer))) > 0) ...]: the context, or where
    the function jumps to. *)
Fixpoint read_loop (rs : reads) (c : ctx) : message + ctx :=
  match rs with
  | Data (b :: bs) :: rs =>
      match digest_update c (b :: bs) with
      | None => inl Openssl
      | Some c => read_loop rs c
      end
  | ReadError e :: _ => inl (Errno e)
  | _ => inr c
  end.

(** [get_digest]; [malloc] tells whether the allocation succeeds, else its error. *)
Definition get_digest (malloc : option Z) (rs : reads) : found :=
  match digest_init with
  | None => Found false None None (Some Openssl)
  | Some context =>
      match read_loop rs context with
      | inl m => Found false None None (Some m)
      | inr context =>
          match malloc with
          | Some e => Found false (Some digest_length) None (Some (Errno e))
          | None =>
              match digest_final context with
              | None => Found false (Some digest_length) (Some None) (Some Openssl)
              | Some d => Found true (Some digest_length) (Some (Some d)) None
              end
          end
      end
  end.

(* ------------------------------------------------------------------ *)
(** ** Properties *)

(** The digest of a message given at once. *)
Definition digest_of (m : list byte) : option (list byte) :=
  c ← digest_init; c ← digest_update c m; digest_final c.

Context `{!DigestLaws ctx}.

Lemma read_loop_spec rs : forall c,
  match read_loop rs c with
  | inr c' => read_fails rs = false /\ digest_update c (delivered rs) = Some c'
  | inl _ => read_fails rs = true \/ digest_update c (delivered rs) = None
  end.
Proof.
  induction rs as [|[[|b bs]|e] rs IH]; intros c; cbn [read_loop delivered read_fails];
    [by rewrite update_nil|by rewrite update_nil| |by left].
  rewrite update_app. destruct (digest_update c (b :: bs)) as [c'|]; [|by right].
  cbn [mbind option_bind]. apply IH.
Qed.

(** C36: the file succeeds exactly when the reading, the allocation and the digest do,
    and then the result is the digest of the whole content at once, however the
    [read]s cut it; on failure a message is printed. *)
Theorem get_digest_result (malloc : option Z) (rs : reads) :
  let r := get_digest malloc rs in
  (value r = true <->
     read_fails rs = false /\ malloc = None /\ is_Some (digest_of (delivered rs))) /\
  (value r = true -> size r = Some digest_length /\ digest r = Some (digest_of (delivered rs))) /\
  (value r = true <-> printed r = None).
Proof.
  unfold get_digest, digest_of. cbn zeta.
  destruct digest_init as [c|]; cbn [mbind option_bind value printed];
    [|split; [|split]; [|done|done]; split; [done|by intros (_ & _ & [? ?])]].
  pose proof (read_loop_spec rs c) as Hl. destruct (read_loop rs c) as [m|c'].
  - cbn. split; [|split]; [|done|done]. split; [done|]. intros (Hf & _ & Hs).
    destruct Hl as [Hl|Hl]; [congruence|]. rewrite Hl in Hs. by destruct Hs.
  - destruct Hl as [Hf Hu]. rewrite Hu, Hf. cbn [mbind option_bind].
    destruct malloc as [e|]; [|destruct (digest_final c') as [d|]]; cbn.
    + split; [|split]; [|done|done]. split; [done|]. by intros (_ & ? & _).
    + split; [|split]; [|done|done]. split; [by eauto|done].
    + split; [|split]; [|done|done]. split; [done|]. by intros (_ & _ & [? ?]).
Qed.
End get_digest.

(** A digest to run the function with: the exclusive or of the bytes. *)
Definition xor_update (c : byte) (m : list byte) : byte :=
  fold_left (fun c b => default x00 (Byte.of_N (N.lxor (Byte.to_N c) (Byte.to_N b)))) m c.

#[export] Instance xor_digest : Digest byte := {|
  digest_init := Some x00;
  digest_update := fun c m => Some (xor_update c m);
  digest_final := fun c => Some [c];
  digest_length := 1
|}.

#[export] Instance xor_laws : DigestLaws byte.
Proof.
  split; [|done]. intros c a b. unfold digest_update, xor_digest, xor_update. cbn.
  by rewrite fold_left_app.
Qed.

(** A failing [*_Final] leaves the block it was to fill with the caller's pointer:
    it is not freed. *)
Lemma final_failure_keeps_block `{Digest ctx} rs c c' :
  digest_init = Some c -> read_loop rs c = inr c' -> digest_final c' = None ->
  digest (get_digest None rs) = Some None.
Proof. intros Hi Hr Hf. unfold get_digest. by rewrite Hi, Hr, Hf. Qed.

Example xor_of_three : get_digest None [Data [x01; x02]; Data [x04]] =
  Found true (Some 1) (Some (Some [x07])) None.
Proof. reflexivity. Qed.

Lemma get_digest_result_witness :
  value (get_digest None [Data [x01; x02]; Data [x04]]) = true /\
  digest (get_digest None [Data [x01; x02]; Data [x04]]) = Some (digest_of (delivered [Data [x01; x02]; Data [x04]])).
Proof.
  destruct (get_digest_result None [Data [x01; x02]; Data [x04]]) as (H1 & H2 & _).
  assert (value (get_digest None [Data [x01; x02]; Data [x04]]) = true) as Hv.
  { apply H1. split; [reflexivity|]. split; [reflexivity|]. by eexists. }
  split; [exact Hv|]. by apply H2.
Defined.
