(* ===== verification/Pwnam.v ===== *)
(** [ex09/pwnam/pwnam.c]: threads that look users up at the same time. [getpwuid]
    returns a pointer to one static entry that every call overwrites. *)

From S2P Require Import Prelude.

Open Scope Z_scope.

(** Where a thread of [print_info] is. *)
Inductive pc :=
| Start                        (* before [pthread_barrier_wait] *)
| Waiting                      (* in it *)
| Released                     (* before [getpwuid] *)
| Sleeping                     (* in [usleep], before [strcpy] *)
| Copied                       (* before [printf] *)
| Done
| Crashed.                     (* [strcpy] past the end of [name] *)

(** The threads, the name in the static entry, and what has been printed, each name
    with the uid of its thread. *)
Record state := State { pcs : list pc; passwd : string; printed : list (Z * string) }.

(** [#define UIDS 2u], [char name[64]] *)
Definition uids : list Z := [0; 1000].
Definition name_size : nat := 64.

Definition is_start (p : pc) : bool := match p with Start => true | _ => false end.
Definition release (p : pc) : pc := match p with Waiting => Released | _ => p end.

Section print_info.
(** The user database. *)
Context (getpwuid : Z -> option string).

(** One step of thread [i] of [print_info]. The barrier lets everybody go when the
    last of its threads arrives. *)
Definition step (i : nat) (s : state) : state :=
  match pcs s !! i, uids !! i with
  | Some p, Some uid =>
      match p with
      | Start =>
          let pcs := <[i := Waiting]> (pcs s) in
          State (if existsb is_start pcs then pcs else map release pcs) (passwd s) (printed s)
      | Released =>
          match getpwuid uid with
          | None => State (<[i := Done]> (pcs s)) (passwd s) (printed s)
          | Some n => State (<[i := Sleeping]> (pcs s)) n (printed s)
          end
      | Sleeping =>
          if (String.length (passwd s) <? name_size)%nat
          then State (<[i := Copied]> (pcs s)) (passwd s) (printed s)
          else State (<[i := Crashed]> (pcs s)) (passwd s) (printed s)
      | Copied => State (<[i := Done]> (pcs s)) (passwd s) (printed s ++ [(uid, passwd s)])
      | Waiting | Done | Crashed => s
      end
  | _, _ => s
  end.

(** A run in which the threads take steps in the given order. *)
Definition run (sched : list nat) (s : state) : state := fold_left (fun s i => step i s) sched s.

Definition start : state := State (replicate (length uids) Start) "" [].

(** [main]: the exit status, from whether [pthread_barrier_init], the calls of
    [pthread_create] and [pthread_join], and [pthread_barrier_destroy] succeed. A
    thread that cannot be created keeps the others from being joined. *)
Definition pwnam_main (barrier_init : bool) (creates joins : list bool) (destroy : bool) : Z :=
  if negb barrier_init then EXIT_FAILURE
  else
    let status :=
      if forallb id creates then if forallb id joins then EXIT_SUCCESS else EXIT_FAILURE
      else EXIT_FAILURE in
    if negb destroy then EXIT_FAILURE else status.

(* ------------------------------------------------------------------ *)
(** ** Properties *)

(** A name that the database gives for one of the uids. *)
Definition known (n : string) : Prop := exists uid, uid ∈ uids /\ getpwuid uid = Some n.

Definition before (p : pc) : bool := match p with Start | Waiting => true | _ => false end.
Definition active (p : pc) : bool := match p with Sleeping | Copied => true | _ => false end.

(** The threads are all before the barrier or all after it; a thread that has
    looked a user up will read a known name. *)
Record inv (s : state) : Prop := {
  inv_barrier : Forall before (pcs s) \/ Forall (fun p => negb (before p)) (pcs s);
  inv_passwd : known (passwd s) \/ Forall (fun p => negb (active p)) (pcs s);
  inv_quiet : Forall before (pcs s) -> printed s = [];
  inv_printed : Forall (fun p => p.1 ∈ uids /\ known p.2) (printed s)
}.

Lemma pwnam_inv_start : inv start.
Proof. split; [left; by repeat constructor|right; by repeat constructor|done|constructor]. Qed.

Lemma after_step s i p q :
  inv s -> pcs s !! i = Some p -> before p = false -> before q = false ->
  Forall (fun p => negb (before p)) (<[i := q]> (pcs s)) /\ ~ Forall before (<[i := q]> (pcs s)).
Proof.
  intros Hi Hp Hb Hq. split.
  - destruct (inv_barrier s Hi) as [Hall|Hall]; [|apply Forall_insert; [done|by rewrite Hq]].
    rewrite Forall_lookup in Hall. specialize (Hall i p Hp). by rewrite Hb in Hall.
  - intros Hall. rewrite Forall_lookup in Hall. specialize (Hall i q). rewrite Hq in Hall.
    apply Hall. apply list_lookup_insert_eq. by eapply lookup_lt_Some.
Qed.

Lemma active_insert s i q :
  inv s -> active q = false -> known (passwd s) \/ Forall (fun p => negb (active p)) (<[i := q]> (pcs s)).
Proof.
  intros Hi Hq. destruct (inv_passwd s Hi) as [?|Hall]; [by left|right].
  apply Forall_insert; [done|by rewrite Hq].
Qed.

Lemma known_active s i p :
  inv s -> pcs s !! i = Some p -> active p -> known (passwd s).
Proof.
  intros Hi Hp Ha. destruct (inv_passwd s Hi) as [?|Hall]; [done|].
  rewrite Forall_lookup in Hall. specialize (Hall i p Hp). by destruct (active p).
Qed.

Lemma barrier_step s i :
  inv s -> pcs s !! i = Some Start ->
  inv (State (let pcs := <[i := Waiting]> (pcs s) in if existsb is_start pcs then pcs else map release pcs)
         (passwd s) (printed s)).
Proof.
  intros Hi Hp. assert (Forall before (pcs s)) as Hb.
  { destruct (inv_barrier s Hi) as [?|Hall]; [done|]. rewrite Forall_lookup in Hall. by specialize (Hall i Start Hp). }
  assert (Forall before (<[i := Waiting]> (pcs s))) as Hb' by (by apply Forall_insert).
  assert (Forall (fun p => negb (active p)) (<[i := Waiting]> (pcs s))) as Ha.
  { eapply Forall_impl; [exact Hb'|]. by intros []. }
  pose proof (inv_quiet s Hi Hb) as Hq. cbn zeta.
  destruct (existsb is_start _) eqn:He; split; simpl; rewrite ?Hq; auto.
  - right. rewrite Forall_map. eapply Forall_impl; [|intros p Hpp; exact Hpp].
    rewrite Forall_forall in Hb' |- *. intros p Hin. specialize (Hb' p Hin).
    destruct p; try done. exfalso.
    assert (existsb is_start (<[i := Waiting]> (pcs s)) = true) as Ht; [|congruence].
    apply existsb_exists. exists Start. by rewrite <- list_elem_of_In.
  - right. rewrite Forall_map. eapply Forall_impl; [exact Ha|]. by intros [].
Qed.

Lemma pwnam_step_inv i s : inv s -> inv (step i s).
Proof.
  intros Hi. unfold step. destruct (pcs s !! i) as [p|] eqn:Hp; [|done].
  destruct (uids !! i) as [uid|] eqn:Hu; [|done].
  assert (uid ∈ uids) as Hin by (by eapply list_elem_of_lookup_2).
  destruct p; try done.
  - by apply barrier_step.
  - destruct (getpwuid uid) as [n|] eqn:Hn.
    + destruct (after_step s i Released Sleeping Hi Hp eq_refl eq_refl) as [Ha Hna].
      split; simpl; [by right|left; by exists uid|done|apply Hi].
    + destruct (after_step s i Released Done Hi Hp eq_refl eq_refl) as [Ha Hna].
      split; simpl; [by right|by apply active_insert|done|apply Hi].
  - pose proof (known_active s i Sleeping Hi Hp I) as Hk.
    destruct (_ <? _)%nat.
    + destruct (after_step s i Sleeping Copied Hi Hp eq_refl eq_refl) as [Ha Hna].
      split; simpl; [by right|by left|done|apply Hi].
    + destruct (after_step s i Sleeping Crashed Hi Hp eq_refl eq_refl) as [Ha Hna].
      split; simpl; [by right|by left|done|apply Hi].
  - pose proof (known_active s i Copied Hi Hp I) as Hk.
    destruct (after_step s i Copied Done Hi Hp eq_refl eq_refl) as [Ha Hna].
    split; simpl; [by right|by left|done|]. apply Forall_app_2; [apply Hi|by constructor; [|constructor]].
Qed.

Lemma pwnam_run_inv sched : forall s, inv s -> inv (run sched s).
Proof. induction sched as [|i sched IH]; intros s Hi; [done|]. by apply IH, pwnam_step_inv. Qed.

(** In every interleaving: nothing is printed before every thread has reached the
    barrier, and each name printed is the name of one of the uids asked for. Which
    one is not determined. *)
Theorem pwnam_prints_known (sched : list nat) :
  let s := run sched start in
  (Exists before (pcs s) -> printed s = []) /\
  Forall (fun p => p.1 ∈ uids /\ known p.2) (printed s).
Proof.
  intros s. pose proof (pwnam_run_inv sched start pwnam_inv_start) as Hi. fold s in Hi. split; [|apply Hi].
  intros He. apply (inv_quiet s Hi). destruct (inv_barrier s Hi) as [?|Hall]; [done|].
  apply Exists_exists in He as (p & Hin & Hb). rewrite Forall_forall in Hall.
  specialize (Hall p Hin). by destruct (before p).
Qed.

(** A thread whose look-up and printing are not interrupted prints its own name. *)
Lemma undisturbed_prints_own s i uid n :
  pcs s !! i = Some Released -> uids !! i = Some uid -> getpwuid uid = Some n ->
  (String.length n < name_size)%nat -> printed (run [i; i; i] s) = printed s ++ [(uid, n)].
Proof.
  intros Hp Hu Hn Hl. assert (i < length (pcs s))%nat as Hlt by (by eapply lookup_lt_Some).
  cbn [run fold_left]. unfold step at 3. rewrite Hp, Hu, Hn. unfold step at 2. simpl.
  rewrite list_lookup_insert_eq, Hu, (proj2 (Nat.ltb_lt _ _)) by done. unfold step. simpl.
  by rewrite list_insert_insert_eq, list_lookup_insert_eq, Hu by done.
Qed.
End print_info.

Definition two_users (uid : Z) : option string :=
  if uid =? 0 then Some "root"%string else if uid =? 1000 then Some "user"%string else None.

(** Both threads look their user up before either prints: the second name is printed
    for both. *)
Example wrong_name :
  printed (run two_users [0; 1; 0; 1; 0; 0; 1; 1]%nat start) = [(0, "user"%string); (1000, "user"%string)].
Proof. reflexivity. Qed.
