(* ===== verification/Condvar.v ===== *)
(** [ex09/condvar/condvar.c]: threads that wait for a flag on a condition variable,
    and the main thread that creates them and sets it. Each thread waits once before it looks at the
    flag. *)

From S2P Require Import Prelude.

Open Scope Z_scope.

Definition THREADS : nat := 2.

(** Where a thread of [run_thread] is. *)
Inductive pc :=
| Start                        (* before [pthread_mutex_lock] *)
| Looping                      (* holds the mutex, in [while (!flag_is_set)] *)
| Waiting                      (* in [pthread_cond_wait], without the mutex *)
| Woken                        (* in it, waiting for the mutex *)
| Leaving                      (* holds the mutex, [flag_is_set] *)
| Printing                     (* before [printf] *)
| Done.

(** Where the main thread is: before it creates thread [k], in [sleep], between the lock and
    the assignment, between the assignment and the broadcast, before the unlock, joining; or
    the process has ended. *)
Inductive main_pc := MCreate (k : nat) | MSleep | MLocked | MSet | MBroadcast | MJoin | MExit (status : Z).

(** Who holds [flag_mutex]. *)
Inductive owner := Free | Main | Thread (i : nat).

(** The threads created, the main thread, the mutex, the flag, and how many lines have been
    printed. *)
Record state := State { pcs : list pc; main : main_pc; mutex : owner; GLOBAL_FLAG : Z; printed : nat }.

(** What can happen next: a thread or the main thread goes on, with the outcome of
    [pthread_create] if it is called, or a waiting thread wakes up without being woken. *)
Inductive event := Step (i : nat) | MainStep (ok : bool) | Spurious (i : nat).

Definition is_done (p : pc) : bool := match p with Done => true | _ => false end.
Definition wake (p : pc) : pc := match p with Waiting => Woken | _ => p end.

Definition set_pc (i : nat) (p : pc) (m : owner) (s : state) : state :=
  State (<[i := p]> (pcs s)) (main s) m (GLOBAL_FLAG s) (printed s).

(** [run_thread]; an event that cannot happen leaves the state as it is. *)
Definition thread_step (i : nat) (s : state) : state :=
  match pcs s !! i with
  | Some Start => match mutex s with Free => set_pc i Looping (Thread i) s | _ => s end
  | Some Looping => set_pc i Waiting Free s
  | Some Woken =>
      match mutex s with
      | Free =>
          (* [flag_is_set = GLOBAL_FLAG] *)
          if GLOBAL_FLAG s =? 0 then set_pc i Looping (Thread i) s
          else set_pc i Leaving (Thread i) s
      | _ => s
      end
  | Some Leaving => set_pc i Printing Free s
  | Some Printing => State (<[i := Done]> (pcs s)) (main s) (mutex s) (GLOBAL_FLAG s) (S (printed s))
  | _ => s
  end.

(** [main]: when a thread cannot be created the process ends at once. *)
Definition main_step (ok : bool) (s : state) : state :=
  let to m := State (pcs s) m (mutex s) (GLOBAL_FLAG s) (printed s) in
  match main s with
  | MCreate k =>
      if (k <? THREADS)%nat then
        if ok then State (pcs s ++ [Start]) (MCreate (S k)) (mutex s) (GLOBAL_FLAG s) (printed s)
        else to (MExit EXIT_FAILURE)
      else to MSleep
  | MSleep => match mutex s with Free => State (pcs s) MLocked Main (GLOBAL_FLAG s) (printed s) | _ => s end
  | MLocked => State (pcs s) MSet (mutex s) 1 (printed s)
  | MSet => State (map wake (pcs s)) MBroadcast (mutex s) (GLOBAL_FLAG s) (printed s)
  | MBroadcast => State (pcs s) MJoin Free (GLOBAL_FLAG s) (printed s)
  | MJoin => if forallb is_done (pcs s) then to (MExit EXIT_SUCCESS) else s
  | MExit _ => s
  end.

(** Nothing happens any more when the process has ended. *)
Definition step (e : event) (s : state) : state :=
  match main s with
  | MExit _ => s
  | _ =>
      match e with
      | Step i => thread_step i s
      | MainStep ok => main_step ok s
      | Spurious i =>
          match pcs s !! i with Some Waiting => set_pc i Woken (mutex s) s | _ => s end
      end
  end.

Definition run (es : list event) (s : state) : state := fold_left (fun s e => step e s) es s.

Definition start : state := State [] (MCreate 0) Free 0 0.

(* ------------------------------------------------------------------ *)
(** ** Properties *)

(** Those who hold the mutex are where the code holds it. *)
Definition holds (p : pc) : bool := match p with Looping | Leaving => true | _ => false end.
Definition main_holds (m : main_pc) : bool := match m with MLocked | MSet | MBroadcast => true | _ => false end.
Definition finished (p : pc) : bool := match p with Leaving | Printing | Done => true | _ => false end.

(** How many threads are done. *)
Definition done_count (l : list pc) : nat := sum_list_with (fun p => b2n (is_done p)) l.

Record inv (s : state) : Prop := {
  inv_threads : forall i p, pcs s !! i = Some p -> holds p = true <-> mutex s = Thread i;
  inv_owner : forall i, mutex s = Thread i -> is_Some (pcs s !! i);
  inv_main : main_holds (main s) = true <-> mutex s = Main;
  inv_flag : forall i p, pcs s !! i = Some p -> finished p = true -> GLOBAL_FLAG s <> 0;
  inv_created : match main s with
    | MCreate k => length (pcs s) = k /\ (k <= THREADS)%nat
    | MExit st => st = EXIT_SUCCESS -> length (pcs s) = THREADS /\ forallb is_done (pcs s) = true
    | _ => length (pcs s) = THREADS
    end;
  inv_printed : printed s = done_count (pcs s)
}.

(** The threads that are done, when one of them moves. *)
Lemma done_insert (l : list pc) i p q :
  l !! i = Some p -> is_done p = false ->
  done_count (<[i := q]> l) = (done_count l + b2n (is_done q))%nat.
Proof.
  unfold done_count. revert i. induction l as [|x l IH]; intros [|i] Hi Hp; simpl in *; [done..| |].
  - injection Hi as ->. rewrite Hp. simpl. lia.
  - rewrite (IH i Hi Hp). lia.
Qed.

Lemma condvar_inv_start : inv start.
Proof. split; simpl; try done. split; [done|unfold THREADS; lia]. Qed.

Lemma set_pc_inv i p q m s :
  inv s -> pcs s !! i = Some p -> is_done p = false -> is_done q = false ->
  (holds q = true <-> m = Thread i) ->
  (forall j, j <> i -> m = Thread j <-> mutex s = Thread j) -> (m = Main <-> mutex s = Main) ->
  (finished q = true -> GLOBAL_FLAG s <> 0) -> (forall st, main s <> MExit st) ->
  inv (set_pc i q m s).
Proof.
  intros [Ht Ho Hm Hf Hc Hn] Hp Hdp Hdq Hq Hj Hmain Hflag Hx. assert (i < length (pcs s))%nat as Hlt by (by eapply lookup_lt_Some).
  split; simpl.
  - intros j r Hr. destruct (decide (j = i)) as [->|Hne].
    + rewrite list_lookup_insert_eq in Hr by done. by injection Hr as <-.
    + rewrite list_lookup_insert_ne in Hr by done. rewrite Hj by done. exact (Ht j r Hr).
  - intros j Hmj. apply lookup_lt_is_Some. rewrite length_insert. destruct (decide (j = i)) as [->|Hne]; [done|].
    rewrite Hj in Hmj by done. by apply lookup_lt_is_Some, Ho.
  - by rewrite Hmain.
  - intros j r Hr. destruct (decide (j = i)) as [->|Hne].
    + rewrite list_lookup_insert_eq in Hr by done. by injection Hr as <-.
    + rewrite list_lookup_insert_ne in Hr by done. exact (Hf j r Hr).
  - rewrite length_insert. destruct (main s) as [| | | | | |st]; try done. by destruct (Hx st).
  - rewrite (done_insert _ _ p), Hdq, Hn by done. simpl. lia.
Qed.

Lemma print_inv i s :
  inv s -> pcs s !! i = Some Printing -> (forall st, main s <> MExit st) ->
  inv (State (<[i := Done]> (pcs s)) (main s) (mutex s) (GLOBAL_FLAG s) (S (printed s))).
Proof.
  intros [Ht Ho Hm Hf Hc Hn] Hp Hx. assert (i < length (pcs s))%nat as Hlt by (by eapply lookup_lt_Some).
  assert (forall j r, <[i := Done]> (pcs s) !! j = Some r -> exists r', pcs s !! j = Some r' /\ holds r = holds r' /\ finished r = finished r') as Hl.
  { intros j r Hr. destruct (decide (j = i)) as [->|Hne].
    - rewrite list_lookup_insert_eq in Hr by done. injection Hr as <-. by exists Printing.
    - rewrite list_lookup_insert_ne in Hr by done. by exists r. }
  split; simpl.
  - intros j r (r' & Hr & -> & _)%Hl. by apply Ht.
  - intros j Hmj. apply lookup_lt_is_Some. rewrite length_insert. by apply lookup_lt_is_Some, Ho.
  - done.
  - intros j r (r' & Hr & _ & ->)%Hl. by apply (Hf j r').
  - rewrite length_insert. destruct (main s) as [| | | | | |st]; try done. by destruct (Hx st).
  - rewrite (done_insert _ _ Printing), Hn by done. simpl. lia.
Qed.

Lemma done_wake (l : list pc) : done_count (map wake l) = done_count l.
Proof.
  unfold done_count. induction l as [|p l IH]; [done|]. simpl. rewrite IH. by destruct p.
Qed.

Lemma condvar_thread_inv i s : inv s -> (forall st, main s <> MExit st) -> inv (thread_step i s).
Proof.
  intros Hi Hx. pose proof Hi as [Ht Ho Hm Hf _ _]. unfold thread_step. destruct (pcs s !! i) as [p|] eqn:Hp; [|done].
  specialize (Ht i p Hp). destruct p; simpl in Ht; try done.
  - destruct (mutex s) eqn:Hmx; try done.
    eapply set_pc_inv; try done; rewrite Hmx; naive_solver.
  - assert (mutex s = Thread i) as Hmx by (by apply Ht).
    eapply set_pc_inv; try done; rewrite Hmx; naive_solver.
  - destruct (mutex s) eqn:Hmx; try done.
    destruct (Z.eqb_spec (GLOBAL_FLAG s) 0); eapply set_pc_inv; try done; rewrite ?Hmx; naive_solver.
  - assert (mutex s = Thread i) as Hmx by (by apply Ht).
    eapply set_pc_inv; try done; rewrite ?Hmx; try naive_solver.
  - by apply print_inv.
Qed.

Lemma condvar_spurious_inv i s : inv s -> (forall st, main s <> MExit st) ->
  inv (match pcs s !! i with Some Waiting => set_pc i Woken (mutex s) s | _ => s end).
Proof.
  intros Hi Hx. destruct (pcs s !! i) as [[]|] eqn:Hp; try done. pose proof (inv_threads s Hi i Waiting Hp) as Ht. simpl in Ht.
  by eapply set_pc_inv.
Qed.

Lemma condvar_main_inv ok s : inv s -> inv (main_step ok s).
Proof.
  intros Hi. pose proof Hi as [Ht Ho Hm Hf Hc Hn]. unfold main_step. destruct (main s) as [k| | | | | |st] eqn:Hmn; simpl in Hm; try done.
  - destruct Hc as [Hlen Hk]. destruct (Nat.ltb_spec k THREADS); [destruct ok|]; split; simpl; try done.
    + intros i p Hp. apply lookup_app_Some in Hp as [Hp|[Hge Hp]]; [by apply Ht|].
      apply list_lookup_singleton_Some in Hp as [Hz <-]. split; [done|]. intros Hmx.
      destruct (Ho i Hmx) as [q Hq]. apply lookup_lt_Some in Hq. lia.
    + intros i Hmx. destruct (Ho i Hmx) as [q Hq]. exists q. by apply lookup_app_l_Some.
    + intros i p Hp. apply lookup_app_Some in Hp as [Hp|[Hge Hp]]; [by apply (Hf i p)|].
      by apply list_lookup_singleton_Some in Hp as [Hz <-].
    + rewrite length_app. simpl. lia.
    + unfold done_count in *. rewrite sum_list_with_app, Hn. simpl. lia.
    + lia.
  - destruct (mutex s) eqn:Hmx; try done. split; simpl; try done.
    intros i p Hp. rewrite (Ht i p Hp). split; congruence.
  - split; simpl; [| |exact Hm| |by rewrite length_map|by rewrite done_wake].
    + intros i p Hp. apply list_lookup_fmap_Some in Hp as (q & -> & Hq). rewrite <- (Ht i q Hq). by destruct q.
    + intros i Hmx. apply lookup_lt_is_Some. rewrite length_map. by apply lookup_lt_is_Some, Ho.
    + intros i p Hp Hfi. apply list_lookup_fmap_Some in Hp as (q & -> & Hq).
      apply (Hf i q Hq). by destruct q.
  - assert (mutex s = Main) as Hmx by (by apply Hm). split; simpl; try done.
    intros i p Hp. rewrite (Ht i p Hp), Hmx. split; congruence.
  - destruct (forallb _ _) eqn:Hd; [|done]. by split.
Qed.

Lemma condvar_step_inv e s : inv s -> inv (step e s).
Proof.
  intros Hi. unfold step. destruct (main s) as [k| | | | | |st] eqn:Hmn; [| | | | | |done];
    (assert (forall st, main s <> MExit st) as Hx by (intros st; congruence)); clear Hmn;
    (destruct e as [i|ok|i]; [by apply condvar_thread_inv|by apply condvar_main_inv|by apply condvar_spurious_inv]).
Qed.

Lemma condvar_run_inv es : forall s, inv s -> inv (run es s).
Proof. induction es as [|e es IH]; intros s Hi; [done|]. by apply IH, condvar_step_inv. Qed.

(** In every run, with spurious wake-ups too: at most one thread is inside the
    critical section, and no thread leaves its loop before the flag is set. The program only
    succeeds when every thread has printed its line. *)
Theorem condvar_safety (es : list event) :
  let s := run es start in
  (forall i j p q, pcs s !! i = Some p -> pcs s !! j = Some q -> holds p = true -> holds q = true -> i = j) /\
  (forall i p, pcs s !! i = Some p -> holds p = true -> main_holds (main s) = false) /\
  (forall i p, pcs s !! i = Some p -> finished p = true -> GLOBAL_FLAG s <> 0) /\
  (main s = MExit EXIT_SUCCESS -> printed s = THREADS).
Proof.
  intros s. pose proof (condvar_run_inv es start condvar_inv_start) as [Ht Ho Hm Hf Hc Hn]. fold s in Ht, Ho, Hm, Hf, Hc, Hn.
  split; [|split; [|split; [done|]]].
  - intros i j p q Hp Hq Hhp Hhq. apply (Ht i p Hp) in Hhp. apply (Ht j q Hq) in Hhq. congruence.
  - intros i p Hp Hh. apply (Ht i p Hp) in Hh. apply not_true_is_false. intros Hmh.
    apply Hm in Hmh. congruence.
  - intros He. rewrite He in Hc. destruct (Hc eq_refl) as [<- Hd]. rewrite Hn. clear -Hd.
    unfold done_count. induction (pcs s) as [|p l IH]; [done|]. simpl in *. apply andb_prop in Hd as [-> Hd].
    by rewrite (IH Hd).
Qed.

(** A thread that has not reached its wait when the flag is announced. *)
Definition late (i : nat) (s : state) : Prop :=
  (main s = MBroadcast \/ main s = MJoin) /\
  (pcs s !! i = Some Start \/ pcs s !! i = Some Looping \/ pcs s !! i = Some Waiting).

Lemma late_set_pc i j q m s :
  late i s -> (j = i -> q = Looping \/ q = Waiting) -> late i (set_pc j q m s).
Proof.
  intros [Hm Hp] Hq. split; [done|]. simpl. destruct (decide (j = i)) as [->|Hne].
  - assert (i < length (pcs s))%nat as Hl by (destruct Hp as [Hp|[Hp|Hp]]; by eapply lookup_lt_Some).
    rewrite list_lookup_insert_eq by done. destruct (Hq eq_refl) as [->| ->]; auto.
  - by rewrite list_lookup_insert_ne.
Qed.

Lemma late_step e i s : late i s -> e <> Spurious i -> late i (step e s).
Proof.
  intros Hl He. pose proof Hl as [Hm Hp].
  assert (step e s = match e with Step j => thread_step j s | MainStep ok => main_step ok s | Spurious j =>
    match pcs s !! j with Some Waiting => set_pc j Woken (mutex s) s | _ => s end end) as ->.
  { unfold step. by destruct Hm as [-> | ->]. }
  destruct e as [j|ok|j].
  - unfold thread_step. destruct (pcs s !! j) as [p|] eqn:Hj; [|done].
    assert (j = i -> p = Start \/ p = Looping \/ p = Waiting) as Hpp.
    { intros ->. rewrite Hj in Hp. naive_solver. }
    destruct p; try done; repeat case_match; try done; try (apply late_set_pc; [done|naive_solver]).
    split; [done|]. simpl. rewrite list_lookup_insert_ne; [done|]. naive_solver.
  - unfold main_step. destruct Hm as [-> | ->].
    + split; simpl; [by right|done].
    + destruct (forallb is_done (pcs s)) eqn:Hd; [|exact Hl]. exfalso.
      rewrite forallb_forall in Hd.
      destruct Hp as [Hp|[Hp|Hp]]; apply list_elem_of_lookup_2, list_elem_of_In, Hd in Hp; done.
  - destruct (pcs s !! j) as [p|] eqn:Hj; [|done]. destruct p; try done.
    apply late_set_pc; [done|]. by intros ->.
Qed.

(** The wake-up is lost on a thread that comes to its wait after the broadcast: as
    long as it is not woken spuriously it never ends, whatever happens, and the main
    thread waits for it for ever. *)
Theorem condvar_lost_wakeup (es : list event) (i : nat) (s : state)
    (Hlate : late i s) (Hes : Spurious i ∉ es) :
  let s' := run es s in
  (forall st, main s' <> MExit st) /\ exists p, pcs s' !! i = Some p /\ finished p = false.
Proof.
  intros s'. assert (late i s') as [Hm Hp].
  { subst s'. revert s Hlate. induction es as [|e es IH]; intros s Hlate; [done|].
    apply not_elem_of_cons in Hes as [He Hes]. apply IH; [done|]. apply late_step; congruence. }
  split; [intros st; by destruct Hm as [-> | ->]|]. destruct Hp as [Hp|[Hp|Hp]]; eauto.
Qed.

(** The threads are created and the main thread sleeps. *)
Definition created : list event := replicate 3 (MainStep true).

Lemma condvar_lost_wakeup_witness :
  main (run (replicate 9 (MainStep true) ++ [Step 1; Step 1])
    (run (created ++ [Step 0; Step 0] ++ replicate 4 (MainStep true)) start)) <> MExit EXIT_SUCCESS.
Proof.
  refine (proj1 (condvar_lost_wakeup _ 1 _ _ _) EXIT_SUCCESS).
  - split; [by right|by left].
  - set_solver.
Defined.

(** When both threads wait before the main thread wakes up, all end. *)
Example all_end :
  let s := run (created ++ [Step 0; Step 0; Step 1; Step 1] ++ replicate 4 (MainStep true) ++
             [Step 0; Step 0; Step 0; Step 1; Step 1; Step 1; MainStep true]) start in
  main s = MExit EXIT_SUCCESS /\ printed s = 2%nat.
Proof. split; reflexivity. Qed.

(** A thread that exists does not live on when the next one cannot be created. *)
Example second_not_created :
  main (run [MainStep true; Step 0; MainStep false; Step 0] start) = MExit EXIT_FAILURE.
Proof. reflexivity. Qed.
