(* ===== verification/Stopwatch.v ===== *)
(** [ex08/libstopwatch/stopwatch.c]: a stopwatch per thread, kept as thread-specific
    data in a block of the heap. Times are seconds; the clock and the addresses
    [malloc] returns are arguments of the operations. *)

From S2P Require Import Prelude.

Open Scope Z_scope.

(** The key, the pointers kept under it, and the heap. *)
Record state := State { key : bool; specific : gmap nat Z; heap : gmap Z Z }.

Definition start : state := State false ∅ ∅.

(** What happens: calls of the library by a thread, and the end of a thread. [Reset]
    carries the clock, what [malloc] returns and what [pthread_setspecific] does. *)
Inductive op :=
| Init
| Destroy
| Reset (t : nat) (now : Z) (malloc : option Z) (setspecific : Z)
| Exit (t : nat).

(** [stopwatch_init]: a new key has no value in any thread. *)
Definition stopwatch_init (s : state) : state := State true ∅ (heap s).

(** [stopwatch_destroy] deletes the key, not the blocks. *)
Definition stopwatch_destroy (s : state) : state := State false ∅ (heap s).

(** [stopwatch_reset]: the returned code; [None] is the end of the program when
    [malloc] fails. *)
Definition stopwatch_reset (t : nat) (now : Z) (malloc : option Z) (setspecific : Z) (s : state) :
    option (state * Z) :=
  match malloc with
  | None => None
  | Some a =>
      let h := <[a := now]> (heap s) in
      if setspecific =? 0 then Some (State (key s) (<[t := a]> (specific s)) h, 0)
      else Some (State (key s) (specific s) h, setspecific)
  end.

(** What [stopwatch_elapsed] prints, and [result->tv_sec] when [result] is not null. *)
Inductive elapsed := NoData | Timediff (d : Z).

(** [stopwatch_elapsed]; [None] is a null pointer that is followed. *)
Definition stopwatch_elapsed (t : nat) (now : Z) (result : bool) (s : state) :
    option (elapsed * option Z) :=
  match specific s !! t with
  | None => if result then None else Some (NoData, None)
  | Some a =>
      got_time ← heap s !! a;
      Some (Timediff (now - got_time), if result then Some (got_time - now)%Z else None)
  end.

(** The end of a thread: the destructor [free] of the key. *)
Definition thread_exit (t : nat) (s : state) : state :=
  match specific s !! t with
  | None => s
  | Some a => State (key s) (delete t (specific s)) (delete a (heap s))
  end.

Definition step (o : op) (s : state) : option state :=
  match o with
  | Init => Some (stopwatch_init s)
  | Destroy => Some (stopwatch_destroy s)
  | Reset t now m sp => fst <$> stopwatch_reset t now m sp s
  | Exit t => Some (thread_exit t s)
  end.

Fixpoint run (os : list op) (s : state) : option state :=
  match os with
  | [] => Some s
  | o :: os => s' ← step o s; run os s'
  end.

(* ------------------------------------------------------------------ *)
(** ** Properties *)

(** [malloc] returns blocks that are not in use. *)
Definition malloc_fresh (o : op) (s : state) : Prop :=
  match o with Reset _ _ (Some a) _ => heap s !! a = None | _ => True end.

Fixpoint fresh_run (os : list op) (s : state) : Prop :=
  match os with
  | [] => True
  | o :: os => malloc_fresh o s /\ match step o s with Some s' => fresh_run os s' | None => True end
  end.

(** When thread [t] last set its stopwatch, from the history alone. *)
Definition seen (t : nat) (o : op) (last : option Z) : option Z :=
  match o with
  | Init | Destroy => None
  | Reset t' now _ sp => if bool_decide (t' = t) && (sp =? 0) then Some now else last
  | Exit t' => if bool_decide (t' = t) then None else last
  end.

Definition last_reset (t : nat) (os : list op) (last : option Z) : option Z :=
  fold_left (fun last o => seen t o last) os last.

(** Every thread has a block of its own. *)
Record inv (s : state) (last : nat -> option Z) : Prop := {
  inv_last : forall t, last t = (a ← specific s !! t; heap s !! a);
  inv_live : forall t a, specific s !! t = Some a -> is_Some (heap s !! a);
  inv_own : forall t t' a, specific s !! t = Some a -> specific s !! t' = Some a -> t = t'
}.

Lemma stopwatch_inv_start : inv start (fun _ => None).
Proof. split; intros; by simplify_map_eq. Qed.

Lemma no_data_inv k s : inv (State k ∅ (heap s)) (fun _ => None).
Proof. split; intros; by simplify_map_eq. Qed.

Lemma reset_inv t now a s last :
  inv s last -> heap s !! a = None ->
  inv (State (key s) (<[t := a]> (specific s)) (<[a := now]> (heap s)))
      (fun t' => if decide (t = t') then Some now else last t').
Proof.
  intros [Hl Hv Ho] Ha.
  assert (forall t', specific s !! t' <> Some a) as Hna.
  { intros t' Ht. destruct (Hv t' a Ht) as [x Hx]. congruence. }
  split; simpl.
  - intros t'. destruct (decide (t = t')) as [<-|Hne]; [by simplify_map_eq|].
    rewrite lookup_insert_ne, Hl by done. destruct (specific s !! t') as [b|] eqn:Hb; [|done]. simpl.
    assert (a <> b) by congruence. by rewrite lookup_insert_ne.
  - intros t' b. destruct (decide (a = b)) as [->|Hab]; [by simplify_map_eq|].
    rewrite (lookup_insert_ne _ a b) by done. destruct (decide (t = t')) as [->|Hne]; [by intros; simplify_map_eq|].
    rewrite lookup_insert_ne by done. apply Hv.
  - intros t1 t2 b H1 H2. rewrite !lookup_insert_Some in *. naive_solver.
Qed.

Lemma exit_inv t s last :
  inv s last -> inv (thread_exit t s) (fun t' => if decide (t = t') then None else last t').
Proof.
  intros [Hl Hv Ho]. unfold thread_exit. destruct (specific s !! t) as [a|] eqn:Ht.
  - split; simpl.
    + intros t'. destruct (decide (t = t')) as [<-|Hne]; [by simplify_map_eq|].
      rewrite lookup_delete_ne, Hl by done. destruct (specific s !! t') as [b|] eqn:Hb; [|done]. simpl.
      assert (a <> b) by naive_solver. by rewrite lookup_delete_ne.
    + intros t' b Hb. apply lookup_delete_Some in Hb as [Hne Hb].
      assert (a <> b) by naive_solver. rewrite lookup_delete_ne by done. by apply (Hv t').
    + intros t1 t2 b H1 H2. apply lookup_delete_Some in H1 as [_ H1]. apply lookup_delete_Some in H2 as [_ H2].
      by apply (Ho t1 t2 b).
  - split; [|done|done]. intros t'. destruct (decide (t = t')) as [<-|]; [|done]. by rewrite Ht.
Qed.

Lemma inv_ext s f g : (forall t, f t = g t) -> inv s f -> inv s g.
Proof. intros Hfg [H1 H2 H3]. split; [|done|done]. intros t. by rewrite <- Hfg. Qed.

Lemma failed_inv now a s last :
  inv s last -> heap s !! a = None ->
  inv (State (key s) (specific s) (<[a := now]> (heap s))) last.
Proof.
  intros [Hl Hv Ho] Ha. split; [| |done]; simpl.
  - intros t'. rewrite Hl. destruct (specific s !! t') as [b|] eqn:Hb; [|done]. simpl.
    destruct (Hv t' b Hb) as [x Hx]. assert (a <> b) by congruence. by rewrite lookup_insert_ne.
  - intros t' b Hb. destruct (decide (a = b)) as [->|]; [by simplify_map_eq|].
    rewrite lookup_insert_ne by done. by apply (Hv t').
Qed.

Lemma stopwatch_step_inv o s s' last :
  inv s last -> malloc_fresh o s -> step o s = Some s' -> inv s' (fun t => seen t o (last t)).
Proof.
  intros Hi Hf Hs. destruct o as [| |t now m sp|t]; simpl in *.
  - injection Hs as <-. apply no_data_inv.
  - injection Hs as <-. apply no_data_inv.
  - destruct m as [a|]; [|done]. simpl in Hs. destruct (Z.eqb_spec sp 0); simpl in Hs; injection Hs as <-.
    + eapply inv_ext; [|by apply reset_inv]. intros t'. simpl. rewrite andb_true_r. repeat case_decide; case_bool_decide; congruence.
    + eapply inv_ext; [|by apply failed_inv]. intros t'. by rewrite andb_false_r.
  - injection Hs as <-. eapply inv_ext; [|by apply exit_inv]. intros t'. simpl.
    case_decide; case_bool_decide; congruence.
Qed.

Lemma stopwatch_run_inv os : forall s s' last,
  inv s last -> fresh_run os s -> run os s = Some s' -> inv s' (fun t => last_reset t os (last t)).
Proof.
  induction os as [|o os IH]; intros s s' last Hi Hf Hr; simpl in *; [by injection Hr as <-|].
  destruct Hf as [Hm Hf]. destruct (step o s) as [s1|] eqn:Hs; [|done]. simpl in Hr.
  apply (IH s1 s' (fun t => seen t o (last t))); [|done|done]. by eapply stopwatch_step_inv.
Qed.

(** Whatever the other threads do, a thread that asks for its elapsed time gets the
    time since its own last successful reset: that is what is printed, and the
    caller is given its negation. A thread that has none (never reset, or the
    library was initialised or destroyed since) has nothing printed, and the null
    pointer is followed when it asks for a result. *)
Theorem stopwatch_elapsed_own (os : list op) (s : state) (t : nat) (now : Z) (result : bool)
    (Hfresh : fresh_run os start) (Hrun : run os start = Some s) :
  stopwatch_elapsed t now result s =
  match last_reset t os None with
  | Some t0 => Some (Timediff (now - t0), if result then Some (- (now - t0)) else None)
  | None => if result then None else Some (NoData, None)
  end.
Proof.
  destruct (stopwatch_run_inv os start s (fun _ => None) stopwatch_inv_start Hfresh Hrun) as [Hl Hv _].
  rewrite Hl. unfold stopwatch_elapsed. destruct (specific s !! t) as [a|] eqn:Ha; [|done].
  destruct (Hv t a Ha) as [t0 Ht0]. cbn [mbind option_bind]. rewrite Ht0. cbn [mbind option_bind].
  destruct result; [|done]. do 2 f_equal. f_equal. lia.
Qed.

Lemma stopwatch_elapsed_own_witness :
  exists s, run [Init; Reset 0 100 (Some 1) 0; Reset 1 103 (Some 2) 0] start = Some s /\
  stopwatch_elapsed 0 105 true s = Some (Timediff 5, Some (-5)).
Proof.
  eexists. split; [reflexivity|].
  refine (stopwatch_elapsed_own [Init; Reset 0 100 (Some 1) 0; Reset 1 103 (Some 2) 0] _ 0 105 true _ eq_refl).
  split; [done|]. split; [done|]. split; [done|]. done.
Defined.

(** A second reset leaks the block of the first. *)
Example reset_leaks :
  (fun s => size (heap s)) <$> run [Init; Reset 0 1 (Some 10) 0; Reset 0 2 (Some 20) 0; Exit 0] start = Some 1%nat.
Proof. vm_compute. reflexivity. Qed.
