(* ===== verification/Tls.v ===== *)
(** [ex08/tls/tls.c]: five threads and the main thread store their number in a local,
    a static, a thread-local and a thread-specific variable, meet at a barrier and
    print what they then find there. *)

From S2P Require Import Prelude.

Open Scope Z_scope.

(** [threads], and with the main thread, which is the first of the list: its
    [thread_data] is at index -1. *)
Definition threads : nat := 5.
Definition id_of (i : nat) : Z := Z.of_nat i - 1.

(** Where a thread of [run_thread] is. *)
Inductive pc :=
| Start                        (* before the assignments *)
| Stored                       (* [id_static] assigned *)
| Allocated                    (* before [pthread_barrier_wait] *)
| Waiting                      (* in it *)
| Released                     (* before [printf] *)
| Done
| Exited.                      (* [pthread_exit] because [malloc] failed *)

(** A thread with its own variables: [id_local], [id_thread], and the value behind
    its thread-specific pointer. *)
Record thread := Thread { at_ : pc; id_local : Z; id_thread : Z; id_specific : option Z }.

(** A line that is printed. *)
Record line := Line { l_id : Z; l_local : Z; l_static : Z; l_thread : Z; l_specific : Z }.

(** The threads, the static variable, and the output. *)
Record state := State { all : list thread; id_static : Z; printed : list line }.

Definition waiting (t : thread) : bool := match at_ t with Waiting => true | _ => false end.
Definition set_at (p : pc) (t : thread) : thread := Thread p (id_local t) (id_thread t) (id_specific t).

Section run_thread.
(** Whether [malloc] (or [pthread_setspecific]) succeeds in each thread. *)
Context (malloc : nat -> bool).

(** One step of thread [i]. [pthread_barrier_wait] lets all go when the last of the
    [threads + 1] arrives; reading a null pointer back is [None]. *)
Definition step (i : nat) (s : state) : option state :=
  match all s !! i with
  | None => Some s
  | Some t =>
      match at_ t with
      | Start =>
          Some (State (<[i := Thread Stored (id_of i) (id_thread t) (id_specific t)]> (all s))
                  (id_of i) (printed s))
      | Stored =>
          Some (State (<[i := if malloc i then Thread Allocated (id_local t) (id_of i) (Some (id_of i))
                              else Thread Exited (id_local t) (id_of i) (id_specific t)]> (all s))
                  (id_static s) (printed s))
      | Allocated =>
          let ts := <[i := set_at Waiting t]> (all s) in
          Some (State (if forallb waiting ts then map (set_at Released) ts else ts)
                  (id_static s) (printed s))
      | Released =>
          v ← id_specific t;
          Some (State (<[i := set_at Done t]> (all s)) (id_static s)
                  (printed s ++ [Line (id_of i) (id_local t) (id_static s) (id_thread t) v]))
      | Waiting | Done | Exited => Some s
      end
  end.

Fixpoint run (sched : list nat) (s : state) : option state :=
  match sched with [] => Some s | i :: sched => s' ← step i s; run sched s' end.

(** All variables are 0 or null at first. *)
Definition start : state := State (replicate (S threads) (Thread Start 0 0 None)) 0 [].

(** The status of [main] once [run_thread] has returned in it: the calls of
    [pthread_key_create], [pthread_barrier_init] and [pthread_create] end the program
    when they fail, the later ones only print a message. *)
Definition tls_main (key_create barrier_init : bool) (creates : list bool) : Z :=
  if key_create && barrier_init && forallb id creates then EXIT_SUCCESS else EXIT_FAILURE.

(* ------------------------------------------------------------------ *)
(** ** Properties *)

Definition before (t : thread) : bool :=
  match at_ t with Released | Done => false | _ => true end.

(** The thread-specific variables of thread [i]. *)
Definition own (i : nat) (t : thread) : Prop :=
  match at_ t with
  | Start => True
  | Stored => id_local t = id_of i
  | Exited => malloc i = false
  | _ => id_local t = id_of i /\ id_thread t = id_of i /\ id_specific t = Some (id_of i) /\ malloc i = true
  end.

(** The static variable holds the number of a thread once one has started. *)
Definition named (v : Z) : Prop := exists i, (i <= threads)%nat /\ v = id_of i.

Definition own_line (v : Z) (l : line) : Prop :=
  l_local l = l_id l /\ l_thread l = l_id l /\ l_specific l = l_id l /\ l_static l = v /\ named (l_id l).

Record inv (s : state) : Prop := {
  inv_length : length (all s) = S threads;
  inv_own : forall i t, all s !! i = Some t -> own i t;
  inv_static : (forall t, t ∈ all s -> at_ t = Start) \/ named (id_static s);
  inv_phase : (Forall before (all s) /\ printed s = []) \/ Forall (fun t => negb (before t)) (all s);
  inv_lines : Forall (own_line (id_static s)) (printed s)
}.

Lemma tls_start_inv : inv start.
Proof.
  split; simpl; [done| |left; set_solver|left; split; [by repeat constructor|done]|constructor].
  intros i t Ht. change (replicate 6 (Thread Start 0 0 None) !! i = Some t) in Ht.
  apply lookup_replicate in Ht as [-> _]. done.
Qed.

(** A thread that moves without passing the barrier. *)
Lemma move_inv s i t u v :
  inv s -> all s !! i = Some t -> before t = true -> before u = true -> own i u -> named v ->
  inv (State (<[i := u]> (all s)) v (printed s)).
Proof.
  intros [Hl Ho Hs Hp Hn] Ht Hb Hu How Hv.
  assert (Forall before (all s) /\ printed s = []) as [Hall Hnil].
  { destruct Hp as [?|Hp]; [done|]. rewrite Forall_lookup in Hp. specialize (Hp i t Ht). by rewrite Hb in Hp. }
  split; simpl; [by rewrite length_insert| |by right| |by rewrite Hnil].
  - intros j w Hj. destruct (decide (j = i)) as [->|Hne].
    + rewrite list_lookup_insert_eq in Hj by (by eapply lookup_lt_Some). by injection Hj as <-.
    + rewrite list_lookup_insert_ne in Hj by done. by apply Ho.
  - left. split; [|done]. apply Forall_insert; [done|by rewrite Hu].
Qed.

Lemma named_id s i t : inv s -> all s !! i = Some t -> named (id_of i).
Proof. intros Hi Ht. exists i. apply lookup_lt_Some in Ht. rewrite (inv_length s Hi) in Ht. split; [lia|done]. Qed.

Lemma static_named s i t : inv s -> all s !! i = Some t -> at_ t <> Start -> named (id_static s).
Proof.
  intros Hi Ht Hne. destruct (inv_static s Hi) as [Hs|?]; [|done].
  by specialize (Hs t (list_elem_of_lookup_2 _ _ _ Ht)).
Qed.

(** The last thread arrives at the barrier. *)
Lemma tls_release_inv s : inv s -> forallb waiting (all s) = true ->
  inv (State (map (set_at Released) (all s)) (id_static s) (printed s)).
Proof.
  intros Hi Hw. pose proof Hi as [Hl Ho Hs Hp Hn]. rewrite forallb_forall in Hw.
  assert (forall t, t ∈ all s -> at_ t = Waiting) as Hat.
  { intros t Ht. apply list_elem_of_In, Hw in Ht. unfold waiting in Ht. by destruct (at_ t). }
  split; simpl; [by rewrite length_map| | | |done].
  - intros i t Ht. apply list_lookup_fmap_Some in Ht as (u & -> & Hu).
    specialize (Ho i u Hu). unfold own in *. simpl.
    by rewrite (Hat u (list_elem_of_lookup_2 _ _ _ Hu)) in Ho.
  - right. destruct (all s) as [|t ts] eqn:E; [done|].
    apply (static_named s 0 t Hi); [by rewrite E|]. rewrite (Hat t); [done|left].
  - right. rewrite Forall_map. apply Forall_true. done.
Qed.

Lemma tls_step_inv i s : inv s -> exists s', step i s = Some s' /\ inv s'.
Proof.
  intros Hi. unfold step. destruct (all s !! i) as [t|] eqn:Ht; [|by exists s].
  pose proof (inv_own s Hi i t Ht) as How. unfold own in How.
  destruct (at_ t) eqn:Hat; try (by exists s).
  - eexists. split; [done|]. eapply move_inv; try done; [unfold before; by rewrite Hat|by eapply named_id].
  - eexists. split; [done|]. eapply move_inv; try done.
    + unfold before. by rewrite Hat.
    + by destruct (malloc i).
    + unfold own. by destruct (malloc i) eqn:Hm.
    + eapply static_named; [done..|]. by rewrite Hat.
  - eexists. split; [done|]. cbn zeta.
    assert (inv (State (<[i := set_at Waiting t]> (all s)) (id_static s) (printed s))) as Hw.
    { eapply move_inv; try done; [unfold before; by rewrite Hat|].
      eapply static_named; [done..|]. by rewrite Hat. }
    destruct (forallb waiting _) eqn:Hf; [|done]. exact (tls_release_inv _ Hw Hf).
  - destruct How as (H1 & H2 & H3 & H4). rewrite H3. eexists. split; [done|].
    pose proof Hi as [Hl Ho Hs Hp Hn].
    assert (Forall (fun t => negb (before t)) (all s)) as Hafter.
    { destruct Hp as [[Hp _]|?]; [|done]. rewrite Forall_lookup in Hp. specialize (Hp i t Ht).
      unfold before in Hp. by rewrite Hat in Hp. }
    split; simpl; [by rewrite length_insert| | | |].
    + intros j w Hj. destruct (decide (j = i)) as [->|Hne].
      * rewrite list_lookup_insert_eq in Hj by (by eapply lookup_lt_Some). by injection Hj as <-.
      * rewrite list_lookup_insert_ne in Hj by done. by apply Ho.
    + right. eapply static_named; [done..|]. by rewrite Hat.
    + right. by apply Forall_insert.
    + apply Forall_app_2; [done|]. constructor; [|constructor].
      split_and!; simpl; try done. by eapply named_id.
Qed.

Lemma tls_run_inv sched : forall s, inv s -> exists s', run sched s = Some s' /\ inv s'.
Proof.
  induction sched as [|i sched IH]; intros s Hi; [by exists s|]. simpl.
  destruct (tls_step_inv i s Hi) as (s1 & -> & H1). by apply IH.
Qed.

(** In every interleaving no null pointer is followed, and each thread prints its
    own number for its local, thread-local and thread-specific variable; for the
    static one all threads print the same number, that of one of them. Nothing is
    printed before all have stored theirs, and nothing at all if one of them has no
    memory: the others then wait at the barrier for ever. *)
Theorem tls_values (sched : list nat) :
  exists s, run sched start = Some s /\
    (exists v, Forall (fun l => l_local l = l_id l /\ l_thread l = l_id l /\ l_specific l = l_id l /\
                                l_static l = v /\ named v /\ named (l_id l)) (printed s)) /\
    (printed s <> [] -> forall i, (i <= threads)%nat -> malloc i = true).
Proof.
  destruct (tls_run_inv sched start tls_start_inv) as (s & Hr & Hi). exists s. split; [done|].
  assert (printed s <> [] -> Forall (fun t => negb (before t)) (all s)) as Hafter.
  { intros Hne. by destruct (inv_phase s Hi) as [[_ ?]|?]. }
  split.
  - exists (id_static s). destruct (printed s) as [|l ls] eqn:Hp; [done|].
    assert (named (id_static s)) as Hn.
    { destruct (lookup_lt_is_Some_2 (all s) 0) as [t Ht]; [rewrite (inv_length s Hi); lia|].
      apply (static_named s 0 t Hi Ht). specialize (Hafter ltac:(done)).
      rewrite Forall_lookup in Hafter. specialize (Hafter 0%nat t Ht). unfold before in Hafter. by destruct (at_ t). }
    pose proof (inv_lines s Hi) as Hl. rewrite Hp in Hl.
    eapply Forall_impl; [exact Hl|]. intros m (H1 & H2 & H3 & H4 & H5). done.
  - intros Hne i Hle. specialize (Hafter Hne).
    destruct (lookup_lt_is_Some_2 (all s) i) as [t Ht]; [rewrite (inv_length s Hi); lia|].
    rewrite Forall_lookup in Hafter. specialize (Hafter i t Ht).
    pose proof (inv_own s Hi i t Ht) as How. unfold own in How. unfold before in Hafter.
    destruct (at_ t); try done; tauto.
Qed.
End run_thread.

(** The threads one after the other, and then their lines: the static variable has
    the number of the last one. *)
Example last_writer :
  (fun s => map (fun l => (l_id l, l_static l, l_specific l)) (printed s)) <$>
    run (fun _ => true) (concat (replicate 3 (seq 0 6)) ++ seq 0 6) start =
  Some [(-1, 4, -1); (0, 4, 0); (1, 4, 1); (2, 4, 2); (3, 4, 3); (4, 4, 4)].
Proof. vm_compute. reflexivity. Qed.
