(* ===== verification/ThreadDemo.v ===== *)
(** [ex08/keys/keys.c], [ex08/threads/threads.c] and [ex08/gettid/gettid.c]: programs that
    create threads, each of which prints some lines, and wait for them or do not. *)

From S2P Require Import Prelude.
From S2P Require Import CLib.
From Stdlib Require Import Ascii.

Open Scope string_scope.
Open Scope list_scope.
Open Scope Z_scope.

(** What a thread does: it stores a text under the key, prints a line, or prints what is
    stored under the key. *)
Inductive action := SetSpecific (text : string) | PrintLine (l : string) | ThreadPrint.

(** A program: how many threads it creates and what they do; whether it joins them; and
    whether it still does so when one cannot be created, or exits at once. What [main]
    prints itself: before it creates threads, when all are created, and before it returns
    with success. *)
Record program := Program {
  count : nat;
  body : nat -> list action;
  joins : bool;
  joins_created : bool;
  before : list string;
  created : list string;
  returning : list string
}.

(** [main]: at a call of [pthread_create], of [pthread_join] with the status it will
    return, or returned. *)
Inductive main_pc := MCreate (k : nat) | MJoin (j : nat) (status : Z) | MReturn (status : Z).

(** What the created threads have still to do, the values of the key, and the lines printed,
    each by [main] ([None]) or by a thread. *)
Record state := State {
  main : main_pc;
  todo : list (list action);
  specific : gmap nat string;
  out : list (option nat * string)
}.

Section run.
Context (p : program).

Definition start : state := State (MCreate 0) [] ∅ (map (pair None) (before p)).

Definition main_step (ok : bool) (s : state) : option state :=
  let to m said := State m (todo s) (specific s) (out s ++ map (pair None) said) in
  match main s with
  | MCreate k =>
      Some (if (k <? count p)%nat then
              if ok then State (MCreate (S k)) (todo s ++ [body p k]) (specific s) (out s)
              else if joins_created p then to (MJoin 0 EXIT_FAILURE) [] else to (MReturn EXIT_FAILURE) []
            else if joins p then to (MJoin 0 EXIT_SUCCESS) (created p)
            else to (MReturn EXIT_SUCCESS) (created p ++ returning p))
  | MJoin j st =>
      match todo s !! j with
      | Some [] => Some (to (MJoin (S j) st) [])
      | Some _ => None
      | None => Some (to (MReturn st) (if st =? EXIT_SUCCESS then returning p else []))
      end
  | MReturn _ => None
  end.

(** [ok] is the outcome of [pthread_setspecific]. *)
Definition thread_step (i : nat) (ok : bool) (s : state) : option state :=
  match todo s !! i with
  | Some (SetSpecific t :: rest) =>
      Some (if ok then State (main s) (<[i := rest]> (todo s)) (<[i := t]> (specific s)) (out s)
            else State (main s) (<[i := []]> (todo s)) (specific s) (out s))
  | Some (PrintLine l :: rest) =>
      Some (State (main s) (<[i := rest]> (todo s)) (specific s) (out s ++ [(Some i, l)]))
  | Some (ThreadPrint :: rest) =>
      let l := match specific s !! i with Some t => "thread " +:+ t +:+ nl | None => "no thread specific data" +:+ nl end in
      Some (State (main s) (<[i := rest]> (todo s)) (specific s) (out s ++ [(Some i, l)]))
  | _ => None
  end.

Inductive event := Main (ok : bool) | Thread (i : nat) (ok : bool).

(** Nothing happens any more when [main] has returned: the process is gone. *)
Definition step (e : event) (s : state) : option state :=
  match main s with
  | MReturn _ => None
  | _ => match e with Main ok => main_step ok s | Thread i ok => thread_step i ok s end
  end.

Fixpoint run (es : list event) (s : state) : option state :=
  match es with [] => Some s | e :: es => s' ← step e s; run es s' end.
End run.

(* ------------------------------------------------------------------ *)
(** ** The programs *)

Section programs.
(** The kernel's number of each thread, the process, and what [pthread_self] returns. *)
Context (tid : nat -> Z) (pid : Z) (self : nat -> Z).

(** [THREADS], and [thread_entry] with [thread_print]; the text fits in its 32 bytes. *)
Definition keys_threads : nat := 5.
Definition thread_entry (i : nat) : list action :=
  [SetSpecific (dec (Z.of_nat i) +:+ ":" +:+ dec (tid i)); ThreadPrint].
Definition keys_program : program := Program keys_threads thread_entry true true [] [] [].

(** [thread_run] of [threads.c] and of [gettid.c]. *)
Definition thread_run (i : nat) : list action :=
  [PrintLine ("(thread) tid=" +:+ dec (tid i) +:+ nl); PrintLine ("(thread) pid=" +:+ dec pid +:+ nl);
   PrintLine ("(thread) ptd=" +:+ dec (self i) +:+ nl)].

(** The one of [gettid.c] has the same text. *)
Definition gettid_thread_run : nat -> list action := thread_run.

(** [main] prints the same about itself; its thread has the number [main_tid]. *)
Context (main_tid main_self : Z).
Definition main_lines : list string :=
  ["(main)   tid=" +:+ dec main_tid +:+ nl; "(main)   pid=" +:+ dec pid +:+ nl; "(main)   ptd=" +:+ dec main_self +:+ nl].

Definition gettid_program : program :=
  Program 1 gettid_thread_run true false main_lines ["thread created" +:+ nl] ["thread joined" +:+ nl].

(** [main] of [threads.c] up to the creation of the threads: the number, if the argument is
    a positive one (a [long] put into an [int]), and there is memory. [join] is
    [ENABLE_JOIN]. *)
Definition threads_args (args : list string) : option nat :=
  match args with
  | [a] =>
      let r := strtol a 10 in
      let n := s32 (st_value r) in
      if negb (st_conv r) || negb (bool_decide (st_rest r = "")) || (n <=? 0) then None else Some (Z.to_nat n)
  | _ => None
  end.

Definition threads_program (join malloc : bool) (args : list string) : option program :=
  match threads_args args with
  | Some n =>
      if malloc then
        Some (Program n thread_run join false main_lines []
                ((if join then ["Threads joined" +:+ nl] else []) ++ ["Main thread ending!" +:+ nl]))
      else None
  | None => None
  end.
End programs.

(* ------------------------------------------------------------------ *)
(** ** Properties *)

(** The lines of thread [i] or of [main], and those that are still to come if nothing fails. *)
Definition lines_of (i : option nat) (s : state) : list string := (filter (fun l => l.1 = i) (out s)).*2.

Definition prints (l : list action) : list string := omap (fun a => match a with PrintLine l => Some l | _ => None end) l.

(** A program whose threads only print. *)
Definition plain (p : program) : Prop := forall i, Forall (fun a => exists l, a = PrintLine l) (body p i).

Record inv (p : program) (s : state) : Prop := {
  inv_created : forall k, main s = MCreate k -> length (todo s) = k /\ (k <= count p)%nat;
  inv_joined : forall j st, main s = MJoin j st -> (j <= length (todo s))%nat /\ (st = EXIT_SUCCESS -> length (todo s) = count p) /\
    forall i, (i < j)%nat -> todo s !! i = Some [];
  inv_returned : main s = MReturn EXIT_SUCCESS -> length (todo s) = count p /\
    (joins p = true -> forall i, (i < count p)%nat -> todo s !! i = Some []);
  inv_lines : forall i l, todo s !! i = Some l -> Forall (fun a => exists l, a = PrintLine l) l /\
    lines_of (Some i) s ++ prints l = prints (body p i);
  inv_none : forall i, todo s !! i = None -> lines_of (Some i) s = [];
  inv_main : lines_of None s = before p ++
    match main s with
    | MCreate _ => []
    | MJoin _ st => if st =? EXIT_SUCCESS then created p else []
    | MReturn st => if st =? EXIT_SUCCESS then created p ++ returning p else []
    end;
  inv_last : main s = MReturn EXIT_SUCCESS -> exists o, out s = o ++ map (pair None) (returning p)
}.

Lemma lines_snoc i j l s m t sp : lines_of i (State m t sp (out s ++ [(j, l)])) =
  lines_of i s ++ (if decide (j = i) then [l] else []).
Proof.
  unfold lines_of. simpl. rewrite filter_app, fmap_app. f_equal. unfold filter. simpl. by case_decide.
Qed.

(** [main] prints. *)
Lemma said_main said m t sp o : lines_of None (State m t sp (o ++ map (pair None) said)) =
  lines_of None (State m t sp o) ++ said.
Proof.
  unfold lines_of. simpl. rewrite filter_app, fmap_app. f_equal. unfold filter. induction said as [|l said IH]; [done|].
  simpl. by f_equal.
Qed.

Lemma said_thread i said m t sp o : lines_of (Some i) (State m t sp (o ++ map (pair None) said)) =
  lines_of (Some i) (State m t sp o).
Proof.
  unfold lines_of. simpl. rewrite filter_app, fmap_app. replace (filter _ (map _ said)) with (@nil (option nat * string)).
  { by rewrite app_nil_r. }
  unfold filter. induction said as [|l said IH]; [done|]. exact IH.
Qed.

Lemma threads_start_inv p : inv p (start p).
Proof.
  split; simpl; try done.
  - intros k [= <-]. split; [done|lia].
  - intros i _. apply (said_thread i (before p) (MCreate 0) [] ∅ []).
  - rewrite app_nil_r. apply (said_main (before p) (MCreate 0) [] ∅ []).
Qed.

(** [main] goes on and prints. *)
Lemma inv_says p s m said :
  inv p s ->
  (forall k, m <> MCreate k) ->
  (forall j st, m = MJoin j st -> (j <= length (todo s))%nat /\ (st = EXIT_SUCCESS -> length (todo s) = count p) /\
     forall i, (i < j)%nat -> todo s !! i = Some []) ->
  (m = MReturn EXIT_SUCCESS -> length (todo s) = count p /\
     (joins p = true -> forall i, (i < count p)%nat -> todo s !! i = Some []) /\
     exists o, said = o ++ returning p) ->
  lines_of None s ++ said = before p ++
    match m with
    | MCreate _ => []
    | MJoin _ st => if st =? EXIT_SUCCESS then created p else []
    | MReturn st => if st =? EXIT_SUCCESS then created p ++ returning p else []
    end ->
  inv p (State m (todo s) (specific s) (out s ++ map (pair None) said)).
Proof.
  intros [I1 I2 I3 I4 I5 I6 I7] Hc Hj Hr Hm. split; simpl.
  - intros k ->. by destruct (Hc k).
  - exact Hj.
  - intros E. by destruct (Hr E) as (? & ? & _).
  - intros i l Hi. rewrite said_thread. by apply I4.
  - intros i Hi. rewrite said_thread. by apply I5.
  - by rewrite said_main.
  - intros E. destruct (Hr E) as (_ & _ & o & ->). exists (out s ++ map (pair None) o). by rewrite map_app, app_assoc.
Qed.

Lemma main_step_inv p ok s s' : plain p -> inv p s -> main_step p ok s = Some s' -> inv p s'.
Proof.
  intros Hp Hi H. pose proof Hi as [I1 I2 I3 I4 I5 I6 I7]. unfold main_step in H.
  destruct (main s) as [k|j st|st] eqn:Em; [| |done]; rewrite ?app_nil_r in I6.
  - destruct (I1 k eq_refl) as [Hk Hle]. destruct (Nat.ltb_spec k (count p)) as [Hlt|Hge].
    + destruct ok; [|destruct (joins_created p); injection H as <-; apply (inv_says p s _ []); try done; rewrite ?app_nil_r; try done;
        first [intros ? ? [= <- <-]; split_and!; [lia|done|lia]|done]].
      injection H as <-. split; simpl; try done.
      * intros k' [= <-]. rewrite length_app. simpl. lia.
      * intros i l Hl. apply lookup_app_Some in Hl as [Hl | [Hge Hl]]; [by apply I4|].
        destruct (i - length (todo s))%nat eqn:E; [|done]. injection Hl as <-.
        assert (i = k) as -> by lia. split; [apply Hp|].
        change (lines_of (Some k) s ++ prints (body p k) = prints (body p k)).
        rewrite (I5 k); [done|]. apply lookup_ge_None. lia.
      * intros i Hl. apply I5. apply lookup_ge_None in Hl. rewrite length_app in Hl. apply lookup_ge_None. lia.
      * by rewrite app_nil_r.
    + assert (k = count p) as -> by lia.
      destruct (joins p) eqn:Ej; injection H as <-; apply inv_says; try done; simpl; try (by rewrite I6).
      * intros ? ? [= <- <-]. split_and!; [lia|done|lia].
      * intros _. split_and!; [done|congruence|by eexists].
  - destruct (I2 j st eq_refl) as (Hj & Hst & Hall). destruct (todo s !! j) as [[|a l]|] eqn:Et; [|done|]; injection H as <-.
    + apply (inv_says p s _ []); try done; rewrite ?app_nil_r; [|done].
      intros j' st' [= <- <-]. pose proof (lookup_lt_Some _ _ _ Et). split_and!; [lia|done|].
      intros i Hl. destruct (decide (i = j)) as [->|?]; [done|]. apply Hall. lia.
    + apply lookup_ge_None in Et. apply inv_says; try done.
      * intros [= ->]. rewrite <- (Hst eq_refl). split_and!; [done| |by exists []].
        intros _ i Hl. apply Hall. lia.
      * rewrite I6. destruct (st =? EXIT_SUCCESS); by rewrite ?app_nil_r, <- ?app_assoc.
Qed.

Lemma thread_step_inv p i ok s s' : (main s = MReturn EXIT_SUCCESS -> False) -> inv p s -> thread_step i ok s = Some s' -> inv p s'.
Proof.
  intros Hrun [I1 I2 I3 I4 I5 I6 I7] H. unfold thread_step in H. destruct (todo s !! i) as [l|] eqn:Et; [|done].
  destruct (I4 i l Et) as [Hf Hl]. destruct l as [|a l]; [done|]. apply Forall_cons in Hf as [[t ->] Hf].
  injection H as <-. pose proof (lookup_lt_Some _ _ _ Et) as Hlt.
  assert (forall j, todo s !! j = Some [] -> <[i := l]> (todo s) !! j = Some []) as Hdone.
  { intros j Hj. rewrite list_lookup_insert_ne; [done|]. intros ->. congruence. }
  split; simpl.
  - rewrite length_insert. exact I1.
  - intros j st Hm. destruct (I2 j st Hm) as (H1 & H2 & H3). rewrite length_insert. split_and!; try done. auto.
  - intros Hm. destruct (I3 Hm) as [H1 H2]. rewrite length_insert. split; [done|]. auto.
  - intros j l' Hj. rewrite lines_snoc. destruct (decide (i = j)) as [<-|Hne].
    + rewrite decide_True by done. rewrite list_lookup_insert_eq in Hj by done. injection Hj as <-. split; [done|]. by rewrite <- app_assoc.
    + rewrite list_lookup_insert_ne in Hj by done. rewrite decide_False, app_nil_r by congruence. by apply I4.
  - intros j Hj. rewrite lines_snoc. apply lookup_ge_None in Hj. rewrite length_insert in Hj.
    rewrite decide_False by (intros [= ->]; lia). rewrite app_nil_r. apply I5. by apply lookup_ge_None.
  - rewrite lines_snoc, decide_False, app_nil_r by done. exact I6.
  - intros Hm. by destruct (Hrun Hm).
Qed.

Lemma thread_run_inv p es : plain p -> forall s s', inv p s -> run p es s = Some s' -> inv p s'.
Proof.
  intros Hp. induction es as [|e es IH]; intros s s' Hi H; simpl in H; [by injection H as <-|].
  destruct (step p e s) as [s1|] eqn:E; [|done]. eapply IH; [|exact H]. unfold step in E.
  destruct e as [ok|i ok]; (destruct (main s) eqn:Em; [| |done]);
    first [by eapply main_step_inv|eapply thread_step_inv; [by rewrite Em|done|exact E]].
Qed.

(** A program that joins its threads returns with success only when each has printed all
    its lines, in their order; no thread ever prints anything else. [main] has then printed
    its own, the last ones at the very end. *)
Theorem joined_output p es s (Hp : plain p) (Hrun : run p es (start p) = Some s) :
  (forall i, exists rest, lines_of (Some i) s ++ rest = prints (body p i) \/
     (length (todo s) <= i)%nat /\ lines_of (Some i) s = []) /\
  (main s = MReturn EXIT_SUCCESS ->
     lines_of None s = before p ++ created p ++ returning p /\
     (exists o, out s = o ++ map (pair None) (returning p)) /\
     (joins p = true -> forall i, (i < count p)%nat -> lines_of (Some i) s = prints (body p i))).
Proof.
  pose proof (thread_run_inv p es Hp _ _ (threads_start_inv p) Hrun) as Hi. split.
  - intros i. destruct (todo s !! i) as [l|] eqn:E.
    + exists (prints l). left. by apply (inv_lines p s Hi i l).
    + exists []. right. split; [by apply lookup_ge_None|by apply (inv_none p s Hi)].
  - intros Hm. pose proof (inv_main p s Hi) as Hl. rewrite Hm in Hl. split_and!; [done|by apply inv_last|].
    intros Hj i Hlt. destruct (inv_returned p s Hi Hm) as [_ Hall].
    destruct (inv_lines p s Hi i [] (Hall Hj i Hlt)) as [_ H]. by rewrite app_nil_r in H.
Qed.

(** [gettid.c] and [threads.c] are such programs; what they print, per thread. *)
Lemma thread_run_plain n tid pid self j c b cr r : plain (Program n (thread_run tid pid self) j c b cr r).
Proof. intros i. repeat constructor; by eexists. Qed.

(** Without joins a thread need not get to print: the process ends with [main]. *)
Example not_joined tid pid self main_tid main_self :
  (fun s => (main s, out s)) <$>
    (p ← threads_program tid pid self main_tid main_self false true ["1"]; run p [Main true; Main true] (start p)) =
  Some (MReturn EXIT_SUCCESS, map (pair None) (main_lines pid main_tid main_self ++ ["Main thread ending!" +:+ nl])).
Proof. reflexivity. Qed.

(** [keys.c]: the text that a thread prints is the one that it has stored itself. *)
Section keys.
Context (tid : nat -> Z).
Definition keys_text (i : nat) : string := dec (Z.of_nat i) +:+ ":" +:+ dec (tid i).

Record keys_inv (s : state) : Prop := {
  keys_todo : forall i l, todo s !! i = Some l ->
    l = thread_entry tid i \/ (l = [ThreadPrint] /\ specific s !! i = Some (keys_text i)) \/ l = [];
  keys_out : Forall (fun l => exists i, l = (Some i, "thread " +:+ keys_text i +:+ nl)) (out s);
  keys_created : forall k, main s = MCreate k -> length (todo s) = k
}.

Lemma keys_step_inv e s s' : keys_inv s -> step (keys_program tid) e s = Some s' -> keys_inv s'.
Proof.
  intros [K1 K2 K3] H. unfold step in H. destruct e as [ok|i ok].
  - destruct (main s) as [k|j st|st] eqn:Em; [| |done]; unfold main_step in H; rewrite Em in H; cbn [joins count joins_created created returning keys_program] in H.
    + destruct (k <? keys_threads)%nat; [destruct ok|]; injection H as <-; [|by split; simpl; rewrite ?app_nil_r..].
      split; simpl; [|done|intros k' [= <-]; rewrite length_app, (K3 k eq_refl); simpl; lia].
      intros i l Hi. apply lookup_app_Some in Hi as [Hi | [Hge Hi]]; [by apply K1|].
      destruct (i - length (todo s))%nat eqn:E; [|done]. injection Hi as <-. left. f_equal.
      rewrite (K3 k eq_refl) in *. lia.
    + destruct (todo s !! j) as [[|? ?]|]; try done; injection H as <-; (split; simpl; [done|..|done]); [by rewrite app_nil_r|].
      destruct (st =? EXIT_SUCCESS); by rewrite app_nil_r.
  - assert (thread_step i ok s = Some s') as Ht by (by destruct (main s)). clear H.
    assert (main s' = main s /\ length (todo s') = length (todo s)) as [Em El].
    { unfold thread_step in Ht. repeat (case_match; simplify_eq/=); by rewrite ?length_insert. }
    unfold thread_step in Ht. destruct (todo s !! i) as [l|] eqn:Et; [|done]. pose proof (lookup_lt_Some _ _ _ Et) as Hlt.
    destruct (K1 i l Et) as [-> | [[-> Hs] | ->]]; [| |done].
    + simpl in Ht. split; [| |intros k Hk; rewrite El; apply K3; congruence];
        destruct ok; injection Ht as <-; simpl; try done;
        intros j l' [(-> & <- & _) | [Hne Hj]]%list_lookup_insert_Some; auto.
      * right. left. split; [done|]. by rewrite lookup_insert_eq.
      * destruct (K1 j l' Hj) as [?|[[? ?]|?]]; auto. right. left. split; [done|]. by rewrite lookup_insert_ne.
    + rewrite Hs in Ht. injection Ht as <-. split; simpl in *; [| |intros k Hk; rewrite El; by apply K3].
      * intros j l' [(-> & <- & _) | [Hne Hj]]%list_lookup_insert_Some; auto.
      * apply Forall_app. split; [done|]. constructor; [by eexists|constructor].
Qed.

Theorem keys_own_text es s (Hrun : run (keys_program tid) es (start (keys_program tid)) = Some s) :
  Forall (fun l => exists i, l = (Some i, "thread " +:+ keys_text i +:+ nl)) (out s).
Proof.
  assert (forall es s s', keys_inv s -> run (keys_program tid) es s = Some s' -> keys_inv s') as H.
  { clear. induction es as [|e es IH]; intros s s' Hi H; simpl in H; [by injection H as <-|].
    destruct (step (keys_program tid) e s) as [s1|] eqn:E; [|done]. eapply IH; [|exact H]. by eapply keys_step_inv. }
  apply (H es (start (keys_program tid)) s); [|done]. split; simpl; [done|constructor|by intros k [= <-]].
Qed.
End keys.

(** A thread whose value cannot be stored prints nothing; the others are not affected. *)
Example keys_without_value :
  out <$> run (keys_program (fun i => 100 + Z.of_nat i))
    [Main true; Main true; Thread 1 true; Thread 0 false; Thread 1 true] (start (keys_program (fun i => 100 + Z.of_nat i))) =
  Some [(Some 1%nat, "thread 1:101" +:+ nl)].
Proof. vm_compute. reflexivity. Qed.

(** [threads.c] accepts a number that does not fit into an [int]. *)
Example too_many_threads : threads_args ["4294967297"] = Some 1%nat.
Proof. vm_compute. reflexivity. Qed.
