(* ===== verification/StopwatchTest.v ===== *)
(** [ex08/libstopwatch/test.c]: threads that use the library of [Stopwatch.v], each with its
    own stopwatch. *)

From S2P Require Import Prelude.
From S2P Require Import CLib.
From S2P Require Import ThreadDemo.
From S2P Require Import Stopwatch.

Open Scope string_scope.
Open Scope list_scope.
Open Scope Z_scope.

(** Where a thread of [thread_run] is: before [stopwatch_reset]; before it prints so many
    lines; behind its body, with the destructor of the key to run; gone. *)
Inductive pc := Begin | Looping (lines : nat) | Leaving | Gone.

(** [main]: before [stopwatch_init]; at a call of [pthread_create], of [pthread_join]; before
    [stopwatch_destroy]; or the process has ended. *)
Inductive main_pc := MInit | MCreate (k : nat) | MJoin (j : nat) | MDestroy | MExit (status : Z).

(** The library with its memory; the threads; and what they have printed, each line with the
    thread and the clock. *)
Record state := State {
  lib : Stopwatch.state;
  pcs : list pc;
  main : main_pc;
  out : list (nat * Z * elapsed)
}.

Definition start : state := State Stopwatch.start [] MInit [].

(** How many lines a thread prints: four in its loop and one behind it. *)
Definition lines_printed : nat := 5.

(** [main] goes on, with the outcome of the call if it can fail; or a thread does at a time
    of the clock, with the outcomes of [malloc] and [pthread_setspecific]. *)
Inductive event := Main (ok : bool) | Thread (i : nat) (now : Z) (malloc : option Z) (setspecific : Z).

Section run.
(** The number of threads. *)
Context (thread_num : nat).

Definition main_step (ok : bool) (s : state) : option state :=
  let to m := Some (State (lib s) (pcs s) m (out s)) in
  match main s with
  | MInit =>
      if ok then Some (State (stopwatch_init (lib s)) (pcs s) (MCreate 0) (out s)) else to (MExit EXIT_FAILURE)
  | MCreate k =>
      if (k <? thread_num)%nat then
        if ok then Some (State (lib s) (pcs s ++ [Begin]) (MCreate (S k)) (out s)) else to (MExit EXIT_FAILURE)
      else to (MJoin 0)
  | MJoin j => match pcs s !! j with Some Gone => to (MJoin (S j)) | Some _ => None | None => to MDestroy end
  | MDestroy =>
      if ok then Some (State (stopwatch_destroy (lib s)) (pcs s) (MExit EXIT_SUCCESS) (out s))
      else to (MExit EXIT_FAILURE)
  | MExit _ => None
  end.

(** [thread_run]; [malloc] does not return a block that is in use. *)
Definition thread_step (i : nat) (now : Z) (malloc : option Z) (setspecific : Z) (s : state) : option state :=
  p ← pcs s !! i;
  match p with
  | Begin =>
      if match malloc with Some a => bool_decide (is_Some (heap (lib s) !! a)) | None => false end then None
      else
        match stopwatch_reset i now malloc setspecific (lib s) with
        | None => Some (State (lib s) (pcs s) (MExit EXIT_FAILURE) (out s))
        | Some (l, perrno) =>
            Some (State l (<[i := if perrno =? 0 then Looping lines_printed else Leaving]> (pcs s)) (main s) (out s))
        end
  | Looping (S k) =>
      '(e, _) ← stopwatch_elapsed i now false (lib s);
      Some (State (lib s) (<[i := if (k =? 0)%nat then Leaving else Looping k]> (pcs s)) (main s) (out s ++ [(i, now, e)]))
  | Looping O => None
  | Leaving => Some (State (thread_exit i (lib s)) (<[i := Gone]> (pcs s)) (main s) (out s))
  | Gone => None
  end.

Definition step (e : event) (s : state) : option state :=
  match main s with
  | MExit _ => None
  | _ => match e with Main ok => main_step ok s | Thread i now m sp => thread_step i now m sp s end
  end.

Fixpoint run (es : list event) (s : state) : option state :=
  match es with [] => Some s | e :: es => s' ← step e s; run es s' end.
End run.

(** The command line is that of [threads.c]; [malloc] is for the numbers of the threads. *)
Definition test_main (malloc : bool) (args : list string) : option nat :=
  n ← threads_args args; if malloc then Some n else None.

Definition line_text (l : nat * Z * elapsed) (difftime : Z -> string) : string :=
  match l.2 with
  | NoData => "no thread specific data" +:+ nl
  | Timediff d => "timediff: " +:+ difftime d +:+ nl
  end.

(* ------------------------------------------------------------------ *)
(** ** Properties *)

(** The clock when a thread first did something: when it set its stopwatch. *)
Definition clock_of (i : nat) (e : event) : option Z :=
  match e with Thread j now _ _ => if decide (j = i) then Some now else None | Main _ => None end.
Definition clock (i : nat) (es : list event) : option Z := head (omap (clock_of i) es).

(** [pthread_setspecific] succeeds. *)
Definition stores (e : event) : Prop := match e with Thread _ _ _ sp => sp = 0 | Main _ => True end.

Definition lines_of (i : nat) (o : list (nat * Z * elapsed)) : nat := sum_list_with (fun l => if decide (l.1.1 = i) then 1 else 0)%nat o.

Lemma clock_snoc i es e : clock i (es ++ [e]) = match clock i es with Some t => Some t | None => clock_of i e end.
Proof.
  unfold clock. rewrite omap_app. destruct (omap (clock_of i) es) as [|t l]; [|done]. simpl.
  by destruct (clock_of i e).
Qed.

Section inv.
Context (n : nat).

(** The places of [main]. *)
Definition main_ok (s : state) (m : main_pc) : Prop :=
  match m with
  | MInit => pcs s = [] /\ out s = [] /\ lib s = Stopwatch.start
  | MCreate k => length (pcs s) = k /\ k <= n
  | MJoin j => length (pcs s) = n /\ forall i, i < j -> i < n -> pcs s !! i = Some Gone
  | MDestroy => length (pcs s) = n /\ forall i, i < n -> pcs s !! i = Some Gone
  | MExit st => st = EXIT_SUCCESS -> length (pcs s) = n /\ forall i, i < n -> pcs s !! i = Some Gone
  end%nat.

Record inv (es : list event) (s : state) : Prop := {
  inv_lib : exists last, Stopwatch.inv (lib s) last;
  inv_who : forall t a, specific (lib s) !! t = Some a -> exists p, pcs s !! t = Some p /\ p <> Begin /\ p <> Gone;
  inv_loop : forall i k, pcs s !! i = Some (Looping k) -> (0 < k)%nat /\
    exists a t0, specific (lib s) !! i = Some a /\ heap (lib s) !! a = Some t0 /\ clock i es = Some t0;
  inv_begin : (forall st, main s <> MExit st) -> forall i, pcs s !! i = None \/ pcs s !! i = Some Begin -> clock i es = None;
  inv_out : Forall (fun l => exists t0, clock l.1.1 es = Some t0 /\ l.2 = Timediff (l.1.2 - t0)) (out s);
  inv_main : main_ok s (main s);
  inv_lines : Forall stores es -> forall i,
    lines_of i (out s) = match pcs s !! i with
      | None | Some Begin => 0 | Some (Looping k) => lines_printed - k | Some _ => lines_printed end%nat /\
    (forall k, pcs s !! i = Some (Looping k) -> (k <= lines_printed)%nat);
  inv_heap : Forall stores es -> forall a v, heap (lib s) !! a = Some v -> exists t, specific (lib s) !! t = Some a
}.

Lemma test_start_inv : inv [] start.
Proof.
  split; simpl; try done.
  exists (fun _ => None). apply stopwatch_inv_start.
Qed.

(** What holds of the lines printed so far stays true. *)
Lemma inv_out_snoc es e s : inv es s ->
  Forall (fun l => exists t0, clock l.1.1 (es ++ [e]) = Some t0 /\ l.2 = Timediff (l.1.2 - t0)) (out s).
Proof.
  intros Hi. eapply Forall_impl; [apply (inv_out es s Hi)|]. intros l (t0 & Hc & He). exists t0. by rewrite clock_snoc, Hc.
Qed.

(** [main] goes on; the threads are the same, or there is a new one. *)
Lemma main_inv es ok s s' : inv es s -> main_step n ok s = Some s' -> inv (es ++ [Main ok]) s'.
Proof.
  intros Hi H. pose proof Hi as [I1 I2 I3 I4 I5 I6 I7 I8].
  assert (forall st, main s <> MExit st) as Hx.
  { intros st E. unfold main_step in H. by rewrite E in H. }
  specialize (I4 Hx). clear Hx.
  assert (forall i, clock i (es ++ [Main ok]) = clock i es) as Hc.
  { intros i. rewrite clock_snoc. by destruct (clock i es). }
  pose proof (inv_out_snoc es (Main ok) s Hi) as Ho.
  assert (Forall stores (es ++ [Main ok]) -> Forall stores es) as Hs by (by intros [? _]%Forall_app).
  assert (forall m, main_ok s m -> inv (es ++ [Main ok]) (State (lib s) (pcs s) m (out s))) as Hto.
  { intros m Hm. split; simpl; try done; [| |by intros Hst; apply I7, Hs|by intros Hst; apply I8, Hs].
    - intros i k Hk. rewrite Hc. by apply I3.
    - intros _ i Hk. rewrite Hc. by apply I4. }
  unfold main_step in H. destruct (main s) as [|k|j| |st] eqn:Em; [| | | |done].
  - destruct ok; injection H as <-; [|by apply Hto]. destruct I6 as (Hp & Hou & Hli). split; simpl; try done.
    + exists (fun _ => None). apply no_data_inv.
    + intros i k Hk. by rewrite Hp in Hk.
    + intros _ i Hi'. rewrite Hc. by apply I4.
    + rewrite Hp. simpl. split; [done|lia].
    + intros Hst i. rewrite Hp, Hou. simpl. by split.
    + intros _ a v. rewrite Hli. simpl. by rewrite lookup_empty.
  - destruct I6 as [Hl Hk]. destruct (Nat.ltb_spec k n); [destruct ok|]; injection H as <-.
    + split; simpl; try done.
      * intros t a Ht. destruct (I2 t a Ht) as (p & Hp & ?). exists p. split; [by apply lookup_app_l_Some|done].
      * intros i k' Hi'. apply lookup_app_Some in Hi' as [Hi'|[_ Hi']]; [rewrite Hc; by apply I3|].
        by apply list_lookup_singleton_Some in Hi' as [_ ?].
      * intros _ i Hi'. rewrite Hc. apply I4. destruct (pcs s !! i) as [p|] eqn:E; [|by left].
        rewrite (lookup_app_l_Some _ _ _ _ E) in Hi'. by destruct Hi'; [|right].
      * rewrite length_app. simpl. split; lia.
      * intros Hst i. destruct (I7 (Hs Hst) i) as [H1 H2]. destruct (pcs s !! i) as [p|] eqn:E.
        { rewrite (lookup_app_l_Some _ _ _ _ E). by split. }
        apply lookup_ge_None in E. rewrite lookup_app_r by done. rewrite H1.
        by destruct (i - length (pcs s))%nat.
      * intros Hst. by apply I8, Hs.
    + by apply Hto.
    + apply Hto. split; [lia|]. intros i ?. lia.
  - destruct I6 as [Hl Hg]. destruct (pcs s !! j) as [[]|] eqn:Ej; try done; injection H as <-; apply Hto; (split; [done|]).
    + intros i Hij Hin. destruct (decide (i = j)) as [->|]; [done|]. apply Hg; lia.
    + intros i Hin. apply Hg; [|done]. apply lookup_ge_None in Ej. lia.
  - destruct I6 as [Hl Hg]. destruct ok; injection H as <-; [|by apply Hto].
    split; simpl; try done.
    + exists (fun _ => None). apply no_data_inv.
    + intros i k Hk. rewrite Hg in Hk; [done|]. apply lookup_lt_Some in Hk. lia.
    + intros _ i Hi'. rewrite Hc. by apply I4.
    + intros Hst i. apply (I7 (Hs Hst)).
    + intros Hst a v Ha. destruct (I8 (Hs Hst) a v Ha) as [t Ht]. destruct (I2 t a Ht) as (p & Hp & _ & Hng).
      rewrite Hg in Hp; [by injection Hp as <-|]. apply lookup_lt_Some in Hp. lia.
Qed.

(** A thread that is not gone moves. *)
Lemma main_ok_insert s m i p q l o m' :
  main_ok s m -> pcs s !! i = Some p -> p <> Gone -> main_ok (State l (<[i := q]> (pcs s)) m' o) m.
Proof.
  intros Hm Hp Hg. destruct m as [|k|j| |st]; simpl in *; rewrite ?length_insert; try done.
  - destruct Hm as [Hm _]. by rewrite Hm in Hp.
  - destruct Hm as [Hl Hm]. split; [done|]. intros i' H1 H2. rewrite list_lookup_insert_ne; [by apply Hm|].
    intros ->. rewrite (Hm _ H1 H2) in Hp. by injection Hp as <-.
  - destruct Hm as [Hl Hm]. split; [done|]. intros i' H2. rewrite list_lookup_insert_ne; [by apply Hm|].
    intros ->. rewrite (Hm _ H2) in Hp. by injection Hp as <-.
  - intros E. destruct (Hm E) as [Hl Hm']. split; [done|]. intros i' H2. rewrite list_lookup_insert_ne; [by apply Hm'|].
    intros ->. rewrite (Hm' _ H2) in Hp. by injection Hp as <-.
Qed.

(** The other threads, when thread [i] goes from [p] to [q]: what is left to show concerns
    thread [i] and the library. *)
Lemma thread_inv_of es s i now mal sp p q l o :
  inv es s -> pcs s !! i = Some p -> p <> Gone -> q <> Begin -> (forall st, main s <> MExit st) ->
  let e := Thread i now mal sp in
  (exists last, Stopwatch.inv l last) ->
  (forall t a, specific l !! t = Some a -> (t = i /\ q <> Gone) \/ (t <> i /\ specific (lib s) !! t = Some a)) ->
  (forall t a v, t <> i -> specific (lib s) !! t = Some a -> heap (lib s) !! a = Some v ->
     specific l !! t = Some a /\ heap l !! a = Some v) ->
  (forall k, q = Looping k -> (0 < k)%nat /\ exists a t0, specific l !! i = Some a /\ heap l !! a = Some t0 /\ clock i (es ++ [e]) = Some t0) ->
  Forall (fun x => exists t0, clock x.1.1 (es ++ [e]) = Some t0 /\ x.2 = Timediff (x.1.2 - t0)) o ->
  (Forall stores (es ++ [e]) ->
     (forall j, j <> i -> lines_of j o = lines_of j (out s)) /\
     lines_of i o = match q with Begin => 0 | Looping k => lines_printed - k | _ => lines_printed end%nat /\
     (forall k, q = Looping k -> (k <= lines_printed)%nat)) ->
  (Forall stores (es ++ [e]) -> forall a v, heap l !! a = Some v -> exists t, specific l !! t = Some a) ->
  inv (es ++ [e]) (State l (<[i := q]> (pcs s)) (main s) o).
Proof.
  intros [I1 I2 I3 I4 I5 I6 I7 I8] Hp Hg Hq Hx e Hl Hw Ho Hk Hout Hlines Hheap.
  pose proof (lookup_lt_Some _ _ _ Hp) as Hlt.
  assert (forall j, j <> i -> clock j (es ++ [e]) = clock j es) as Hc.
  { intros j Hj. rewrite clock_snoc. destruct (clock j es); [done|]. simpl. by rewrite decide_False. }
  split; simpl; try done.
  - intros t a [[-> Hqg]|[Hne Ht]]%Hw.
    + exists q. by rewrite list_lookup_insert_eq.
    + rewrite list_lookup_insert_ne by done. by apply (I2 t a).
  - intros j k. destruct (decide (j = i)) as [->|Hne].
    + rewrite list_lookup_insert_eq by done. intros [= ->]. by apply Hk.
    + rewrite list_lookup_insert_ne by done. intros Hj. destruct (I3 j k Hj) as (H0 & a & t0 & Ha & Hh & Hcl).
      split; [done|]. destruct (Ho j a t0 Hne Ha Hh). exists a, t0. by rewrite Hc.
  - intros _ j. destruct (decide (j = i)) as [->|Hne].
    + rewrite list_lookup_insert_eq by done. intros [|[= ->]]; done.
    + rewrite list_lookup_insert_ne, Hc by done. by apply I4.
  - by eapply main_ok_insert.
  - intros Hst j. destruct (Hlines Hst) as (H1 & H2 & H3). destruct (decide (j = i)) as [->|Hne].
    + rewrite list_lookup_insert_eq by done. split; [by destruct q|]. intros k [= ->]. by apply H3.
    + rewrite list_lookup_insert_ne, H1 by done. apply I7. by apply Forall_app in Hst as [? _].
Qed.

Lemma clock_self i es now mal sp : clock i es = None -> clock i (es ++ [Thread i now mal sp]) = Some now.
Proof. intros Hn. rewrite clock_snoc, Hn. simpl. by rewrite decide_True. Qed.

Lemma printed_snoc j o x : lines_of j (o ++ [x]) = (lines_of j o + if decide (x.1.1 = j) then 1 else 0)%nat.
Proof. unfold lines_of. rewrite sum_list_with_app. simpl. lia. Qed.

Lemma begin_inv es s i now mal sp s' : inv es s -> (forall st, main s <> MExit st) -> pcs s !! i = Some Begin ->
  thread_step i now mal sp s = Some s' -> inv (es ++ [Thread i now mal sp]) s'.
Proof.
  intros Hi Hx Hp H. pose proof Hi as [I1 I2 I3 I4 I5 I6 I7 I8]. specialize (I4 Hx i (or_intror Hp)).
  unfold thread_step in H. rewrite Hp in H. simpl in H.
  assert (forall t a, specific (lib s) !! t = Some a -> t <> i) as Hne.
  { intros t a Ht ->. destruct (I2 i a Ht) as (p & Hp' & Hb & _). congruence. }
  destruct mal as [a|]; simpl in H.
  2:{ injection H as <-. split; simpl; try done.
      - intros j k Hj. destruct (I3 j k Hj) as (H0 & a & t0 & Ha & Hh & Hc). split; [done|]. exists a, t0. by rewrite clock_snoc, Hc.
      - intros He. by destruct (He EXIT_FAILURE).
      - by apply inv_out_snoc.
      - intros [Hst _]%Forall_app. by apply I7.
      - intros [Hst _]%Forall_app. by apply I8. }
  case_bool_decide as Hf; [done|]. apply eq_None_not_Some in Hf. destruct I1 as [last I1].
  destruct (Z.eqb_spec sp 0) as [E|E]; simpl in H; injection H as <-.
  - eapply thread_inv_of; try done.
    + eexists. by apply reset_inv.
    + simpl. intros t b [[-> _]|[Hti Ht]]%lookup_insert_Some; [by left|by right].
    + simpl. intros t b v Hti Ht Hb. rewrite !lookup_insert_ne; [done| |done]. congruence.
    + intros k [= <-]. split; [unfold lines_printed; lia|]. exists a, now. simpl. rewrite !lookup_insert_eq. by rewrite clock_self.
    + by apply inv_out_snoc.
    + intros [Hst _]%Forall_app. split; [done|]. destruct (I7 Hst i) as [-> _]. rewrite Hp. split; [by rewrite Nat.sub_diag|]. by intros k [= <-].
    + intros [Hst _]%Forall_app b v. simpl. intros [[-> _]|[Hab Hb]]%lookup_insert_Some; [exists i; apply lookup_insert_eq|].
      destruct (I8 Hst b v Hb) as [t Ht]. exists t. rewrite lookup_insert_ne; [done|]. symmetry. by eapply Hne.
  - rewrite (proj2 (Z.eqb_neq _ _) E). eapply thread_inv_of; try done.
    + exists last. by apply failed_inv.
    + simpl. intros t b Ht. right. split; [by eapply Hne|done].
    + simpl. intros t b v Hti Ht Hb. rewrite lookup_insert_ne; [done|]. congruence.
    + by apply inv_out_snoc.
    + intros [_ Hst]%Forall_app. by inversion Hst.
    + intros [_ Hst]%Forall_app. by inversion Hst.
Qed.

Lemma looping_inv es s i now mal sp k s' : inv es s -> (forall st, main s <> MExit st) -> pcs s !! i = Some (Looping k) ->
  thread_step i now mal sp s = Some s' -> inv (es ++ [Thread i now mal sp]) s'.
Proof.
  intros Hi Hx Hp H. pose proof Hi as [I1 I2 I3 I4 I5 I6 I7 I8].
  destruct (I3 i k Hp) as (Hk & a & t0 & Ha & Hh & Hc). destruct k as [|k]; [lia|].
  unfold thread_step in H. rewrite Hp in H. simpl in H. unfold stopwatch_elapsed in H. rewrite Ha in H. simpl in H.
  rewrite Hh in H. simpl in H. injection H as <-.
  assert (clock i (es ++ [Thread i now mal sp]) = Some t0) as Hc' by (by rewrite clock_snoc, Hc).
  eapply thread_inv_of; try done.
  - by destruct (k =? 0)%nat.
  - intros t b Ht. destruct (decide (t = i)) as [->|]; [left|by right]. by destruct (k =? 0)%nat.
  - intros k'. destruct (Nat.eqb_spec k 0); [done|]. intros [= <-]. split; [lia|]. by exists a, t0.
  - apply Forall_app. split; [by apply inv_out_snoc|]. constructor; [|done]. by exists t0.
  - intros [Hst _]%Forall_app. destruct (I7 Hst i) as [Hl Hle]. rewrite Hp in Hl. specialize (Hle _ Hp). split_and!.
    + intros j Hj. rewrite printed_snoc, decide_False by (simpl; congruence). lia.
    + rewrite printed_snoc, decide_True, Hl by done. destruct (Nat.eqb_spec k 0); lia.
    + intros k'. destruct (k =? 0)%nat; [done|]. intros [= <-]. lia.
  - intros [Hst _]%Forall_app. by apply I8.
Qed.

Lemma leaving_inv es s i now mal sp s' : inv es s -> (forall st, main s <> MExit st) -> pcs s !! i = Some Leaving ->
  thread_step i now mal sp s = Some s' -> inv (es ++ [Thread i now mal sp]) s'.
Proof.
  intros Hi Hx Hp H. pose proof Hi as [[last I1] I2 I3 I4 I5 I6 I7 I8].
  unfold thread_step in H. rewrite Hp in H. simpl in H. injection H as <-.
  eapply thread_inv_of; try done.
  - eexists. by apply exit_inv.
  - intros t b Ht. unfold thread_exit in Ht. destruct (specific (lib s) !! i) as [a|] eqn:Ea.
    + simpl in Ht. apply lookup_delete_Some in Ht as [Hti Ht]. by right.
    + right. split; [congruence|done].
  - intros t b v Hti Ht Hb. unfold thread_exit. destruct (specific (lib s) !! i) as [a|] eqn:Ea; [|done]. simpl.
    rewrite !lookup_delete_ne; [done| |done]. intros ->. apply Hti. by eapply (inv_own _ _ I1).
  - by apply inv_out_snoc.
  - intros [Hst _]%Forall_app. split; [done|]. split; [|done]. destruct (I7 Hst i) as [-> _]. by rewrite Hp.
  - intros [Hst _]%Forall_app b v Hb. unfold thread_exit in *. destruct (specific (lib s) !! i) as [a|] eqn:Ea; [|by apply (I8 Hst b v)].
    simpl in *. apply lookup_delete_Some in Hb as [Hab Hb]. destruct (I8 Hst b v Hb) as [t Ht]. exists t.
    rewrite lookup_delete_ne; [done|]. congruence.
Qed.

Lemma run_snoc es e s : run n (es ++ [e]) s = r ← run n es s; step n e r.
Proof. revert s. induction es as [|e' es IH]; intros s; simpl; [by destruct (step n e s)|]. destruct (step n e' s); [apply IH|done]. Qed.

Lemma test_run_inv es : forall s, run n es start = Some s -> inv es s.
Proof.
  induction es as [|e es IH] using rev_ind; intros s H; [injection H as <-; apply test_start_inv|].
  rewrite run_snoc in H. destruct (run n es start) as [s0|]; [|done]. simpl in H. specialize (IH s0 eq_refl).
  unfold step in H. assert (forall st, main s0 <> MExit st) as Hx by (intros st E; by rewrite E in H).
  assert (match e with Main ok => main_step n ok s0 | Thread i now m sp => thread_step i now m sp s0 end = Some s) as H'
    by (by destruct (main s0)).
  destruct e as [ok|i now mal sp]; [by eapply main_inv|].
  destruct (pcs s0 !! i) as [p|] eqn:Hp; [|by unfold thread_step in H'; rewrite Hp in H'].
  destruct p as [|k| |]; [by eapply begin_inv|by eapply looping_inv|by eapply leaving_inv|].
  unfold thread_step in H'. by rewrite Hp in H'.
Qed.

(** C39: however the threads are scheduled, each line shows the time since its own thread has set
    its stopwatch, and no thread ever finds nothing: it can always go on. When the program
    succeeds every thread has printed its five lines and all memory has been given back, as
    long as values can be stored. *)
Theorem stopwatch_test es s (Hrun : run n es start = Some s) :
  Forall (fun l => exists t0, clock l.1.1 es = Some t0 /\ l.2 = Timediff (l.1.2 - t0)) (out s) /\
  (forall i p a, pcs s !! i = Some p -> p <> Gone -> heap (lib s) !! a = None -> (forall st, main s <> MExit st) ->
     forall now, is_Some (step n (Thread i now (Some a) 0) s)) /\
  (main s = MExit EXIT_SUCCESS -> Forall stores es -> heap (lib s) = ∅ /\
     forall i, (i < n)%nat -> lines_of i (out s) = lines_printed).
Proof.
  pose proof (test_run_inv es s Hrun) as Hi. destruct Hi as [I1 I2 I3 I4 I5 I6 I7 I8]. split_and!; [done| |].
  - intros i p a Hp Hg Ha Hx now. assert (step n (Thread i now (Some a) 0) s = thread_step i now (Some a) 0 s) as ->.
    { unfold step. destruct (main s) as [| | | |st]; try done. by destruct (Hx st). }
    unfold thread_step. rewrite Hp. simpl. destruct p as [|k| |]; try done.
    + rewrite Ha, bool_decide_eq_false_2 by (by intros [? ?]). by eexists.
    + destruct (I3 i k Hp) as (Hk & b & t0 & Hb & Hh & _). destruct k as [|k]; [lia|].
      unfold stopwatch_elapsed. rewrite Hb. simpl. rewrite Hh. by eexists.
  - intros Hm Hst. rewrite Hm in I6. destruct (I6 eq_refl) as [Hl Hg]. split.
    + apply map_eq. intros a. rewrite lookup_empty. destruct (heap (lib s) !! a) as [v|] eqn:Ea; [|done].
      destruct (I8 Hst a v Ea) as [t Ht]. destruct (I2 t a Ht) as (p & Hp & _ & Hng).
      rewrite Hg in Hp; [by injection Hp as <-|]. apply lookup_lt_Some in Hp. lia.
    + intros i Hin. destruct (I7 Hst i) as [-> _]. by rewrite (Hg i Hin).
Qed.
End inv.

(** One thread, in its first second and in the four that follow. *)
Definition demo : list event :=
  [Main true; Main true; Thread 0 10 (Some 4096) 0; Main true] ++
  map (fun t => Thread 0 t None 0) [10; 11; 12; 13; 14; 15] ++ [Main true; Main true; Main true].

Lemma stopwatch_test_witness :
  exists s, run 1 demo start = Some s /\ heap (lib s) = ∅ /\
    out s = map (fun d => (0%nat, 10 + d, Timediff d)) [0; 1; 2; 3; 4].
Proof.
  assert (exists s, run 1 demo start = Some s) as [s Hs] by (eexists; vm_compute; reflexivity).
  exists s. split; [exact Hs|]. assert (main s = MExit EXIT_SUCCESS /\ out s = map (fun d => (0%nat, 10 + d, Timediff d)) [0; 1; 2; 3; 4]) as [Hm Ho].
  { vm_compute in Hs. injection Hs as <-. split; reflexivity. }
  split; [|exact Ho]. apply (proj2 (proj2 (stopwatch_test 1 demo s Hs)) Hm). by repeat constructor.
Defined.

(** A value that cannot be stored is never freed. *)
Example not_stored :
  (fun s => size (heap (lib s))) <$> run 1 [Main true; Main true; Thread 0 10 (Some 4096) 11; Thread 0 10 None 0] start = Some 1%nat.
Proof. vm_compute. reflexivity. Qed.
