(* ===== verification/Shmcounter.v ===== *)
(** [ex13/shmcounter/shmcounter.c]: processes that count themselves in a System V
    shared memory segment. The segments are those of the kernel: [IPC_RMID] takes the
    key from a segment at once, and the last [shmdt] destroys it. *)

From S2P Require Import Prelude.

Open Scope Z_scope.

(** Where a process is, once it has an identifier: before [shmat]; before reading
    and before writing the counter in [++*mem]; before printing it; the same for
    [--*mem]; before [shmctl] (with whether [mem] is mapped); before [shmdt]. *)
Inductive loc := Attach | Load1 | Store1 | Show1 | Load2 | Store2 | Show2 | Remove (mapped : bool) | Detach.

(** A process with [shmid] and the value it has read of the counter. *)
Inductive process := Begin | At (l : loc) (shmid : nat) (reg : Z) | Ended.

(** A segment: its first [unsigned], the number of attached processes, and whether it
    is to be destroyed. *)
Record segment := Segment { value : Z; nattch : nat; dest : bool }.

(** The processes; the segments, the one that has the key, and a bound for their
    identifiers; and what has been printed by which process. *)
Record state := State {
  procs : list process;
  segs : gmap nat segment;
  keyed : option nat;
  next : nat;
  printed : list (nat * Z)
}.

Definition start (n : nat) : state := State (replicate n Begin) ∅ None 0 [].

(** Process [i] moves to [q]. *)
Definition move (i : nat) (q : process) (s : state) : state :=
  State (<[i := q]> (procs s)) (segs s) (keyed s) (next s) (printed s).
Definition set_segs (m : gmap nat segment) (k : option nat) (s : state) : state :=
  State (procs s) m k (next s) (printed s).

(** The key is lost by segment [id]. *)
Definition unkey (id : nat) (k : option nat) : option nat :=
  if decide (k = Some id) then None else k.

(** [shmget(key, page_size, IPC_CREAT | ...)] by process [i]. *)
Definition do_shmget (i : nat) (s : state) : state :=
  match keyed s with
  | Some id => move i (At Attach id 0) s
  | None =>
      State (<[i := At Attach (next s) 0]> (procs s)) (<[next s := Segment 0 0 false]> (segs s))
        (Some (next s)) (S (next s)) (printed s)
  end.

(** [shmctl(shmid, IPC_RMID, NULL)]; it fails on an identifier that no longer exists. *)
Definition do_rmid (id : nat) (s : state) : state :=
  match segs s !! id with
  | None => s
  | Some sg =>
      set_segs (if (nattch sg =? 0)%nat then delete id (segs s)
                else <[id := Segment (value sg) (nattch sg) true]> (segs s)) (unkey id (keyed s)) s
  end.

(** [shmdt(mem)] *)
Definition do_shmdt (id : nat) (s : state) : state :=
  match segs s !! id with
  | None => s
  | Some sg =>
      let n := (nattch sg - 1)%nat in
      set_segs (if (n =? 0)%nat && dest sg then delete id (segs s)
                else <[id := Segment (value sg) n (dest sg)]> (segs s)) (keyed s) s
  end.

(** [main] by process [i], one access to the shared memory or system call at a time;
    [ok] tells whether the calls up to [shmget] ([ftok] and [sysconf] before it), or [shmat],
    succeed if they can; [shmctl] and [shmdt] fail on what no longer exists. [None] is an access to
    memory that is not mapped. *)
Definition step (i : nat) (ok : bool) (s : state) : option state :=
  match procs s !! i with
  | Some Begin => Some (if ok then do_shmget i s else move i Ended s)
  | Some (At l id reg) =>
      match l with
      | Attach =>
          Some (match segs s !! id with
                | Some sg =>
                    if ok then
                      move i (At Load1 id 0)
                        (set_segs (<[id := Segment (value sg) (S (nattch sg)) (dest sg)]> (segs s)) (keyed s) s)
                    else move i (At (Remove false) id 0) s
                | None => move i (At (Remove false) id 0) s
                end)
      | Load1 => sg ← segs s !! id; Some (move i (At Store1 id (value sg)) s)
      | Load2 => sg ← segs s !! id; Some (move i (At Store2 id (value sg)) s)
      | Store1 =>
          sg ← segs s !! id;
          Some (move i (At Show1 id reg)
                  (set_segs (<[id := Segment (u32 (reg + 1)) (nattch sg) (dest sg)]> (segs s)) (keyed s) s))
      | Store2 =>
          sg ← segs s !! id;
          Some (move i (At Show2 id reg)
                  (set_segs (<[id := Segment (u32 (reg - 1)) (nattch sg) (dest sg)]> (segs s)) (keyed s) s))
      | Show1 =>
          sg ← segs s !! id;
          Some (State (<[i := At Load2 id reg]> (procs s)) (segs s) (keyed s) (next s)
                  (printed s ++ [(i, value sg)]))
      | Show2 =>
          sg ← segs s !! id;
          Some (State (<[i := At (Remove true) id reg]> (procs s)) (segs s) (keyed s) (next s)
                  (printed s ++ [(i, value sg)]))
      | Remove mapped => Some (move i (if mapped then At Detach id reg else Ended) (do_rmid id s))
      | Detach => Some (move i Ended (do_shmdt id s))
      end
  | Some Ended | None => Some s
  end.

Fixpoint run (es : list (nat * bool)) (s : state) : option state :=
  match es with [] => Some s | (i, ok) :: es => s' ← step i ok s; run es s' end.

(* ------------------------------------------------------------------ *)
(** ** Properties *)

(** Who has segment [id] mapped, and who has still to remove it. *)
Definition attached (id : nat) (p : process) : bool :=
  match p with
  | At l id' _ =>
      bool_decide (id' = id) && match l with Attach | Remove false => false | _ => true end
  | _ => false
  end.
Definition owes (id : nat) (p : process) : bool :=
  match p with
  | At l id' _ => bool_decide (id' = id) && match l with Detach => false | _ => true end
  | _ => false
  end.

Definition att (s : state) (id : nat) : nat := count_if (attached id) (procs s).
Definition owe (s : state) (id : nat) : nat := count_if (owes id) (procs s).

(** What is known of a segment when [a] processes have it mapped and [w] have still
    to remove it, and whether it has the key. *)
Definition seg_ok (o : option segment) (a w : nat) (has_key : bool) : Prop :=
  match o with
  | None => a = 0%nat /\ has_key = false
  | Some sg => nattch sg = a /\ has_key = negb (dest sg) /\ (if dest sg then 0 < a else 0 < w)%nat
  end.

Record inv (s : state) : Prop := {
  inv_segs : forall id, seg_ok (segs s !! id) (att s id) (owe s id) (bool_decide (keyed s = Some id));
  inv_next : forall id, (next s <= id)%nat -> segs s !! id = None
}.

Lemma shm_start_inv n : inv (start n).
Proof.
  split; [|done]. intros id. simpl. split; [|done]. unfold att. simpl.
  induction n as [|n IH]; [done|]. exact IH.
Qed.

(** A step that concerns segment [id0] only. *)
Lemma local_inv s s' i p q id0 :
  inv s -> procs s !! i = Some p -> procs s' = <[i := q]> (procs s) ->
  (forall id, id <> id0 -> attached id p = attached id q /\ owes id p = owes id q) ->
  (forall id, id <> id0 -> segs s' !! id = segs s !! id /\ (keyed s' = Some id <-> keyed s = Some id)) ->
  (forall a w, (a + b2n (attached id0 p) = att s id0 + b2n (attached id0 q))%nat ->
     (w + b2n (owes id0 p) = owe s id0 + b2n (owes id0 q))%nat ->
     seg_ok (segs s' !! id0) a w (bool_decide (keyed s' = Some id0))) ->
  (forall id, (next s' <= id)%nat -> segs s' !! id = None) ->
  inv s'.
Proof.
  intros [Hs Hn] Hp Hpr Hc Ho H0 Hn'. split; [|done]. intros id.
  pose proof (count_if_insert (attached id) (procs s) i p q Hp) as Ha.
  pose proof (count_if_insert (owes id) (procs s) i p q Hp) as Hw.
  rewrite <- Hpr in Ha, Hw. fold (att s' id) (att s id) in Ha. fold (owe s' id) (owe s id) in Hw.
  destruct (decide (id = id0)) as [->|Hne]; [by apply H0|].
  destruct (Hc id Hne) as [Hc1 Hc2]. destruct (Ho id Hne) as [-> Hk].
  rewrite Hc1 in Ha. rewrite Hc2 in Hw.
  replace (att s' id) with (att s id) by lia. replace (owe s' id) with (owe s id) by lia.
  rewrite (bool_decide_ext _ _ Hk). apply Hs.
Qed.

Lemma other_process id l id' reg : id <> id' -> attached id (At l id' reg) = false /\ owes id (At l id' reg) = false.
Proof. intros Hne. simpl. by rewrite bool_decide_eq_false_2. Qed.

Lemma unkey_other id id' k : id' <> id -> unkey id k = Some id' <-> k = Some id'.
Proof. unfold unkey. case_decide; naive_solver. Qed.

Lemma unkey_self id k : bool_decide (unkey id k = Some id) = false.
Proof. unfold unkey. apply bool_decide_eq_false_2. by case_decide. Qed.

(** A mapped segment exists. *)
Lemma mapped_seg s i p id :
  inv s -> procs s !! i = Some p -> attached id p = true ->
  exists sg, segs s !! id = Some sg /\ nattch sg = att s id /\ (0 < att s id)%nat.
Proof.
  intros Hi Hp Ha. pose proof (inv_segs s Hi id) as Hs.
  assert (0 < att s id)%nat as Hpos by (by eapply count_if_lookup).
  destruct (segs s !! id) as [sg|]; [|destruct Hs; lia]. exists sg. by destruct Hs as [-> _].
Qed.

(** The conditions of [local_inv] for a step of a process that has an identifier. *)
Local Ltac other_ids :=
  intros; simpl; rewrite ?bool_decide_eq_false_2 by done; rewrite ?lookup_insert_ne, ?lookup_delete_ne by done; done.
Local Ltac next_ids Hi :=
  intros id' Hid'; simpl in *; rewrite ?lookup_insert_Some; pose proof (inv_next _ Hi id' Hid').

(** A step that only moves the process, between places of the same kind. *)
Lemma move_inv' s i l id reg l' reg' pr :
  inv s -> procs s !! i = Some (At l id reg) ->
  attached id (At l' id reg') = attached id (At l id reg) ->
  owes id (At l' id reg') = owes id (At l id reg) ->
  inv (State (<[i := At l' id reg']> (procs s)) (segs s) (keyed s) (next s) pr).
Proof.
  intros Hi Hp Ha Hw. eapply (local_inv s _ i _ _ id Hi Hp); [done| |done| |apply Hi].
  - intros id' Hne. by rewrite !(proj1 (other_process _ _ _ _ Hne)), !(proj2 (other_process _ _ _ _ Hne)).
  - intros a w. rewrite Ha, Hw. intros Ea Ew. simpl.
    replace a with (att s id) by lia. replace w with (owe s id) by lia. apply Hi.
Qed.

(** Writing the counter of a segment keeps the bookkeeping. *)
Lemma write_inv s id sg v :
  inv s -> segs s !! id = Some sg ->
  inv (set_segs (<[id := Segment v (nattch sg) (dest sg)]> (segs s)) (keyed s) s).
Proof.
  intros Hi Hsg. pose proof Hi as [Hs Hn]. split; simpl.
  - intros id'. destruct (decide (id' = id)) as [->|Hne].
    + rewrite lookup_insert_eq. specialize (Hs id). by rewrite Hsg in Hs.
    + rewrite lookup_insert_ne by done. apply Hs.
  - intros id' Hid'. rewrite lookup_insert_ne; [by apply Hn|]. intros ->. by rewrite (Hn id' Hid') in Hsg.
Qed.

Lemma shmget_inv i s : inv s -> procs s !! i = Some Begin -> inv (do_shmget i s).
Proof.
  intros Hi Hp. unfold do_shmget. destruct (keyed s) as [id|] eqn:Hk.
  - eapply (local_inv s _ i _ _ id Hi Hp); [done| | | |apply Hi]; simpl.
    + intros id' Hne. by rewrite bool_decide_eq_false_2 by done.
    + done.
    + intros a w. rewrite bool_decide_eq_true_2 by done. simpl. intros Ea Ew.
      pose proof (inv_segs s Hi id) as Hs. rewrite Hk in *.
      replace a with (att s id) by lia.
      destruct (segs s !! id) as [sg|]; [|exact Hs]. destruct Hs as (H1 & H2 & H3).
      split; [done|]. split; [done|]. destruct (dest sg); [done|lia].
  - eapply (local_inv s _ i _ _ (next s) Hi Hp); [done| | | |]; simpl.
    + intros id' Hne. by rewrite bool_decide_eq_false_2 by done.
    + intros id' Hne. rewrite lookup_insert_ne by done. split; [done|]. rewrite Hk. naive_solver.
    + intros a w. rewrite bool_decide_eq_true_2 by done. simpl. intros Ea Ew.
      pose proof (inv_segs s Hi (next s)) as Hs. rewrite (inv_next s Hi) in Hs by lia. destruct Hs as [Ha0 _].
      rewrite lookup_insert_eq, bool_decide_eq_true_2 by done. simpl. split_and!; [lia|done|lia].
    + intros id' Hid'. rewrite lookup_insert_ne by lia. apply Hi. lia.
Qed.

Lemma attach_inv s i id reg sg :
  inv s -> procs s !! i = Some (At Attach id reg) -> segs s !! id = Some sg ->
  inv (move i (At Load1 id 0)
         (set_segs (<[id := Segment (value sg) (S (nattch sg)) (dest sg)]> (segs s)) (keyed s) s)).
Proof.
  intros Hi Hp Hsg. eapply (local_inv s _ i _ _ id Hi Hp); [done| | | |]; simpl.
  - intros id' Hne. by rewrite !bool_decide_eq_false_2 by done.
  - intros id' Hne. by rewrite lookup_insert_ne by done.
  - intros a w. rewrite bool_decide_eq_true_2 by done. simpl. intros Ea Ew.
    pose proof (inv_segs s Hi id) as Hs. rewrite Hsg in Hs. destruct Hs as (H1 & H2 & H3).
    rewrite lookup_insert_eq. simpl. split_and!; [lia|done|]. destruct (dest sg); lia.
  - intros id' Hid'. rewrite lookup_insert_ne; [by apply Hi|]. intros ->. by rewrite (inv_next s Hi id' Hid') in Hsg.
Qed.

(** A process that could not attach has only to remove the segment. *)
Lemma refused_inv s i id reg :
  inv s -> procs s !! i = Some (At Attach id reg) -> inv (move i (At (Remove false) id 0) s).
Proof. intros Hi Hp. by eapply move_inv'. Qed.

Lemma remove_inv s i id reg mapped :
  inv s -> procs s !! i = Some (At (Remove mapped) id reg) ->
  inv (move i (if mapped then At Detach id reg else Ended) (do_rmid id s)).
Proof.
  intros Hi Hp.
  assert (forall id', (next s <= id')%nat -> segs s !! id' = None) as Hnx by apply Hi.
  eapply (local_inv s _ i _ _ id Hi Hp).
  - unfold do_rmid. by destruct (segs s !! id).
  - intros id' Hne. destruct (other_process id' (Remove mapped) id reg Hne) as [-> ->].
    destruct mapped; [|done]. by destruct (other_process id' Detach id reg Hne) as [-> ->].
  - intros id' Hne. unfold do_rmid. destruct (segs s !! id) as [sg|]; [|done]. simpl.
    split; [|by apply unkey_other]. destruct (_ =? 0)%nat; [by rewrite lookup_delete_ne|by rewrite lookup_insert_ne].
  - intros a w Ea Ew. pose proof (inv_segs s Hi id) as Hs. unfold do_rmid.
    assert (a = att s id) as -> by (destruct mapped; simpl in Ea; rewrite ?bool_decide_eq_true_2 in Ea by done; simpl in Ea; lia).
    destruct (segs s !! id) as [sg|] eqn:Hsg; simpl; [|by rewrite Hsg].
    destruct Hs as (H1 & _ & _). rewrite unkey_self.
    destruct (Nat.eqb_spec (nattch sg) 0); [by rewrite lookup_delete_eq; split; [lia|]|].
    rewrite lookup_insert_eq. simpl. split_and!; [done|done|lia].
  - unfold do_rmid. destruct (segs s !! id) as [sg|] eqn:Hsg; [|done]. simpl. intros id' Hid'.
    assert (id <> id') by (intros ->; by rewrite Hnx in Hsg).
    destruct (_ =? 0)%nat; [rewrite lookup_delete_ne by done|rewrite lookup_insert_ne by done]; auto.
Qed.

Lemma detach_inv s i id reg :
  inv s -> procs s !! i = Some (At Detach id reg) -> inv (move i Ended (do_shmdt id s)).
Proof.
  intros Hi Hp.
  assert (forall id', (next s <= id')%nat -> segs s !! id' = None) as Hnx by apply Hi.
  destruct (mapped_seg s i _ id Hi Hp) as (sg & Hsg & Hn & Hpos); [simpl; by rewrite bool_decide_eq_true_2|].
  unfold do_shmdt. rewrite Hsg. cbn zeta.
  eapply (local_inv s _ i _ _ id Hi Hp); [done| | | |]; simpl.
  - intros id' Hne. by rewrite bool_decide_eq_false_2 by done.
  - intros id' Hne. split; [|done].
    destruct (_ && _); [by rewrite lookup_delete_ne|by rewrite lookup_insert_ne].
  - intros a w. rewrite bool_decide_eq_true_2 by done. simpl. intros Ea Ew.
    pose proof (inv_segs s Hi id) as Hs. rewrite Hsg in Hs. destruct Hs as (H1 & H2 & H3).
    destruct (Nat.eqb_spec (nattch sg - 1) 0) as [E|E]; destruct (dest sg) eqn:Hd; simpl in *;
      rewrite ?lookup_delete_eq, ?lookup_insert_eq; simpl; rewrite ?H2; split_and!; try done; lia.
  - intros id' Hid'. assert (id <> id') by (intros ->; by rewrite Hnx in Hsg).
    destruct (_ && _); [rewrite lookup_delete_ne by done|rewrite lookup_insert_ne by done]; auto.
Qed.

Lemma shm_step_inv i ok s : inv s -> exists s', step i ok s = Some s' /\ inv s'.
Proof.
  intros Hi. unfold step. destruct (procs s !! i) as [[|l id reg|]|] eqn:Hp; [| |by eauto..].
  - eexists. split; [done|]. destruct ok; [by apply shmget_inv|].
    eapply (local_inv s _ i _ _ 0%nat Hi Hp); [done|done|done| |apply Hi].
    intros a w. simpl. intros Ea Ew.
    replace a with (att s 0) by lia. replace w with (owe s 0) by lia. apply Hi.
  - assert (attached id (At l id reg) = true -> exists sg, segs s !! id = Some sg) as Hm.
    { intros Ha. destruct (mapped_seg s i _ id Hi Hp Ha) as (sg & ? & _). by exists sg. }
    simpl in Hm. rewrite bool_decide_eq_true_2 in Hm by done.
    destruct l; try (destruct (Hm eq_refl) as [sg Hsg]; rewrite ?Hsg; simpl);
      eexists; (split; [reflexivity|]).
    + destruct (segs s !! id) as [sg|] eqn:Hsg; [destruct ok|];
        [by eapply attach_inv|by eapply refused_inv..].
    + by eapply move_inv'.
    + eapply (move_inv' (set_segs _ _ s)); [by apply write_inv|done|done|done].
    + by eapply move_inv'.
    + by eapply move_inv'.
    + eapply (move_inv' (set_segs _ _ s)); [by apply write_inv|done|done|done].
    + by eapply move_inv'.
    + by eapply remove_inv.
    + by eapply detach_inv.
Qed.

Lemma shm_run_inv es s : inv s -> exists s', run es s = Some s' /\ inv s'.
Proof.
  revert s. induction es as [|[i ok] es IH]; intros s Hi; simpl; [by eauto|].
  destruct (shm_step_inv i ok s Hi) as (s1 & -> & H1). by apply IH.
Qed.

(** C19: in every interleaving of any number of processes, with any failures of [shmget]
    and [shmat], the counter is only accessed while the segment is mapped and exists;
    the segments in existence are attached exactly as often as there are processes that
    have them mapped; and when all processes have ended no segment is left, and none
    has the key. *)
Theorem shmcounter_memory n es :
  exists s, run es (start n) = Some s /\
    (forall id sg, segs s !! id = Some sg -> nattch sg = att s id) /\
    (Forall (.= Ended) (procs s) -> segs s = ∅ /\ keyed s = None).
Proof.
  destruct (shm_run_inv es (start n) (shm_start_inv n)) as (s & Hr & Hi). exists s. split; [done|]. split.
  - intros id sg Hsg. pose proof (inv_segs s Hi id) as Hs. rewrite Hsg in Hs. by destruct Hs.
  - intros He. assert (forall f : process -> bool, f Ended = false -> count_if f (procs s) = 0%nat) as H0.
    { intros f Hf. apply count_if_none. intros p Hp. rewrite Forall_forall in He. by rewrite (He p Hp). }
    assert (forall id, segs s !! id = None /\ keyed s <> Some id) as Hno.
    { intros id. pose proof (inv_segs s Hi id) as Hs. unfold att, owe in Hs. rewrite !H0 in Hs by done.
      destruct (segs s !! id) as [sg|].
      - destruct Hs as (_ & _ & Hd). destruct (dest sg); lia.
      - split; [done|]. destruct Hs as [_ Hk]. by apply bool_decide_eq_false_1 in Hk. }
    split.
    + apply map_empty. apply Hno.
    + destruct (keyed s) as [id|]; [|done]. by destruct (Hno id).
Qed.

Definition turn (i k : nat) : list (nat * bool) := replicate k (i, true).

(** [++*mem] is not atomic: two processes that read before either writes count as one,
    and the counter wraps below 0 when both have left. *)
Example lost_update :
  printed <$> run (turn 0 3 ++ turn 1 3 ++ turn 0 1 ++ turn 1 1 ++ turn 0 4 ++ turn 1 4) (start 2)
  = Some [(0%nat, 1); (0%nat, 0); (1%nat, 0); (1%nat, 4294967295)].
Proof. vm_compute. reflexivity. Qed.

(** The first process to leave takes the key away: a process that starts while another
    is still counted gets a segment of its own, and counts from 1. *)
Example fresh_counter :
  printed <$> run (turn 0 5 ++ turn 1 5 ++ turn 0 5 ++ turn 2 5) (start 3)
  = Some [(0%nat, 1); (1%nat, 2); (0%nat, 1); (2%nat, 1)].
Proof. vm_compute. reflexivity. Qed.
