(* ===== verification/Board.v ===== *)
(** [ex13/mmap/mmap.c]: processes that show a text from a file they map into memory,
    until one that is started with [--stop] sets the first byte of the file. Access
    is guarded by [flock]; the text itself is written without a lock. *)

From S2P Require Import Prelude.
From Stdlib Require Import Ascii.

Open Scope Z_scope.

Definition BUFFER_LENGTH : nat := 80.
Definition NUL : ascii := "000"%char.

(** A file of this name: its first byte, the rest, and who holds a lock on it. *)
Record file := File { flag : Z; text : list ascii; shared : list nat; excl : option nat }.

(** What [ftruncate] makes of a new file. *)
Definition new_file : file := File 0 (replicate (BUFFER_LENGTH - 1) NUL) [] None.

(** Where a process is in [main], with its file open: before [ftruncate], [mmap]; for
    [--stop] before [flock], the assignment, [flock], [remove]; else before byte [i] of
    [strncpy]; in the loop before [flock], in [printf] behind some characters, before the
    test, before [flock]; before [munmap]; before [close]. *)
Inductive loc :=
| Truncate | MapFile
| StopLock | StopSet | StopUnlock | StopRemove
| Copy (i : nat) | LockSh | Show (acc : list ascii) | Test | Unlock
| Unmap | Close.

Inductive process := Begin | At (l : loc) (id : nat) | Ended (status : Z).

(** The command lines of the processes and the processes; the files, the one that has the
    name [FILE_NAME], a bound for their numbers; and the lines shown. *)
Record state := State {
  args : list (option (list ascii));
  procs : list process;
  files : gmap nat file;
  named : option nat;
  next : nat;
  shown : list (nat * list ascii)
}.

Definition start (args : list (option (list ascii))) : state :=
  State args (replicate (length args) Begin) ∅ None 0 [].

Definition stop_arg : list ascii := String.list_ascii_of_string "--stop".

Definition move (i : nat) (p : process) (s : state) : state :=
  State (args s) (<[i := p]> (procs s)) (files s) (named s) (next s) (shown s).
Definition on_file (id : nat) (f : file -> file) (s : state) : state :=
  State (args s) (procs s) (alter f id (files s)) (named s) (next s) (shown s).

Definition set_flag (v : Z) (f : file) : file := File v (text f) (shared f) (excl f).
Definition set_char (i : nat) (c : ascii) (f : file) : file :=
  File (flag f) (<[i := c]> (text f)) (shared f) (excl f).

(** [flock(fd, LOCK_SH)], [flock(fd, LOCK_EX)] when they need not wait, and the release
    by [LOCK_UN] or by [close]. *)
Definition lock_sh (i : nat) (f : file) : file := File (flag f) (text f) (i :: shared f) (excl f).
Definition lock_ex (i : nat) (f : file) : file := File (flag f) (text f) (shared f) (Some i).
Definition release (i : nat) (f : file) : file :=
  File (flag f) (text f) (filter (fun j => j <> i) (shared f))
    (if decide (excl f = Some i) then None else excl f).

(** [open(FILE_NAME, O_CREAT | O_RDWR)] *)
Definition open_file (i : nat) (s : state) : state :=
  match named s with
  | Some id => move i (At Truncate id) s
  | None =>
      State (args s) (<[i := At Truncate (next s)]> (procs s)) (<[next s := new_file]> (files s))
        (Some (next s)) (S (next s)) (shown s)
  end.

(** The character that [strncpy] writes at place [i]: it fills up with null bytes. *)
Definition copied (arg : list ascii) (i : nat) : ascii := default NUL (arg !! i).

(** One step of [main] in process [i] at place [l] with file [id]; [ok] tells whether the
    system call that is made succeeds. [None] when [flock] waits. *)
Definition step_at (i : nat) (ok : bool) (arg : list ascii) (l : loc) (id : nat) (s : state) : option state :=
  f ← files s !! id;
  let to l := move i (At l id) in
  match l with
  | Truncate => Some (to (if ok then MapFile else Close) s)
  | MapFile => Some (to (if ok then if bool_decide (arg = stop_arg) then StopLock else Copy 0 else Close) s)
  | StopLock =>
      if negb ok then Some (to Unmap s)
      else if bool_decide (shared f = [] /\ excl f = None)
      then Some (to StopSet (on_file id (lock_ex i) s)) else None
  | StopSet => Some (to StopUnlock (on_file id (set_flag 1) s))
  | StopUnlock => Some (if ok then to StopRemove (on_file id (release i) s) else to Unmap s)
  | StopRemove =>
      Some (State (args s) (<[i := At Unmap id]> (procs s)) (files s)
              (if ok then None else named s) (next s) (shown s))
  | Copy k =>
      Some (if (k <? BUFFER_LENGTH - 1)%nat then to (Copy (S k)) (on_file id (set_char k (copied arg k)) s)
            else to LockSh s)
  | LockSh =>
      if negb ok then Some (to Unmap s)
      else if bool_decide (excl f = None) then Some (to (Show []) (on_file id (lock_sh i) s)) else None
  | Show acc =>
      let c := default NUL (text f !! length acc) in
      if (length acc <? BUFFER_LENGTH - 1)%nat && negb (bool_decide (c = NUL))
      then Some (to (Show (acc ++ [c])) s)
      else Some (State (args s) (<[i := At Test id]> (procs s)) (files s) (named s) (next s)
                   (shown s ++ [(i, acc)]))
  | Test => Some (to (if flag f =? 0 then Unlock else Unmap) s)
  | Unlock => Some (if ok then to LockSh (on_file id (release i) s) else to Unmap s)
  | Unmap => Some (to Close s)
  | Close => Some (move i (Ended EXIT_SUCCESS) (on_file id (release i) s))
  end.

Definition step (i : nat) (ok : bool) (s : state) : option state :=
  match procs s !! i, args s !! i with
  | Some Begin, Some None => Some (move i (Ended EXIT_FAILURE) s)
  | Some Begin, Some (Some _) => Some (if ok then open_file i s else move i (Ended EXIT_FAILURE) s)
  | Some (At l id), Some (Some arg) => step_at i ok arg l id s
  | _, _ => None
  end.

Fixpoint run (es : list (nat * bool)) (s : state) : option state :=
  match es with [] => Some s | (i, ok) :: es => s' ← step i ok s; run es s' end.

(* ------------------------------------------------------------------ *)
(** ** The locks *)

(** Where a process may hold, and where it must hold, each lock. *)
Definition may_ex (l : loc) : Prop := match l with StopSet | StopUnlock | Unmap | Close => True | _ => False end.
Definition must_ex (l : loc) : Prop := match l with StopSet | StopUnlock => True | _ => False end.
Definition may_sh (l : loc) : Prop := match l with Show _ | Test | Unlock | Unmap | Close => True | _ => False end.
Definition must_sh (l : loc) : Prop := match l with Show _ | Test | Unlock => True | _ => False end.

Record lock_ok (ps : list process) (id : nat) (f : file) : Prop := {
  lock_one : excl f <> None -> shared f = [];
  lock_may_ex : forall j, excl f = Some j -> exists l, ps !! j = Some (At l id) /\ may_ex l;
  lock_may_sh : forall j, j ∈ shared f -> exists l, ps !! j = Some (At l id) /\ may_sh l;
  lock_must_ex : forall j l, ps !! j = Some (At l id) -> must_ex l -> excl f = Some j;
  lock_must_sh : forall j l, ps !! j = Some (At l id) -> must_sh l -> j ∈ shared f
}.

Record inv (s : state) : Prop := {
  inv_len : length (procs s) = length (args s);
  inv_args : forall i l id, procs s !! i = Some (At l id) -> exists a, args s !! i = Some (Some a);
  inv_file : forall i l id, procs s !! i = Some (At l id) -> is_Some (files s !! id);
  inv_named : forall id, named s = Some id -> is_Some (files s !! id);
  inv_next : forall id, is_Some (files s !! id) -> (id < next s)%nat;
  inv_lock : forall id f, files s !! id = Some f -> lock_ok (procs s) id f
}.

Lemma board_start_inv a : inv (start a).
Proof.
  assert (forall i l id, replicate (length a) Begin !! i <> Some (At l id)) as H.
  { intros i l id Hi. by apply lookup_replicate in Hi as [? _]. }
  split; simpl; [by rewrite length_replicate|..]; try done.
  - intros i l id Hi. by destruct (H i l id).
  - intros i l id Hi. by destruct (H i l id).
  - intros id [f Hf]. done.
Qed.

(** Process [i] with file [id] goes to [p], and the file becomes [f']. *)
Definition own_id (id : nat) (p : process) : Prop := match p with At _ id' => id' = id | _ => True end.
Definition place (P : loc -> Prop) (p : process) : Prop := match p with At l _ => P l | _ => False end.

Lemma file_step_inv s s' i l id f p f' :
  inv s -> procs s !! i = Some (At l id) -> files s !! id = Some f -> own_id id p ->
  args s' = args s -> procs s' = <[i := p]> (procs s) -> next s' = next s ->
  named s' = None \/ named s' = named s ->
  files s' !! id = Some f' -> (forall id', id' <> id -> files s' !! id' = files s !! id') ->
  (forall j, j <> i -> (excl f' = Some j <-> excl f = Some j) /\ (j ∈ shared f' <-> j ∈ shared f)) ->
  (excl f' <> None -> shared f' = []) ->
  (excl f' = Some i -> place may_ex p) -> (i ∈ shared f' -> place may_sh p) ->
  (place must_ex p -> excl f' = Some i) -> (place must_sh p -> i ∈ shared f') ->
  inv s'.
Proof.
  intros Hi Hp Hf Hid Ea Ep En Hnm Hf' Ho Hsame Hone M1 M2 M3 M4.
  pose proof (lookup_lt_Some _ _ _ Hp) as Hlt.
  assert (forall k, is_Some (files s !! k) <-> is_Some (files s' !! k)) as Hdom.
  { intros k. destruct (decide (k = id)) as [->|Hne]; [|by rewrite Ho]. rewrite Hf, Hf'. by split; eexists. }
  assert (forall j l' id', procs s' !! j = Some (At l' id') ->
    (j = i /\ p = At l' id') \/ (j <> i /\ procs s !! j = Some (At l' id'))) as Hpr.
  { intros j l' id'. rewrite Ep. intros [(-> & <- & _) | [? ?]]%list_lookup_insert_Some; [left|right]; done. }
  split.
  - rewrite Ep, Ea, length_insert. apply Hi.
  - intros j l' id' Hj. rewrite Ea. destruct (Hpr _ _ _ Hj) as [[-> _] | [_ Hj']]; by eapply inv_args.
  - intros j l' id' Hj. apply Hdom. destruct (Hpr _ _ _ Hj) as [[-> ->] | [_ Hj']]; [|by eapply inv_file].
    simpl in Hid. subst. by eexists.
  - intros k Hk. apply Hdom, Hi. destruct Hnm as [E|E]; congruence.
  - intros k Hk. rewrite En. apply Hi. by apply Hdom.
  - intros k g Hk. destruct (decide (k = id)) as [->|Hne].
    + rewrite Hf' in Hk. injection Hk as <-. pose proof (inv_lock s Hi id f Hf) as [L1 L2 L3 L4 L5]. split; [done|..].
      * intros j Hj. rewrite Ep. destruct (decide (j = i)) as [->|Hne].
        -- rewrite list_lookup_insert_eq by done. specialize (M1 Hj). destruct p as [|l' id'|]; try done.
           simpl in Hid. subst. by exists l'.
        -- rewrite list_lookup_insert_ne by done. apply L2. by apply Hsame.
      * intros j Hj. rewrite Ep. destruct (decide (j = i)) as [->|Hne].
        -- rewrite list_lookup_insert_eq by done. specialize (M2 Hj). destruct p as [|l' id'|]; try done.
           simpl in Hid. subst. by exists l'.
        -- rewrite list_lookup_insert_ne by done. apply L3. by apply (Hsame j Hne).
      * intros j l' Hj Hm. destruct (Hpr _ _ _ Hj) as [[-> ->] | [Hne Hj']]; [by apply M3|].
        apply Hsame; [done|]. by eapply L4.
      * intros j l' Hj Hm. destruct (Hpr _ _ _ Hj) as [[-> ->] | [Hne Hj']]; [by apply M4|].
        apply (Hsame j Hne). by eapply L5.
    + rewrite Ho in Hk by done. pose proof (inv_lock s Hi k g Hk) as [L1 L2 L3 L4 L5].
      assert (forall j l', procs s !! j = Some (At l' k) -> procs s' !! j = Some (At l' k)) as Hstay.
      { intros j l' Hj. rewrite Ep. destruct (decide (j = i)) as [->|Hji]; [congruence|].
        by rewrite list_lookup_insert_ne. }
      assert (forall j l', procs s' !! j = Some (At l' k) -> procs s !! j = Some (At l' k)) as Hback.
      { intros j l' Hj. destruct (Hpr _ _ _ Hj) as [[-> ->] | [_ Hj']]; [simpl in Hid; congruence|done]. }
      split; [done|..].
      * intros j Hj. destruct (L2 j Hj) as (l' & ? & ?). eauto.
      * intros j Hj. destruct (L3 j Hj) as (l' & ? & ?). eauto.
      * intros j l' Hj. by apply L4, Hback.
      * intros j l' Hj. by apply L5, Hback.
Qed.

(** The new file or the one that has the name is opened. *)
Lemma open_inv s i a : inv s -> procs s !! i = Some Begin -> args s !! i = Some (Some a) -> inv (open_file i s).
Proof.
  intros Hi Hp Ha. unfold open_file.
  assert (forall j l id nx, (<[i := At Truncate nx]> (procs s)) !! j = Some (At l id) ->
    (j = i /\ l = Truncate /\ id = nx) \/ procs s !! j = Some (At l id)) as Hpr.
  { intros j l id nx [(-> & [= -> ->] & _) | [? ?]]%list_lookup_insert_Some; auto. }
  assert (forall j l id nx, procs s !! j = Some (At l id) -> (<[i := At Truncate nx]> (procs s)) !! j = Some (At l id)) as Hst.
  { intros j l id nx Hj. destruct (decide (j = i)) as [->|?]; [congruence|by rewrite list_lookup_insert_ne]. }
  assert (forall nx k g, files s !! k = Some g -> lock_ok (<[i := At Truncate nx]> (procs s)) k g) as Hlk.
  { intros nx k g Hk. pose proof (inv_lock s Hi k g Hk) as [L1 L2 L3 L4 L5]. split; [done|..].
    - intros j Hj. destruct (L2 j Hj) as (l' & ? & ?). eauto.
    - intros j Hj. destruct (L3 j Hj) as (l' & ? & ?). eauto.
    - intros j l' Hj Hm. destruct (Hpr _ _ _ _ Hj) as [(_ & -> & _) | ?]; [done|by eapply L4].
    - intros j l' Hj Hm. destruct (Hpr _ _ _ _ Hj) as [(_ & -> & _) | ?]; [done|by eapply L5]. }
  destruct (named s) as [id|] eqn:En.
  - split; simpl.
    + rewrite length_insert. apply Hi.
    + intros j l k Hj. destruct (Hpr _ _ _ _ Hj) as [(-> & _ & _) | ?]; [by eexists|by eapply inv_args].
    + intros j l k Hj. destruct (Hpr _ _ _ _ Hj) as [(_ & _ & ->) | ?]; [by eapply inv_named|by eapply inv_file].
    + apply Hi.
    + apply Hi.
    + apply Hlk.
  - assert (files s !! next s = None) as Hfresh.
    { destruct (files s !! next s) as [f|] eqn:E; [|done]. pose proof (inv_next s Hi (next s)) as H. rewrite E in H.
      specialize (H ltac:(by eexists)). lia. }
    assert (forall k f, is_Some (files s !! k) -> is_Some ((<[next s := f]> (files s)) !! k)) as Hmono.
    { intros k f [g Hg]. destruct (decide (k = next s)) as [->|?]; [by rewrite lookup_insert_eq; eexists|].
      rewrite lookup_insert_ne by done. by eexists. }
    split; simpl.
    + rewrite length_insert. apply Hi.
    + intros j l k Hj. destruct (Hpr _ _ _ _ Hj) as [(-> & _ & _) | ?]; [by eexists|by eapply inv_args].
    + intros j l k Hj. destruct (Hpr _ _ _ _ Hj) as [(_ & _ & ->) | ?]; [|apply Hmono; by eapply inv_file].
      rewrite lookup_insert_eq. by eexists.
    + intros k [= <-]. rewrite lookup_insert_eq. by eexists.
    + intros k Hk. destruct (decide (k = next s)) as [->|?]; [lia|]. rewrite lookup_insert_ne in Hk by done.
      pose proof (inv_next s Hi k Hk). lia.
    + intros k g [[<- <-] | [Hne Hk]]%lookup_insert_Some; [|by apply Hlk].
      assert (forall j l, (<[i := At Truncate (next s)]> (procs s)) !! j = Some (At l (next s)) -> l = Truncate) as Ht.
      { intros j l Hj. destruct (Hpr _ _ _ _ Hj) as [(_ & -> & _) | Hj']; [done|].
        destruct (inv_file s Hi _ _ _ Hj') as [? ?]. congruence. }
      split; [done|done| |..]; simpl.
      * intros j. by rewrite elem_of_nil.
      * intros j l Hj. by rewrite (Ht _ _ Hj).
      * intros j l Hj. by rewrite (Ht _ _ Hj).
Qed.

(** A step that leaves the locks alone. *)
Lemma same_locks_inv s s' i l id f p f' :
  inv s -> procs s !! i = Some (At l id) -> files s !! id = Some f -> own_id id p ->
  args s' = args s -> procs s' = <[i := p]> (procs s) -> next s' = next s ->
  named s' = None \/ named s' = named s ->
  files s' !! id = Some f' -> (forall id', id' <> id -> files s' !! id' = files s !! id') ->
  shared f' = shared f -> excl f' = excl f ->
  (may_ex l -> place may_ex p) -> (may_sh l -> place may_sh p) ->
  (place must_ex p -> must_ex l) -> (place must_sh p -> must_sh l) -> inv s'.
Proof.
  intros Hi Hp Hf Hid Ea Ep En Hnm Hf' Ho E1 E2 H1 H2 H3 H4.
  pose proof (inv_lock s Hi id f Hf) as [L1 L2 L3 L4 L5].
  eapply (file_step_inv s s' i l id f p f'); rewrite ?E1, ?E2; try done.
  - intros Hx. destruct (L2 i Hx) as (l' & Hl' & Hm). rewrite Hp in Hl'. injection Hl' as <-. auto.
  - intros Hx. destruct (L3 i Hx) as (l' & Hl' & Hm). rewrite Hp in Hl'. injection Hl' as <-. auto.
  - intros Hx. by eapply L4; auto.
  - intros Hx. by eapply L5; auto.
Qed.

Lemma on_file_same id g s f : files s !! id = Some f -> files (on_file id g s) !! id = Some (g f).
Proof. intros Hf. simpl. by rewrite lookup_alter_eq, Hf. Qed.

Lemma on_file_other id g s id' : id' <> id -> files (on_file id g s) !! id' = files s !! id'.
Proof. intros Hne. simpl. by rewrite lookup_alter_ne. Qed.

(** Process [i] gives back what it holds. *)
Lemma release_inv s i l id f p :
  inv s -> procs s !! i = Some (At l id) -> files s !! id = Some f -> own_id id p ->
  ~ place must_ex p -> ~ place must_sh p -> inv (move i p (on_file id (release i) s)).
Proof.
  intros Hi Hp Hf Hid H1 H2. pose proof (inv_lock s Hi id f Hf) as [L1 L2 L3 L4 L5].
  eapply (file_step_inv s _ i l id f p (release i f)); try done; [by right|by apply on_file_same|by apply on_file_other|..];
    simpl.
  - intros j Hj. rewrite list_elem_of_filter. split; [|tauto]. case_decide; [|done]. split; congruence.
  - case_decide; [done|]. intros Hx. by rewrite (L1 Hx).
  - case_decide; congruence.
  - rewrite list_elem_of_filter. tauto.
Qed.

Lemma step_at_inv s s' i ok arg l id :
  inv s -> procs s !! i = Some (At l id) -> step_at i ok arg l id s = Some s' -> inv s'.
Proof.
  intros Hi Hp H. unfold step_at in H.
  destruct (files s !! id) as [f|] eqn:Hf; [|done]. simpl in H.
  pose proof (inv_lock s Hi id f Hf) as [L1 L2 L3 L4 L5].
  assert (forall l', (may_ex l -> may_ex l') -> (may_sh l -> may_sh l') -> (must_ex l' -> must_ex l) ->
    (must_sh l' -> must_sh l) -> inv (move i (At l' id) s)) as Hto.
  { intros l' ? ? ? ?. eapply (same_locks_inv s _ i l id f (At l' id) f); try done; by right. }
  assert (forall l' g, shared (g f) = shared f -> excl (g f) = excl f ->
    (may_ex l -> may_ex l') -> (may_sh l -> may_sh l') -> (must_ex l' -> must_ex l) ->
    (must_sh l' -> must_sh l) -> inv (move i (At l' id) (on_file id g s))) as Hset.
  { intros l' g ? ? ? ? ? ?. eapply (same_locks_inv s _ i l id f (At l' id) (g f)); try done;
      [by right|by apply on_file_same|by apply on_file_other]. }
  destruct l as [| | | | |  |k| |acc| | | |]; cbn zeta in H.
  - destruct ok; injection H as <-; by apply Hto.
  - destruct ok; [destruct (bool_decide _)|]; injection H as <-; by apply Hto.
  - destruct ok; simpl in H; [|injection H as <-; by apply Hto].
    case_bool_decide as E; [|done]. injection H as <-. destruct E as [E1 E2].
    eapply (file_step_inv s _ i StopLock id f (At StopSet id) (lock_ex i f)); try done;
      [by right|by apply on_file_same|by apply on_file_other|..]; simpl.
    + intros j Hj. split; [|done]. rewrite E2. split; [congruence|done].
    + intros Hx. by rewrite E1, elem_of_nil in Hx.
  - injection H as <-. by apply Hset.
  - destruct ok; injection H as <-; [by eapply release_inv; eauto|by apply Hto].
  - injection H as <-. eapply (same_locks_inv s _ i StopRemove id f (At Unmap id) f); try done. destruct ok; auto.
  - destruct (_ <? _)%nat; injection H as <-; [by apply Hset|by apply Hto].
  - destruct ok; simpl in H; [|injection H as <-; by apply Hto].
    case_bool_decide as E; [|done]. injection H as <-.
    eapply (file_step_inv s _ i LockSh id f (At (Show []) id) (lock_sh i f)); try done;
      [by right|by apply on_file_same|by apply on_file_other|..]; simpl.
    + intros j Hj. split; [done|]. rewrite elem_of_cons. split; [intros [->|?]; done|by right].
    + intros Hx. congruence.
    + intros _. by left.
  - destruct (_ && _); injection H as <-; [by apply Hto|].
    eapply (same_locks_inv s _ i (Show acc) id f (At Test id) f); try done. by right.
  - destruct (_ =? _); injection H as <-; by apply Hto.
  - destruct ok; injection H as <-; [by eapply release_inv; eauto|by apply Hto].
  - injection H as <-. by apply Hto.
  - injection H as <-. by eapply release_inv; eauto.
Qed.

(** A process without a file ends. *)
Lemma begin_fails_inv s i : inv s -> procs s !! i = Some Begin -> inv (move i (Ended EXIT_FAILURE) s).
Proof.
  intros Hi Hp.
  assert (forall j l id, (<[i := Ended EXIT_FAILURE]> (procs s)) !! j = Some (At l id) <->
    procs s !! j = Some (At l id)) as Hpr.
  { intros j l id. destruct (decide (j = i)) as [->|?]; [|by rewrite list_lookup_insert_ne].
    rewrite list_lookup_insert_eq by (by eapply lookup_lt_Some). rewrite Hp. split; congruence. }
  split; simpl; [rewrite length_insert; apply Hi| | |apply Hi|apply Hi|].
  - intros j l id ?%Hpr. by eapply inv_args.
  - intros j l id ?%Hpr. by eapply inv_file.
  - intros k g Hk. pose proof (inv_lock s Hi k g Hk) as [L1 L2 L3 L4 L5]. split; [done|..].
    + intros j Hj. destruct (L2 j Hj) as (l' & ?%Hpr & ?). eauto.
    + intros j Hj. destruct (L3 j Hj) as (l' & ?%Hpr & ?). eauto.
    + intros j l' ?%Hpr Hm. by eapply L4.
    + intros j l' ?%Hpr Hm. by eapply L5.
Qed.

Lemma board_step_inv s s' i ok : inv s -> step i ok s = Some s' -> inv s'.
Proof.
  intros Hi H. unfold step in H.
  destruct (procs s !! i) as [[|l id|st]|] eqn:Hp; [| |done..];
    destruct (args s !! i) as [[a|]|] eqn:Ha; try done.
  - destruct ok; injection H as <-; [by eapply open_inv|by apply begin_fails_inv].
  - injection H as <-. by apply begin_fails_inv.
  - by eapply step_at_inv.
Qed.

Lemma board_run_inv es : forall s s', inv s -> run es s = Some s' -> inv s'.
Proof.
  induction es as [|[i ok] es IH]; intros s s' Hi H; simpl in H; [by injection H as <-|].
  destruct (step i ok s) as [s1|] eqn:E; [|done]. eapply IH; [|exact H]. by eapply board_step_inv.
Qed.

(* ------------------------------------------------------------------ *)
(** ** Nobody is stuck, and a board that is stopped ends *)

(** Only the two requests for a lock can wait. *)
Definition may_wait (l : loc) : bool := match l with StopLock | LockSh => true | _ => false end.

Lemma step_at_some s i arg l id f :
  files s !! id = Some f -> may_wait l = false -> exists s', step_at i true arg l id s = Some s'.
Proof. intros Hf Hl. unfold step_at. rewrite Hf. simpl. destruct l; try done; try case_match; by eexists. Qed.

Lemma step_runs s i l id :
  inv s -> procs s !! i = Some (At l id) -> may_wait l = false -> exists s', step i true s = Some s'.
Proof.
  intros Hi Hp Hl. destruct (inv_args s Hi i l id Hp) as [a Ha]. destruct (inv_file s Hi i l id Hp) as [f Hf].
  destruct (step_at_some s i a l id f Hf Hl) as [s' H]. exists s'. unfold step. by rewrite Hp, Ha.
Qed.

(** While a process has not ended, some process can move, though every call succeeds. *)
Lemma some_runs s i p :
  inv s -> procs s !! i = Some p -> (forall st, p <> Ended st) -> exists j s', step j true s = Some s'.
Proof.
  intros Hi Hp Hne. destruct p as [|l id|st]; [| |by destruct (Hne st)].
  - destruct (lookup_lt_is_Some_2 (args s) i) as [a Ha].
    { rewrite <- (inv_len s Hi). by eapply lookup_lt_Some. }
    exists i. unfold step. rewrite Hp, Ha. destruct a; by eexists.
  - destruct (may_wait l) eqn:Hw; [|exists i; by apply (step_runs s i l id)].
    destruct (inv_args s Hi i l id Hp) as [a Ha]. destruct (inv_file s Hi i l id Hp) as [f Hf].
    pose proof (inv_lock s Hi id f Hf) as [L1 L2 L3 L4 L5].
    destruct (excl f) as [j|] eqn:Ex.
    + destruct (L2 j eq_refl) as (l' & Hl' & Hm). exists j. apply (step_runs s j l' id Hi Hl'). by destruct l'.
    + destruct (shared f) as [|j js] eqn:Es.
      * exists i. unfold step, step_at. rewrite Hp, Ha, Hf. simpl. rewrite Ex, Es.
        destruct l; try done; rewrite bool_decide_eq_true_2 by done; by eexists.
      * destruct (L3 j) as (l' & Hl' & Hm); [by left|]. exists j. apply (step_runs s j l' id Hi Hl'). by destruct l'.
Qed.

(** A bound for the steps of a process once its board is stopped, and for the lines it
    still shows. *)
Definition rank (l : loc) : nat :=
  match l with
  | Close => 1 | Unmap => 2 | Test => 3
  | Show acc => 4 + (BUFFER_LENGTH - 1 - length acc)
  | LockSh => 84 | Unlock => 85
  | Copy i => 85 + (BUFFER_LENGTH - 1 - i)
  | StopRemove => 3 | StopUnlock => 4 | StopSet => 5 | StopLock => 6
  | MapFile => 165 | Truncate => 166
  end.
Definition lines_left (l : loc) : nat :=
  match l with
  | Truncate | MapFile | Copy _ | LockSh | Show _ | Unlock => 1
  | _ => 0
  end.
Definition rank_of (p : process) : nat := match p with At l _ => rank l | _ => 0 end.
Definition lines_of (p : process) : nat := match p with At l _ => lines_left l | _ => 0 end.

Definition stopped (id : nat) (s : state) : Prop := exists f, files s !! id = Some f /\ flag f <> 0.

(** The lines of process [i]. *)
Definition lines (i : nat) (s : state) : nat := count_if (fun l => bool_decide (l.1 = i)) (shown s).

(** A step of process [i] moves nobody else and shows no line of another. *)
Lemma step_local i ok s s' :
  step i ok s = Some s' ->
  (forall j, j <> i -> procs s' !! j = procs s !! j /\ lines j s' = lines j s) /\
  (forall id, id <> next s -> stopped id s -> stopped id s') /\ (next s <= next s')%nat.
Proof.
  intros H.
  assert (forall id g t, (forall f, flag f <> 0 -> flag (g f) <> 0) -> stopped id s -> forall k,
    stopped id (on_file k g s) /\ stopped id (move i t (on_file k g s))) as Hst.
  { intros id g t Hg (f & Hf & Hfl) k. assert (stopped id (on_file k g s)) as Hs; [|split; exact Hs].
    destruct (decide (id = k)) as [<-|Hne].
    - exists (g f). split; [by apply on_file_same|]. auto.
    - exists f. split; [|done]. by rewrite on_file_other. }
  assert (forall j p, j <> i -> (<[i := p]> (procs s)) !! j = procs s !! j) as Hpr
    by (intros; by rewrite list_lookup_insert_ne).
  assert (forall j acc, j <> i -> count_if (fun l => bool_decide (l.1 = j)) (shown s ++ [(i, acc)]) = lines j s) as Hln.
  { intros j acc Hj. rewrite count_if_app. cbn [count_if fst]. rewrite bool_decide_eq_false_2 by done. cbn. unfold lines. lia. }
  unfold step, step_at, open_file in H.
  repeat match goal with
  | H : context [match procs s !! i with _ => _ end] |- _ => destruct (procs s !! i) as [[|l k|st]|]; try done
  | H : context [match args s !! i with _ => _ end] |- _ => destruct (args s !! i) as [[a|]|]; try done
  end; [destruct ok; [destruct (named s)|]; injection H as <-|injection H as <-|].
  1-4: simpl; split_and!; try lia; try (intros j Hj; split; [by apply Hpr|done]); try done.
  - intros id Hid (f & Hf & Hfl). exists f. split; [|done]. simpl. by rewrite lookup_insert_ne.
  - destruct (files s !! k) as [f|]; [|done]. simpl in H.
    destruct l; cbn zeta in H; simplify_eq; repeat (case_match; simplify_eq); simpl; split_and!; try lia;
      try (intros j Hj; split; [by apply Hpr|first [done|by apply Hln]]); try done;
      intros id _ Hs; try exact Hs; by apply (Hst id _ Begin).
Qed.

(** A step of a process whose board is stopped takes it nearer to its end. *)
Lemma step_rank i ok s s' l id :
  step i ok s = Some s' -> procs s !! i = Some (At l id) -> stopped id s ->
  exists p, procs s' !! i = Some p /\ own_id id p /\ p <> Begin /\ (rank_of p < rank l)%nat /\
    (lines i s' + lines_of p <= lines i s + lines_left l)%nat.
Proof.
  intros H Hp (f & Hf & Hfl). pose proof (lookup_lt_Some _ _ _ Hp) as Hlt.
  unfold step in H. rewrite Hp in H. destruct (args s !! i) as [[a|]|]; [|done..].
  unfold step_at in H. rewrite Hf in H. simpl in H.
  assert (forall acc, lines i (State (args s) (procs s) (files s) (named s) (next s) (shown s ++ [(i, acc)])) = S (lines i s)) as Hln.
  { intros acc. unfold lines. simpl. rewrite count_if_app. cbn [count_if fst]. rewrite bool_decide_eq_true_2 by done. cbn. lia. }
  destruct l; cbn zeta in H; simplify_eq; repeat (case_match; simplify_eq); simpl;
    rewrite list_lookup_insert_eq by done; eexists; (split; [reflexivity|]);
    (split; [done|]); (split; [done|]); unfold lines in *; simpl in *; unfold BUFFER_LENGTH; try lia.
  all: try (rewrite (Hln acc)).
  all: repeat match goal with
    | H : (_ && _) = true |- _ => apply andb_true_iff in H as [H _]
    | H : (_ <? _)%nat = true |- _ => apply Nat.ltb_lt in H; unfold BUFFER_LENGTH in H
    end; rewrite ?length_app; simpl; try lia.
Qed.

Lemma stopped_run es : forall i id p s s',
  inv s -> procs s !! i = Some p -> own_id id p -> p <> Begin -> stopped id s -> run es s = Some s' ->
  (count_if (fun e => bool_decide (e.1 = i)) es <= rank_of p)%nat /\
  (lines i s' <= lines i s + lines_of p)%nat.
Proof.
  induction es as [|[j ok] es IH]; intros i id p s s' Hi Hp Hid Hb Hst H; cbn [run count_if fst] in *.
  { injection H as <-. lia. }
  destruct (step j ok s) as [s1|] eqn:E; [|done]. cbn in H.
  assert (inv s1) as Hi1 by (by eapply board_step_inv).
  destruct (step_local j ok s s1 E) as (Ho & Hs & _).
  assert (stopped id s1) as Hst1.
  { apply Hs; [|done]. destruct Hst as (f & Hf & _). pose proof (inv_next s Hi id ltac:(by eexists)). lia. }
  destruct (decide (j = i)) as [->|Hne].
  - rewrite bool_decide_eq_true_2 by done. destruct p as [|l id'|st]; [done| |].
    + simpl in Hid. subst id'. destruct (step_rank i ok s s1 l id E Hp Hst) as (p & Hp1 & Ho1 & Hb1 & Hr & Hl).
      destruct (IH i id p s1 s' Hi1 Hp1 Ho1 Hb1 Hst1 H). simpl. lia.
    + unfold step in E. by rewrite Hp in E.
  - rewrite bool_decide_eq_false_2 by done. destruct (Ho i ltac:(done)) as [Hpi Hln].
    rewrite <- Hpi in Hp. destruct (IH i id p s1 s' Hi1 Hp Hid Hb Hst1 H). rewrite <- Hln. simpl. lia.
Qed.

(** C40: the processes never block each other: while one has not ended, one of them can
    move without any call failing. A process whose file has its first byte set ends:
    however it is scheduled it makes at most 166 more steps, and shows at most one more
    line. *)
Theorem board_stops a es s (Hrun : run es (start a) = Some s) :
  (forall i p, procs s !! i = Some p -> (forall st, p <> Ended st) -> exists j s', step j true s = Some s') /\
  (forall i l id es' s', procs s !! i = Some (At l id) -> stopped id s -> run es' s = Some s' ->
     (count_if (fun e => bool_decide (e.1 = i)) es' <= 166)%nat /\
     (lines i s' <= lines i s + 1)%nat).
Proof.
  pose proof (board_run_inv es _ _ (board_start_inv a) Hrun) as Hi. split; [by eauto using some_runs|].
  intros i l id es' s' Hp Hst Hr.
  destruct (stopped_run es' i id (At l id) s s' Hi Hp eq_refl ltac:(done) Hst Hr) as [H1 H2].
  assert (rank l <= 166 /\ lines_left l <= 1)%nat by (destruct l; simpl; unfold BUFFER_LENGTH; lia).
  simpl in H1, H2. lia.
Qed.

(** The flag is not set while somebody who holds the shared lock shows the text and tests
    it. *)
Theorem flag_steady a es s j k l id (Hrun : run es (start a) = Some s)
    (Hj : procs s !! j = Some (At StopSet id)) (Hk : procs s !! k = Some (At l id)) : ~ must_sh l.
Proof.
  pose proof (board_run_inv es _ _ (board_start_inv a) Hrun) as Hi. intros Hm.
  destruct (inv_file s Hi _ _ _ Hj) as [f Hf]. pose proof (inv_lock s Hi id f Hf) as [L1 _ _ L4 L5].
  specialize (L5 k l Hk Hm). rewrite L1 in L5; [by apply elem_of_nil in L5|].
  by rewrite (L4 j StopSet Hj I).
Qed.

Definition turns (i k : nat) : list (nat * bool) := replicate k (i, true).
Definition word (s : string) : option (list ascii) := Some (String.list_ascii_of_string s).

(** A process that shows a line and one that stops it. *)
Definition demo_args : list (option (list ascii)) := [word "hello"; word "--stop"].
Definition demo_run : list (nat * bool) := turns 0 92 ++ turns 1 6.
Definition demo_state : state := default (start []) (run demo_run (start demo_args)).

Definition demo_after : state := default (start []) (run (turns 0 10) demo_state).

Theorem board_stops_witness :
  run demo_run (start demo_args) = Some demo_state /\ run (turns 0 10) demo_state = Some demo_after /\
  (lines 0 demo_after <= lines 0 demo_state + 1)%nat.
Proof.
  assert (run demo_run (start demo_args) = Some demo_state) as Hr by (vm_compute; reflexivity).
  assert (run (turns 0 10) demo_state = Some demo_after) as Hr' by (vm_compute; reflexivity).
  assert (stopped 0 demo_state) as Hs.
  { exists (default new_file (files demo_state !! 0%nat)). split; [vm_compute; reflexivity|by vm_compute]. }
  split; [exact Hr|]. split; [exact Hr'|].
  refine (proj2 (proj2 (board_stops demo_args demo_run demo_state Hr) 0%nat LockSh 0%nat _ _ _ Hs Hr')).
  vm_compute. reflexivity.
Defined.

(** What has been shown in that run. *)
Example hello_shown :
  shown demo_after = [(0%nat, String.list_ascii_of_string "hello"); (0%nat, String.list_ascii_of_string "hello")].
Proof. vm_compute. reflexivity. Qed.

(** Two processes that write their text at the same time: [strncpy] is not guarded, and
    what is shown is neither text. *)
Example torn_text :
  shown <$> run (turns 0 6 ++ turns 1 83 ++ turns 0 85) (start [word "abcdef"; word "xyz"])
  = Some [(0%nat, String.list_ascii_of_string "xyzdef")].
Proof. vm_compute. reflexivity. Qed.

(** Two processes stop the same board; one that starts between their removals of the name
    has a new file, whose name is removed too: it cannot be stopped any more. *)
Example name_removed_twice :
  (fun s => (named s, procs s !! 2%nat)) <$>
    run (turns 0 6 ++ turns 1 3 ++ turns 0 1 ++ turns 1 3 ++ turns 2 1 ++ turns 1 1)
      (start [word "--stop"; word "--stop"; word "hello"])
  = Some (None, Some (At Truncate 1)).
Proof. vm_compute. reflexivity. Qed.

(** A failure behind [open] does not show in the status. *)
Example failure_succeeds :
  procs <$> run [(0%nat, true); (0%nat, false); (0%nat, true)] (start [word "hello"])
  = Some [Ended EXIT_SUCCESS].
Proof. vm_compute. reflexivity. Qed.
