(* ===== verification/ShmBoard.v ===== *)
(** [ex13/shm/shm.c]: the text of [Board] in a System V shared memory segment, without
    locks. [--stop] takes the key from the segment and sets its first byte. *)

From S2P Require Import Prelude.
From S2P Require Import Board.
From Stdlib Require Import Ascii.

Open Scope Z_scope.

(** A segment: its first byte, the rest, the number of attached processes, and whether it
    is to be destroyed. *)
Record segment := Segment { sflag : Z; stext : list ascii; nattch : nat; dest : bool }.

Definition new_segment : segment := Segment 0 (replicate (BUFFER_LENGTH - 1) NUL) 0 false.

(** Where a process is, once it has an identifier: before [shmat]; for [--stop] before
    [shmctl] and the assignment; else before byte [i] of [strncpy]; in [printf] behind
    some characters, before the test; before [shmdt]. *)
Inductive loc := Attach | StopRemove | StopSet | Copy (i : nat) | Show (acc : list ascii) | Test | Detach.

Inductive process := Begin | At (l : loc) (id : nat) | Ended (status : Z).

(** The command lines of the processes and the processes; the segments, the one that has
    the key, a bound for the identifiers; and the lines shown. *)
Record state := State {
  args : list (option (list ascii));
  procs : list process;
  segs : gmap nat segment;
  keyed : option nat;
  next : nat;
  shown : list (nat * list ascii)
}.

Definition start (args : list (option (list ascii))) : state :=
  State args (replicate (length args) Begin) ∅ None 0 [].

Definition move (i : nat) (p : process) (s : state) : state :=
  State (args s) (<[i := p]> (procs s)) (segs s) (keyed s) (next s) (shown s).
Definition set_seg (id : nat) (o : option segment) (s : state) : state :=
  State (args s) (procs s) (match o with Some sg => <[id := sg]> (segs s) | None => delete id (segs s) end)
    (keyed s) (next s) (shown s).

(** The two calls of [shmget]: a new segment, or else the one that has the key. *)
Definition do_shmget (i : nat) (s : state) : state :=
  match keyed s with
  | Some id => move i (At Attach id) s
  | None =>
      State (args s) (<[i := At Attach (next s)]> (procs s)) (<[next s := new_segment]> (segs s))
        (Some (next s)) (S (next s)) (shown s)
  end.

(** [shmctl(shmid, IPC_RMID, NULL)], and the [shmdt] of an attached process. *)
Definition unkey (id : nat) (k : option nat) : option nat := if decide (k = Some id) then None else k.

Definition removed (sg : segment) : segment := Segment (sflag sg) (stext sg) (nattch sg) true.
Definition detached (sg : segment) : option segment :=
  let n := (nattch sg - 1)%nat in
  if (n =? 0)%nat && dest sg then None else Some (Segment (sflag sg) (stext sg) n (dest sg)).

(** One step of [main] in process [i]; [ok] tells whether [shmget], [shmat] or [shmctl]
    succeeds if it can. [None] is an access to memory that is not mapped. *)
Definition step_at (i : nat) (ok : bool) (arg : list ascii) (l : loc) (id : nat) (s : state) : option state :=
  match l with
  | Attach =>
      Some (match segs s !! id with
            | Some sg =>
                if ok then
                  move i (At (if bool_decide (arg = stop_arg) then StopRemove else Copy 0) id)
                    (set_seg id (Some (Segment (sflag sg) (stext sg) (S (nattch sg)) (dest sg))) s)
                else move i (Ended EXIT_SUCCESS) s
            | None => move i (Ended EXIT_SUCCESS) s
            end)
  | _ =>
      sg ← segs s !! id;
      Some match l with
      | Attach => s
      | StopRemove =>
          if ok then
            State (args s) (<[i := At StopSet id]> (procs s)) (<[id := removed sg]> (segs s))
              (unkey id (keyed s)) (next s) (shown s)
          else move i (At StopSet id) s
      | StopSet => move i (At Detach id) (set_seg id (Some (Segment 1 (stext sg) (nattch sg) (dest sg))) s)
      | Copy k =>
          if (k <? BUFFER_LENGTH - 1)%nat then
            move i (At (Copy (S k)) id)
              (set_seg id (Some (Segment (sflag sg) (<[k := copied arg k]> (stext sg)) (nattch sg) (dest sg))) s)
          else move i (At (Show []) id) s
      | Show acc =>
          let c := default NUL (stext sg !! length acc) in
          if (length acc <? BUFFER_LENGTH - 1)%nat && negb (bool_decide (c = NUL))
          then move i (At (Show (acc ++ [c])) id) s
          else State (args s) (<[i := At Test id]> (procs s)) (segs s) (keyed s) (next s) (shown s ++ [(i, acc)])
      | Test => move i (At (if sflag sg =? 0 then Show [] else Detach) id) s
      | Detach => move i (Ended EXIT_SUCCESS) (set_seg id (detached sg) s)
      end
  end.

Definition step (i : nat) (ok : bool) (s : state) : option state :=
  match procs s !! i, args s !! i with
  | Some Begin, Some None => Some (move i (Ended EXIT_FAILURE) s)
  | Some Begin, Some (Some _) => Some (if ok then do_shmget i s else move i (Ended EXIT_FAILURE) s)
  | Some (At l id), Some (Some arg) => step_at i ok arg l id s
  | _, _ => Some s
  end.

Fixpoint run (es : list (nat * bool)) (s : state) : option state :=
  match es with [] => Some s | (i, ok) :: es => s' ← step i ok s; run es s' end.

(* ------------------------------------------------------------------ *)
(** ** Properties *)

(** Who has segment [id] mapped. *)
Definition attached (id : nat) (p : process) : bool :=
  match p with At l id' => bool_decide (id' = id) && match l with Attach => false | _ => true end | _ => false end.
Definition att (s : state) (id : nat) : nat := count_if (attached id) (procs s).

Definition seg_ok (o : option segment) (a : nat) : Prop :=
  match o with None => a = 0%nat | Some sg => nattch sg = a /\ (dest sg = true -> 0 < a)%nat end.

Record inv (s : state) : Prop := {
  inv_segs : forall id, seg_ok (segs s !! id) (att s id);
  inv_next : forall id, (next s <= id)%nat -> segs s !! id = None
}.

Lemma shmboard_start_inv a : inv (start a).
Proof.
  split; [|done]. intros id. simpl. unfold att. simpl.
  induction (length a) as [|n IH]; [done|exact IH].
Qed.

(** A step of process [i] that concerns segment [id0] only. *)
Lemma shmboard_local_inv s s' i p q id0 :
  inv s -> procs s !! i = Some p -> procs s' = <[i := q]> (procs s) ->
  (forall id, id <> id0 -> attached id p = attached id q /\ segs s' !! id = segs s !! id) ->
  (forall a, (a + b2n (attached id0 p) = att s id0 + b2n (attached id0 q))%nat -> seg_ok (segs s' !! id0) a) ->
  (forall id, (next s' <= id)%nat -> segs s' !! id = None) ->
  inv s'.
Proof.
  intros [Hs Hn] Hp Hpr Hc H0 Hn'. split; [|done]. intros id.
  pose proof (count_if_insert (attached id) (procs s) i p q Hp) as Ha.
  rewrite <- Hpr in Ha. fold (att s' id) (att s id) in Ha.
  destruct (decide (id = id0)) as [->|Hne]; [by apply H0|].
  destruct (Hc id Hne) as [Hc1 ->]. rewrite Hc1 in Ha. replace (att s' id) with (att s id) by lia. apply Hs.
Qed.

Lemma attached_self id l : attached id (At l id) = match l with Attach => false | _ => true end.
Proof. simpl. by rewrite bool_decide_eq_true_2. Qed.

Lemma attached_other id l id' : id <> id' -> attached id (At l id') = false.
Proof. intros Hne. simpl. by rewrite bool_decide_eq_false_2. Qed.

Lemma shmboard_mapped_seg s i l id :
  inv s -> procs s !! i = Some (At l id) -> l <> Attach ->
  exists sg, segs s !! id = Some sg /\ nattch sg = att s id /\ (0 < att s id)%nat.
Proof.
  intros Hi Hp Hl. pose proof (inv_segs s Hi id) as Hs.
  assert (0 < att s id)%nat as Hpos.
  { eapply count_if_lookup; [exact Hp|]. rewrite attached_self. by destruct l. }
  destruct (segs s !! id) as [sg|]; [|simpl in Hs; lia]. exists sg. by destruct Hs as [-> _].
Qed.

(** A process goes on with its segment, which may change but for its bookkeeping. *)
Lemma shmboard_write_inv s s' i l l' id sg sg' :
  inv s -> procs s !! i = Some (At l id) -> l <> Attach -> l' <> Attach -> segs s !! id = Some sg ->
  procs s' = <[i := At l' id]> (procs s) -> segs s' = <[id := sg']> (segs s) -> next s' = next s ->
  nattch sg' = nattch sg -> inv s'.
Proof.
  intros Hi Hp Hl Hl' Hsg Ep Es En Hn.
  destruct (shmboard_mapped_seg s i l id Hi Hp Hl) as (sg0 & H0 & Hn0 & Hpos). rewrite Hsg in H0. injection H0 as <-.
  eapply (shmboard_local_inv s s' i _ _ id Hi Hp Ep).
  - intros k Hk. rewrite !attached_other by done. by rewrite Es, lookup_insert_ne.
  - intros a. rewrite !attached_self, Es, lookup_insert_eq. intros Ha.
    replace a with (att s id) by (destruct l, l'; simpl in Ha; try done; lia). simpl. by rewrite Hn.
  - intros k Hk. rewrite Es. rewrite En in Hk. rewrite lookup_insert_ne; [by apply Hi|].
    intros <-. by rewrite (inv_next s Hi id Hk) in Hsg.
Qed.

Lemma shmboard_shmget_inv i s : inv s -> procs s !! i = Some Begin -> inv (do_shmget i s).
Proof.
  intros Hi Hp. unfold do_shmget. destruct (keyed s) as [id|] eqn:Hk.
  - eapply (shmboard_local_inv s _ i _ _ id Hi Hp); [done| | |apply Hi].
    + intros k Hne. by rewrite attached_other.
    + intros a. rewrite attached_self. simpl. intros Ha. replace a with (att s id) by lia. apply Hi.
  - eapply (shmboard_local_inv s _ i _ _ (next s) Hi Hp); [done| | |]; simpl.
    + intros k Hne. rewrite bool_decide_eq_false_2 by done. by rewrite lookup_insert_ne.
    + intros a. rewrite bool_decide_eq_true_2 by done. simpl. intros Ha.
      pose proof (inv_segs s Hi (next s)) as Hs. rewrite (inv_next s Hi) in Hs by lia. simpl in Hs.
      rewrite lookup_insert_eq. simpl. split; [lia|done].
    + intros k Hk'. rewrite lookup_insert_ne by lia. apply Hi. lia.
Qed.

Lemma shmboard_attach_inv s i id sg l :
  inv s -> procs s !! i = Some (At Attach id) -> segs s !! id = Some sg -> l <> Attach ->
  inv (move i (At l id) (set_seg id (Some (Segment (sflag sg) (stext sg) (S (nattch sg)) (dest sg))) s)).
Proof.
  intros Hi Hp Hsg Hl. eapply (shmboard_local_inv s _ i _ _ id Hi Hp); [done| | |]; simpl.
  - intros k Hk. rewrite bool_decide_eq_false_2 by done. by rewrite lookup_insert_ne.
  - intros a. rewrite bool_decide_eq_true_2, lookup_insert_eq by done. intros Ha.
    pose proof (inv_segs s Hi id) as Hs. rewrite Hsg in Hs. destruct Hs as [H1 H2]. simpl.
    destruct l; simpl in Ha; try done; split; lia.
  - intros k Hk. rewrite lookup_insert_ne; [by apply Hi|]. intros <-. by rewrite (inv_next s Hi id Hk) in Hsg.
Qed.

(** A process that has nothing mapped ends. *)
Lemma end_inv s i p st :
  inv s -> procs s !! i = Some p -> (forall id, attached id p = false) -> inv (move i (Ended st) s).
Proof.
  intros Hi Hp Ha. eapply (shmboard_local_inv s _ i _ _ 0%nat Hi Hp); [done| | |apply Hi].
  - intros k _. by rewrite Ha.
  - intros a. rewrite Ha. simpl. intros E. replace a with (att s 0) by lia. apply Hi.
Qed.

Lemma shmboard_detach_inv s i id sg :
  inv s -> procs s !! i = Some (At Detach id) -> segs s !! id = Some sg ->
  inv (move i (Ended EXIT_SUCCESS) (set_seg id (detached sg) s)).
Proof.
  intros Hi Hp Hsg. destruct (shmboard_mapped_seg s i _ id Hi Hp ltac:(done)) as (sg0 & H0 & Hn & Hpos).
  rewrite Hsg in H0. injection H0 as <-.
  assert (forall k, segs (set_seg id (detached sg) s) !! k = if decide (k = id) then detached sg else segs s !! k) as Hl.
  { intros k. simpl. destruct (detached sg); case_decide; subst;
      by rewrite ?lookup_insert_eq, ?lookup_delete_eq, ?lookup_insert_ne, ?lookup_delete_ne by done. }
  eapply (shmboard_local_inv s _ i _ _ id Hi Hp); [done| | |].
  - intros k Hk. rewrite attached_other by done. split; [done|]. change (segs (set_seg id (detached sg) s) !! k = segs s !! k).
    by rewrite Hl, decide_False.
  - intros a. rewrite attached_self. simpl (b2n _). intros Ha. change (seg_ok (segs (set_seg id (detached sg) s) !! id) a).
    rewrite Hl, decide_True by done. unfold detached. destruct (Nat.eqb_spec (nattch sg - 1) 0), (dest sg); simpl;
      try split; try done; lia.
  - intros k Hk. change (segs (set_seg id (detached sg) s) !! k = None). rewrite Hl.
    rewrite decide_False; [by apply Hi|]. intros ->. by rewrite (inv_next s Hi id Hk) in Hsg.
Qed.

Lemma shmboard_step_at_inv s i ok arg l id :
  inv s -> procs s !! i = Some (At l id) -> exists s', step_at i ok arg l id s = Some s' /\ inv s'.
Proof.
  intros Hi Hp. assert (l = Attach \/ l <> Attach) as [->|Hl] by (destruct l; [by left|by right..]).
  { eexists. split; [reflexivity|]. destruct (segs s !! id) as [sg|] eqn:Hsg; [destruct ok|].
    - apply shmboard_attach_inv; [done..|]. by destruct (bool_decide _).
    - by eapply end_inv; [|done|intros k; simpl; apply andb_false_r].
    - by eapply end_inv; [|done|intros k; simpl; apply andb_false_r]. }
  destruct (shmboard_mapped_seg s i l id Hi Hp Hl) as (sg & Hsg & _).
  assert (forall l', l' <> Attach -> inv (move i (At l' id) s)) as Hto.
  { intros l' Hl'. eapply (shmboard_write_inv s _ i l l' id sg sg); try done. simpl. by rewrite insert_id. }
  assert (forall l' sg', l' <> Attach -> nattch sg' = nattch sg -> inv (move i (At l' id) (set_seg id (Some sg') s))) as Hset.
  { intros l' sg' Hl' Hn. by eapply (shmboard_write_inv s _ i l l' id sg sg'). }
  unfold step_at. rewrite Hsg. destruct l as [| | |k|acc| |]; try done; simpl; eexists; (split; [reflexivity|]).
  - destruct ok; [|by apply Hto]. by eapply (shmboard_write_inv s _ i StopRemove StopSet id sg (removed sg)).
  - by apply (Hset Detach).
  - destruct (_ <? _)%nat; [by apply (Hset (Copy (S k)))|by apply Hto].
  - destruct (_ && _); [by apply Hto|].
    eapply (shmboard_write_inv s _ i (Show acc) Test id sg sg); try done. simpl. by rewrite insert_id.
  - destruct (_ =? _); by apply Hto.
  - by apply shmboard_detach_inv.
Qed.

Lemma shmboard_step_inv i ok s : inv s -> exists s', step i ok s = Some s' /\ inv s'.
Proof.
  intros Hi. unfold step. destruct (procs s !! i) as [[|l id|st]|] eqn:Hp; try (by eexists);
    destruct (args s !! i) as [[a|]|]; try (by eexists).
  - eexists. split; [reflexivity|]. destruct ok; [by apply shmboard_shmget_inv|by eapply end_inv].
  - eexists. split; [reflexivity|]. by eapply end_inv.
  - by apply shmboard_step_at_inv.
Qed.

Lemma shmboard_run_inv es : forall s, inv s -> exists s', run es s = Some s' /\ inv s'.
Proof.
  induction es as [|[i ok] es IH]; intros s Hi; simpl; [by eauto|].
  destruct (shmboard_step_inv i ok s Hi) as (s1 & -> & H1). by apply IH.
Qed.

(** A bound for the steps of a process once its segment is stopped, and for the lines it
    still shows. *)
Definition rank_of (p : process) : nat :=
  match p with
  | At Attach _ => 166
  | At StopRemove _ => 3 | At StopSet _ => 2
  | At (Copy i) _ => 84 + (BUFFER_LENGTH - 1 - i)
  | At (Show acc) _ => 3 + (BUFFER_LENGTH - 1 - length acc)
  | At Test _ => 2 | At Detach _ => 1
  | _ => 0
  end.
Definition lines_of (p : process) : nat :=
  match p with At (Attach | Copy _ | Show _) _ => 1 | _ => 0 end.

Definition stopped (id : nat) (s : state) : Prop := exists sg, segs s !! id = Some sg /\ sflag sg <> 0.
Definition lines (i : nat) (s : state) : nat := count_if (fun l => bool_decide (l.1 = i)) (shown s).

Lemma count_snoc_other (l : list (nat * list ascii)) i j acc :
  j <> i -> count_if (fun x => bool_decide (x.1 = j)) (l ++ [(i, acc)]) = count_if (fun x => bool_decide (x.1 = j)) l.
Proof. intros Hne. rewrite count_if_app. cbn. rewrite bool_decide_eq_false_2 by done. cbn. lia. Qed.

Lemma count_snoc_self (l : list (nat * list ascii)) i acc :
  count_if (fun x => bool_decide (x.1 = i)) (l ++ [(i, acc)]) = S (count_if (fun x => bool_decide (x.1 = i)) l).
Proof. rewrite count_if_app. cbn. rewrite bool_decide_eq_true_2 by done. cbn. lia. Qed.

(** A step of process [i] moves nobody else, shows no line of another, and clears no
    first byte. *)
Lemma shmboard_step_local i ok s s' :
  step i ok s = Some s' ->
  (forall j, j <> i -> procs s' !! j = procs s !! j /\ lines j s' = lines j s) /\
  (forall id sg sg', id <> next s -> segs s !! id = Some sg -> segs s' !! id = Some sg' ->
     sflag sg <> 0 -> sflag sg' <> 0).
Proof.
  intros H.
  assert (forall j p, j <> i -> (<[i := p]> (procs s)) !! j = procs s !! j) as Hpr
    by (intros; by rewrite list_lookup_insert_ne).
  assert (forall (m m' : gmap nat segment) k o, m' = match o with Some x => <[k := x]> m | None => delete k m end ->
    (forall x sg, o = Some x -> m !! k = Some sg -> sflag sg <> 0 -> sflag x <> 0) ->
    forall id sg sg', m !! id = Some sg -> m' !! id = Some sg' -> sflag sg <> 0 -> sflag sg' <> 0) as Hset.
  { intros m m' k o -> Ho id sg sg' Hm Hm' Hf. destruct o as [x|].
    - apply lookup_insert_Some in Hm' as [[-> ->] | [_ Hm']]; [by eapply Ho|congruence].
    - apply lookup_delete_Some in Hm' as [_ Hm']. congruence. }
  unfold step, step_at, do_shmget in H.
  repeat match goal with
  | H : context [match procs s !! i with _ => _ end] |- _ => destruct (procs s !! i) as [[|l k|st]|]; [| | |]
  | H : context [match args s !! i with _ => _ end] |- _ => destruct (args s !! i) as [[a|]|]
  end; try (simplify_eq; split; [done|naive_solver]).
  - destruct ok; [destruct (keyed s)|]; injection H as <-; (split; [intros j Hj; split; [by apply Hpr|done]|]);
      simpl; try naive_solver.
    intros id sg sg' Hid H1 H2. rewrite lookup_insert_ne in H2 by done. naive_solver.
  - injection H as <-. split; [intros j Hj; split; [by apply Hpr|done]|naive_solver].
  - destruct (segs s !! k) as [x|] eqn:Hk.
    + destruct l; simpl in H; injection H as <-; try (destruct ok); try (destruct (_ <? _)%nat);
        try (destruct (bool_decide _)); simpl;
        (split; [intros j Hj; split; [by apply Hpr|first [done|by apply count_snoc_other]]|]);
        intros id sg sg' _; try (intros H1 H2; congruence);
        first [apply (Hset _ _ k (Some _) eq_refl)|apply (Hset _ _ k (detached x) eq_refl)];
        intros y sg0 Hy; rewrite Hk; intros [= <-]; unfold detached in Hy; repeat case_match; simplify_eq/=; first [done|exact id].
    + destruct l; simpl in H; simplify_eq. split; [intros j Hj; split; [by apply Hpr|done]|].
      simpl. intros id sg sg' _ H1 H2. congruence.
Qed.

Lemma shmboard_step_rank i ok s s' l id :
  step i ok s = Some s' -> procs s !! i = Some (At l id) -> l <> Attach -> stopped id s ->
  is_Some (args s !! i) -> args s !! i <> Some None ->
  exists p, procs s' !! i = Some p /\
    (p = Ended EXIT_SUCCESS \/ exists l', p = At l' id /\ l' <> Attach) /\
    (rank_of p < rank_of (At l id))%nat /\
    (lines i s' + lines_of p <= lines i s + lines_of (At l id))%nat.
Proof.
  intros H Hp Hl (sg & Hsg & Hfl) [o Ho] Hno. pose proof (lookup_lt_Some _ _ _ Hp) as Hlt.
  unfold step in H. rewrite Hp, Ho in H. destruct o as [a|]; [|done].
  unfold step_at in H. rewrite Hsg in H. unfold lines.
  destruct l; try done; simpl in H; injection H as <-; try (destruct ok); simpl.
  all: repeat case_match; simpl; rewrite list_lookup_insert_eq by done; eexists; (split; [reflexivity|]);
    (split; [first [by left|right; eexists; split; [reflexivity|done]]|]);
    rewrite ?count_snoc_self; simpl; unfold BUFFER_LENGTH in *; try lia.
  all: repeat match goal with
    | H : (_ && _) = true |- _ => apply andb_true_iff in H as [H _]
    | H : (_ <? _)%nat = true |- _ => apply Nat.ltb_lt in H
    end; rewrite ?length_app; simpl; lia.
Qed.

Lemma step_args i ok s s' : step i ok s = Some s' -> args s' = args s.
Proof.
  intros H. unfold step, step_at, do_shmget in H.
  repeat (case_match; simplify_eq/=); try done.
  all: try (apply bind_Some in H as (sg & _ & H)); simplify_eq/=; by repeat case_match.
Qed.

Lemma shmboard_stopped_run es : forall i id a p s s',
  inv s -> args s !! i = Some (Some a) -> procs s !! i = Some p ->
  p = Ended EXIT_SUCCESS \/ (exists l, p = At l id /\ l <> Attach) -> stopped id s \/ p = Ended EXIT_SUCCESS ->
  run es s = Some s' ->
  (lines i s' <= lines i s + lines_of p)%nat /\
  ((rank_of p <= count_if (fun e => bool_decide (e.1 = i)) es)%nat -> procs s' !! i = Some (Ended EXIT_SUCCESS)).
Proof.
  induction es as [|[j ok] es IH]; intros i id a p s s' Hi Ha Hp Hpl Hst H; cbn [run count_if fst] in *.
  { injection H as <-. split; [lia|]. destruct Hpl as [-> | (l & -> & Hl)]; [done|]. destruct l; simpl; lia. }
  destruct (shmboard_step_inv j ok s Hi) as (s1 & E & Hi1). rewrite E in H. cbn in H.
  destruct (shmboard_step_local j ok s s1 E) as (Ho & Hfl). pose proof (step_args j ok s s1 E) as Ea.
  assert (forall q, procs s1 !! i = Some q -> (exists l, q = At l id /\ l <> Attach) -> stopped id s -> stopped id s1) as Hkeep.
  { intros q Hq (l & -> & Hl) (sg & Hsg & Hf). destruct (shmboard_mapped_seg s1 i l id Hi1 Hq Hl) as (sg1 & Hsg1 & _).
    exists sg1. split; [done|]. eapply Hfl; [|done..]. intros ->. by rewrite (inv_next s Hi) in Hsg by lia. }
  destruct (decide (j = i)) as [->|Hne].
  - rewrite bool_decide_eq_true_2 by done. destruct Hpl as [-> | (l & -> & Hl)].
    + assert (s1 = s) as -> by (unfold step in E; rewrite Hp in E; by injection E as <-).
      destruct (IH i id a (Ended EXIT_SUCCESS) s s' Hi Ha Hp) as [H1 H2]; [by left|by right|done|]. split; [done|].
      intros _. apply H2. simpl. lia.
    + destruct Hst as [Hst|?]; [|done].
      destruct (shmboard_step_rank i ok s s1 l id E Hp Hl Hst) as (p & Hp1 & Hpl1 & Hr & Hln); [by rewrite Ha|by rewrite Ha|].
      destruct (IH i id a p s1 s' Hi1) as [H1 H2]; rewrite ?Ea; try done.
      * destruct Hpl1 as [->|Hpl1]; [by right|left]. by eapply Hkeep.
      * split; [lia|]. intros Hc. apply H2. simpl b2n in Hc. lia.
  - rewrite bool_decide_eq_false_2 by done. destruct (Ho i ltac:(done)) as [Hpi Hln]. rewrite <- Hpi in Hp.
    destruct (IH i id a p s1 s' Hi1) as [H1 H2]; rewrite ?Ea; try done.
    + destruct Hst as [Hst| ->]; [|by right]. destruct Hpl as [->|Hpl]; [by right|left]. by eapply Hkeep.
    + rewrite <- Hln. split; [lia|]. intros Hc. apply H2. simpl b2n in Hc. lia.
Qed.

(** In every interleaving no process reads or writes memory that is not mapped; and a
    process attached to a segment whose first byte is set has ended after at most 166
    more of its steps, in which it shows at most one more line. *)
Theorem shmboard_stops a es :
  exists s, run es (start a) = Some s /\
    forall i id l w, procs s !! i = Some (At l id) -> l <> Attach -> args s !! i = Some (Some w) -> stopped id s ->
    forall es', exists s', run es' s = Some s' /\ (lines i s' <= lines i s + 1)%nat /\
      ((166 <= count_if (fun e => bool_decide (e.1 = i)) es')%nat -> procs s' !! i = Some (Ended EXIT_SUCCESS)).
Proof.
  destruct (shmboard_run_inv es (start a) (shmboard_start_inv a)) as (s & Hr & Hi). exists s. split; [done|].
  intros i id l w Hp Hl Ha Hst es'. destruct (shmboard_run_inv es' s Hi) as (s' & Hr' & _). exists s'. split; [done|].
  destruct (shmboard_stopped_run es' i id w (At l id) s s' Hi Ha Hp) as [H1 H2]; [right; by eexists|by left|done|].
  assert (rank_of (At l id) <= 166 /\ lines_of (At l id) <= 1)%nat as [Hrk Hln]
    by (destruct l; simpl; unfold BUFFER_LENGTH; lia).
  split; [lia|]. intros Hc. apply H2. lia.
Qed.

Definition turns (i k : nat) : list (nat * bool) := replicate k (i, true).

(** A stop takes the key at once: a process that starts afterwards shows its own text in a
    new segment, and has to be stopped separately. *)
Example second_board :
  (fun s => (shown s, procs s)) <$>
    run (turns 0 90 ++ turns 1 5 ++ turns 2 90 ++ turns 0 20) (start [word "a"; word "--stop"; word "b"])
  = Some ([(0%nat, ["a"%char]); (0%nat, ["a"%char]); (0%nat, ["a"%char]); (2%nat, ["b"%char]); (2%nat, ["b"%char]);
           (2%nat, ["b"%char])],
          [Ended EXIT_SUCCESS; Ended EXIT_SUCCESS; At Test 1]).
Proof. vm_compute. reflexivity. Qed.
