(* ===== verification/Argv.v ===== *)
(** The programs from their command line: the tables each gives to [getopt], and its
    [main] on the words behind [argv[0]]. *)

From S2P Require Import Prelude.
From S2P Require Import CLib.
From S2P Require Import Id.
From S2P Require Import Siglogd.
From S2P Require Import Ptgrep.
From S2P Require Import DropPriv.
From S2P Require Import Tasks.
From S2P Require Import Seq.
From S2P Require Import Eject.
From S2P Require Import Log.
From S2P Require Import Getopt.
From Stdlib Require Import Ascii.

Open Scope string_scope.
Open Scope list_scope.
Open Scope Z_scope.

Definition argc (args : list string) : Z := Z.of_nat (length args) + 1.

(* ------------------------------------------------------------------ *)
(** ** [hw05/id.c] *)

Definition id_optstring : string := "gGnruhv".

Definition id_longopts : list long_option :=
  [LongOption "version" "h" false; LongOption "help" "v" false; LongOption "group" "g" false;
   LongOption "groups" "G" false; LongOption "name" "n" false; LongOption "real" "r" false;
   LongOption "user" "u" false].

Section id.
Context (getpwuid : Z -> option Id.passwd) (getpwnam : string -> option Id.passwd).
Context (getgrgid : Z -> option Id.group_entry) (getgrouplist : string -> Z -> list Z).

(** A letter that [getopt_long] returns stands for itself in the [switch]. *)
Definition id_argv (args : list string) (ruid euid rgid egid : Z) (ids : list Z) :
    option (Z * list output) :=
  let '(os, users) := getopt id_optstring (Some id_longopts) None args in
  Id.id_main getpwuid getpwnam getgrgid getgrouplist (map (fun o => Id.Short o.1) os) users
    ruid euid rgid egid ids.
End id.

(* ------------------------------------------------------------------ *)
(** ** [hw06/siglogd.c], [hw08/ptgrep.c], [ex05/drop_priv/drop.c] *)

Definition siglogd_optstring : string := "dvi:".

Definition siglogd_argv (args : list string) (o : Siglogd.log_options) :
    (Z * list output) + Siglogd.log_options :=
  let '(os, _) := getopt siglogd_optstring None None args in
  Siglogd.siglogd_options (map with_arg os) o.

Definition ptgrep_optstring : string := "nhi".

Definition ptgrep_argv (argv0 : string) (tty : bool) (fs : string -> option string)
    (args : list string) : option (Z * list (list output)) :=
  let '(os, operands) := getopt ptgrep_optstring None None args in
  Ptgrep.ptgrep_main argv0 tty fs (map fst os) operands.

Definition drop_optstring : string := "hcw".

Definition drop_argv (argv0 eperm : string) (args : list string) (c : DropPriv.creds) :
    Z * list output * DropPriv.creds :=
  let '(os, operands) := getopt drop_optstring None None args in
  let '(status, p) := DropPriv.main (map fst os) (negb (bool_decide (operands = []))) c in
  (status, map (DropPriv.log_text argv0 eperm) (DropPriv.out p), DropPriv.cr p).

(* ------------------------------------------------------------------ *)
(** ** [ex03/seq/seq.c], [ex03/log/log.c], [ex11/eject/eject.c], [ex05/tasks/tasks.c] *)

Definition seq_optstring : string := "vhws:f:".

Definition seq_longopts : list long_option :=
  [LongOption "version" "v" false; LongOption "help" "h" false; LongOption "equal-width" "w" false;
   LongOption "separator" "s" true; LongOption "format" "f" true].

Definition seq_argv (printf : string -> Z -> string) (fuel : nat) (args : list string) :
    option (Z * list Seq.message * Seq.printed) :=
  let '(os, operands) := getopt seq_optstring (Some seq_longopts) None args in
  Seq.seq_main printf fuel (argc args) (map with_arg os) operands.

(** The text of [seq]; [None] is a loop that has not ended with this fuel, or an overflow. *)
Definition seq_screen (printf : string -> Z -> string) (fuel : nat) (args : list string) : option (Z * list output) :=
  '(status, messages, numbers) ← seq_argv printf fuel args;
  match numbers with
  | Seq.Printed out => Some (status, map Seq.message_text messages ++
      match out with [] => [] | _ => [Stdout (String.concat "" out)] end)
  | Seq.Overflow _ => None
  end.

Definition log_optstring : string := "hvael:i:".

Definition log_longopts : list long_option :=
  [LongOption "version" "v" false; LongOption "help" "h" false; LongOption "stderr" "e" false;
   LongOption "level" "l" true; LongOption "id" "i" true].

Definition log_argv (args : list string) : Z * list Log.log_output * list Log.log_call :=
  let '(os, operands) := getopt log_optstring (Some log_longopts) None args in
  Log.log_main (map with_arg os) operands.

Definition eject_optstring : string := "tTh".

Definition eject_argv (argv0 errno : string) (dev : string -> Eject.device) (args : list string) : Eject.run :=
  let '(os, operands) := getopt eject_optstring None None args in
  Eject.eject_main argv0 errno dev (map fst os) operands.

Definition tasks_optstring : string := "f:n".

Definition tasks_argv (junk : Z) (fopen : list ascii -> option (list (list ascii)))
    (stdin : list (list ascii)) (args : list string) (fork : nat -> Z) (rs : list bool) :
    option (Z * list Z) :=
  let '(os, _) := getopt tasks_optstring None None args in
  Tasks.tasks_main junk fopen stdin
    (map (fun o => (o.1, String.list_ascii_of_string (default "" o.2))) os) fork rs.

(* ------------------------------------------------------------------ *)
(** ** Properties *)

(** How many of [-u], [-g] and [-G] a command line contains. *)
Definition kinds (os : list opt) : nat := (b2n (given "u" os) + b2n (given "g" os) + b2n (given "G" os))%nat.

(** What [id] reads from accepted options. *)
Definition id_options_of (os : list opt) : Id.program_options :=
  Id.Options (given "g" os) (given "G" os) (given "n" os) (given "r" os) (given "u" os).

Lemma id_flag (c : ascii) : c ∈ Id.flags -> Id.getopt_long (Id.Short c) = c.
Proof.
  intros Hc. simpl. rewrite bool_decide_eq_true_2; [done|].
  unfold Id.flags, Id.optstring in *. set_solver.
Qed.

Lemma id_has (c : ascii) (os : list opt) :
  Forall (fun o => o.1 ∈ Id.flags) os -> Id.has c (map (fun o => Id.Short o.1) os) = given c os.
Proof.
  unfold Id.has, given. induction 1 as [|o os Ho _ IH]; [done|]. cbn [map existsb].
  by rewrite id_flag, IH.
Qed.

(** C27: from its words, however they are grouped, abbreviated and ordered, [id] takes
    the set of its flags: two different ones of [-u], [-g] and [-G] are refused, [-n]
    and [-r] are refused without one of them, before anything is looked up; any
    other combination prints the process, or the users that the operands name in
    their order. *)
Theorem id_command_line getpwuid getpwnam getgrgid getgrouplist (items : list item)
    (ruid euid rgid egid : Z) (ids : list Z)
    (Hi : Forall (allowed id_optstring (Some id_longopts)) items)
    (Hf : Forall (fun o => o.1 ∈ Id.flags) (concat (map (opts_of (Some id_longopts)) items))) :
  let os := concat (map (opts_of (Some id_longopts)) items) in
  let users := concat (map operands_of items) in
  id_argv getpwuid getpwnam getgrgid getgrouplist (render items) ruid euid rgid egid ids =
  if (1 <? kinds os)%nat then
    Some (EXIT_FAILURE, [Stderr ("You can't set parameters -u, -g, -G in parallel" +:+ nl)])
  else if (kinds os =? 0)%nat && (given "r" os || given "n" os) then
    Some (EXIT_FAILURE, [Stderr ("Can't use name or real ID in default mode" +:+ nl)])
  else
    match users with
    | [] => s ← Id.get_process_info getpwuid getgrgid ruid euid rgid egid ids (id_options_of os);
            Some (EXIT_SUCCESS, [Stdout s])
    | _ => Id.print_users getpwuid getpwnam getgrgid getgrouplist users (id_options_of os)
    end.
Proof.
  intros os users. unfold id_argv.
  destruct (getopt_render id_optstring (Some id_longopts) items [] Hi) as [-> _]. fold os users.
  unfold Id.id_main.
  assert (Id.parse_options (map (fun o => Id.Short o.1) os) Id.no_options = inr (id_options_of os)) as ->.
  { apply Id.parse_options_spec. split.
    - rewrite Forall_map. eapply Forall_impl; [exact Hf|]. intros o Ho. cbv beta. by rewrite id_flag.
    - unfold Id.or_flags, Id.no_options, id_options_of. simpl. by rewrite !id_has. }
  unfold Id.check_options, Id.selected, id_options_of, kinds. simpl.
  replace (b2n (given "g" os) + b2n (given "G" os) + b2n (given "u" os))%nat
    with (b2n (given "u" os) + b2n (given "g" os) + b2n (given "G" os))%nat by lia.
  destruct (1 <? _)%nat; [done|]. by destruct ((_ =? 0)%nat && _).
Qed.

Lemma id_command_line_witness :
  id_argv (fun _ => None) (fun _ => None) (fun _ => None) (fun _ _ => [])
    ["root"; "-nu"; "--groups"] 0 0 0 0 [] =
  Some (EXIT_FAILURE, [Stderr ("You can't set parameters -u, -g, -G in parallel" +:+ nl)]).
Proof.
  refine (id_command_line (fun _ => None) (fun _ => None) (fun _ => None) (fun _ _ => [])
    [Operand "root"; Flags ["n"; "u"]%char; Long "groups"] 0 0 0 0 [] _ _).
  - constructor; [done|]. constructor; [split; [done|]; by repeat constructor|].
    constructor; [|constructor]. split; [done|]. split; [done|]. by eexists.
  - unfold Id.flags. repeat constructor; set_solver.
Defined.

Lemma concat_cons (s : string) l : String.concat "" (s :: l) = s +:+ String.concat "" l.
Proof. destruct l; simpl; [by rewrite append_nil_r|done]. Qed.

Lemma concat_lines (l : list string) : l <> [] -> String.concat "" (Seq.intersperse nl l ++ [nl]) = unlines l.
Proof.
  intros Hl. induction l as [|x l IH]; [done|]. destruct l as [|y l]; [done|].
  rewrite Seq.intersperse_cons by done. cbn [app].
  rewrite (unlines_cons x), concat_cons, concat_cons, IH; done.
Qed.

Lemma seq_words (words : list string) : Forall (fun w => exists x, 0 <= x /\ w = dec x) words ->
  getopt seq_optstring (Some seq_longopts) None words = ([], words).
Proof.
  intros Hw. assert (words = render (map Operand words)) as Hr.
  { clear. unfold render. induction words as [|w words IH]; [done|]. cbn [map render_item concat app]. by rewrite <- IH. }
  rewrite Hr at 1.
  destruct (getopt_render seq_optstring (Some seq_longopts) (map Operand words) []) as [-> _].
  - apply Forall_map. eapply Forall_impl; [exact Hw|]. intros w (x & Hx & ->). simpl.
    pose proof (dec_no_dash x) as Hd. destruct (dec x) as [|c [|d s]]; [done|by destruct c as [[] [] [] [] [] [] [] []]|].
    specialize (Hd (String d s) Hx). destruct c as [[] [] [] [] [] [] [] []]; (done || by destruct Hd).
  - clear. f_equal; induction words as [|w words IH]; simpl; try done. by f_equal.
Qed.

(** One, two or three numbers: FIRST, INCREMENT and LAST. *)
Definition seq_numbers (xs : list Z) : option (Z * Z * Z) :=
  match xs with
  | [last] => Some (1, 1, last)
  | [start; last] => Some (start, 1, last)
  | [start; incr; last] => Some (start, incr, last)
  | _ => None
  end.

(** The words of these numbers; a negative one must be behind ["--"]. *)
Definition number_words (xs : list Z) (words : list string) : Prop :=
  words = "--" :: map dec xs \/ (words = map dec xs /\ Forall (Z.le 0) xs).

Lemma seq_number_words xs words :
  number_words xs words -> getopt seq_optstring (Some seq_longopts) None words = ([], map dec xs).
Proof.
  intros [->|[-> Hx]].
  - exact (proj2 (getopt_render seq_optstring (Some seq_longopts) [] (map dec xs) ltac:(constructor))).
  - apply seq_words. apply Forall_map. eapply Forall_impl; [exact Hx|]. intros x H. by exists x.
Qed.

Lemma int_arg_dec x : INT_MIN <= x <= INT_MAX -> Seq.int_arg (dec x) = x.
Proof.
  intros Hx. unfold Seq.int_arg, INT_MIN, INT_MAX in *. rewrite strtol_dec by (unfold LONG_MIN, LONG_MAX; lia).
  by apply s32_small.
Qed.

(** The run of [seq] on these words is that of its loop on the numbers. *)
Lemma seq_argv_numbers xs words start incr last :
  number_words xs words -> Forall (fun x => INT_MIN <= x <= INT_MAX) xs -> seq_numbers xs = Some (start, incr, last) ->
  INT_MIN <= start <= INT_MAX /\ INT_MIN <= last <= INT_MAX /\
  forall fuel, seq_argv Seq.printf_d fuel words =
    Seq.seq_main Seq.printf_d fuel (argc words) [] (map dec xs) /\ 2 <= argc words /\
    Seq.seq_bounds (map dec xs) = Some (start, incr, last).
Proof.
  intros Hw Hx Hn. assert (INT_MIN <= 1 <= INT_MAX) by done.
  assert (2 <= argc words) as Ha.
  { unfold argc. destruct xs as [|x xs]; [done|]. destruct Hw as [->|[-> _]]; simpl; lia. }
  assert (Seq.seq_bounds (map dec xs) = Some (start, incr, last) /\
          INT_MIN <= start <= INT_MAX /\ INT_MIN <= last <= INT_MAX) as (Hb & ? & ?).
  { destruct xs as [|x [|y [|z [|]]]]; simpl in Hn; try done; injection Hn as <- <- <-;
      rewrite ?Forall_cons in Hx; simpl; rewrite !int_arg_dec by tauto; tauto. }
  split_and!; [lia..|]. intros fuel. unfold seq_argv. by rewrite (seq_number_words xs).
Qed.

(** The lines of the output. *)
Lemma seq_lines (xs : list Z) :
  xs <> [] ->
  let ls := map dec xs in
  String.concat "" (Seq.intersperse nl ls ++ [nl]) = unlines ls /\ Seq.intersperse nl ls <> [] /\
  getlines (unlines ls) = map (fun x => dec x +:+ nl) xs.
Proof.
  intros Hx ls. assert (ls <> []) as Hls by (by destruct xs). split_and!.
  - by apply concat_lines.
  - unfold ls in *. by destruct (map dec xs) as [|? []].
  - rewrite getlines_unlines; unfold ls; [by rewrite map_map|]. apply Forall_map, Forall_true. apply no_newline_dec.
Qed.

(** C17: a command line of one, two or three [int]s, behind ["--"] if one is negative.
    With FIRST beyond LAST only a newline is printed. Otherwise, with a positive increment,
    each line that [seq] prints is the next number in decimal, from FIRST in steps of
    INCREMENT up to the last one that is not beyond LAST, if the number behind that one is
    still an [int], and else the addition that makes it overflows; with a negative increment
    some addition overflows, and with the increment zero the program does not end. *)
Theorem seq_prints_numbers (xs : list Z) (words : list string) (start incr last : Z)
    (Hw : number_words xs words) (Hx : Forall (fun x => INT_MIN <= x <= INT_MAX) xs)
    (Hn : seq_numbers xs = Some (start, incr, last)) :
  let n := Seq.how_many start incr last in
  (last < start -> forall fuel, seq_screen Seq.printf_d fuel words = Some (EXIT_SUCCESS, [Stdout nl])) /\
  (start <= last -> 0 < incr -> forall fuel, (n <= fuel)%nat ->
     if start + Z.of_nat n * incr <=? INT_MAX then
       exists text, seq_screen Seq.printf_d fuel words = Some (EXIT_SUCCESS, [Stdout text]) /\
         getlines text = map (fun x => dec x +:+ nl) (Seq.numbers start incr n)
     else exists out, seq_argv Seq.printf_d fuel words = Some (EXIT_SUCCESS, [], Seq.Overflow out)) /\
  (start <= last -> incr < 0 -> forall fuel, start - INT_MIN < Z.of_nat fuel ->
     exists out, seq_argv Seq.printf_d fuel words = Some (EXIT_SUCCESS, [], Seq.Overflow out)) /\
  (start <= last -> incr = 0 -> forall fuel, seq_argv Seq.printf_d fuel words = None).
Proof.
  intros n. destruct (seq_argv_numbers xs words start incr last Hw Hx Hn) as (Hs & Hl & Ha).
  destruct (Ha 0%nat) as (_ & Hc & Hb).
  destruct (Seq.seq_result Seq.printf_d (argc words) [] (map dec xs) Seq.default_options start incr last Hc eq_refl Hb)
    as (R1 & R2 & R3 & R4).
  assert (forall fuel, seq_argv Seq.printf_d fuel words =
    Seq.seq_main Seq.printf_d fuel (argc words) [] (map dec xs)) as Hrun by (intros fuel; apply Ha).
  unfold seq_screen. split_and!.
  - intros Hlt fuel. by rewrite Hrun, R1.
  - intros Hle Hi fuel Hf. rewrite !Hrun. rewrite R4 by done. destruct (_ <=? INT_MAX); [|by eexists].
    change (Seq.printf_d _ <$> _) with (map dec (Seq.numbers start incr n)).
    change (Seq.separator Seq.default_options) with nl. fold n.
    destruct (seq_lines (Seq.numbers start incr n)) as (H1 & H2 & H3).
    { unfold n, Seq.how_many. assert (0 <= (last - start) / incr) by (apply Z.div_pos; lia).
      destruct (Z.to_nat ((last - start) / incr + 1)) eqn:E; [lia|]. by rewrite Seq.numbers_S. }
    exists (unlines (map dec (Seq.numbers start incr n))). split; [|exact H3].
    cbn [mbind option_bind]. rewrite <- H1. by destruct (Seq.intersperse nl _).
  - intros Hle Hi fuel Hf. rewrite Hrun. by apply R3.
  - intros Hle Hi fuel. by rewrite Hrun, R2.
Qed.

(** A negative operand of [seq] is taken for an option, unless ["--"] precedes it. *)
Example seq_negative printf :
  seq_argv printf 9 ["-1"; "2"] = Some (EXIT_FAILURE, [Seq.Help], Seq.Printed []) /\
  seq_argv printf 9 ["--"; "-1"; "0"] =
    Some (EXIT_SUCCESS, [], Seq.Printed [printf "%d" (-1); nl; printf "%d" 0; nl]).
Proof. done. Qed.

(** An option of the command that [tasks] runs is taken by [tasks]. *)
Example tasks_takes_options :
  tasks_argv 0 (fun _ => None) [["a"; "010"]]%char ["ls"; "-l"] (fun _ => 7) [] = Some (EXIT_FAILURE, []).
Proof. reflexivity. Qed.

(** [seq 2 3 9], [seq -- -1 1] and [seq 5 3]. *)
Lemma seq_prints_numbers_witness :
  (exists text, seq_screen Seq.printf_d 5 ["2"; "3"; "9"] = Some (EXIT_SUCCESS, [Stdout text]) /\
     getlines text = ["2" +:+ nl; "5" +:+ nl; "8" +:+ nl]) /\
  (exists text, seq_screen Seq.printf_d 5 ["--"; "-1"; "1"] = Some (EXIT_SUCCESS, [Stdout text]) /\
     getlines text = ["-1" +:+ nl; "0" +:+ nl; "1" +:+ nl]) /\
  seq_screen Seq.printf_d 0 ["5"; "3"] = Some (EXIT_SUCCESS, [Stdout nl]).
Proof.
  split_and!.
  - refine (proj1 (proj2 (seq_prints_numbers [2; 3; 9] _ 2 3 9 _ _ eq_refl)) _ _ 5%nat _); [|..|by apply Nat.leb_le].
    + right. split; [reflexivity|repeat constructor; lia].
    + repeat constructor; by compute.
    + lia.
    + lia.
  - refine (proj1 (proj2 (seq_prints_numbers [-1; 1] _ (-1) 1 1 _ _ eq_refl)) _ _ 5%nat _); [|..|by apply Nat.leb_le].
    + by left.
    + repeat constructor; by compute.
    + lia.
    + lia.
  - refine (proj1 (seq_prints_numbers [5; 3] _ 5 1 3 _ _ eq_refl) _ 0%nat); [| |lia].
    + right. split; [reflexivity|repeat constructor; lia].
    + repeat constructor; by compute.
Defined.

(** The texts given with an option, in their order. *)
Definition args_of (c : ascii) (os : list opt) : list string := omap (fun o => if decide (o.1 = c) then o.2 else None) os.

(** What [log] accepts: [-e], [-i] and [-l] with a known level. *)
Definition log_accepts (o : opt) : Prop :=
  o.1 = "e"%char \/ (o.1 = "i"%char /\ is_Some o.2) \/
  (o.1 = "l"%char /\ exists l, o.2 = Some l /\ Log.get_log_level l <> -1).

Lemma log_options_last os : Forall log_accepts os -> forall o,
  Log.parse_log_options (map with_arg os) o = inr (Log.LogOptions
    (default (Log.level o) (Log.get_log_level <$> last (args_of "l" os)))
    (match last (args_of "i" os) with Some i => Some i | None => Log.ident o end)
    (if given "e" os then Log.LOG_PERROR else Log.open_log_opt o)).
Proof.
  induction 1 as [|[c a] os Ho _ IH]; intros o; [by destruct o|]. cbn [map with_arg Log.parse_log_options].
  unfold given, args_of in *. cbn [existsb omap list_omap fst snd].
  destruct Ho as [Hc | [[Hc [i Hi]] | (Hc & l & Hl & Hv)]]; simpl in *; subst;
    repeat (case_bool_decide || case_decide; try done); simpl.
  - rewrite IH. simpl. by destruct (existsb _ _).
  - rewrite IH. simpl. rewrite last_cons. by repeat destruct (last (omap _ os)).
  - simpl. rewrite (proj2 (Z.eqb_neq _ _) Hv), IH. simpl. rewrite last_cons. by repeat destruct (last (omap _ os)).
Qed.

(** However its words are written, [log] opens the log with the last name given and sends its
    first operand with the last level given; [-e] replaces the option for the console. *)
Theorem log_command_line (items : list item)
    (Hi : Forall (allowed log_optstring (Some log_longopts)) items)
    (Ha : Forall log_accepts (concat (map (opts_of (Some log_longopts)) items))) :
  let os := concat (map (opts_of (Some log_longopts)) items) in
  log_argv (render items) =
  (EXIT_SUCCESS, [],
   [Log.Openlog (last (args_of "i" os)) (if given "e" os then Log.LOG_PERROR else Log.LOG_CONS) Log.LOG_USER;
    Log.Syslog (default Log.LOG_INFO (Log.get_log_level <$> last (args_of "l" os))) (head (concat (map operands_of items)));
    Log.Closelog]).
Proof.
  intros os. unfold log_argv. destruct (getopt_render log_optstring (Some log_longopts) items [] Hi) as [-> _].
  fold os. unfold Log.log_main. rewrite log_options_last by exact Ha. simpl. by destruct (last (args_of "i" os)).
Qed.

Lemma log_command_line_witness :
  log_argv ["-lLOG_ERR"; "disk full"; "--id=df"; "-e"] =
  (EXIT_SUCCESS, [], [Log.Openlog (Some "df") Log.LOG_PERROR Log.LOG_USER; Log.Syslog Log.LOG_ERR (Some "disk full"); Log.Closelog]).
Proof.
  refine (log_command_line [Attached "l" "LOG_ERR"; Operand "disk full"; LongEquals "id" "df"; Flags ["e"%char]] _ _).
  - repeat constructor; try done. by eexists.
  - change (Forall log_accepts [("l"%char, Some "LOG_ERR"); ("i"%char, Some "df"); ("e"%char, None)]).
    rewrite !Forall_cons. split_and!; [right; right; split; [done|]; by eexists|by right; left; split; [|eexists]|by left|done].
Defined.

(** The text of [log], with what it sends. *)
Definition log_screen (argv0 : string) (args : list string) : Z * list output * list Log.log_call :=
  let '(status, out, calls) := log_argv args in (status, map (Log.log_output_text argv0) out, calls).

(** [--help] is not an error, an unknown option shows the same text; the level must be the
    name of the macro. *)
Example log_texts :
  log_screen "./log" ["--help"] = (EXIT_SUCCESS, [Stdout (Log.help "./log")], []) /\
  log_screen "./log" ["-x"] = (EXIT_FAILURE, [Stdout (Log.help "./log")], []) /\
  log_screen "./log" ["-l"; "error"; "text"] = (EXIT_FAILURE, [Stderr "Wrong level argument"], []).
Proof. split_and!; reflexivity. Qed.
